(** * Cap table tool: the evolution and returns engine, embedded in Rocq

    The engine of the cap table tool ([js/config.js], [js/errors.js],
    [js/utils.js], [js/models.js], [js/calculations.js]) is translated
    function by function.

    - A JavaScript number is an IEEE 754 binary64 value: Rocq's primitive
      [float], whose operations are specified by [SpecFloat].  Nothing is
      idealised: [+], [-], [*], [/] round as the processor does, and
      [NaN], the infinities and the signed zeros behave as in JavaScript.
    - A [throw] is the [Throw] case of [result]; [try]/[catch] is [try_catch].
    - The numeric fields of a company and of a round hold numbers and the text
      fields hold strings, as the form collector of [js/app.js] builds them
      ([DOMUtils.getNumericValue], [DOMUtils.getIntegerValue]).  The [type] of
      a round may also be [undefined], which is what the constructor of
      [FundingRound] leaves when no type is given.
    - The clock ([DateUtils.getCurrentYear]) and [Math.pow], whose result
      ECMAScript leaves to the implementation, are parameters of the model.
    - Where a proof needs the size of a number ([Binary64], for the
      monotonicity of the total number of shares), the number is read as the
      real number it stands for and an operation as the rounding of the exact
      result, which is proved from [SpecFloat] and not assumed.
    - An error carries its class and the arguments of its constructor.  The
      [name] and [code] fields are fixed by the class and [timestamp] reads
      the clock; they are left out.  A message built by a template literal
      is kept as the list of its fragments. *)

From Stdlib Require Import ZArith List String Bool Lia.
From Stdlib Require Import Reals Lra.
From Stdlib Require Import Floats.
From Stdlib Require Import Permutation Sorted.
From Stdlib Require Uint63.
Import ListNotations.

Set Warnings "-inexact-float,-register-all".
Set Implicit Arguments.

Open Scope string_scope.
Open Scope list_scope.
Open Scope float_scope.

(** ** JavaScript numbers *)

Module JS.

(** The number of an integer [0 <= n < 2^63]; exact below [2^53]. *)
Definition float_of_Z (n : Z) : float := of_uint63 (Uint63.of_Z n).

(** [Math.floor]: the largest integer not above [x]; zeros, infinities
    and [NaN] are returned as they are.  A finite number is
    [(-1)^s * m * 2^e]; with [0 <= e] it is already an integer. *)
Definition Math_floor (x : float) : float :=
  match Prim2SF x with
  | S754_finite s m e =>
      if (0 <=? e)%Z then x
      else
        let d := (2 ^ (- e))%Z in
        let q := (Z.pos m / d)%Z in
        if s then - float_of_Z (if (Z.pos m mod d =? 0)%Z then q else q + 1)
        else float_of_Z q
  | _ => x
  end.

(** [Math.abs]. *)
Definition Math_abs (x : float) : float := abs x.

(** [Math.max(a, b)]: [NaN] when an argument is [NaN]; [+0] is larger
    than [-0]. *)
Definition Math_max (a b : float) : float :=
  if is_nan a || is_nan b then nan
  else if a <? b then b
  else if b <? a then a
  else if get_sign a then b else a.

(** [Number.isInteger]. *)
Definition Number_isInteger (x : float) : bool :=
  is_finite x && (Math_floor x =? x).

(** [isNaN] on a number. *)
Definition isNaN (x : float) : bool := is_nan x.

(** Truthiness of a number: [0], [-0] and [NaN] are falsy. *)
Definition truthy (x : float) : bool := negb ((x =? 0) || is_nan x).

(** [x || d] on numbers. *)
Definition or_default (x d : float) : float := if truthy x then x else d.

(** [s || d] on strings: the empty string is falsy. *)
Definition or_string (s d : string) : string :=
  match s with EmptyString => d | _ => s end.

(** [parseFloat(x.toFixed(decimals))].  [toFixed] takes the integer [n]
    nearest to [|x| * 10^decimals] (the larger one on a tie) and prints
    [n / 10^decimals] with the sign of [x]; [parseFloat] reads the
    decimal back as the nearest number, which is what dividing [n] by
    [10^decimals] with correct rounding gives.  An integer (and any
    number from [10^21] on, printed by [Number::toString]) is read back
    as itself; [toFixed] prints both zeros without a sign. *)
Definition parseFloat_toFixed (decimals : nat) (x : float) : float :=
  match Prim2SF x with
  | S754_finite s m e =>
      if (0 <=? e)%Z then x
      else
        let p := (10 ^ Z.of_nat decimals)%Z in
        let d := (2 ^ (- e))%Z in
        match ((2 * p * Z.pos m + d) / (2 * d))%Z with
        | Z.pos n =>
            SF2Prim (SF64div (S754_finite s n 0) (S754_finite false (Z.to_pos p) 0))
        | _ => if s then neg_zero else zero
        end
  | S754_zero _ => zero
  | _ => x
  end.

End JS.

(** ** Results and errors ([js/errors.js]) *)

(** A fragment of a template literal. *)
Inductive fragment : Type :=
| Text (s : string)            (** literal text or an interpolated string *)
| Num (x : float)              (** an interpolated number, printed by [Number::toString] *)
| Fixed (digits : nat) (x : float)   (** [x.toFixed(digits)] *)
| Count (n : nat)              (** an interpolated array length or index *)
| Undefined.                   (** an interpolated [undefined] *)

Definition message := list fragment.

(** The [value] slot of a [ValidationError]: [null], the offending value,
    or the array of the errors it aggregates. *)
Inductive value (E : Type) : Type :=
| Null
| Number (x : float)
| String (s : option string)
| Errors (errors : list E).
Arguments Null {E}.
Arguments Number {E} x.
Arguments String {E} s.

(** ** The data model ([js/models.js]) *)

(** The fields of a [FundingRound].  [id] and the four calculated fields
    are [null] ([None]) until set; [type] is [undefined] ([None]) when the
    constructor had none to take. *)
Module FundingRound.
Record t : Type := mk {
  id : option float;
  type : option string;
  year : float;
  preMoneyValuation : float;
  investment : float;
  revenue : float;
  liquidationPref : string;
  antiDilution : string;
  discountRate : float;
  postMoneyValuation : option float;
  equityPercentage : option float;
  sharesIssued : option float;
  ownershipPercent : option float
}.
End FundingRound.

(** The fields of a [Company]; [R] is what the [rounds] array holds:
    rounds themselves in a snapshot, references to them in the store. *)
Module Company.
Record t (R : Type) : Type := mk {
  companyName : string;
  currency : string;
  founderShares : float;
  optionPoolPercent : float;
  optionPoolTopUp : bool;
  useRevenueMultiples : bool;
  exitYear : float;
  exitValuation : float;
  exitMultiple : float;
  rounds : list R
}.
End Company.

(** A company with its rounds, as the engine reads it. *)
Definition company := Company.t FundingRound.t.

(** An entry of the liquidation stack, built by [_processRound]. *)
Module StackEntry.
Record t : Type := mk {
  round : option string;
  investment : float;
  preference : string;
  shares : float;
  year : float;
  ownershipPercent : float
}.
End StackEntry.

(** The fields of a [CapTableStage]. *)
Module CapTableStage.
Record t : Type := mk {
  stage : string;
  year : float;
  totalShares : float;
  founderShares : float;
  optionPoolShares : float;
  investorShares : float;
  newInvestorShares : float;
  round : option FundingRound.t;
  liquidationStack : list StackEntry.t;
  founderOwnership : float;
  optionPoolOwnership : float;
  investorOwnership : float;
  newInvestorOwnership : float;
  preMoneyValuation : float;
  postMoneyValuation : float;
  investment : float;
  revenue : float;
  revenueMultiple : float
}.
End CapTableStage.

(** What a failing calculation attaches to its [CalculationError]. *)
Inductive context : Type :=
| CompanyContext (c : company)
| RoundContext (r : FundingRound.t)
| OwnershipContext (stage : string) (total founders esop investors : float)
| ReturnsContext (capTableLength : option nat) (c : company)
| SensitivityContext (roundIndex : nat) (c : company).

(** The error classes.  [TypeError] is the engine's own error on reading
    a property of [undefined]. *)
Inductive error : Type :=
| ValidationError (field : message) (msg : message) (v : value error)
| CalculationError (operation : string) (msg : message) (data : context)
| DataError (dataType : string) (msg : message)
| TypeError (msg : message).

(** [error.message]. *)
Definition error_message (e : error) : message :=
  match e with
  | ValidationError _ m _ | CalculationError _ m _ | DataError _ m | TypeError m => m
  end.

(** A call returns or throws. *)
Inductive result (A : Type) : Type :=
| Ok (a : A)
| Throw (e : error).
Arguments Throw {A} e.

Definition bind {A B : Type} (r : result A) (k : A -> result B) : result B :=
  match r with
  | Ok a => k a
  | Throw e => Throw e
  end.

(** [try { r } catch (error) { handler error }]. *)
Definition try_catch {A : Type} (r : result A) (handler : error -> result A) : result A :=
  match r with
  | Ok a => Ok a
  | Throw e => handler e
  end.

Notation "x <- r ;; k" := (bind r (fun x => k))
  (at level 61, r at next level, right associativity).
Notation "r ;;; k" := (bind r (fun _ => k))
  (at level 61, right associativity).

(** ** Configuration ([js/config.js]) *)

Module CONFIG.
Module DEFAULTS.
Definition FOUNDER_SHARES : float := 10000000.
Definition OPTION_POOL_PERCENT : float := 20.
Definition EXIT_YEARS_AHEAD : float := 6.
Definition EXIT_VALUATION : float := 100000000.
Definition EXIT_MULTIPLE : float := 5.
Definition CURRENCY : string := "GBP".
Module ROUND.
(** [CONFIG.DEFAULTS.ROUND] has no [TYPE]: reading it gives [undefined]. *)
Definition TYPE : option string := None.
Definition PRE_MONEY_VALUATION : float := 5000000.
Definition INVESTMENT : float := 1000000.
Definition REVENUE : float := 0.
Definition LIQUIDATION_PREF : string := "1x".
Definition ANTI_DILUTION : string := "none".
Definition DISCOUNT_RATE : float := 0.
End ROUND.
End DEFAULTS.

Module VALIDATION.
Definition MIN_YEAR : float := 2020.
Definition MAX_YEAR : float := 2050.
Definition MIN_FOUNDER_SHARES : float := 1.
Definition MAX_FOUNDER_SHARES : float := 1000000000.
Definition MIN_VALUATION : float := 1.
Definition MAX_VALUATION : float := 1000000000000.
Definition MIN_INVESTMENT : float := 1.
Definition MAX_INVESTMENT : float := 1000000000000.
End VALIDATION.

(** The keys of [CONFIG.CURRENCIES]. *)
Definition CURRENCIES : list string := ["GBP"; "USD"; "EUR"].

(** The property names every object inherits from [Object.prototype]:
    [CONFIG.CURRENCIES[value]] finds a truthy value under them too. *)
Definition inherited : list string :=
  ["constructor"; "__defineGetter__"; "__defineSetter__"; "hasOwnProperty";
   "__lookupGetter__"; "__lookupSetter__"; "isPrototypeOf";
   "propertyIsEnumerable"; "toString"; "valueOf"; "__proto__";
   "toLocaleString"].

Definition ROUND_TYPES : list string :=
  ["Bootstrap"; "Pre-Seed"; "Seed"; "Series A"; "Series B"; "Series C";
   "Series D"; "Growth"; "SAFE"; "Convertible"].

Module SENSITIVITY.
Record scenario : Type := { label : string; multiplier : float; class : string }.
Definition SCENARIOS : list scenario :=
  [ {| label := "-20%"; multiplier := 0.8; class := "text-danger" |};
    {| label := "-10%"; multiplier := 0.9; class := "text-warning" |};
    {| label := "Base"; multiplier := 1.0; class := "fw-bold" |};
    {| label := "+10%"; multiplier := 1.1; class := "text-success" |};
    {| label := "+20%"; multiplier := 1.2; class := "text-success" |} ].
End SENSITIVITY.
End CONFIG.

(** ** Input validation ([Validator], [js/errors.js]) *)

Module Validator.

(** [validateRequired] on a string. *)
Definition validateRequired (v : string) (fieldName : string) : result unit :=
  match v with
  | EmptyString =>
      Throw (ValidationError [Text fieldName] [Text fieldName; Text " is required"] Null)
  | _ => Ok tt
  end.

(** [validateRequired] on a string that may be [undefined]. *)
Definition validateRequired_opt (v : option string) (fieldName : string) : result unit :=
  match v with
  | Some s => validateRequired s fieldName
  | None =>
      Throw (ValidationError [Text fieldName] [Text fieldName; Text " is required"] Null)
  end.

(** [validateNumber] on a number: [validateRequired] passes (a number
    is not [null], [undefined] or ['']) and [num] is the value itself.
    [min] and [max] default to [null]. *)
Definition validateNumber (v : float) (fieldName : string)
    (min max : option float) : result float :=
  let num := v in
  if JS.isNaN num then
    Throw (ValidationError [Text fieldName]
             [Text fieldName; Text " must be a valid number"] (Number v))
  else if match min with Some m => num <? m | None => false end then
    Throw (ValidationError [Text fieldName]
             [Text fieldName; Text " must be at least ";
              match min with Some m => Num m | None => Text "null" end] (Number v))
  else if match max with Some m => m <? num | None => false end then
    Throw (ValidationError [Text fieldName]
             [Text fieldName; Text " must be no more than ";
              match max with Some m => Num m | None => Text "null" end] (Number v))
  else Ok num.

Definition validateInteger (v : float) (fieldName : string)
    (min max : option float) : result float :=
  num <- validateNumber v fieldName min max ;;
  if negb (JS.Number_isInteger num) then
    Throw (ValidationError [Text fieldName]
             [Text fieldName; Text " must be a whole number"] (Number v))
  else Ok num.

Definition validateYear (v : float) (fieldName : string) : result float :=
  validateInteger v fieldName
    (Some CONFIG.VALIDATION.MIN_YEAR) (Some CONFIG.VALIDATION.MAX_YEAR).

Definition validatePercentage (v : float) (fieldName : string) : result float :=
  validateNumber v fieldName (Some 0) (Some 100).

(** [CONFIG.CURRENCIES[value]] is truthy. *)
Definition known_currency (v : string) : bool :=
  existsb (String.eqb v) (CONFIG.CURRENCIES ++ CONFIG.inherited).

Definition validateCurrency (v : string) (fieldName : string) : result string :=
  validateRequired v fieldName ;;;
  if negb (known_currency v) then
    Throw (ValidationError [Text fieldName]
             [Text "Invalid currency: "; Text v] (String (Some v)))
  else Ok v.

Definition validateRoundType (v : option string) (fieldName : string)
    : result (option string) :=
  validateRequired_opt v fieldName ;;;
  if negb (match v with
           | Some s => existsb (String.eqb s) CONFIG.ROUND_TYPES
           | None => false
           end) then
    Throw (ValidationError [Text fieldName]
             [Text "Invalid round type: ";
              match v with Some s => Text s | None => Undefined end] (String v))
  else Ok v.

(** [try { check } catch (e) { errors.push(e); }]. *)
Definition collect {A : Type} (errors : list error) (check : result A) : list error :=
  match check with
  | Ok _ => errors
  | Throw e => errors ++ [e]
  end.

(** The errors [validateCompanyData] has pushed when it reaches its
    last test. *)
Definition companyErrors {R : Type} (data : Company.t R) : list error :=
  let errors := [] in
  let errors := collect errors
    (validateRequired data.(Company.companyName) "Company Name") in
  let errors := collect errors
    (validateInteger data.(Company.founderShares) "Founder Shares"
       (Some CONFIG.VALIDATION.MIN_FOUNDER_SHARES)
       (Some CONFIG.VALIDATION.MAX_FOUNDER_SHARES)) in
  let errors := collect errors
    (validatePercentage data.(Company.optionPoolPercent) "Option Pool Percentage") in
  let errors := collect errors
    (validateCurrency data.(Company.currency) "Currency") in
  let errors := collect errors
    (validateYear data.(Company.exitYear) "Exit Year") in
  let errors := collect errors
    (validateNumber data.(Company.exitValuation) "Exit Valuation"
       (Some CONFIG.VALIDATION.MIN_VALUATION)
       (Some CONFIG.VALIDATION.MAX_VALUATION)) in
  errors.

Definition validateCompanyData {R : Type} (data : Company.t R) : result bool :=
  let errors := companyErrors data in
  if (0 <? List.length errors)%nat then
    Throw (ValidationError [Text "Company Data"]
             [Count (List.length errors); Text " validation error(s)"] (Errors errors))
  else Ok true.

(** The errors [validateFundingRound] has pushed when it reaches its
    last test. *)
Definition roundErrors (round : FundingRound.t) : list error :=
  let errors := [] in
  let errors := collect errors
    (validateRoundType round.(FundingRound.type) "Round Type") in
  let errors := collect errors
    (validateYear round.(FundingRound.year) "Round Year") in
  let errors := collect errors
    (validateNumber round.(FundingRound.preMoneyValuation) "Pre-Money Valuation"
       (Some CONFIG.VALIDATION.MIN_VALUATION)
       (Some CONFIG.VALIDATION.MAX_VALUATION)) in
  let errors := collect errors
    (validateNumber round.(FundingRound.investment) "Investment Amount"
       (Some CONFIG.VALIDATION.MIN_INVESTMENT)
       (Some CONFIG.VALIDATION.MAX_INVESTMENT)) in
  let errors := collect errors
    (validateNumber round.(FundingRound.revenue) "Revenue" (Some 0) None) in
  errors.

Definition validateFundingRound (round : FundingRound.t) : result bool :=
  let errors := roundErrors round in
  if (0 <? List.length errors)%nat then
    Throw (ValidationError [Text "Funding Round"]
             [Count (List.length errors); Text " validation error(s) in ";
              match round.(FundingRound.type) with
              | Some s => Text s
              | None => Undefined
              end] (Errors errors))
  else Ok true.

End Validator.

(** ** Utilities ([js/utils.js]) *)

Module NumberUtils.

(** [calculatePercentage(part, whole, decimals = 1)]. *)
Definition calculatePercentage (part whole : float) (decimals : nat) : float :=
  if whole =? 0 then 0
  else JS.parseFloat_toFixed decimals ((part / whole) * 100).

Section IRR.
(** [Math.pow]. *)
Variable Math_pow : float -> float -> float.

(** [calculateIRR(investment, returnAmount, years)]. *)
Definition calculateIRR (investment returnAmount years : float) : float :=
  if (years <=? 0) || (investment <=? 0) then 0
  else
    let multiple := returnAmount / investment in
    if multiple <=? 0 then -100
    else (Math_pow multiple (1 / years) - 1) * 100.
End IRR.

End NumberUtils.

Module DateUtils.
(** [yearsBetween(startYear, endYear)]. *)
Definition yearsBetween (startYear endYear : float) : float :=
  JS.Math_max 0 (endYear - startYear).
End DateUtils.

Module DataUtils.

(** [getNestedProperty(a, 'year')]: [a.year || null]. *)
Definition getNestedProperty_year (a : FundingRound.t) : option float :=
  if JS.truthy a.(FundingRound.year) then Some a.(FundingRound.year) else None.

(** [aVal < bVal] where a side may be [null], which compares as [+0]. *)
Definition less (aVal bVal : option float) : bool :=
  match aVal with Some x => x | None => 0 end
  <? match bVal with Some y => y | None => 0 end.

(** The comparator of [sortBy(array, 'year', ascending)]. *)
Definition compareFn (ascending : bool) (a b : FundingRound.t) : Z :=
  let aVal := getNestedProperty_year a in
  let bVal := getNestedProperty_year b in
  if less aVal bVal then (if ascending then -1 else 1)%Z
  else if less bVal aVal then (if ascending then 1 else -1)%Z
  else 0%Z.

(** [x], which stood before every element of [sorted] in the array, goes
    before the first element it need not follow: the first [y] with
    [compareFn x y <= 0].  So it stays before the elements it compares
    equal to. *)
Fixpoint insert (ascending : bool) (x : FundingRound.t) (sorted : list FundingRound.t)
    : list FundingRound.t :=
  match sorted with
  | [] => [x]
  | y :: rest =>
      if (compareFn ascending x y <=? 0)%Z then x :: y :: rest
      else y :: insert ascending x rest
  end.

(** [sortBy(array, 'year', ascending)].  [Array.prototype.sort] is
    stable, and the keys ([null] or a number that is not [NaN]) are
    totally ordered: the result is the stable sort, which inserting the
    elements from the last to the first gives; elements of equal key
    keep the order they had in the array. *)
Definition sortBy (array : list FundingRound.t) (ascending : bool) : list FundingRound.t :=
  fold_right (insert ascending) [] array.

End DataUtils.

(** ** The methods of the models ([js/models.js]) *)

Module FundingRoundM.
Import FundingRound.

Section Clock.
(** [DateUtils.getCurrentYear()]. *)
Variable currentYear : float.

(** [new FundingRound(data)] on a plain object with every field. *)
Definition new (data : t) : t :=
  {| id := match data.(id) with
           | Some n => if JS.truthy n then Some n else None
           | None => None
           end;
     type := match data.(type) with
             | Some EmptyString | None => CONFIG.DEFAULTS.ROUND.TYPE
             | Some s => Some s
             end;
     year := JS.or_default data.(year) currentYear;
     preMoneyValuation :=
       JS.or_default data.(preMoneyValuation) CONFIG.DEFAULTS.ROUND.PRE_MONEY_VALUATION;
     investment := JS.or_default data.(investment) CONFIG.DEFAULTS.ROUND.INVESTMENT;
     revenue := JS.or_default data.(revenue) CONFIG.DEFAULTS.ROUND.REVENUE;
     liquidationPref :=
       JS.or_string data.(liquidationPref) CONFIG.DEFAULTS.ROUND.LIQUIDATION_PREF;
     antiDilution := JS.or_string data.(antiDilution) CONFIG.DEFAULTS.ROUND.ANTI_DILUTION;
     discountRate := JS.or_default data.(discountRate) CONFIG.DEFAULTS.ROUND.DISCOUNT_RATE;
     postMoneyValuation := None;
     equityPercentage := None;
     sharesIssued := None;
     ownershipPercent := None |}.
End Clock.

(** [getRevenueMultiple()]: [null] without revenue. *)
Definition getRevenueMultiple (this : t) : option float :=
  if this.(revenue) <=? 0 then None
  else Some (this.(preMoneyValuation) / this.(revenue)).

Definition validate (this : t) : result bool :=
  Validator.validateFundingRound this.

(** [toObject()]: the plain object with the same thirteen fields. *)
Definition toObject (this : t) : t := this.

End FundingRoundM.

Module CompanyM.
Import Company.

(** [getRoundsByYear()]. *)
Definition getRoundsByYear (this : company) : list FundingRound.t :=
  DataUtils.sortBy this.(rounds) true.

(** [getInitialOptionPoolShares()]. *)
Definition getInitialOptionPoolShares {R : Type} (this : t R) : float :=
  JS.Math_floor (this.(founderShares) * this.(optionPoolPercent)
                 / (100 - this.(optionPoolPercent))).

(** The body of [this.rounds.forEach((round, index) => ...)] in
    [validate]: the first round that fails ends the loop. *)
Fixpoint validateRounds (rounds : list FundingRound.t) (index : nat) : result unit :=
  match rounds with
  | [] => Ok tt
  | round :: rest =>
      try_catch (FundingRoundM.validate round)
        (fun error =>
           Throw (ValidationError [Text "Round "; Count (index + 1)]
                    (error_message error) Null)) ;;;
      validateRounds rest (index + 1)
  end.

(** [validate()]. *)
Definition validate (this : company) : result bool :=
  Validator.validateCompanyData this ;;;
  validateRounds this.(rounds) 0 ;;;
  Ok true.

(** [toObject()] of a company read with its rounds. *)
Definition toObject (this : company) : company :=
  {| companyName := this.(companyName);
     currency := this.(currency);
     founderShares := this.(founderShares);
     optionPoolPercent := this.(optionPoolPercent);
     optionPoolTopUp := this.(optionPoolTopUp);
     useRevenueMultiples := this.(useRevenueMultiples);
     exitYear := this.(exitYear);
     exitValuation := this.(exitValuation);
     exitMultiple := this.(exitMultiple);
     rounds := map FundingRoundM.toObject this.(rounds) |}.

End CompanyM.

Module CapTableStageM.
Import CapTableStage.

(** The object literal given to [new CapTableStage(data)]: an absent
    property is [None]. *)
Record data : Type := {
  d_stage : option string;
  d_year : option float;
  d_totalShares : option float;
  d_founderShares : option float;
  d_optionPoolShares : option float;
  d_investorShares : option float;
  d_newInvestorShares : option float;
  d_round : option FundingRound.t;
  d_liquidationStack : option (list StackEntry.t);
  d_founderOwnership : option float;
  d_optionPoolOwnership : option float;
  d_investorOwnership : option float;
  d_newInvestorOwnership : option float;
  d_preMoneyValuation : option float;
  d_postMoneyValuation : option float;
  d_investment : option float;
  d_revenue : option float;
  d_revenueMultiple : option float
}.

(** [x || d] where [x] may be absent. *)
Definition or_number (x : option float) (d : float) : float :=
  match x with
  | Some n => JS.or_default n d
  | None => d
  end.

Section Clock.
Variable currentYear : float.

(** [new CapTableStage(data)]. *)
Definition new (data : data) : t :=
  {| stage := match data.(d_stage) with
              | Some s => JS.or_string s "Incorporation"
              | None => "Incorporation"
              end;
     year := or_number data.(d_year) currentYear;
     totalShares := or_number data.(d_totalShares) 0;
     founderShares := or_number data.(d_founderShares) 0;
     optionPoolShares := or_number data.(d_optionPoolShares) 0;
     investorShares := or_number data.(d_investorShares) 0;
     newInvestorShares := or_number data.(d_newInvestorShares) 0;
     round := data.(d_round);
     liquidationStack := match data.(d_liquidationStack) with
                         | Some l => l
                         | None => []
                         end;
     founderOwnership := or_number data.(d_founderOwnership) 0;
     optionPoolOwnership := or_number data.(d_optionPoolOwnership) 0;
     investorOwnership := or_number data.(d_investorOwnership) 0;
     newInvestorOwnership := or_number data.(d_newInvestorOwnership) 0;
     preMoneyValuation := or_number data.(d_preMoneyValuation) 0;
     postMoneyValuation := or_number data.(d_postMoneyValuation) 0;
     investment := or_number data.(d_investment) 0;
     revenue := or_number data.(d_revenue) 0;
     revenueMultiple := or_number data.(d_revenueMultiple) 0 |}.
End Clock.

(** [calculateOwnership()]: the stage after the call. *)
Definition calculateOwnership (this : t) : t :=
  if this.(totalShares) =? 0 then this
  else
    {| stage := this.(stage);
       year := this.(year);
       totalShares := this.(totalShares);
       founderShares := this.(founderShares);
       optionPoolShares := this.(optionPoolShares);
       investorShares := this.(investorShares);
       newInvestorShares := this.(newInvestorShares);
       round := this.(round);
       liquidationStack := this.(liquidationStack);
       founderOwnership :=
         NumberUtils.calculatePercentage this.(founderShares) this.(totalShares) 1;
       optionPoolOwnership :=
         NumberUtils.calculatePercentage this.(optionPoolShares) this.(totalShares) 1;
       investorOwnership :=
         NumberUtils.calculatePercentage this.(investorShares) this.(totalShares) 1;
       newInvestorOwnership :=
         NumberUtils.calculatePercentage this.(newInvestorShares) this.(totalShares) 1;
       preMoneyValuation := this.(preMoneyValuation);
       postMoneyValuation := this.(postMoneyValuation);
       investment := this.(investment);
       revenue := this.(revenue);
       revenueMultiple := this.(revenueMultiple) |}.

(** The [total] of [validateOwnership()]. *)
Definition ownershipTotal (this : t) : float :=
  this.(founderOwnership) + this.(optionPoolOwnership) + this.(investorOwnership).

(** [validateOwnership()]. *)
Definition validateOwnership (this : t) : result bool :=
  let total := ownershipTotal this in
  let tolerance := 0.1 in
  if tolerance <? JS.Math_abs (total - 100) then
    Throw (CalculationError "ownership_validation"
             [Text "Ownership percentages total "; Fixed 2 total; Text "%, expected 100%"]
             (OwnershipContext this.(stage) total this.(founderOwnership)
                this.(optionPoolOwnership) this.(investorOwnership)))
  else Ok true.

End CapTableStageM.

(** A per-round record of [ReturnsAnalysis.roundReturns]. *)
Module RoundReturn.
Record t : Type := mk {
  round : option string;
  year : float;
  investment : float;
  yearsHeld : float;
  exitValue : float;
  multipleOfMoney : float;
  irr : float;
  revenue : float;
  revenueMultiple : float;
  ownershipPercent : float
}.
End RoundReturn.

Module ReturnsAnalysis.
Record finalOwnership_t : Type := {
  founders : float;
  esop : float;
  investors : float
}.

Record t : Type := mk {
  exitValuation : float;
  exitYear : float;
  founderReturn : float;
  esopReturn : float;
  totalInvestorReturn : float;
  roundReturns : list RoundReturn.t;
  liquidationWaterfall : list unit;
  finalOwnership : finalOwnership_t
}.

Section Clock.
Variable currentYear : float.

(** [new ReturnsAnalysis(data)] on an object literal with every
    property (arrays and objects are truthy). *)
Definition new (data : t) : t :=
  {| exitValuation := JS.or_default data.(exitValuation) 0;
     exitYear := JS.or_default data.(exitYear) currentYear;
     founderReturn := JS.or_default data.(founderReturn) 0;
     esopReturn := JS.or_default data.(esopReturn) 0;
     totalInvestorReturn := JS.or_default data.(totalInvestorReturn) 0;
     roundReturns := data.(roundReturns);
     liquidationWaterfall := data.(liquidationWaterfall);
     finalOwnership := data.(finalOwnership) |}.
End Clock.
End ReturnsAnalysis.

(** ** Objects in the store

    [calculateSensitivityScenarios] assigns to a field of a round, so
    there the companies and their rounds are objects in a store: a
    company holds references to its rounds, and two companies share a
    round exactly when they hold the same reference. *)

Module Store.

Definition loc := nat.

Inductive object : Type :=
| RoundObject (r : FundingRound.t)
| CompanyObject (c : Company.t loc).

Definition t := list object.

Definition read (h : t) (l : loc) : option object := nth_error h l.

(** A new object takes the next free reference. *)
Definition alloc (h : t) (o : object) : t * loc := (h ++ [o], List.length h).

(** Assignment to the object at [l]. *)
Fixpoint write (h : t) (l : loc) (o : object) : t :=
  match h, l with
  | [], _ => []
  | _ :: rest, O => o :: rest
  | x :: rest, S l' => x :: write rest l' o
  end.

(** A computation on the store that returns or throws. *)
Definition M (A : Type) : Type := t -> t * result A.

Definition ret {A : Type} (a : A) : M A := fun h => (h, Ok a).

Definition throw {A : Type} (e : error) : M A := fun h => (h, Throw e).

Definition lift {A : Type} (r : result A) : M A := fun h => (h, r).

Definition bind {A B : Type} (m : M A) (k : A -> M B) : M B :=
  fun h =>
    match m h with
    | (h', Ok a) => k a h'
    | (h', Throw e) => (h', Throw e)
    end.

(** [try { m } catch (error) { handler error }]: what [m] did to the
    store before it threw stays done. *)
Definition try_catch {A : Type} (m : M A) (handler : error -> M A) : M A :=
  fun h =>
    match m h with
    | (h', Ok a) => (h', Ok a)
    | (h', Throw e) => handler e h'
    end.

Definition new (o : object) : M loc :=
  fun h => let '(h', l) := alloc h o in (h', Ok l).

Definition readRound (l : loc) : M FundingRound.t :=
  fun h =>
    match read h l with
    | Some (RoundObject r) => (h, Ok r)
    | _ => (h, Throw (TypeError [Text "not a FundingRound"]))
    end.

Definition readCompany (l : loc) : M (Company.t loc) :=
  fun h =>
    match read h l with
    | Some (CompanyObject c) => (h, Ok c)
    | _ => (h, Throw (TypeError [Text "not a Company"]))
    end.

Definition writeRound (l : loc) (r : FundingRound.t) : M unit :=
  fun h => (write h l (RoundObject r), Ok tt).

(** [array.map(f)] where [f] works on the store. *)
Fixpoint mapM {A B : Type} (f : A -> M B) (l : list A) : M (list B) :=
  match l with
  | [] => ret []
  | a :: rest =>
      bind (f a) (fun b => bind (mapM f rest) (fun bs => ret (b :: bs)))
  end.

(** [h'] is [h] with new objects after it. *)
Definition grows (h h' : t) : Prop := exists ext, h' = h ++ ext.

(** A computation that only reads. *)
Definition readonly {A : Type} (m : M A) : Prop := forall h, fst (m h) = h.

End Store.

Notation "x <~ m ;; k" := (Store.bind m (fun x => k))
  (at level 61, m at next level, right associativity).

(** The methods of [Company] on an object in the store. *)
Module CompanyObject.
Import Company.

(** The company at [this] read with its rounds. *)
Definition snapshot (this : Store.loc) : Store.M company :=
  c <~ Store.readCompany this ;;
  rs <~ Store.mapM Store.readRound c.(rounds) ;;
  Store.ret
    {| companyName := c.(companyName);
       currency := c.(currency);
       founderShares := c.(founderShares);
       optionPoolPercent := c.(optionPoolPercent);
       optionPoolTopUp := c.(optionPoolTopUp);
       useRevenueMultiples := c.(useRevenueMultiples);
       exitYear := c.(exitYear);
       exitValuation := c.(exitValuation);
       exitMultiple := c.(exitMultiple);
       rounds := rs |}.

(** [toObject()]. *)
Definition toObject (this : Store.loc) : Store.M company :=
  c <~ snapshot this ;;
  Store.ret (CompanyM.toObject c).

Section Clock.
Variable currentYear : float.

(** [new Company(data)]: every [roundData] becomes a new
    [FundingRound] object. *)
Definition new (data : company) : Store.M Store.loc :=
  rs <~ Store.mapM
          (fun roundData =>
             Store.new (Store.RoundObject (FundingRoundM.new currentYear roundData)))
          data.(rounds) ;;
  Store.new
    (Store.CompanyObject
       {| companyName := JS.or_string data.(companyName) "";
          currency := JS.or_string data.(currency) CONFIG.DEFAULTS.CURRENCY;
          founderShares :=
            JS.or_default data.(founderShares) CONFIG.DEFAULTS.FOUNDER_SHARES;
          optionPoolPercent :=
            JS.or_default data.(optionPoolPercent) CONFIG.DEFAULTS.OPTION_POOL_PERCENT;
          optionPoolTopUp := data.(optionPoolTopUp);
          useRevenueMultiples := data.(useRevenueMultiples);
          exitYear :=
            JS.or_default data.(exitYear)
              (currentYear + CONFIG.DEFAULTS.EXIT_YEARS_AHEAD);
          exitValuation :=
            JS.or_default data.(exitValuation) CONFIG.DEFAULTS.EXIT_VALUATION;
          exitMultiple := JS.or_default data.(exitMultiple) CONFIG.DEFAULTS.EXIT_MULTIPLE;
          rounds := rs |}).
End Clock.

End CompanyObject.

(** An element of the array [calculateSensitivityScenarios] returns. *)
Inductive scenarioResult : Type :=
| ScenarioResult (label class : string)
    (multiplier preMoneyValuation founderReturn esopReturn totalInvestorReturn
     roundMultiple roundIRR : float)
| ScenarioError (label class : string) (error : message).

(** ** The calculation engine ([CapTableCalculator], [js/calculations.js]) *)

Module CapTableCalculator.

Section Engine.
(** [DateUtils.getCurrentYear()] and [Math.pow]. *)
Variable currentYear : float.
Variable Math_pow : float -> float -> float.

(** [evolution[evolution.length - 1]]. *)
Definition lastStage (evolution : list CapTableStage.t) : option CapTableStage.t :=
  nth_error evolution (List.length evolution - 1).

(** [_createIncorporationStage(company, founderShares, optionPoolShares,
    firstRoundYear)]; [firstRoundYear] is [undefined] without rounds. *)
Definition _createIncorporationStage (c : company)
    (founderShares optionPoolShares : float) (firstRoundYear : option float)
    : result CapTableStage.t :=
  let totalShares := founderShares + optionPoolShares in
  let year := match firstRoundYear with
              | Some y => if JS.truthy y then y - 1 else currentYear
              | None => currentYear
              end in
  let stage := CapTableStageM.new currentYear
    {| CapTableStageM.d_stage := Some "Incorporation";
       CapTableStageM.d_year := Some year;
       CapTableStageM.d_totalShares := Some totalShares;
       CapTableStageM.d_founderShares := Some founderShares;
       CapTableStageM.d_optionPoolShares := Some optionPoolShares;
       CapTableStageM.d_investorShares := Some 0;
       CapTableStageM.d_newInvestorShares := Some 0;
       CapTableStageM.d_round := None;
       CapTableStageM.d_liquidationStack := Some [];
       CapTableStageM.d_founderOwnership := None;
       CapTableStageM.d_optionPoolOwnership := None;
       CapTableStageM.d_investorOwnership := None;
       CapTableStageM.d_newInvestorOwnership := None;
       CapTableStageM.d_preMoneyValuation := None;
       CapTableStageM.d_postMoneyValuation := None;
       CapTableStageM.d_investment := None;
       CapTableStageM.d_revenue := None;
       CapTableStageM.d_revenueMultiple := None |} in
  let stage := CapTableStageM.calculateOwnership stage in
  CapTableStageM.validateOwnership stage ;;;
  Ok stage.

(** [_processRound(round, founderShares, optionPoolShares,
    totalInvestorShares, company, previousStage)]. *)
Definition _processRound (round : FundingRound.t)
    (founderShares optionPoolShares totalInvestorShares : float)
    (c : company) (previousStage : option CapTableStage.t)
    : result CapTableStage.t :=
  try_catch
    (let postMoneyValuation :=
       round.(FundingRound.preMoneyValuation) + round.(FundingRound.investment) in
     let investorOwnershipPercent :=
       (round.(FundingRound.investment) / postMoneyValuation) * 100 in
     let totalSharesBefore := founderShares + optionPoolShares + totalInvestorShares in
     let newInvestorShares :=
       JS.Math_floor (totalSharesBefore * investorOwnershipPercent
                      / (100 - investorOwnershipPercent)) in
     let '(optionPoolTopUpShares, optionPoolShares) :=
       if c.(Company.optionPoolTopUp) then
         let targetOptionPoolShares :=
           JS.Math_floor ((totalSharesBefore + newInvestorShares)
                          * c.(Company.optionPoolPercent) / 100) in
         let optionPoolTopUpShares :=
           JS.Math_max 0 (targetOptionPoolShares - optionPoolShares) in
         (optionPoolTopUpShares, optionPoolShares + optionPoolTopUpShares)
       else (0, optionPoolShares) in
     let newTotalInvestorShares := totalInvestorShares + newInvestorShares in
     let totalSharesAfter :=
       totalSharesBefore + newInvestorShares + optionPoolTopUpShares in
     previousStack <-
       match previousStage with
       | Some previous => Ok previous.(CapTableStage.liquidationStack)
       | None =>
           Throw (TypeError
             [Text "Cannot read properties of undefined (reading 'liquidationStack')"])
       end ;;
     let liquidationStack :=
       previousStack ++
       [ {| StackEntry.round := round.(FundingRound.type);
            StackEntry.investment := round.(FundingRound.investment);
            StackEntry.preference := round.(FundingRound.liquidationPref);
            StackEntry.shares := newInvestorShares;
            StackEntry.year := round.(FundingRound.year);
            StackEntry.ownershipPercent :=
              (newInvestorShares / totalSharesAfter) * 100 |} ] in
     let stage := CapTableStageM.new currentYear
       {| CapTableStageM.d_stage := round.(FundingRound.type);
          CapTableStageM.d_year := Some round.(FundingRound.year);
          CapTableStageM.d_totalShares := Some totalSharesAfter;
          CapTableStageM.d_founderShares := Some founderShares;
          CapTableStageM.d_optionPoolShares := Some optionPoolShares;
          CapTableStageM.d_investorShares := Some newTotalInvestorShares;
          CapTableStageM.d_newInvestorShares := Some newInvestorShares;
          CapTableStageM.d_round := Some round;
          CapTableStageM.d_liquidationStack := Some liquidationStack;
          CapTableStageM.d_founderOwnership := None;
          CapTableStageM.d_optionPoolOwnership := None;
          CapTableStageM.d_investorOwnership := None;
          CapTableStageM.d_newInvestorOwnership := None;
          CapTableStageM.d_preMoneyValuation :=
            Some round.(FundingRound.preMoneyValuation);
          CapTableStageM.d_postMoneyValuation := Some postMoneyValuation;
          CapTableStageM.d_investment := Some round.(FundingRound.investment);
          CapTableStageM.d_revenue := Some round.(FundingRound.revenue);
          CapTableStageM.d_revenueMultiple :=
            Some (if 0 <? round.(FundingRound.revenue)
                  then postMoneyValuation / round.(FundingRound.revenue)
                  else 0) |} in
     let stage := CapTableStageM.calculateOwnership stage in
     CapTableStageM.validateOwnership stage ;;;
     Ok stage)
    (fun error =>
       Throw (CalculationError "round_processing"
                ([Text "Failed to process ";
                  match round.(FundingRound.type) with
                  | Some s => Text s
                  | None => Undefined
                  end;
                  Text " round: "] ++ error_message error)
                (RoundContext (FundingRoundM.toObject round)))).

(** The [for (const round of rounds)] loop of [calculateEvolution],
    from the state it has reached. *)
Fixpoint processRounds (rounds : list FundingRound.t) (c : company)
    (founderShares optionPoolShares totalInvestorShares : float)
    (evolution : list CapTableStage.t) : result (list CapTableStage.t) :=
  match rounds with
  | [] => Ok evolution
  | round :: rest =>
      stage <- _processRound round founderShares optionPoolShares
                 totalInvestorShares c (lastStage evolution) ;;
      let optionPoolShares := stage.(CapTableStage.optionPoolShares) in
      let totalInvestorShares := stage.(CapTableStage.investorShares) in
      processRounds rest c founderShares optionPoolShares totalInvestorShares
        (evolution ++ [stage])
  end.

(** [calculateEvolution(company)]. *)
Definition calculateEvolution (c : company) : result (list CapTableStage.t) :=
  try_catch
    (CompanyM.validate c ;;;
     let evolution := [] in
     let rounds := CompanyM.getRoundsByYear c in
     let founderShares := c.(Company.founderShares) in
     let optionPoolShares := CompanyM.getInitialOptionPoolShares c in
     let totalInvestorShares := 0 in
     incorporationStage <-
       _createIncorporationStage c founderShares optionPoolShares
         (match rounds with
          | first :: _ => Some first.(FundingRound.year)
          | [] => None
          end) ;;
     let evolution := evolution ++ [incorporationStage] in
     processRounds rounds c founderShares optionPoolShares totalInvestorShares
       evolution)
    (fun error =>
       Throw (CalculationError "cap_table_evolution"
                (Text "Failed to calculate cap table evolution: "
                 :: error_message error)
                (CompanyContext (CompanyM.toObject c)))).


(** [liquidationStack.find(entry => entry.round === round.type &&
    entry.year === round.year)]. *)
Definition same_type (a b : option string) : bool :=
  match a, b with
  | Some x, Some y => String.eqb x y
  | None, None => true
  | _, _ => false
  end.

Definition findEntry (liquidationStack : list StackEntry.t) (round : FundingRound.t)
    : option StackEntry.t :=
  find (fun entry =>
          same_type entry.(StackEntry.round) round.(FundingRound.type)
          && (entry.(StackEntry.year) =? round.(FundingRound.year)))
       liquidationStack.

(** [_calculateRoundReturns(rounds, liquidationStack, exitValuation,
    exitYear)].  Nothing in the body of its [try] throws on these
    types; a round without an entry is skipped. *)
Fixpoint _calculateRoundReturns (rounds : list FundingRound.t)
    (liquidationStack : list StackEntry.t) (exitValuation exitYear : float)
    : list RoundReturn.t :=
  match rounds with
  | [] => []
  | round :: rest =>
      let yearsHeld := DateUtils.yearsBetween round.(FundingRound.year) exitYear in
      match findEntry liquidationStack round with
      | None => _calculateRoundReturns rest liquidationStack exitValuation exitYear
      | Some roundEntry =>
          let investorReturn :=
            (roundEntry.(StackEntry.ownershipPercent) / 100) * exitValuation in
          let multipleOfMoney :=
            if 0 <? round.(FundingRound.investment)
            then investorReturn / round.(FundingRound.investment)
            else 0 in
          let irr :=
            NumberUtils.calculateIRR Math_pow round.(FundingRound.investment)
              investorReturn yearsHeld in
          {| RoundReturn.round := round.(FundingRound.type);
             RoundReturn.year := round.(FundingRound.year);
             RoundReturn.investment := round.(FundingRound.investment);
             RoundReturn.yearsHeld := yearsHeld;
             RoundReturn.exitValue := investorReturn;
             RoundReturn.multipleOfMoney := multipleOfMoney;
             RoundReturn.irr := irr;
             RoundReturn.revenue := round.(FundingRound.revenue);
             RoundReturn.revenueMultiple :=
               CapTableStageM.or_number (FundingRoundM.getRevenueMultiple round) 0;
             RoundReturn.ownershipPercent := roundEntry.(StackEntry.ownershipPercent) |}
          :: _calculateRoundReturns rest liquidationStack exitValuation exitYear
      end
  end.

(** [calculateReturns(capTableEvolution, company)]; a missing
    [capTableEvolution] is [None]. *)
Definition calculateReturns (capTableEvolution : option (list CapTableStage.t))
    (c : company) : result ReturnsAnalysis.t :=
  try_catch
    (evolution <-
       match capTableEvolution with
       | Some (stage :: stages) => Ok (stage :: stages)
       | Some [] | None =>
           Throw (DataError "cap_table" [Text "Cap table evolution is empty"])
       end ;;
     finalStage <-
       match lastStage evolution with
       | Some stage => Ok stage
       | None =>
           Throw (TypeError
             [Text "Cannot read properties of undefined (reading 'founderOwnership')"])
       end ;;
     let exitValuation := c.(Company.exitValuation) in
     let exitYear := c.(Company.exitYear) in
     let founderReturn :=
       (finalStage.(CapTableStage.founderOwnership) / 100) * exitValuation in
     let esopReturn :=
       (finalStage.(CapTableStage.optionPoolOwnership) / 100) * exitValuation in
     let totalInvestorReturn :=
       (finalStage.(CapTableStage.investorOwnership) / 100) * exitValuation in
     let roundReturns :=
       _calculateRoundReturns c.(Company.rounds)
         finalStage.(CapTableStage.liquidationStack) exitValuation exitYear in
     let returns := ReturnsAnalysis.new currentYear
       {| ReturnsAnalysis.exitValuation := exitValuation;
          ReturnsAnalysis.exitYear := exitYear;
          ReturnsAnalysis.founderReturn := founderReturn;
          ReturnsAnalysis.esopReturn := esopReturn;
          ReturnsAnalysis.totalInvestorReturn := totalInvestorReturn;
          ReturnsAnalysis.roundReturns := roundReturns;
          ReturnsAnalysis.liquidationWaterfall := [];
          ReturnsAnalysis.finalOwnership :=
            {| ReturnsAnalysis.founders := finalStage.(CapTableStage.founderOwnership);
               ReturnsAnalysis.esop := finalStage.(CapTableStage.optionPoolOwnership);
               ReturnsAnalysis.investors :=
                 finalStage.(CapTableStage.investorOwnership) |} |} in
     Ok returns)
    (fun error =>
       Throw (CalculationError "returns_calculation"
                (Text "Failed to calculate returns: " :: error_message error)
                (ReturnsContext
                   (match capTableEvolution with
                    | Some stages => Some (List.length stages)
                    | None => None
                    end)
                   (CompanyM.toObject c)))).


(** The body of the [try] inside the loop of
    [calculateSensitivityScenarios]. *)
Definition runScenario (company : Store.loc) (roundIndex : nat)
    (baselineRound : Store.loc) (scenario : CONFIG.SENSITIVITY.scenario)
    : Store.M scenarioResult :=
  data <~ CompanyObject.toObject company ;;
  modifiedCompany <~ CompanyObject.new currentYear data ;;
  modified <~ Store.readCompany modifiedCompany ;;
  target <~
    match nth_error modified.(Company.rounds) roundIndex with
    | Some l => Store.ret l
    | None =>
        Store.throw (TypeError
          [Text "Cannot set properties of undefined (setting 'preMoneyValuation')"])
    end ;;
  baseline <~ Store.readRound baselineRound ;;
  r <~ Store.readRound target ;;
  _ <~ Store.writeRound target
         {| FundingRound.id := r.(FundingRound.id);
            FundingRound.type := r.(FundingRound.type);
            FundingRound.year := r.(FundingRound.year);
            FundingRound.preMoneyValuation :=
              baseline.(FundingRound.preMoneyValuation)
              * scenario.(CONFIG.SENSITIVITY.multiplier);
            FundingRound.investment := r.(FundingRound.investment);
            FundingRound.revenue := r.(FundingRound.revenue);
            FundingRound.liquidationPref := r.(FundingRound.liquidationPref);
            FundingRound.antiDilution := r.(FundingRound.antiDilution);
            FundingRound.discountRate := r.(FundingRound.discountRate);
            FundingRound.postMoneyValuation := r.(FundingRound.postMoneyValuation);
            FundingRound.equityPercentage := r.(FundingRound.equityPercentage);
            FundingRound.sharesIssued := r.(FundingRound.sharesIssued);
            FundingRound.ownershipPercent := r.(FundingRound.ownershipPercent) |} ;;
  c <~ CompanyObject.snapshot modifiedCompany ;;
  capTable <~ Store.lift (calculateEvolution c) ;;
  returns <~ Store.lift (calculateReturns (Some capTable) c) ;;
  let roundReturn :=
    find (fun r => same_type r.(RoundReturn.round) baseline.(FundingRound.type))
         returns.(ReturnsAnalysis.roundReturns) in
  r' <~ Store.readRound target ;;
  Store.ret
    (ScenarioResult scenario.(CONFIG.SENSITIVITY.label)
       scenario.(CONFIG.SENSITIVITY.class)
       scenario.(CONFIG.SENSITIVITY.multiplier)
       r'.(FundingRound.preMoneyValuation)
       returns.(ReturnsAnalysis.founderReturn)
       returns.(ReturnsAnalysis.esopReturn)
       returns.(ReturnsAnalysis.totalInvestorReturn)
       (match roundReturn with
        | Some rr => rr.(RoundReturn.multipleOfMoney)
        | None => 0
        end)
       (match roundReturn with
        | Some rr => rr.(RoundReturn.irr)
        | None => 0
        end)).

(** The [for (const scenario of scenarios)] loop. *)
Fixpoint scenarioLoop (company : Store.loc) (roundIndex : nat)
    (baselineRound : Store.loc) (scenarios : list CONFIG.SENSITIVITY.scenario)
    (scenarioResults : list scenarioResult) : Store.M (list scenarioResult) :=
  match scenarios with
  | [] => Store.ret scenarioResults
  | scenario :: rest =>
      entry <~ Store.try_catch
                 (runScenario company roundIndex baselineRound scenario)
                 (fun error =>
                    Store.ret
                      (ScenarioError scenario.(CONFIG.SENSITIVITY.label)
                         scenario.(CONFIG.SENSITIVITY.class)
                         (error_message error))) ;;
      scenarioLoop company roundIndex baselineRound rest (scenarioResults ++ [entry])
  end.

(** [calculateSensitivityScenarios(company, roundIndex, scenarios)]. *)
Definition calculateSensitivityScenarios (company : Store.loc) (roundIndex : nat)
    (scenarios : list CONFIG.SENSITIVITY.scenario) : Store.M (list scenarioResult) :=
  Store.try_catch
    (c <~ Store.readCompany company ;;
     baselineRound <~
       match nth_error c.(Company.rounds) roundIndex with
       | Some l => Store.ret l
       | None =>
           Store.throw (DataError "round"
             [Text "Round index "; Count roundIndex; Text " not found"])
       end ;;
     scenarioLoop company roundIndex baselineRound scenarios [])
    (fun error =>
       data <~ CompanyObject.toObject company ;;
       Store.throw
         (CalculationError "sensitivity_analysis"
            (Text "Failed to calculate sensitivity scenarios: " :: error_message error)
            (SensitivityContext roundIndex data))).

End Engine.

End CapTableCalculator.

(** ** The stage a round leads to

    [stageOfRound] is the stage [_processRound] has built when it
    reaches [stage.validateOwnership()], as a function of its arguments;
    [_processRound_eq] below shows it is that stage. *)

Module Trace.

Section Clock.
Variable currentYear : float.

(** [totalSharesBefore]. *)
Definition totalSharesBefore (founderShares optionPoolShares totalInvestorShares : float)
    : float :=
  founderShares + optionPoolShares + totalInvestorShares.

(** [investorOwnershipPercent]. *)
Definition investorOwnershipPercent (round : FundingRound.t) : float :=
  (round.(FundingRound.investment)
   / (round.(FundingRound.preMoneyValuation) + round.(FundingRound.investment))) * 100.

(** [newInvestorShares]. *)
Definition newInvestorShares (round : FundingRound.t)
    (founderShares optionPoolShares totalInvestorShares : float) : float :=
  JS.Math_floor
    (totalSharesBefore founderShares optionPoolShares totalInvestorShares
     * investorOwnershipPercent round
     / (100 - investorOwnershipPercent round)).

(** [optionPoolTopUpShares]. *)
Definition optionPoolTopUpShares (round : FundingRound.t) (c : company)
    (founderShares optionPoolShares totalInvestorShares : float) : float :=
  if c.(Company.optionPoolTopUp) then
    JS.Math_max 0
      (JS.Math_floor
         ((totalSharesBefore founderShares optionPoolShares totalInvestorShares
           + newInvestorShares round founderShares optionPoolShares totalInvestorShares)
          * c.(Company.optionPoolPercent) / 100)
       - optionPoolShares)
  else 0.

(** [totalSharesAfter]. *)
Definition totalSharesAfter (round : FundingRound.t) (c : company)
    (founderShares optionPoolShares totalInvestorShares : float) : float :=
  totalSharesBefore founderShares optionPoolShares totalInvestorShares
  + newInvestorShares round founderShares optionPoolShares totalInvestorShares
  + optionPoolTopUpShares round c founderShares optionPoolShares totalInvestorShares.

(** The entry the round appends to the liquidation stack. *)
Definition entryOfRound (round : FundingRound.t) (c : company)
    (founderShares optionPoolShares totalInvestorShares : float) : StackEntry.t :=
  {| StackEntry.round := round.(FundingRound.type);
     StackEntry.investment := round.(FundingRound.investment);
     StackEntry.preference := round.(FundingRound.liquidationPref);
     StackEntry.shares :=
       newInvestorShares round founderShares optionPoolShares totalInvestorShares;
     StackEntry.year := round.(FundingRound.year);
     StackEntry.ownershipPercent :=
       (newInvestorShares round founderShares optionPoolShares totalInvestorShares
        / totalSharesAfter round c founderShares optionPoolShares totalInvestorShares)
       * 100 |}.

(** The stage of the round, before its ownership is calculated. *)
Definition rawStageOfRound (round : FundingRound.t) (c : company)
    (founderShares optionPoolShares totalInvestorShares : float)
    (previous : CapTableStage.t) : CapTableStage.t :=
  {| CapTableStage.stage :=
       match round.(FundingRound.type) with
       | Some s => JS.or_string s "Incorporation"
       | None => "Incorporation"
       end;
     CapTableStage.year := JS.or_default round.(FundingRound.year) currentYear;
     CapTableStage.totalShares :=
       JS.or_default
         (totalSharesAfter round c founderShares optionPoolShares totalInvestorShares) 0;
     CapTableStage.founderShares := JS.or_default founderShares 0;
     CapTableStage.optionPoolShares :=
       JS.or_default
         (if c.(Company.optionPoolTopUp)
          then optionPoolShares
               + optionPoolTopUpShares round c founderShares optionPoolShares
                   totalInvestorShares
          else optionPoolShares) 0;
     CapTableStage.investorShares :=
       JS.or_default
         (totalInvestorShares
          + newInvestorShares round founderShares optionPoolShares totalInvestorShares) 0;
     CapTableStage.newInvestorShares :=
       JS.or_default
         (newInvestorShares round founderShares optionPoolShares totalInvestorShares) 0;
     CapTableStage.round := Some round;
     CapTableStage.liquidationStack :=
       previous.(CapTableStage.liquidationStack)
       ++ [entryOfRound round c founderShares optionPoolShares totalInvestorShares];
     CapTableStage.founderOwnership := 0;
     CapTableStage.optionPoolOwnership := 0;
     CapTableStage.investorOwnership := 0;
     CapTableStage.newInvestorOwnership := 0;
     CapTableStage.preMoneyValuation :=
       JS.or_default round.(FundingRound.preMoneyValuation) 0;
     CapTableStage.postMoneyValuation :=
       JS.or_default
         (round.(FundingRound.preMoneyValuation) + round.(FundingRound.investment)) 0;
     CapTableStage.investment := JS.or_default round.(FundingRound.investment) 0;
     CapTableStage.revenue := JS.or_default round.(FundingRound.revenue) 0;
     CapTableStage.revenueMultiple :=
       JS.or_default
         (if 0 <? round.(FundingRound.revenue)
          then (round.(FundingRound.preMoneyValuation) + round.(FundingRound.investment))
               / round.(FundingRound.revenue)
          else 0) 0 |}.

Definition stageOfRound (round : FundingRound.t) (c : company)
    (founderShares optionPoolShares totalInvestorShares : float)
    (previous : CapTableStage.t) : CapTableStage.t :=
  CapTableStageM.calculateOwnership
    (rawStageOfRound round c founderShares optionPoolShares totalInvestorShares previous).

(** The incorporation stage, before its ownership is calculated. *)
Definition rawIncorporationStage (founderShares optionPoolShares : float)
    (firstRoundYear : option float) : CapTableStage.t :=
  {| CapTableStage.stage := "Incorporation";
     CapTableStage.year :=
       JS.or_default
         (match firstRoundYear with
          | Some y => if JS.truthy y then y - 1 else currentYear
          | None => currentYear
          end) currentYear;
     CapTableStage.totalShares := JS.or_default (founderShares + optionPoolShares) 0;
     CapTableStage.founderShares := JS.or_default founderShares 0;
     CapTableStage.optionPoolShares := JS.or_default optionPoolShares 0;
     CapTableStage.investorShares := 0;
     CapTableStage.newInvestorShares := 0;
     CapTableStage.round := None;
     CapTableStage.liquidationStack := [];
     CapTableStage.founderOwnership := 0;
     CapTableStage.optionPoolOwnership := 0;
     CapTableStage.investorOwnership := 0;
     CapTableStage.newInvestorOwnership := 0;
     CapTableStage.preMoneyValuation := 0;
     CapTableStage.postMoneyValuation := 0;
     CapTableStage.investment := 0;
     CapTableStage.revenue := 0;
     CapTableStage.revenueMultiple := 0 |}.

Definition incorporationStage (founderShares optionPoolShares : float)
    (firstRoundYear : option float) : CapTableStage.t :=
  CapTableStageM.calculateOwnership
    (rawIncorporationStage founderShares optionPoolShares firstRoundYear).

End Clock.

End Trace.

(** [a] and [b] are consecutive elements of [l], [b] next after [a]. *)
Definition consecutive {A : Type} (l : list A) (a b : A) : Prop :=
  exists i, nth_error l i = Some a /\ nth_error l (S i) = Some b.

(** ** Violations

    The checks the validators make, each taken alone: what
    [validateCompanyData] asks of the fields of a company and
    [validateFundingRound] of the fields of a round, without the list the
    validators collect their errors in.  A check has failed when it throws,
    and its error is then a violation. *)
Module Checks.

(** The error a check throws, if it throws. *)
Definition failure {A : Type} (check : result A) : option error :=
  match check with
  | Ok _ => None
  | Throw e => Some e
  end.

(** The six checks on the fields of a company, in the order of
    [validateCompanyData]. *)
Definition companyChecks {R : Type} (data : Company.t R) : list (option error) :=
  [ failure (Validator.validateRequired data.(Company.companyName) "Company Name");
    failure (Validator.validateInteger data.(Company.founderShares) "Founder Shares"
               (Some CONFIG.VALIDATION.MIN_FOUNDER_SHARES)
               (Some CONFIG.VALIDATION.MAX_FOUNDER_SHARES));
    failure (Validator.validatePercentage data.(Company.optionPoolPercent)
               "Option Pool Percentage");
    failure (Validator.validateCurrency data.(Company.currency) "Currency");
    failure (Validator.validateYear data.(Company.exitYear) "Exit Year");
    failure (Validator.validateNumber data.(Company.exitValuation) "Exit Valuation"
               (Some CONFIG.VALIDATION.MIN_VALUATION)
               (Some CONFIG.VALIDATION.MAX_VALUATION)) ].

(** The five checks on the fields of a round, in the order of
    [validateFundingRound]. *)
Definition roundChecks (round : FundingRound.t) : list (option error) :=
  [ failure (Validator.validateRoundType round.(FundingRound.type) "Round Type");
    failure (Validator.validateYear round.(FundingRound.year) "Round Year");
    failure (Validator.validateNumber round.(FundingRound.preMoneyValuation)
               "Pre-Money Valuation"
               (Some CONFIG.VALIDATION.MIN_VALUATION)
               (Some CONFIG.VALIDATION.MAX_VALUATION));
    failure (Validator.validateNumber round.(FundingRound.investment) "Investment Amount"
               (Some CONFIG.VALIDATION.MIN_INVESTMENT)
               (Some CONFIG.VALIDATION.MAX_INVESTMENT));
    failure (Validator.validateNumber round.(FundingRound.revenue) "Revenue"
               (Some 0) None) ].

(** The errors of the checks that failed, in the order of the checks. *)
Fixpoint failed (checks : list (option error)) : list error :=
  match checks with
  | [] => []
  | Some e :: rest => e :: failed rest
  | None :: rest => failed rest
  end.

(** No check fails. *)
Definition pass (checks : list (option error)) : Prop :=
  forall e, ~ In (Some e) checks.

(** Some check fails. *)
Definition fails (checks : list (option error)) : Prop :=
  exists e, In (Some e) checks.

End Checks.

(** Every violation of a company: the failed checks on its fields, then the
    failed checks on the fields of each of its rounds, in the order of the
    rounds. *)
Definition violations (c : company) : list error :=
  Checks.failed (Checks.companyChecks c)
  ++ flat_map (fun r => Checks.failed (Checks.roundChecks r)) c.(Company.rounds).

(** The errors an aggregate [ValidationError] lists in its [value]. *)
Definition listed (e : error) : list error :=
  match e with
  | ValidationError _ _ (Errors errors) => errors
  | _ => []
  end.

(** ** Rounds that differ in their provisions only *)

Module Provisions.

(** Two rounds are alike but for [antiDilution] and [discountRate]. *)
Definition sameTerms (r1 r2 : FundingRound.t) : Prop :=
  r1.(FundingRound.id) = r2.(FundingRound.id)
  /\ r1.(FundingRound.type) = r2.(FundingRound.type)
  /\ r1.(FundingRound.year) = r2.(FundingRound.year)
  /\ r1.(FundingRound.preMoneyValuation) = r2.(FundingRound.preMoneyValuation)
  /\ r1.(FundingRound.investment) = r2.(FundingRound.investment)
  /\ r1.(FundingRound.revenue) = r2.(FundingRound.revenue)
  /\ r1.(FundingRound.liquidationPref) = r2.(FundingRound.liquidationPref)
  /\ r1.(FundingRound.postMoneyValuation) = r2.(FundingRound.postMoneyValuation)
  /\ r1.(FundingRound.equityPercentage) = r2.(FundingRound.equityPercentage)
  /\ r1.(FundingRound.sharesIssued) = r2.(FundingRound.sharesIssued)
  /\ r1.(FundingRound.ownershipPercent) = r2.(FundingRound.ownershipPercent).

(** Two companies are alike but for the [antiDilution] and
    [discountRate] of their rounds. *)
Definition sameCompany (c1 c2 : company) : Prop :=
  c1.(Company.companyName) = c2.(Company.companyName)
  /\ c1.(Company.currency) = c2.(Company.currency)
  /\ c1.(Company.founderShares) = c2.(Company.founderShares)
  /\ c1.(Company.optionPoolPercent) = c2.(Company.optionPoolPercent)
  /\ c1.(Company.optionPoolTopUp) = c2.(Company.optionPoolTopUp)
  /\ c1.(Company.useRevenueMultiples) = c2.(Company.useRevenueMultiples)
  /\ c1.(Company.exitYear) = c2.(Company.exitYear)
  /\ c1.(Company.exitValuation) = c2.(Company.exitValuation)
  /\ c1.(Company.exitMultiple) = c2.(Company.exitMultiple)
  /\ Forall2 sameTerms c1.(Company.rounds) c2.(Company.rounds).

(** The share counts, the ownership percentages and the
    [ownershipPercent] values of the liquidation stack of a stage. *)
Record dilution_t : Type := {
  totalShares : float;
  founderShares : float;
  optionPoolShares : float;
  investorShares : float;
  newInvestorShares : float;
  founderOwnership : float;
  optionPoolOwnership : float;
  investorOwnership : float;
  newInvestorOwnership : float;
  stackOwnershipPercent : list float
}.

Definition dilution (s : CapTableStage.t) : dilution_t :=
  {| totalShares := s.(CapTableStage.totalShares);
     founderShares := s.(CapTableStage.founderShares);
     optionPoolShares := s.(CapTableStage.optionPoolShares);
     investorShares := s.(CapTableStage.investorShares);
     newInvestorShares := s.(CapTableStage.newInvestorShares);
     founderOwnership := s.(CapTableStage.founderOwnership);
     optionPoolOwnership := s.(CapTableStage.optionPoolOwnership);
     investorOwnership := s.(CapTableStage.investorOwnership);
     newInvestorOwnership := s.(CapTableStage.newInvestorOwnership);
     stackOwnershipPercent :=
       map StackEntry.ownershipPercent s.(CapTableStage.liquidationStack) |}.

(** A round, a company and a stage with the two provisions blanked. *)
Definition blankRound (r : FundingRound.t) : FundingRound.t :=
  {| FundingRound.id := r.(FundingRound.id);
     FundingRound.type := r.(FundingRound.type);
     FundingRound.year := r.(FundingRound.year);
     FundingRound.preMoneyValuation := r.(FundingRound.preMoneyValuation);
     FundingRound.investment := r.(FundingRound.investment);
     FundingRound.revenue := r.(FundingRound.revenue);
     FundingRound.liquidationPref := r.(FundingRound.liquidationPref);
     FundingRound.antiDilution := "";
     FundingRound.discountRate := 0;
     FundingRound.postMoneyValuation := r.(FundingRound.postMoneyValuation);
     FundingRound.equityPercentage := r.(FundingRound.equityPercentage);
     FundingRound.sharesIssued := r.(FundingRound.sharesIssued);
     FundingRound.ownershipPercent := r.(FundingRound.ownershipPercent) |}.

Definition blankCompany (c : company) : company :=
  {| Company.companyName := c.(Company.companyName);
     Company.currency := c.(Company.currency);
     Company.founderShares := c.(Company.founderShares);
     Company.optionPoolPercent := c.(Company.optionPoolPercent);
     Company.optionPoolTopUp := c.(Company.optionPoolTopUp);
     Company.useRevenueMultiples := c.(Company.useRevenueMultiples);
     Company.exitYear := c.(Company.exitYear);
     Company.exitValuation := c.(Company.exitValuation);
     Company.exitMultiple := c.(Company.exitMultiple);
     Company.rounds := map blankRound c.(Company.rounds) |}.

Definition blankStage (s : CapTableStage.t) : CapTableStage.t :=
  {| CapTableStage.stage := s.(CapTableStage.stage);
     CapTableStage.year := s.(CapTableStage.year);
     CapTableStage.totalShares := s.(CapTableStage.totalShares);
     CapTableStage.founderShares := s.(CapTableStage.founderShares);
     CapTableStage.optionPoolShares := s.(CapTableStage.optionPoolShares);
     CapTableStage.investorShares := s.(CapTableStage.investorShares);
     CapTableStage.newInvestorShares := s.(CapTableStage.newInvestorShares);
     CapTableStage.round := option_map blankRound s.(CapTableStage.round);
     CapTableStage.liquidationStack := s.(CapTableStage.liquidationStack);
     CapTableStage.founderOwnership := s.(CapTableStage.founderOwnership);
     CapTableStage.optionPoolOwnership := s.(CapTableStage.optionPoolOwnership);
     CapTableStage.investorOwnership := s.(CapTableStage.investorOwnership);
     CapTableStage.newInvestorOwnership := s.(CapTableStage.newInvestorOwnership);
     CapTableStage.preMoneyValuation := s.(CapTableStage.preMoneyValuation);
     CapTableStage.postMoneyValuation := s.(CapTableStage.postMoneyValuation);
     CapTableStage.investment := s.(CapTableStage.investment);
     CapTableStage.revenue := s.(CapTableStage.revenue);
     CapTableStage.revenueMultiple := s.(CapTableStage.revenueMultiple) |}.

(** Two runs agree: both throw, or both return and the stages of the
    second are those of the first with the provisions blanked. *)
Definition agree (r1 r2 : result (list CapTableStage.t)) : Prop :=
  match r1, r2 with
  | Ok s1, Ok s2 => s2 = map blankStage s1
  | Throw _, Throw _ => True
  | _, _ => False
  end.

End Provisions.

(** ** Binary64 numbers as real numbers

    That the total number of shares never goes down is a statement about
    sums that are rounded.  To prove it a number of the program is read as
    the real number it stands for, and an operation is specified by what
    rounding to nearest does to the exact result. *)

Module Binary64.

Local Open Scope R_scope.

(** [2^e]. *)
Definition bpow (e : Z) : R := powerRZ 2 e.

(** The exponent function of binary64. *)
Abbreviation fexp64 := (fexp prec emax).

(** A shift record that has lost no bit. *)
Definition exact_record (mrs : shr_record) : bool := negb (shr_r mrs || shr_s mrs).

(** What [binary_round_aux] returns for the rounded mantissa [m1] at the
    exponent [E]. *)
Definition finish (sx : bool) (m1 E : Z) : spec_float :=
  if (m1 =? 0)%Z then S754_zero sx
  else if (m1 =? 2 ^ 53)%Z then
    (if (E + 1 <=? 971)%Z then S754_finite sx (2 ^ 52)%positive (E + 1)
     else S754_infinity sx)
  else if (E <=? 971)%Z then S754_finite sx (Z.to_pos m1) E
  else S754_infinity sx.

(** [r] is the real number [v], not negative, rounded to the format:
    [r] is [m1 * 2^E] (or [+Infinity] when that is [2^1024] or more) for a
    mantissa [m1] within one unit of [v / 2^E], at the exponent [E] of the
    binade of [v]. *)
Definition Rounded (v : R) (r : spec_float) : Prop :=
  exists m1 E : Z,
    (-1074 <= E)%Z /\ (0 <= m1)%Z
    /\ (IZR m1 - 1) * bpow E < v < (IZR m1 + 1) * bpow E
    /\ (E = (-1074)%Z \/ bpow (E + 52) <= v)
    /\ v < bpow (E + 53)
    /\ match r with
       | S754_zero _ => m1 = 0%Z
       | S754_finite s m e => s = false /\ IZR (Z.pos m) * bpow e = IZR m1 * bpow E
       | S754_infinity s => s = false /\ bpow 1024 <= IZR m1 * bpow E
       | S754_nan => False
       end.

(** The real number a finite number stands for; [0] for the others. *)
Definition SF2R (x : spec_float) : R :=
  match x with
  | S754_finite s m e => IZR (cond_Zopp s (Z.pos m)) * bpow e
  | _ => 0
  end.

(** Finite and not negative. *)
Definition nnf (x : spec_float) : Prop :=
  match x with
  | S754_zero _ | S754_finite false _ _ => True
  | _ => False
  end.

(** A number, not [NaN], of sign [sx]. *)
Definition signed (sx : bool) (r : spec_float) : Prop :=
  match r with
  | S754_zero s | S754_finite s _ _ | S754_infinity s => s = sx
  | S754_nan => False
  end.

(** [+Infinity]. *)
Definition is_inf (r : spec_float) : Prop := r = S754_infinity false.

(** [+0] or positive and finite. *)
Definition pz (x : spec_float) : Prop :=
  match x with
  | S754_zero false | S754_finite false _ _ => True
  | _ => False
  end.

(** The same on the numbers of the program: the value of a number and
    its class, [Fin] for finite and not negative, [Inf] for [+Infinity]. *)
Definition val (x : float) : R := SF2R (Prim2SF x).
Definition Fin (x : float) : Prop := nnf (Prim2SF x).
Definition Inf (x : float) : Prop := Prim2SF x = S754_infinity false.
Definition NaN (x : float) : Prop := Prim2SF x = S754_nan.
Definition Posf (x : float) : Prop := exists m e, Prim2SF x = S754_finite false m e.
Definition Pzf (x : float) : Prop := pz (Prim2SF x).

(** Not negative, or [NaN]. *)
Definition Okv (x : float) : Prop := Fin x \/ Inf x \/ NaN x.

(** A whole number that is not negative. *)
Definition natural (x : float) : Prop :=
  Fin x /\ exists k : Z, (0 <= k)%Z /\ val x = IZR k.

(** A share count: a whole number or [+Infinity]; and what a calculation
    of share counts can give. *)
Definition Good (x : float) : Prop := natural x \/ Inf x.
Definition Gn (x : float) : Prop := natural x \/ Inf x \/ NaN x.

(** [2^53], up to which every whole number is in the format. *)
Definition c53 : float := 9007199254740992%float.

(** [2^e]. *)
Definition pow2 (e : Z) : float := SF2Prim (S754_finite false 4503599627370496 (e - 52)).

(** Two numbers of the same class and value. *)
Definition same (x y : float) : Prop :=
  (Inf x /\ Inf y) \/ (Fin x /\ Fin y /\ val x = val y).

End Binary64.

(** ** The shares between two rounds *)

Module Shares.
Import Binary64.

Local Open Scope R_scope.

(** The total [T] the last stage shows and the founder, pool and investor
    shares [F], [P], [I] the next round adds up again.  They are the same
    whole number while it is at most [2^53]; above, each is rounded on its
    own and they differ by a few units in the last place. *)
Definition Link (F T P I : float) : Prop :=
  Fin P -> Fin I ->
  (val F + val P + val I <= 9007199254740992 ->
     Fin T /\ val T <= val F + val P + val I)
  /\ (Fin T -> val T <= (val F + val P + val I) * (1 + / 562949953421312))
  /\ (Inf T ->
      bpow 1024 - bpow 971 <= (val F + val P + val I) * (1 + / 562949953421312)).

(** The percentage a validated round sells: positive, at least [2^-35]
    and at most [100]. *)
Definition RoundOk (round : FundingRound.t) : Prop :=
  Posf (Trace.investorOwnershipPercent round)
  /\ bpow (-35) <= val (Trace.investorOwnershipPercent round) <= 100.

(** The invariant of the loop of [calculateEvolution]: the pool and the
    investors' shares are share counts, the totals of the stages so far
    do not go down, and the total of the last stage is linked to the
    shares the next round starts from. *)
Definition Monotone (F : float) (evolution : list CapTableStage.t) (P I : float) : Prop :=
  Good P /\ Good I
  /\ (forall a b, consecutive evolution a b ->
        (a.(CapTableStage.totalShares) <=? b.(CapTableStage.totalShares))%float = true)
  /\ exists last,
       CapTableCalculator.lastStage evolution = Some last
       /\ Good last.(CapTableStage.totalShares)
       /\ Link F last.(CapTableStage.totalShares) P I.

End Shares.

(** ** Example inputs *)

Module Examples.

(** The Seed round of the scenario: 1,000,000 invested at 5,000,000
    pre-money in 2025. *)
Definition seed : FundingRound.t :=
  {| FundingRound.id := None;
     FundingRound.type := Some "Seed";
     FundingRound.year := 2025;
     FundingRound.preMoneyValuation := 5000000;
     FundingRound.investment := 1000000;
     FundingRound.revenue := 0;
     FundingRound.liquidationPref := "1x";
     FundingRound.antiDilution := "none";
     FundingRound.discountRate := 0;
     FundingRound.postMoneyValuation := None;
     FundingRound.equityPercentage := None;
     FundingRound.sharesIssued := None;
     FundingRound.ownershipPercent := None |}.

(** A company with 10,000,000 founder shares, exit in 2030 at
    50,000,000. *)
Definition acme (optionPoolPercent : float) (optionPoolTopUp : bool)
    (rounds : list FundingRound.t) : company :=
  {| Company.companyName := "Acme";
     Company.currency := "GBP";
     Company.founderShares := 10000000;
     Company.optionPoolPercent := optionPoolPercent;
     Company.optionPoolTopUp := optionPoolTopUp;
     Company.useRevenueMultiples := true;
     Company.exitYear := 2030;
     Company.exitValuation := 50000000;
     Company.exitMultiple := 5;
     Company.rounds := rounds |}.

(** The scenario company: a 20% pool with top-up and the Seed round. *)
Definition scenario : company := acme 20 true [seed].


(** A round whose year is out of range and whose investment is negative. *)
Definition badRound : FundingRound.t :=
  {| FundingRound.id := None;
     FundingRound.type := Some "Seed";
     FundingRound.year := 1999;
     FundingRound.preMoneyValuation := 5000000;
     FundingRound.investment := -1;
     FundingRound.revenue := 0;
     FundingRound.liquidationPref := "1x";
     FundingRound.antiDilution := "none";
     FundingRound.discountRate := 0;
     FundingRound.postMoneyValuation := None;
     FundingRound.equityPercentage := None;
     FundingRound.sharesIssued := None;
     FundingRound.ownershipPercent := None |}.

(** A company without a name whose only round is [badRound]. *)
Definition nameless : company :=
  {| Company.companyName := "";
     Company.currency := "GBP";
     Company.founderShares := 10000000;
     Company.optionPoolPercent := 20;
     Company.optionPoolTopUp := true;
     Company.useRevenueMultiples := true;
     Company.exitYear := 2030;
     Company.exitValuation := 50000000;
     Company.exitMultiple := 5;
     Company.rounds := [badRound] |}.

(** A valid company with two bad rounds. *)
Definition twoBadRounds : company := acme 20 true [badRound; badRound].

(** A company without a name, with a currency that is not supported and an
    exit year out of range, whose only round is [badRound]. *)
Definition unnamedAbroad : company :=
  {| Company.companyName := "";
     Company.currency := "XYZ";
     Company.founderShares := 10000000;
     Company.optionPoolPercent := 20;
     Company.optionPoolTopUp := true;
     Company.useRevenueMultiples := true;
     Company.exitYear := 1999;
     Company.exitValuation := 50000000;
     Company.exitMultiple := 5;
     Company.rounds := [badRound] |}.

(** The Seed round with a full ratchet and a 20% discount. *)
Definition seedRatchet : FundingRound.t :=
  {| FundingRound.id := None;
     FundingRound.type := Some "Seed";
     FundingRound.year := 2025;
     FundingRound.preMoneyValuation := 5000000;
     FundingRound.investment := 1000000;
     FundingRound.revenue := 0;
     FundingRound.liquidationPref := "1x";
     FundingRound.antiDilution := "full-ratchet";
     FundingRound.discountRate := 20;
     FundingRound.postMoneyValuation := None;
     FundingRound.equityPercentage := None;
     FundingRound.sharesIssued := None;
     FundingRound.ownershipPercent := None |}.

(** A store that holds the Seed round and, after it, the scenario
    company that refers to it. *)
Definition scenarioStore : Store.t :=
  [ Store.RoundObject seed;
    Store.CompanyObject
      {| Company.companyName := "Acme";
         Company.currency := "GBP";
         Company.founderShares := 10000000;
         Company.optionPoolPercent := 20;
         Company.optionPoolTopUp := true;
         Company.useRevenueMultiples := true;
         Company.exitYear := 2030;
         Company.exitValuation := 50000000;
         Company.exitMultiple := 5;
         Company.rounds := [0%nat] |} ].

(** The stages of the scenario company, and its two stages. *)
Definition scenarioStages : list CapTableStage.t :=
  Eval vm_compute in
    match CapTableCalculator.calculateEvolution 2026 scenario with
    | Ok stages => stages
    | Throw _ => []
    end.

Definition scenarioIncorporation : CapTableStage.t :=
  Eval vm_compute in
    nth 0 scenarioStages (Trace.rawIncorporationStage 0 0 0 None).

Definition scenarioSeed : CapTableStage.t :=
  Eval vm_compute in
    nth 1 scenarioStages (Trace.rawIncorporationStage 0 0 0 None).

End Examples.

(** ** The calculated fields of a round, and valid years ([js/models.js],
    [js/utils.js]) *)

Module FundingRoundFields.
Import FundingRound.

(** [this.postMoneyValuation = v]. *)
Definition setPostMoneyValuation (this : t) (v : float) : t :=
  {| id := this.(id);
     type := this.(type);
     year := this.(year);
     preMoneyValuation := this.(preMoneyValuation);
     investment := this.(investment);
     revenue := this.(revenue);
     liquidationPref := this.(liquidationPref);
     antiDilution := this.(antiDilution);
     discountRate := this.(discountRate);
     postMoneyValuation := Some v;
     equityPercentage := this.(equityPercentage);
     sharesIssued := this.(sharesIssued);
     ownershipPercent := this.(ownershipPercent) |}.

(** [this.equityPercentage = v]. *)
Definition setEquityPercentage (this : t) (v : float) : t :=
  {| id := this.(id);
     type := this.(type);
     year := this.(year);
     preMoneyValuation := this.(preMoneyValuation);
     investment := this.(investment);
     revenue := this.(revenue);
     liquidationPref := this.(liquidationPref);
     antiDilution := this.(antiDilution);
     discountRate := this.(discountRate);
     postMoneyValuation := this.(postMoneyValuation);
     equityPercentage := Some v;
     sharesIssued := this.(sharesIssued);
     ownershipPercent := this.(ownershipPercent) |}.

(** [calculatePostMoney()]: the round after the call and the value
    returned. *)
Definition calculatePostMoney (this : t) : t * float :=
  let v := (this.(preMoneyValuation) + this.(investment))%float in
  (setPostMoneyValuation this v, v).

(** [calculateEquityPercentage()]: the post-money valuation is
    calculated only when the field is [null]. *)
Definition calculateEquityPercentage (this : t) : t * float :=
  let '(this, postMoneyValuation) :=
    match this.(postMoneyValuation) with
    | None => calculatePostMoney this
    | Some v => (this, v)
    end in
  let v := ((this.(investment) / postMoneyValuation) * 100)%float in
  (setEquityPercentage this v, v).

End FundingRoundFields.

Module DateUtilsYear.
(** [isValidYear(year)]. *)
Definition isValidYear (year : float) : bool :=
  (CONFIG.VALIDATION.MIN_YEAR <=? year)%float && (year <=? CONFIG.VALIDATION.MAX_YEAR)%float.
End DateUtilsYear.

(** ** The rounds of a company in the store ([Company.addRound],
    [Company.removeRound], [js/models.js]) *)

Module CompanyRounds.
Import Company.

(** Assignment to the company at [l]. *)
Definition writeCompany (l : Store.loc) (c : Company.t Store.loc) : Store.M unit :=
  fun h => (Store.write h l (Store.CompanyObject c), Ok tt).

(** [round.id = i]. *)
Definition setId (round : FundingRound.t) (i : nat) : FundingRound.t :=
  {| FundingRound.id := Some (JS.float_of_Z (Z.of_nat i));
     FundingRound.type := round.(FundingRound.type);
     FundingRound.year := round.(FundingRound.year);
     FundingRound.preMoneyValuation := round.(FundingRound.preMoneyValuation);
     FundingRound.investment := round.(FundingRound.investment);
     FundingRound.revenue := round.(FundingRound.revenue);
     FundingRound.liquidationPref := round.(FundingRound.liquidationPref);
     FundingRound.antiDilution := round.(FundingRound.antiDilution);
     FundingRound.discountRate := round.(FundingRound.discountRate);
     FundingRound.postMoneyValuation := round.(FundingRound.postMoneyValuation);
     FundingRound.equityPercentage := round.(FundingRound.equityPercentage);
     FundingRound.sharesIssued := round.(FundingRound.sharesIssued);
     FundingRound.ownershipPercent := round.(FundingRound.ownershipPercent) |}.

(** The company with the array [rs] as its rounds. *)
Definition setRounds (c : Company.t Store.loc) (rs : list Store.loc) : Company.t Store.loc :=
  {| companyName := c.(companyName);
     currency := c.(currency);
     founderShares := c.(founderShares);
     optionPoolPercent := c.(optionPoolPercent);
     optionPoolTopUp := c.(optionPoolTopUp);
     useRevenueMultiples := c.(useRevenueMultiples);
     exitYear := c.(exitYear);
     exitValuation := c.(exitValuation);
     exitMultiple := c.(exitMultiple);
     rounds := rs |}.

(** [array.splice(index, 1)] for an index of the array: the array
    afterwards. *)
Definition splice1 {A : Type} (index : nat) (array : list A) : list A :=
  firstn index array ++ skipn (S index) array.

Section Clock.
Variable currentYear : float.

(** [addRound(roundData)]. *)
Definition addRound (this : Store.loc) (roundData : FundingRound.t) : Store.M Store.loc :=
  round <~ Store.new (Store.RoundObject (FundingRoundM.new currentYear roundData)) ;;
  c <~ Store.readCompany this ;;
  r <~ Store.readRound round ;;
  _ <~ Store.writeRound round (setId r (List.length c.(rounds))) ;;
  _ <~ writeCompany this (setRounds c (c.(rounds) ++ [round])) ;;
  Store.ret round.
End Clock.

(** [this.rounds.forEach((round, i) => { round.id = i; })], from the
    index [i] on. *)
Fixpoint reindex (rounds : list Store.loc) (i : nat) : Store.M unit :=
  match rounds with
  | [] => Store.ret tt
  | round :: rest =>
      r <~ Store.readRound round ;;
      _ <~ Store.writeRound round (setId r i) ;;
      reindex rest (S i)
  end.

(** [removeRound(index)] for a whole number [index]. *)
Definition removeRound (this : Store.loc) (index : Z) : Store.M unit :=
  c <~ Store.readCompany this ;;
  if ((0 <=? index)%Z && (index <? Z.of_nat (List.length c.(rounds)))%Z)%bool then
    let rounds := splice1 (Z.to_nat index) c.(rounds) in
    _ <~ writeCompany this (setRounds c rounds) ;;
    reindex rounds 0
  else Store.ret tt.


End CompanyRounds.

(** ** UK tax schemes ([CONFIG.TAX_SCHEMES], [js/config.js]) *)

Module TAX_SCHEMES.
Module SEIS.
Definition reliefRate : float := 0.5.
Definition maxInvestment : float := 200000.
End SEIS.
Module EIS.
Definition reliefRate : float := 0.3.
Definition maxInvestment : float := 1000000.
End EIS.
Module EMI.
Definition cgtRate : float := 0.1.
Definition standardCgtRate : float := 0.2.
End EMI.
End TAX_SCHEMES.

(** ** The tax benefits ([calculateUKTaxBenefits], [js/calculations.js]) *)

Module TaxBenefits.

(** [Math.min(a, b)]: [NaN] when an argument is [NaN]; [-0] is smaller
    than [+0]. *)
Definition Math_min (a b : float) : float :=
  if is_nan a || is_nan b then nan
  else if (a <? b)%float then a
  else if (b <? a)%float then b
  else if get_sign a then a else b.

(** [taxOptions]: whether each of the three properties is truthy. *)
Record taxOptions : Type := {
  seisEligible : bool;
  eisEligible : bool;
  emiScheme : bool
}.

(** The [benefits] object. *)
Record t : Type := {
  seisRelief : float;
  eisRelief : float;
  emiSaving : float;
  totalBenefits : float
}.

(** [calculateUKTaxBenefits(returns, taxOptions)].  Nothing in the body
    of its [try] throws on these types. *)
Definition calculateUKTaxBenefits (returns : ReturnsAnalysis.t) (options : taxOptions)
    : t :=
  let seisRelief :=
    if options.(seisEligible) then
      match returns.(ReturnsAnalysis.roundReturns) with
      | first :: _ =>
          let seisInvestment :=
            Math_min first.(RoundReturn.investment) TAX_SCHEMES.SEIS.maxInvestment in
          (seisInvestment * TAX_SCHEMES.SEIS.reliefRate)%float
      | [] => 0%float
      end
    else 0%float in
  let eisRelief :=
    if options.(eisEligible) then
      let eisInvestment :=
        Math_min returns.(ReturnsAnalysis.totalInvestorReturn)
          TAX_SCHEMES.EIS.maxInvestment in
      (eisInvestment * TAX_SCHEMES.EIS.reliefRate)%float
    else 0%float in
  let emiSaving :=
    if options.(emiScheme) then
      let cgtSaving :=
        (TAX_SCHEMES.EMI.standardCgtRate - TAX_SCHEMES.EMI.cgtRate)%float in
      (returns.(ReturnsAnalysis.esopReturn) * cgtSaving)%float
    else 0%float in
  {| seisRelief := seisRelief;
     eisRelief := eisRelief;
     emiSaving := emiSaving;
     totalBenefits := (seisRelief + eisRelief + emiSaving)%float |}.

End TaxBenefits.

(** ** What the stages and the inputs of a run satisfy *)

Module Ranges.
Import Binary64.

Local Open Scope R_scope.

(** [parseFloat((k / 10).toFixed(1))] for a whole number [k] of tenths, as
    [parseFloat_toFixed] computes it. *)
Definition tenth (k : positive) : float :=
  SF2Prim (SF64div (S754_finite false k 0) (S754_finite false 10 0)).

(** Whether [tenth k] is a number from [1/16] to 100. *)
Definition tenth_ok (k : positive) : bool :=
  negb (is_nan (tenth k)) && negb (tenth k <? 0.0625)%float
  && negb (100 <? tenth k)%float.

(** A stage whose shares are whole numbers that add up. *)
Definition SmallStage (s : CapTableStage.t) : Prop :=
  natural s.(CapTableStage.founderShares) /\ natural s.(CapTableStage.optionPoolShares)
  /\ natural s.(CapTableStage.investorShares)
  /\ natural s.(CapTableStage.newInvestorShares)
  /\ Fin s.(CapTableStage.totalShares)
  /\ 1 <= val s.(CapTableStage.founderShares)
  /\ val s.(CapTableStage.totalShares)
     = val s.(CapTableStage.founderShares) + val s.(CapTableStage.optionPoolShares)
       + val s.(CapTableStage.investorShares)
  /\ val s.(CapTableStage.newInvestorShares) <= val s.(CapTableStage.investorShares).

(** A number from 0 to 100 that is 0 or not below [2^-60]. *)
Definition Percent (x : float) : Prop :=
  Fin x /\ val x <= 100 /\ (val x = 0 \/ bpow (-60) <= val x).

(** The four ownership percentages of a stage are such numbers. *)
Definition Percents (s : CapTableStage.t) : Prop :=
  Percent s.(CapTableStage.founderOwnership)
  /\ Percent s.(CapTableStage.optionPoolOwnership)
  /\ Percent s.(CapTableStage.investorOwnership)
  /\ Percent s.(CapTableStage.newInvestorOwnership).

(** The entry a stage has added to the liquidation stack holds a
    percentage. *)
Definition LastEntry (s : CapTableStage.t) : Prop :=
  forall earlier entry,
    s.(CapTableStage.liquidationStack) = earlier ++ [entry] ->
    Percent entry.(StackEntry.ownershipPercent).

(** What a stage shows of the shares: share counts, and below [2^53]
    whole numbers that add up, with percentages from 0 to 100. *)
Definition StageCounts (s : CapTableStage.t) : Prop :=
  Good s.(CapTableStage.totalShares) /\ Good s.(CapTableStage.founderShares)
  /\ Good s.(CapTableStage.optionPoolShares) /\ Good s.(CapTableStage.investorShares)
  /\ Good s.(CapTableStage.newInvestorShares)
  /\ ((s.(CapTableStage.totalShares) <? 9007199254740992)%float = true ->
      SmallStage s /\ Percents s /\ LastEntry s).

(** The invariant of the loop for the share counts. *)
Definition Counted (evolution : list CapTableStage.t) (P I : float) : Prop :=
  Good P /\ Good I
  /\ Forall StageCounts evolution
  /\ (forall a b, consecutive evolution a b ->
        (a.(CapTableStage.optionPoolShares) <=? b.(CapTableStage.optionPoolShares))%float
        = true
        /\ (a.(CapTableStage.investorShares) <=? b.(CapTableStage.investorShares))%float
           = true)
  /\ ((forall s, In s evolution ->
         (s.(CapTableStage.totalShares) <? 9007199254740992)%float = true) ->
      forall s, In s evolution ->
        Forall (fun entry => Percent entry.(StackEntry.ownershipPercent))
          s.(CapTableStage.liquidationStack))
  /\ exists last,
       CapTableCalculator.lastStage evolution = Some last
       /\ same P last.(CapTableStage.optionPoolShares)
       /\ same I last.(CapTableStage.investorShares).

(** The year of a round that passes [validate]. *)
Definition YearOk (v : float) : Prop := natural v /\ Posf v /\ 2020 <= val v <= 2050.

(** The order of the years of two rounds. *)
Definition yearLe (a b : FundingRound.t) : Prop :=
  val a.(FundingRound.year) <= val b.(FundingRound.year).

(** The key [sortBy] compares a round by: [a.year || null], where [null]
    compares as [+0]. *)
Definition sortKey (a : FundingRound.t) : float :=
  match DataUtils.getNestedProperty_year a with
  | Some x => x
  | None => 0%float
  end.

(** The comparator of [sortBy] returns 0 on [r] and [y]. *)
Definition tied (ascending : bool) (r y : FundingRound.t) : bool :=
  (DataUtils.compareFn ascending r y =? 0)%Z.

(** The values of a round without a validation error. *)
Definition RoundInRange (r : FundingRound.t) : Prop :=
  (exists s, r.(FundingRound.type) = Some s /\ In s CONFIG.ROUND_TYPES)
  /\ natural r.(FundingRound.year) /\ 2020 <= val r.(FundingRound.year) <= 2050
  /\ Fin r.(FundingRound.preMoneyValuation)
  /\ 1 <= val r.(FundingRound.preMoneyValuation) <= 1000000000000
  /\ Fin r.(FundingRound.investment)
  /\ 1 <= val r.(FundingRound.investment) <= 1000000000000
  /\ (Fin r.(FundingRound.revenue) \/ Inf r.(FundingRound.revenue)).

End Ranges.


(** ** Further example inputs *)

Module Cases.

(** Two Seed rounds of 2025 that differ in what was invested, and their
    returns against the stack of the scenario. *)
Definition laterSeed : FundingRound.t :=
  {| FundingRound.id := None;
     FundingRound.type := Some "Seed";
     FundingRound.year := 2025;
     FundingRound.preMoneyValuation := 8000000;
     FundingRound.investment := 2000000;
     FundingRound.revenue := 0;
     FundingRound.liquidationPref := "1x";
     FundingRound.antiDilution := "none";
     FundingRound.discountRate := 0;
     FundingRound.postMoneyValuation := None;
     FundingRound.equityPercentage := None;
     FundingRound.sharesIssued := None;
     FundingRound.ownershipPercent := None |}.

Definition twinReturns : list RoundReturn.t :=
  Eval vm_compute in
    CapTableCalculator._calculateRoundReturns (fun x _ => PrimFloat.sqrt x)
      [Examples.seed; laterSeed]
      Examples.scenarioSeed.(CapTableStage.liquidationStack) 50000000 2030.

Definition twinFirst : RoundReturn.t :=
  Eval vm_compute in
    nth 0 twinReturns (RoundReturn.mk None 0 0 0 0 0 0 0 0 0).


(** The scenario company with the two Seed rounds of 2025, in the order
    they were added, and its three stages. *)
Definition twoSeeds : company := Examples.acme 20 true [Examples.seed; laterSeed].

Definition twoSeedsStages : list CapTableStage.t :=
  Eval vm_compute in
    match CapTableCalculator.calculateEvolution 2026 twoSeeds with
    | Ok stages => stages
    | Throw _ => []
    end.

Definition twoSeedsFirst : CapTableStage.t :=
  Eval vm_compute in
    nth 1 twoSeedsStages (Trace.rawIncorporationStage 0 0 0 None).

Definition twoSeedsSecond : CapTableStage.t :=
  Eval vm_compute in
    nth 2 twoSeedsStages (Trace.rawIncorporationStage 0 0 0 None).

(** The returns of the company with the two Seed rounds at its exit. *)
Definition twoSeedsReturns : ReturnsAnalysis.t :=
  Eval vm_compute in
    match CapTableCalculator.calculateReturns 2026 (fun x _ => PrimFloat.sqrt x)
            (Some twoSeedsStages) twoSeeds with
    | Ok returns => returns
    | Throw _ =>
        ReturnsAnalysis.mk 0 0 0 0 0 [] []
          {| ReturnsAnalysis.founders := 0;
             ReturnsAnalysis.esop := 0;
             ReturnsAnalysis.investors := 0 |}
    end.

(** The Seed round with a full ratchet and a 20% discount before the later
    Seed round. *)
Definition twoSeedsRatchet : company :=
  Examples.acme 20 true [Examples.seedRatchet; laterSeed].

(** A Series A round of 2027. *)
Definition seriesA : FundingRound.t :=
  {| FundingRound.id := None;
     FundingRound.type := Some "Series A";
     FundingRound.year := 2027;
     FundingRound.preMoneyValuation := 20000000;
     FundingRound.investment := 5000000;
     FundingRound.revenue := 0;
     FundingRound.liquidationPref := "1x";
     FundingRound.antiDilution := "none";
     FundingRound.discountRate := 0;
     FundingRound.postMoneyValuation := None;
     FundingRound.equityPercentage := None;
     FundingRound.sharesIssued := None;
     FundingRound.ownershipPercent := None |}.

(** The scenario company to which the Series A round was added first and
    the two Seed rounds of 2025 after it, and its four stages. *)
Definition threeRounds : company :=
  Examples.acme 20 true [seriesA; Examples.seed; laterSeed].

Definition threeRoundsStages : list CapTableStage.t :=
  Eval vm_compute in
    match CapTableCalculator.calculateEvolution 2026 threeRounds with
    | Ok stages => stages
    | Throw _ => []
    end.

(** The Seed round after [calculateEquityPercentage] and a change of its
    pre-money valuation to 9,000,000. *)
Definition staleSeed : FundingRound.t :=
  {| FundingRound.id := None;
     FundingRound.type := Some "Seed";
     FundingRound.year := 2025;
     FundingRound.preMoneyValuation := 9000000;
     FundingRound.investment := 1000000;
     FundingRound.revenue := 0;
     FundingRound.liquidationPref := "1x";
     FundingRound.antiDilution := "none";
     FundingRound.discountRate := 0;
     FundingRound.postMoneyValuation := Some 6000000;
     FundingRound.equityPercentage := None;
     FundingRound.sharesIssued := None;
     FundingRound.ownershipPercent := None |}.

(** The company object of [Examples.scenarioStore]. *)
Definition scenarioObject : Company.t Store.loc :=
  {| Company.companyName := "Acme";
     Company.currency := "GBP";
     Company.founderShares := 10000000;
     Company.optionPoolPercent := 20;
     Company.optionPoolTopUp := true;
     Company.useRevenueMultiples := true;
     Company.exitYear := 2030;
     Company.exitValuation := 50000000;
     Company.exitMultiple := 5;
     Company.rounds := [0%nat] |}.

(** The returns of the scenario company at its exit. *)
Definition scenarioReturns : ReturnsAnalysis.t :=
  Eval vm_compute in
    match CapTableCalculator.calculateReturns 2026 (fun x _ => PrimFloat.sqrt x)
            (Some Examples.scenarioStages) Examples.scenario with
    | Ok returns => returns
    | Throw _ =>
        ReturnsAnalysis.mk 0 0 0 0 0 [] []
          {| ReturnsAnalysis.founders := 0;
             ReturnsAnalysis.esop := 0;
             ReturnsAnalysis.investors := 0 |}
    end.

End Cases.

(** ** Properties *)

(** *** The scenario of the specification *)

(** C2. The company with 10,000,000 founder shares, a 20% option pool with
    top-up, one Seed round in 2025 (5,000,000 pre-money, 1,000,000 invested,
    no revenue) and an exit in 2030 at 50,000,000, once it passes validation,
    gets an incorporation stage with [floor(10,000,000*20/80) = 2,500,000]
    pool shares and 12,500,000 shares in all.  The Seed round then issues
    [floor(12,500,000 * pct / (100 - pct))] new investor shares with
    [pct = 1,000,000/6,000,000*100]: that is 2,499,999 shares, one short
    of 2,500,000.  The founders end strictly between 0% and 80%, and the
    final founder, pool and investor percentages add up to 100 within
    0.1. *)
Theorem C2_scenario (currentYear : float) (c : company) (r : FundingRound.t) :
  c.(Company.founderShares) = 10000000 ->
  c.(Company.optionPoolPercent) = 20 ->
  c.(Company.optionPoolTopUp) = true ->
  c.(Company.rounds) = [r] ->
  r.(FundingRound.type) = Some "Seed" ->
  r.(FundingRound.year) = 2025 ->
  r.(FundingRound.preMoneyValuation) = 5000000 ->
  r.(FundingRound.investment) = 1000000 ->
  r.(FundingRound.revenue) = 0 ->
  c.(Company.exitYear) = 2030 ->
  c.(Company.exitValuation) = 50000000 ->
  CompanyM.validate c = Ok true ->
  exists incorporation seed,
    CapTableCalculator.calculateEvolution currentYear c = Ok [incorporation; seed]
    /\ CompanyM.getInitialOptionPoolShares c = JS.Math_floor (10000000 * 20 / 80)
    /\ incorporation.(CapTableStage.optionPoolShares) = 2500000
    /\ incorporation.(CapTableStage.totalShares) = 12500000
    /\ (let pct := 1000000 / 6000000 * 100 in
        seed.(CapTableStage.newInvestorShares)
        = JS.Math_floor (12500000 * pct / (100 - pct)))
    /\ seed.(CapTableStage.newInvestorShares) = 2499999
    /\ (JS.Math_abs (seed.(CapTableStage.newInvestorShares) - 2500000) <=? 1) = true
    /\ (0 <? seed.(CapTableStage.founderOwnership)) = true
    /\ (seed.(CapTableStage.founderOwnership) <? 80) = true
    /\ (JS.Math_abs (CapTableStageM.ownershipTotal seed - 100) <=? 0.1) = true.
Proof.
  intros HF HP HT HR Hty Hy Hpre Hinv Hrev Hey Hev Hvalid.
  unfold CapTableCalculator.calculateEvolution.
  rewrite Hvalid.
  destruct c as [name cur F P T U ey ev em rs].
  destruct r as [i ty y pre inv rev lp ad dr pm ep si op].
  simpl in *. subst.
  do 2 eexists.
  split; [vm_compute; reflexivity|].
  repeat split; vm_compute; reflexivity.
Qed.

(** The scenario company itself passes validation and has the stated
    stages. *)
Lemma C2_scenario_witness :
  exists incorporation seed,
    CapTableCalculator.calculateEvolution 2026 Examples.scenario = Ok [incorporation; seed]
    /\ CompanyM.getInitialOptionPoolShares Examples.scenario = JS.Math_floor (10000000 * 20 / 80)
    /\ incorporation.(CapTableStage.optionPoolShares) = 2500000
    /\ incorporation.(CapTableStage.totalShares) = 12500000
    /\ (let pct := 1000000 / 6000000 * 100 in
        seed.(CapTableStage.newInvestorShares)
        = JS.Math_floor (12500000 * pct / (100 - pct)))
    /\ seed.(CapTableStage.newInvestorShares) = 2499999
    /\ (JS.Math_abs (seed.(CapTableStage.newInvestorShares) - 2500000) <=? 1) = true
    /\ (0 <? seed.(CapTableStage.founderOwnership)) = true
    /\ (seed.(CapTableStage.founderOwnership) <? 80) = true
    /\ (JS.Math_abs (CapTableStageM.ownershipTotal seed - 100) <=? 0.1) = true.
Proof.
  apply (@C2_scenario 2026 Examples.scenario Examples.seed); reflexivity.
Defined.

(** *** Comparisons of numbers *)

Lemma SFcompare_swap (x y : spec_float) :
  SFcompare y x = match SFcompare x y with
                  | Some c => Some (CompOpp c)
                  | None => None
                  end.
Proof.
  destruct x as [sx|sx| |sx mx ex], y as [sy|sy| |sy my ey]; simpl;
    try reflexivity;
    try (destruct sx; reflexivity); try (destruct sy; reflexivity);
    try (destruct sx, sy; reflexivity).
  pose proof (Pos.compare_cont_antisym mx my Eq) as H. simpl in H.
  destruct sx, sy; simpl; try reflexivity;
    rewrite (Z.compare_antisym ex ey);
    destruct (ex ?= ey)%Z; simpl; try reflexivity; rewrite <- H; try reflexivity.
Qed.

(** [x < y] excludes [y <= x]. *)
Lemma ltb_not_leb (x y : float) : (x <? y) = true -> (y <=? x) = false.
Proof.
  rewrite FloatAxioms.ltb_spec, FloatAxioms.leb_spec. unfold SFltb, SFleb.
  rewrite (SFcompare_swap (Prim2SF x) (Prim2SF y)).
  destruct (SFcompare (Prim2SF x) (Prim2SF y)) as [[ | | ]|]; simpl; congruence.
Qed.

(** *** The internal rate of return *)

(** C7. [calculateIRR] returns 0 when [years <= 0] or [investment <= 0];
    otherwise -100 when the multiple [returnAmount / investment] is [<= 0];
    otherwise [(multiple^(1/years) - 1) * 100].  A round with 1,000,000
    invested, an exit value of 0 and a positive number of years held gets
    exactly -100, which is neither [NaN] nor an infinity; and that is the
    [irr] its record gets in [_calculateRoundReturns] when its entry of the
    liquidation stack holds 0%. *)
Theorem C7_calculateIRR (Math_pow : float -> float -> float) :
  (forall investment returnAmount years,
      (years <=? 0) = true \/ (investment <=? 0) = true ->
      NumberUtils.calculateIRR Math_pow investment returnAmount years = 0)
  /\ (forall investment returnAmount years,
      (years <=? 0) = false -> (investment <=? 0) = false ->
      (returnAmount / investment <=? 0) = true ->
      NumberUtils.calculateIRR Math_pow investment returnAmount years = -100)
  /\ (forall investment returnAmount years,
      (years <=? 0) = false -> (investment <=? 0) = false ->
      (returnAmount / investment <=? 0) = false ->
      NumberUtils.calculateIRR Math_pow investment returnAmount years
      = (Math_pow (returnAmount / investment) (1 / years) - 1) * 100)
  /\ (forall years,
      (0 <? years) = true ->
      NumberUtils.calculateIRR Math_pow 1000000 0 years = -100)
  /\ (is_nan (-100) = false /\ is_infinity (-100) = false)
  /\ (forall round entry exitValuation exitYear,
      round.(FundingRound.investment) = 1000000 ->
      CapTableCalculator.findEntry [entry] round = Some entry ->
      entry.(StackEntry.ownershipPercent) / 100 * exitValuation = 0 ->
      (0 <? DateUtils.yearsBetween round.(FundingRound.year) exitYear) = true ->
      exists record,
        CapTableCalculator._calculateRoundReturns Math_pow [round] [entry]
          exitValuation exitYear = [record]
        /\ record.(RoundReturn.exitValue) = 0
        /\ record.(RoundReturn.irr) = -100).
Proof.
  assert (Hzero : forall years, (0 <? years) = true ->
            NumberUtils.calculateIRR Math_pow 1000000 0 years = -100).
  { intros years Hy. unfold NumberUtils.calculateIRR.
    rewrite (ltb_not_leb Hy). reflexivity. }
  repeat split.
  - intros investment returnAmount years [H|H]; unfold NumberUtils.calculateIRR;
      rewrite H; [reflexivity | now rewrite orb_true_r].
  - intros investment returnAmount years Hy Hi Hm. unfold NumberUtils.calculateIRR.
    now rewrite Hy, Hi, Hm.
  - intros investment returnAmount years Hy Hi Hm. unfold NumberUtils.calculateIRR.
    now rewrite Hy, Hi, Hm.
  - exact Hzero.
  - intros round entry exitValuation exitYear Hinv Hfind Hexit Hyears.
    simpl. simpl in Hfind. rewrite Hfind.
    eexists. split; [reflexivity|]. simpl. split; [exact Hexit|].
    rewrite Hinv, Hexit. now apply Hzero.
Qed.

(** With [Math.pow(x, 1/2)] computed by the square root: 1,000,000 that
    became 4,000,000 in two years, 1,000,000 that became nothing in five,
    and nothing held at all. *)
Lemma C7_calculateIRR_witness :
  NumberUtils.calculateIRR (fun x _ => PrimFloat.sqrt x) 1000000 4000000 2 = 100
  /\ NumberUtils.calculateIRR (fun x _ => PrimFloat.sqrt x) 1000000 0 5 = -100
  /\ NumberUtils.calculateIRR (fun x _ => PrimFloat.sqrt x) 1000000 4000000 0 = 0.
Proof.
  destruct (C7_calculateIRR (fun x _ => PrimFloat.sqrt x)) as (H0 & Hloss & Hpow & Hfloor & _).
  split; [|split].
  - rewrite Hpow; reflexivity.
  - apply Hfloor; reflexivity.
  - apply H0; left; reflexivity.
Defined.

(** *** Failures of the returns engine *)

(** C4, as the code has it.  [calculateReturns] on an empty or missing stage
    sequence throws the [DataError] inside its own [try]; its [catch] turns
    every error into a [CalculationError] of operation
    ["returns_calculation"], whose message ends with the message of the
    [DataError].  The caller gets that [CalculationError]. *)
Theorem C4_empty_evolution_is_wrapped (currentYear : float)
    (Math_pow : float -> float -> float) (c : company) :
  CapTableCalculator.calculateReturns currentYear Math_pow (Some []) c
  = Throw (CalculationError "returns_calculation"
             [Text "Failed to calculate returns: "; Text "Cap table evolution is empty"]
             (ReturnsContext (Some 0%nat) (CompanyM.toObject c)))
  /\ CapTableCalculator.calculateReturns currentYear Math_pow None c
     = Throw (CalculationError "returns_calculation"
                [Text "Failed to calculate returns: "; Text "Cap table evolution is empty"]
                (ReturnsContext None (CompanyM.toObject c))).
Proof. split; reflexivity. Qed.

(** C4 fails as stated: for the scenario company and an empty stage
    sequence no [DataError] comes out of [calculateReturns]. *)
Lemma C4_no_DataError_reaches_caller :
  ~ exists dataType msg,
      CapTableCalculator.calculateReturns 2026 (fun x _ => PrimFloat.sqrt x) (Some [])
        Examples.scenario
      = Throw (DataError dataType msg).
Proof.
  intros (dataType & msg & H). vm_compute in H. discriminate H.
Qed.

(** *** What a successful run has gone through *)

Lemma _createIncorporationStage_eq (currentYear : float) (c : company)
    (founderShares optionPoolShares : float) (firstRoundYear : option float) :
  CapTableCalculator._createIncorporationStage currentYear c founderShares
    optionPoolShares firstRoundYear
  = (CapTableStageM.validateOwnership
       (Trace.incorporationStage currentYear founderShares optionPoolShares firstRoundYear) ;;;
     Ok (Trace.incorporationStage currentYear founderShares optionPoolShares firstRoundYear)).
Proof. reflexivity. Qed.

Lemma _processRound_eq (currentYear : float) (round : FundingRound.t)
    (founderShares optionPoolShares totalInvestorShares : float) (c : company)
    (previous : CapTableStage.t) :
  CapTableCalculator._processRound currentYear round founderShares optionPoolShares
    totalInvestorShares c (Some previous)
  = try_catch
      (CapTableStageM.validateOwnership
         (Trace.stageOfRound currentYear round c founderShares optionPoolShares
            totalInvestorShares previous) ;;;
       Ok (Trace.stageOfRound currentYear round c founderShares optionPoolShares
             totalInvestorShares previous))
      (fun error =>
         Throw (CalculationError "round_processing"
                  ([Text "Failed to process ";
                    match round.(FundingRound.type) with
                    | Some s => Text s
                    | None => Undefined
                    end;
                    Text " round: "] ++ error_message error)
                  (RoundContext (FundingRoundM.toObject round)))).
Proof.
  unfold CapTableCalculator._processRound, Trace.stageOfRound, Trace.rawStageOfRound,
    Trace.entryOfRound, Trace.totalSharesAfter, Trace.optionPoolTopUpShares,
    Trace.newInvestorShares, Trace.investorOwnershipPercent, Trace.totalSharesBefore.
  destruct (Company.optionPoolTopUp c); reflexivity.
Qed.

(** [validateOwnership] returns exactly when its test is false. *)
Lemma validateOwnership_Ok (s : CapTableStage.t) (b : bool) :
  CapTableStageM.validateOwnership s = Ok b ->
  b = true /\ (0.1 <? JS.Math_abs (CapTableStageM.ownershipTotal s - 100)) = false.
Proof.
  unfold CapTableStageM.validateOwnership.
  destruct (0.1 <? _); [discriminate|]. intros H; injection H as <-. now split.
Qed.

Lemma validateOwnership_checked (s : CapTableStage.t) :
  (0.1 <? JS.Math_abs (CapTableStageM.ownershipTotal s - 100)) = false ->
  CapTableStageM.validateOwnership s = Ok true.
Proof.
  unfold CapTableStageM.validateOwnership. now intros ->.
Qed.

Lemma _processRound_Ok (currentYear : float) (round : FundingRound.t)
    (founderShares optionPoolShares totalInvestorShares : float) (c : company)
    (previousStage : option CapTableStage.t) (stage : CapTableStage.t) :
  CapTableCalculator._processRound currentYear round founderShares optionPoolShares
    totalInvestorShares c previousStage = Ok stage ->
  exists previous,
    previousStage = Some previous
    /\ stage = Trace.stageOfRound currentYear round c founderShares optionPoolShares
                 totalInvestorShares previous
    /\ CapTableStageM.validateOwnership stage = Ok true.
Proof.
  destruct previousStage as [previous|].
  - rewrite _processRound_eq. intros H. exists previous. split; [reflexivity|].
    destruct (CapTableStageM.validateOwnership
                (Trace.stageOfRound currentYear round c founderShares optionPoolShares
                   totalInvestorShares previous)) as [b|e] eqn:E; simpl in H.
    + injection H as <-. split; [reflexivity|].
      destruct (validateOwnership_Ok _ E) as [-> _]. exact E.
    + discriminate H.
  - unfold CapTableCalculator._processRound.
    destruct (Company.optionPoolTopUp c); simpl; discriminate.
Qed.

Lemma lastStage_snoc (evolution : list CapTableStage.t) (stage : CapTableStage.t) :
  CapTableCalculator.lastStage (evolution ++ [stage]) = Some stage.
Proof.
  unfold CapTableCalculator.lastStage.
  rewrite length_app, Nat.add_1_r. simpl. rewrite Nat.sub_0_r.
  rewrite nth_error_app2 by lia. now rewrite Nat.sub_diag.
Qed.

(** An invariant of the loop of [calculateEvolution]: a property of the
    stages so far and of the two tracking variables that every round
    keeps holds of what the loop returns. *)
Lemma processRounds_invariant (currentYear : float) (c : company) (founderShares : float)
    (Inv : list CapTableStage.t -> float -> float -> Prop) :
  (forall evolution previous round pool investors,
      Inv (evolution ++ [previous]) pool investors ->
      CapTableStageM.validateOwnership
        (Trace.stageOfRound currentYear round c founderShares pool investors previous)
      = Ok true ->
      let stage :=
        Trace.stageOfRound currentYear round c founderShares pool investors previous in
      Inv ((evolution ++ [previous]) ++ [stage])
        stage.(CapTableStage.optionPoolShares) stage.(CapTableStage.investorShares)) ->
  forall rounds evolution previous pool investors stages,
    Inv (evolution ++ [previous]) pool investors ->
    CapTableCalculator.processRounds currentYear rounds c founderShares pool investors
      (evolution ++ [previous]) = Ok stages ->
    exists pool' investors', Inv stages pool' investors'.
Proof.
  intros Hstep rounds.
  induction rounds as [|round rest IH]; intros evolution previous pool investors stages HI H.
  - simpl in H. injection H as <-. eauto.
  - simpl in H.
    destruct (CapTableCalculator._processRound currentYear round founderShares pool
                investors c (CapTableCalculator.lastStage (evolution ++ [previous])))
      as [stage|e] eqn:E; simpl in H; [|discriminate].
    rewrite lastStage_snoc in E.
    destruct (_processRound_Ok _ _ _ _ _ _ _ E) as (p & Hp & Hs & Hv).
    injection Hp as <-. subst stage.
    eapply IH; [|exact H].
    now apply Hstep.
Qed.

Lemma try_catch_Ok {A : Type} (r : result A) (handler : error -> result A) (a : A) :
  (forall e, handler e <> Ok a) -> try_catch r handler = Ok a -> r = Ok a.
Proof.
  intros Hh. destruct r; simpl; [trivial|]. intros H. now apply Hh in H.
Qed.

(** What [calculateEvolution] has done when it returns. *)
Lemma calculateEvolution_Ok (currentYear : float) (c : company)
    (stages : list CapTableStage.t) :
  CapTableCalculator.calculateEvolution currentYear c = Ok stages ->
  let firstRoundYear :=
    match CompanyM.getRoundsByYear c with
    | first :: _ => Some first.(FundingRound.year)
    | [] => None
    end in
  let incorporation :=
    Trace.incorporationStage currentYear c.(Company.founderShares)
      (CompanyM.getInitialOptionPoolShares c) firstRoundYear in
  CompanyM.validate c = Ok true
  /\ CapTableStageM.validateOwnership incorporation = Ok true
  /\ CapTableCalculator.processRounds currentYear (CompanyM.getRoundsByYear c) c
       c.(Company.founderShares) (CompanyM.getInitialOptionPoolShares c) 0
       ([] ++ [incorporation]) = Ok stages.
Proof.
  intros H. unfold CapTableCalculator.calculateEvolution in H.
  apply try_catch_Ok in H; [|discriminate].
  destruct (CompanyM.validate c) as [b|e] eqn:Ev; simpl in H; [|discriminate].
  assert (b = true) as ->.
  { unfold CompanyM.validate in Ev.
    destruct (Validator.validateCompanyData c); simpl in Ev; [|discriminate].
    destruct (CompanyM.validateRounds _ _); simpl in Ev; [|discriminate].
    now injection Ev. }
  rewrite _createIncorporationStage_eq in H.
  destruct (CapTableStageM.validateOwnership _) as [b|e] eqn:Ei; simpl in H; [|discriminate].
  destruct (validateOwnership_Ok _ Ei) as [-> _].
  intros firstRoundYear incorporation. repeat split; assumption.
Qed.


(** Every stage of a successful run has passed [validateOwnership]. *)
Lemma stages_checked (currentYear : float) (c : company) (stages : list CapTableStage.t) :
  CapTableCalculator.calculateEvolution currentYear c = Ok stages ->
  Forall (fun s => CapTableStageM.validateOwnership s = Ok true) stages.
Proof.
  intros H. destruct (calculateEvolution_Ok _ _ H) as (_ & Hinc & Hloop).
  assert (HI : exists pool investors : float,
             Forall (fun s => CapTableStageM.validateOwnership s = Ok true) stages).
  { eapply (@processRounds_invariant currentYear c c.(Company.founderShares)
              (fun evolution _ _ =>
                 Forall (fun s => CapTableStageM.validateOwnership s = Ok true) evolution));
      [| |exact Hloop].
    - intros evolution previous round pool investors HI Hv stage.
      apply Forall_app. split; [exact HI|]. now constructor.
    - now constructor. }
  now destruct HI as (_ & _ & HF).
Qed.

(** *** Ownership conservation and the 100% option pool *)


(** C1 fails on the code.  The company with a 100% option pool and no round
    passes validation and [calculateEvolution] returns its incorporation
    stage, whose founder, pool and investor percentages are 0, [NaN] and
    0: their sum is [NaN], which is not within 0.1 of 100. *)
Theorem C1_nan_total_is_accepted (currentYear : float) :
  CompanyM.validate (Examples.acme 100 true []) = Ok true
  /\ exists incorporation,
       CapTableCalculator.calculateEvolution currentYear (Examples.acme 100 true [])
       = Ok [incorporation]
       /\ incorporation.(CapTableStage.founderOwnership) = 0
       /\ incorporation.(CapTableStage.optionPoolOwnership) = nan
       /\ incorporation.(CapTableStage.investorOwnership) = 0
       /\ CapTableStageM.ownershipTotal incorporation = nan
       /\ (JS.Math_abs (CapTableStageM.ownershipTotal incorporation - 100) <=? 0.1) = false.
Proof.
  split; [vm_compute; reflexivity|].
  eexists. split; [vm_compute; reflexivity|].
  repeat split.
Qed.

(** What the check does ensure: in every stage of a successful run the
    test [|total - 100| > 0.1] is false, that is, the total is within 0.1
    of 100 or it is [NaN]. *)
Lemma stages_total_checked (currentYear : float) (c : company)
    (stages : list CapTableStage.t) :
  CapTableCalculator.calculateEvolution currentYear c = Ok stages ->
  Forall (fun s => (0.1 <? JS.Math_abs (CapTableStageM.ownershipTotal s - 100)) = false)
    stages.
Proof.
  intros H. apply stages_checked in H.
  eapply Forall_impl; [|exact H].
  intros s Hs. now apply validateOwnership_Ok in Hs.
Qed.


(** *** The liquidation stack *)

Lemma consecutive_snoc {A : Type} (l : list A) (p s a b : A) :
  consecutive ((l ++ [p]) ++ [s]) a b ->
  consecutive (l ++ [p]) a b \/ (a = p /\ b = s).
Proof.
  intros (i & Ha & Hb).
  destruct (Nat.lt_ge_cases (S i) (List.length (l ++ [p]))) as [Hlt|Hge].
  - left. exists i. rewrite nth_error_app1 in Ha, Hb by lia. now split.
  - right. rewrite length_app in Hge. simpl in Hge.
    assert (Hi : i < List.length ((l ++ [p]) ++ [s]))
      by (apply nth_error_Some; congruence).
    assert (HSi : S i < List.length ((l ++ [p]) ++ [s]))
      by (apply nth_error_Some; congruence).
    rewrite !length_app in Hi, HSi. simpl in Hi, HSi.
    assert (i = List.length l) as -> by lia.
    rewrite nth_error_app1 in Ha by (rewrite length_app; simpl; lia).
    rewrite nth_error_app2 in Ha by lia. rewrite Nat.sub_diag in Ha. simpl in Ha.
    rewrite nth_error_app2 in Hb by (rewrite length_app; simpl; lia).
    rewrite length_app in Hb. cbn [List.length] in Hb.
    replace (S (List.length l) - (List.length l + 1))%nat with 0%nat in Hb by lia.
    simpl in Hb. split; [now injection Ha | now injection Hb].
Qed.

(** A relation that every round establishes between the stage before it
    and its own holds of every two consecutive stages of a run. *)
Lemma consecutive_stages (currentYear : float) (c : company)
    (R : CapTableStage.t -> CapTableStage.t -> Prop) (stages : list CapTableStage.t) :
  (forall previous round pool investors,
      R previous
        (Trace.stageOfRound currentYear round c c.(Company.founderShares) pool investors
           previous)) ->
  CapTableCalculator.calculateEvolution currentYear c = Ok stages ->
  forall a b, consecutive stages a b -> R a b.
Proof.
  intros HR H. destruct (calculateEvolution_Ok _ _ H) as (_ & Hinc & Hloop).
  assert (HI : exists pool investors : float, forall a b, consecutive stages a b -> R a b).
  { eapply (@processRounds_invariant currentYear c c.(Company.founderShares)
              (fun evolution _ _ => forall a b, consecutive evolution a b -> R a b));
      [| |exact Hloop].
    - intros evolution previous round pool investors HI Hv stage a b Hab.
      apply consecutive_snoc in Hab. destruct Hab as [Hab|[-> ->]]; [now apply HI|].
      apply HR.
    - intros a b (i & Ha & Hb). simpl in Hb. now destruct i. }
  now destruct HI as (_ & _ & HI).
Qed.

Lemma calculateOwnership_liquidationStack (s : CapTableStage.t) :
  (CapTableStageM.calculateOwnership s).(CapTableStage.liquidationStack)
  = s.(CapTableStage.liquidationStack).
Proof.
  unfold CapTableStageM.calculateOwnership. now destruct (_ =? _).
Qed.

(** C6. In the stages [calculateEvolution] returns, the liquidation stack of
    a stage is the stack of the stage before it with exactly one entry
    appended: every entry of the earlier stack is found unchanged, at the
    same position and with the same [ownershipPercent], in the later one. *)
Theorem C6_liquidation_stack_is_append_only (currentYear : float) (c : company)
    (stages : list CapTableStage.t) (earlier later : CapTableStage.t) :
  CapTableCalculator.calculateEvolution currentYear c = Ok stages ->
  consecutive stages earlier later ->
  (exists entry,
      later.(CapTableStage.liquidationStack)
      = earlier.(CapTableStage.liquidationStack) ++ [entry])
  /\ (forall j entry,
        nth_error earlier.(CapTableStage.liquidationStack) j = Some entry ->
        nth_error later.(CapTableStage.liquidationStack) j = Some entry)
  /\ (forall j entry,
        nth_error earlier.(CapTableStage.liquidationStack) j = Some entry ->
        option_map StackEntry.ownershipPercent
          (nth_error later.(CapTableStage.liquidationStack) j)
        = Some entry.(StackEntry.ownershipPercent)).
Proof.
  intros H Hc.
  assert (Happ : exists entry,
             later.(CapTableStage.liquidationStack)
             = earlier.(CapTableStage.liquidationStack) ++ [entry]).
  { revert earlier later Hc.
    apply (@consecutive_stages currentYear c
             (fun a b => exists entry,
                  b.(CapTableStage.liquidationStack)
                  = a.(CapTableStage.liquidationStack) ++ [entry]) stages); [|exact H].
    intros previous round pool investors. eexists.
    unfold Trace.stageOfRound. rewrite calculateOwnership_liquidationStack.
    reflexivity. }
  split; [exact Happ|].
  destruct Happ as (e & He).
  assert (Hkeep : forall j entry,
             nth_error earlier.(CapTableStage.liquidationStack) j = Some entry ->
             nth_error later.(CapTableStage.liquidationStack) j = Some entry).
  { intros j entry Hj. rewrite He. rewrite nth_error_app1; [exact Hj|].
    apply nth_error_Some. congruence. }
  split; [exact Hkeep|].
  intros j entry Hj. now rewrite (Hkeep _ _ Hj).
Qed.

Lemma scenario_evolution :
  CapTableCalculator.calculateEvolution 2026 Examples.scenario = Ok Examples.scenarioStages.
Proof. vm_compute. reflexivity. Qed.

(** In the company with two Seed rounds of 2025 the stage of the second
    follows the stage of the first, whose stack holds the entry of the
    first round: the later stack is that entry, as it was, and one entry
    more, for the second round. *)
Lemma C6_liquidation_stack_witness :
  (exists entry,
     Cases.twoSeedsSecond.(CapTableStage.liquidationStack)
     = Cases.twoSeedsFirst.(CapTableStage.liquidationStack) ++ [entry])
  /\ (exists first,
        nth_error Cases.twoSeedsFirst.(CapTableStage.liquidationStack) 0 = Some first
        /\ nth_error Cases.twoSeedsSecond.(CapTableStage.liquidationStack) 0 = Some first
        /\ first.(StackEntry.investment) = 1000000%float
        /\ option_map StackEntry.ownershipPercent
             (nth_error Cases.twoSeedsSecond.(CapTableStage.liquidationStack) 0)
           = Some first.(StackEntry.ownershipPercent))
  /\ map StackEntry.investment Cases.twoSeedsSecond.(CapTableStage.liquidationStack)
     = [1000000; 2000000]%float.
Proof.
  destruct (@C6_liquidation_stack_is_append_only 2026 Cases.twoSeeds
              Cases.twoSeedsStages Cases.twoSeedsFirst Cases.twoSeedsSecond)
    as (Happend & Hsame & Hpercent).
  - vm_compute. reflexivity.
  - exists 1%nat. split; reflexivity.
  - split; [exact Happend|]. split; [|reflexivity].
    eexists. split; [reflexivity|]. split; [|split].
    + apply Hsame. reflexivity.
    + reflexivity.
    + apply Hpercent. reflexivity.
Defined.


(** *** Validation *)

Lemma validateFundingRound_clean (round : FundingRound.t) :
  Validator.roundErrors round = [] -> FundingRoundM.validate round = Ok true.
Proof.
  unfold FundingRoundM.validate, Validator.validateFundingRound. now intros ->.
Qed.

Lemma validateFundingRound_errors (round : FundingRound.t) :
  Validator.roundErrors round <> [] ->
  FundingRoundM.validate round
  = Throw (ValidationError [Text "Funding Round"]
             [Count (List.length (Validator.roundErrors round));
              Text " validation error(s) in ";
              match round.(FundingRound.type) with
              | Some s => Text s
              | None => Undefined
              end]
             (Errors (Validator.roundErrors round))).
Proof.
  unfold FundingRoundM.validate, Validator.validateFundingRound.
  destruct (Validator.roundErrors round); [congruence|reflexivity].
Qed.

Lemma validateRounds_clean (rounds : list FundingRound.t) (index : nat) :
  Forall (fun r => Validator.roundErrors r = []) rounds ->
  CompanyM.validateRounds rounds index = Ok tt.
Proof.
  intros H. revert index. induction H as [|r rest Hr _ IH]; intros index; simpl.
  - reflexivity.
  - rewrite (@validateFundingRound_clean _ Hr). simpl. apply IH.
Qed.

Lemma validateRounds_first (before after : list FundingRound.t) (round : FundingRound.t)
    (index : nat) :
  Forall (fun r => Validator.roundErrors r = []) before ->
  Validator.roundErrors round <> [] ->
  CompanyM.validateRounds (before ++ round :: after) index
  = Throw (ValidationError [Text "Round "; Count (index + List.length before + 1)]
             [Count (List.length (Validator.roundErrors round));
              Text " validation error(s) in ";
              match round.(FundingRound.type) with
              | Some s => Text s
              | None => Undefined
              end]
             Null).
Proof.
  intros H Hr. revert index. induction H as [|r rest Hclean _ IH]; intros index; simpl.
  - rewrite (@validateFundingRound_errors _ Hr). simpl. now rewrite Nat.add_0_r.
  - rewrite (@validateFundingRound_clean _ Hclean). simpl. rewrite IH.
    now replace (index + 1 + List.length rest)%nat with (index + S (List.length rest))%nat
      by lia.
Qed.

Lemma failed_In (checks : list (option error)) (e : error) :
  In e (Checks.failed checks) <-> In (Some e) checks.
Proof.
  induction checks as [|[e'|] rest IH]; simpl.
  - tauto.
  - rewrite IH. split; intros [H|H]; auto; left; congruence.
  - rewrite IH. split; [auto|]. intros [H|H]; [discriminate|exact H].
Qed.

Lemma failed_nil (checks : list (option error)) :
  Checks.failed checks = [] <-> Checks.pass checks.
Proof.
  unfold Checks.pass. split.
  - intros H e He. apply failed_In in He. rewrite H in He. exact He.
  - intros H. destruct (Checks.failed checks) as [|e rest] eqn:E; [reflexivity|].
    exfalso. apply (H e), failed_In. rewrite E. now left.
Qed.

Lemma failed_cons (checks : list (option error)) :
  Checks.failed checks <> [] <-> Checks.fails checks.
Proof.
  unfold Checks.fails. split.
  - intros H. destruct (Checks.failed checks) as [|e rest] eqn:E; [congruence|].
    exists e. apply failed_In. rewrite E. now left.
  - intros [e He] H. apply failed_In in He. rewrite H in He. exact He.
Qed.

Lemma failed_app (checks more : list (option error)) :
  Checks.failed (checks ++ more) = Checks.failed checks ++ Checks.failed more.
Proof.
  induction checks as [|[e|] rest IH]; simpl; [reflexivity| |exact IH].
  now rewrite IH.
Qed.

(** A [try] whose [catch] pushes the error adds the error of its check,
    when the check fails, and nothing else. *)
Lemma collect_failure {A : Type} (errors : list error) (check : result A) :
  Validator.collect errors check = errors ++ Checks.failed [Checks.failure check].
Proof.
  destruct check; simpl; [now rewrite app_nil_r|reflexivity].
Qed.

(** The list [validateCompanyData] has collected holds the errors of the
    failed checks on the company, each once, in their order. *)
Lemma companyErrors_checks {R : Type} (data : Company.t R) :
  Validator.companyErrors data = Checks.failed (Checks.companyChecks data).
Proof.
  unfold Validator.companyErrors, Checks.companyChecks.
  cbv zeta. rewrite !collect_failure.
  change [] with (Checks.failed []) at 1.
  rewrite <- !failed_app. reflexivity.
Qed.

(** The list [validateFundingRound] has collected holds the errors of the
    failed checks on the round, each once, in their order. *)
Lemma roundErrors_checks (round : FundingRound.t) :
  Validator.roundErrors round = Checks.failed (Checks.roundChecks round).
Proof.
  unfold Validator.roundErrors, Checks.roundChecks.
  cbv zeta. rewrite !collect_failure.
  change [] with (Checks.failed []) at 1.
  rewrite <- !failed_app. reflexivity.
Qed.

(** C3, as the code has it.  [validate] raises one [ValidationError].  When
    a check on a field of the company fails, the error lists the errors of
    the failed checks on the fields of the company: every one of them, no
    other error, each once and in the order of the checks; its message
    gives their number; no round has been validated.  When only rounds
    fail, the error is for the first round, in the order of insertion, that
    fails a check: its field names the round by position and its message
    gives the number of failed checks of that round, without listing them;
    the rounds after it have not been validated.  Without a failed check
    [validate] returns [true]. *)
Theorem C3_validate_reports (c : company) :
  (Checks.fails (Checks.companyChecks c) ->
   exists errors,
     CompanyM.validate c
     = Throw (ValidationError [Text "Company Data"]
                [Count (List.length errors); Text " validation error(s)"]
                (Errors errors))
     /\ (forall e, In e errors <-> In (Some e) (Checks.companyChecks c))
     /\ errors = Checks.failed (Checks.companyChecks c))
  /\ (Checks.pass (Checks.companyChecks c) ->
      forall before round after,
        c.(Company.rounds) = before ++ round :: after ->
        Forall (fun r => Checks.pass (Checks.roundChecks r)) before ->
        Checks.fails (Checks.roundChecks round) ->
        CompanyM.validate c
        = Throw (ValidationError [Text "Round "; Count (List.length before + 1)]
                   [Count (List.length (Checks.failed (Checks.roundChecks round)));
                    Text " validation error(s) in ";
                    match round.(FundingRound.type) with
                    | Some s => Text s
                    | None => Undefined
                    end]
                   Null))
  /\ (violations c = [] -> CompanyM.validate c = Ok true).
Proof.
  split; [|split].
  - intros H. exists (Checks.failed (Checks.companyChecks c)).
    split; [|split; [intros e; apply failed_In|reflexivity]].
    apply failed_cons in H. rewrite <- companyErrors_checks in *.
    unfold CompanyM.validate, Validator.validateCompanyData.
    destruct (Validator.companyErrors c); [congruence|reflexivity].
  - intros H before round after Hr Hbefore Hround.
    apply failed_nil in H. rewrite <- companyErrors_checks in H.
    apply failed_cons in Hround. rewrite <- roundErrors_checks in *.
    unfold CompanyM.validate, Validator.validateCompanyData. rewrite H. simpl.
    rewrite Hr, (@validateRounds_first before after round 0%nat); [reflexivity| |exact Hround].
    eapply Forall_impl; [|exact Hbefore].
    intros r Hp. rewrite roundErrors_checks. now apply failed_nil.
  - unfold violations. intros H. apply app_eq_nil in H. destruct H as [Hc H].
    rewrite <- companyErrors_checks in Hc.
    unfold CompanyM.validate, Validator.validateCompanyData. rewrite Hc. simpl.
    rewrite validateRounds_clean; [reflexivity|].
    induction (Company.rounds c) as [|r rest IH]; constructor.
    + simpl in H. apply app_eq_nil in H. rewrite roundErrors_checks. apply H.
    + apply IH. simpl in H. now apply app_eq_nil in H.
Qed.

(** The company without a name, with the unknown currency and the exit year
    1999 fails three checks on its fields: the error lists the three, in
    the order of the checks, and nothing about its round, which fails two
    checks of its own.  The company with two bad rounds is told that its
    first round has two errors.  The scenario company is valid. *)
Lemma C3_validate_reports_witness :
  (exists errors,
     CompanyM.validate Examples.unnamedAbroad
     = Throw (ValidationError [Text "Company Data"]
                [Count (List.length errors); Text " validation error(s)"]
                (Errors errors))
     /\ (forall e, In e errors <-> In (Some e) (Checks.companyChecks Examples.unnamedAbroad))
     /\ errors
        = [ ValidationError [Text "Company Name"]
              [Text "Company Name"; Text " is required"] Null;
            ValidationError [Text "Currency"]
              [Text "Invalid currency: "; Text "XYZ"] (String (Some "XYZ"));
            ValidationError [Text "Exit Year"]
              [Text "Exit Year"; Text " must be at least "; Num 2020] (Number 1999) ])
  /\ CompanyM.validate Examples.twoBadRounds
     = Throw (ValidationError [Text "Round "; Count 1]
                [Count 2; Text " validation error(s) in "; Text "Seed"] Null)
  /\ CompanyM.validate Examples.scenario = Ok true.
Proof.
  split; [|split].
  - destruct (proj1 (C3_validate_reports Examples.unnamedAbroad))
      as (errors & Hvalidate & Hlisted & Herrors).
    + eexists. vm_compute. left. reflexivity.
    + exists errors. split; [exact Hvalidate|split; [exact Hlisted|]].
      rewrite Herrors. vm_compute. reflexivity.
  - apply (proj1 (proj2 (C3_validate_reports Examples.twoBadRounds))
             (proj1 (failed_nil (Checks.companyChecks Examples.twoBadRounds)) eq_refl)
             [] Examples.badRound [Examples.badRound] eq_refl).
    + constructor.
    + eexists. vm_compute. right. left. reflexivity.
  - apply (proj2 (proj2 (C3_validate_reports Examples.scenario))). reflexivity.
Defined.

(** C3 fails as stated.  The company with two bad rounds has four
    violations, two on each round, and the error [validate] raises lists
    none of them: not, for one, that the year 1999 of its first round is
    before 2020. *)
Lemma C3_not_all_violations_listed :
  ~ (forall c : company,
       (1 < List.length (violations c))%nat ->
       exists e, CompanyM.validate c = Throw e
                 /\ forall v, In v (violations c) -> In v (listed e)).
Proof.
  intros H.
  destruct (H Examples.twoBadRounds) as (e & He & Hall).
  - vm_compute. lia.
  - vm_compute in He. injection He as <-.
    apply (Hall (ValidationError [Text "Round Year"]
                   [Text "Round Year"; Text " must be at least "; Num 2020]
                   (Number 1999))).
    vm_compute. left. reflexivity.
Qed.

(** The company without a name has three violations, one on the company and
    two on its round, and the error lists the first only. *)
Example nameless_violations :
  List.length (violations Examples.nameless) = 3%nat
  /\ exists e, CompanyM.validate Examples.nameless = Throw e
               /\ List.length (listed e) = 1%nat.
Proof. split; [reflexivity|]. eexists. split; reflexivity. Qed.

(** The rounds of the examples are rounds the constructor returns: built
    again from their own fields they are the same. *)
Example badRound_is_constructed :
  FundingRoundM.new 2026 Examples.badRound = Examples.badRound.
Proof. reflexivity. Qed.


(** *** Anti-dilution and discount rate *)

Lemma validateRounds_blank (rounds : list FundingRound.t) (index : nat) :
  CompanyM.validateRounds (map Provisions.blankRound rounds) index
  = CompanyM.validateRounds rounds index.
Proof.
  revert index. induction rounds as [|r rest IH]; intros index; simpl.
  - reflexivity.
  - rewrite IH. reflexivity.
Qed.

Lemma validate_blank (c : company) :
  CompanyM.validate (Provisions.blankCompany c) = CompanyM.validate c.
Proof.
  unfold CompanyM.validate. simpl. rewrite validateRounds_blank. reflexivity.
Qed.

Lemma insert_blank (ascending : bool) (x : FundingRound.t) (l : list FundingRound.t) :
  DataUtils.insert ascending (Provisions.blankRound x) (map Provisions.blankRound l)
  = map Provisions.blankRound (DataUtils.insert ascending x l).
Proof.
  induction l as [|y rest IH]; simpl.
  - reflexivity.
  - change (DataUtils.compareFn ascending (Provisions.blankRound x) (Provisions.blankRound y))
      with (DataUtils.compareFn ascending x y).
    destruct (_ <=? 0)%Z; simpl; [reflexivity|]. now rewrite IH.
Qed.

Lemma sortBy_blank (ascending : bool) (l : list FundingRound.t) :
  DataUtils.sortBy (map Provisions.blankRound l) ascending
  = map Provisions.blankRound (DataUtils.sortBy l ascending).
Proof.
  unfold DataUtils.sortBy. induction l as [|x rest IH]; simpl.
  - reflexivity.
  - rewrite IH. apply insert_blank.
Qed.

Lemma calculateOwnership_blank (s : CapTableStage.t) :
  CapTableStageM.calculateOwnership (Provisions.blankStage s)
  = Provisions.blankStage (CapTableStageM.calculateOwnership s).
Proof.
  unfold CapTableStageM.calculateOwnership. simpl.
  destruct (CapTableStage.totalShares s =? 0); reflexivity.
Qed.

Lemma stageOfRound_blank (currentYear : float) (round : FundingRound.t) (c : company)
    (founderShares pool investors : float) (previous : CapTableStage.t) :
  Trace.stageOfRound currentYear (Provisions.blankRound round) (Provisions.blankCompany c)
    founderShares pool investors (Provisions.blankStage previous)
  = Provisions.blankStage
      (Trace.stageOfRound currentYear round c founderShares pool investors previous).
Proof.
  unfold Trace.stageOfRound. rewrite <- calculateOwnership_blank. reflexivity.
Qed.

Lemma processRounds_blank (currentYear : float) (c : company) (founderShares : float)
    (rounds : list FundingRound.t) :
  forall evolution previous pool investors,
    Provisions.agree
      (CapTableCalculator.processRounds currentYear rounds c founderShares pool investors
         (evolution ++ [previous]))
      (CapTableCalculator.processRounds currentYear (map Provisions.blankRound rounds)
         (Provisions.blankCompany c) founderShares pool investors
         (map Provisions.blankStage (evolution ++ [previous]))).
Proof.
  induction rounds as [|round rest IH]; intros evolution previous pool investors.
  - simpl. reflexivity.
  - cbn [CapTableCalculator.processRounds map].
    rewrite map_app. cbn [map]. rewrite !lastStage_snoc, !_processRound_eq.
    rewrite stageOfRound_blank.
    change (CapTableStageM.validateOwnership (Provisions.blankStage ?s))
      with (CapTableStageM.validateOwnership s).
    destruct (CapTableStageM.validateOwnership _) as [b|e]; simpl; [|exact I].
    specialize (IH (evolution ++ [previous])
                  (Trace.stageOfRound currentYear round c founderShares pool investors
                     previous)).
    rewrite !map_app in IH. cbn [map] in IH. apply IH.
Qed.

Lemma calculateEvolution_blank (currentYear : float) (c : company) :
  Provisions.agree
    (CapTableCalculator.calculateEvolution currentYear c)
    (CapTableCalculator.calculateEvolution currentYear (Provisions.blankCompany c)).
Proof.
  unfold CapTableCalculator.calculateEvolution.
  rewrite validate_blank.
  destruct (CompanyM.validate c) as [b|e]; simpl; [|exact I].
  unfold CompanyM.getRoundsByYear. cbn [Company.rounds Provisions.blankCompany].
  rewrite sortBy_blank.
  rewrite !_createIncorporationStage_eq.
  change (CompanyM.getInitialOptionPoolShares (Provisions.blankCompany c))
    with (CompanyM.getInitialOptionPoolShares c).
  cbn [Company.founderShares Provisions.blankCompany].
  set (rounds := DataUtils.sortBy (Company.rounds c) true).
  assert (Hfirst : match map Provisions.blankRound rounds with
                   | first :: _ => Some (FundingRound.year first)
                   | [] => None
                   end
                   = match rounds with
                     | first :: _ => Some (FundingRound.year first)
                     | [] => None
                     end) by now destruct rounds.
  rewrite Hfirst.
  set (inc := Trace.incorporationStage currentYear _ _ _).
  destruct (CapTableStageM.validateOwnership inc) as [b'|e]; simpl; [|exact I].
  assert (Hinc : Provisions.blankStage inc = inc).
  { unfold inc, Trace.incorporationStage, CapTableStageM.calculateOwnership.
    destruct (_ =? 0); reflexivity. }
  pose proof (@processRounds_blank currentYear c (Company.founderShares c) rounds
                [] inc (CompanyM.getInitialOptionPoolShares c) 0) as H.
  simpl in H. rewrite Hinc in H. simpl.
  unfold Provisions.agree in *.
  destruct (CapTableCalculator.processRounds currentYear rounds _ _ _ _ _),
    (CapTableCalculator.processRounds currentYear (map _ rounds) _ _ _ _ _);
    simpl; trivial.
Qed.

Lemma sameTerms_blank (r1 r2 : FundingRound.t) :
  Provisions.sameTerms r1 r2 -> Provisions.blankRound r1 = Provisions.blankRound r2.
Proof.
  destruct r1, r2. unfold Provisions.sameTerms, Provisions.blankRound. simpl.
  intros (-> & -> & -> & -> & -> & -> & -> & -> & -> & -> & ->). reflexivity.
Qed.

Lemma sameCompany_blank (c1 c2 : company) :
  Provisions.sameCompany c1 c2 -> Provisions.blankCompany c1 = Provisions.blankCompany c2.
Proof.
  destruct c1 as [n1 cu1 f1 p1 t1 u1 y1 v1 m1 rs1], c2 as [n2 cu2 f2 p2 t2 u2 y2 v2 m2 rs2].
  unfold Provisions.sameCompany, Provisions.blankCompany. simpl.
  intros (-> & -> & -> & -> & -> & -> & -> & -> & -> & H). f_equal.
  induction H as [|r1 r2 l1 l2 Hr _ IH]; simpl; [reflexivity|].
  now rewrite (sameTerms_blank Hr), IH.
Qed.

Lemma dilution_blank (stages : list CapTableStage.t) :
  map Provisions.dilution (map Provisions.blankStage stages)
  = map Provisions.dilution stages.
Proof.
  rewrite map_map. apply map_ext. reflexivity.
Qed.

(** C9. Two companies that differ only in the [antiDilution] and
    [discountRate] of their rounds get the same outcome of
    [calculateEvolution]: both runs throw, or both return, and then stage
    by stage the share counts (total, founder, option pool, investor, new
    investor), the four ownership percentages and the [ownershipPercent]
    values of the liquidation stack are the same. *)
Theorem C9_provisions_do_not_enter_the_dilution (currentYear : float) (c1 c2 : company) :
  Provisions.sameCompany c1 c2 ->
  match CapTableCalculator.calculateEvolution currentYear c1,
        CapTableCalculator.calculateEvolution currentYear c2 with
  | Ok stages1, Ok stages2 =>
      map Provisions.dilution stages1 = map Provisions.dilution stages2
  | Throw _, Throw _ => True
  | _, _ => False
  end.
Proof.
  intros H. apply sameCompany_blank in H.
  pose proof (calculateEvolution_blank currentYear c1) as H1.
  pose proof (calculateEvolution_blank currentYear c2) as H2.
  rewrite H in H1. unfold Provisions.agree in *.
  destruct (CapTableCalculator.calculateEvolution currentYear c1) as [s1|e1],
    (CapTableCalculator.calculateEvolution currentYear c2) as [s2|e2],
    (CapTableCalculator.calculateEvolution currentYear (Provisions.blankCompany c2))
      as [s|e]; try contradiction; trivial.
  subst s. rewrite <- (dilution_blank s1), <- (dilution_blank s2). now rewrite H2.
Qed.

(** The company with two Seed rounds dilutes the same when its first Seed
    round has a full ratchet and a 20% discount. *)
Lemma C9_provisions_witness :
  match CapTableCalculator.calculateEvolution 2026 Cases.twoSeeds,
        CapTableCalculator.calculateEvolution 2026 Cases.twoSeedsRatchet with
  | Ok stages1, Ok stages2 =>
      map Provisions.dilution stages1 = map Provisions.dilution stages2
  | Throw _, Throw _ => True
  | _, _ => False
  end.
Proof.
  apply (@C9_provisions_do_not_enter_the_dilution 2026 Cases.twoSeeds Cases.twoSeedsRatchet).
  repeat split. repeat constructor.
Defined.


(** *** The store under the sensitivity analysis *)

Lemma grows_refl (h : Store.t) : Store.grows h h.
Proof. exists []. now rewrite app_nil_r. Qed.

Lemma grows_trans (h1 h2 h3 : Store.t) : Store.grows h1 h2 -> Store.grows h2 h3 -> Store.grows h1 h3.
Proof. intros [e1 ->] [e2 ->]. exists (e1 ++ e2). now rewrite app_assoc. Qed.

Lemma grows_read (h h' : Store.t) (l : Store.loc) (o : Store.object) :
  Store.grows h h' -> Store.read h l = Some o -> Store.read h' l = Some o.
Proof.
  intros [ext ->] H. unfold Store.read in *.
  rewrite nth_error_app1; [exact H|]. apply nth_error_Some. congruence.
Qed.

Lemma write_beyond (h ext : Store.t) (l : Store.loc) (o : Store.object) :
  (List.length h <= l)%nat -> Store.write (h ++ ext) l o = h ++ Store.write ext (l - List.length h)%nat o.
Proof.
  revert l. induction h as [|x h IH]; intros l Hl; simpl.
  - now rewrite Nat.sub_0_r.
  - destruct l as [|l]; [simpl in Hl; lia|]. simpl. rewrite IH by (simpl in Hl; lia).
    reflexivity.
Qed.

Lemma readonly_bind {A B : Type} (m : Store.M A) (k : A -> Store.M B) :
  Store.readonly m -> (forall a, Store.readonly (k a)) -> Store.readonly (Store.bind m k).
Proof.
  intros Hm Hk h. unfold Store.bind. specialize (Hm h).
  destruct (m h) as [h' [a|e]]; simpl in *; subst; [apply Hk|reflexivity].
Qed.

Lemma readonly_mapM {A B : Type} (f : A -> Store.M B) (l : list A) :
  (forall a, Store.readonly (f a)) -> Store.readonly (Store.mapM f l).
Proof.
  intros Hf. induction l as [|a rest IH]; simpl.
  - intros h. reflexivity.
  - apply readonly_bind; [apply Hf|]. intros b.
    apply readonly_bind; [exact IH|]. intros bs h. reflexivity.
Qed.

Lemma readonly_readRound (l : Store.loc) : Store.readonly (Store.readRound l).
Proof. intros h. unfold Store.readRound. now destruct (Store.read h l) as [[r|c]|]. Qed.

Lemma readonly_readCompany (l : Store.loc) : Store.readonly (Store.readCompany l).
Proof. intros h. unfold Store.readCompany. now destruct (Store.read h l) as [[r|c]|]. Qed.

Lemma readonly_snapshot (this : Store.loc) : Store.readonly (CompanyObject.snapshot this).
Proof.
  unfold CompanyObject.snapshot.
  apply readonly_bind; [apply readonly_readCompany|]. intros c.
  apply readonly_bind; [apply readonly_mapM, readonly_readRound|]. intros rs h. reflexivity.
Qed.

Lemma readonly_toObject (this : Store.loc) : Store.readonly (CompanyObject.toObject this).
Proof.
  unfold CompanyObject.toObject.
  apply readonly_bind; [apply readonly_snapshot|]. intros c h. reflexivity.
Qed.

(** The new round objects take the references after those in use. *)
Lemma mapM_new (f : FundingRound.t -> FundingRound.t) (l : list FundingRound.t)
    (h : Store.t) :
  Store.mapM (fun roundData => Store.new (Store.RoundObject (f roundData))) l h
  = (h ++ map (fun roundData => Store.RoundObject (f roundData)) l,
     Ok (seq (List.length h) (List.length l))).
Proof.
  revert h. induction l as [|a rest IH]; intros h; simpl.
  - unfold Store.ret. now rewrite app_nil_r.
  - unfold Store.bind at 1. unfold Store.new at 1. unfold Store.alloc.
    unfold Store.bind at 1. rewrite IH. unfold Store.ret.
    rewrite length_app, Nat.add_1_r. simpl. now rewrite <- app_assoc.
Qed.

(** [new Company(data)] leaves the objects there were and makes a company
    whose rounds are all new. *)
Lemma new_company (currentYear : float) (data : company) (h : Store.t) :
  exists ext modifiedCompany modified,
    CompanyObject.new currentYear data h = (h ++ ext, Ok modifiedCompany)
    /\ Store.read (h ++ ext) modifiedCompany = Some (Store.CompanyObject modified)
    /\ Forall (fun l => (List.length h <= l)%nat) modified.(Company.rounds).
Proof.
  unfold CompanyObject.new. unfold Store.bind. rewrite mapM_new.
  unfold Store.new, Store.alloc.
  eexists (_ ++ [_]), _, _. split; [|split].
  - rewrite app_assoc. reflexivity.
  - unfold Store.read. rewrite app_assoc. rewrite nth_error_app2 by lia.
    rewrite Nat.sub_diag. reflexivity.
  - simpl. apply Forall_forall. intros l Hl. apply in_seq in Hl. lia.
Qed.

Lemma runScenario_grows (currentYear : float) (Math_pow : float -> float -> float)
    (company : Store.loc) (roundIndex : nat) (baselineRound : Store.loc)
    (scenario : CONFIG.SENSITIVITY.scenario) (h : Store.t) :
  Store.grows h (fst (CapTableCalculator.runScenario currentYear Math_pow company roundIndex
                  baselineRound scenario h)).
Proof.
  unfold CapTableCalculator.runScenario.
  unfold Store.bind at 1.
  pose proof (readonly_toObject company h) as H1.
  destruct (CompanyObject.toObject company h) as [h1 [data|e]]; simpl in H1; subst h1;
    [|apply grows_refl].
  unfold Store.bind at 1.
  destruct (new_company currentYear data h) as (ext & mc & modified & -> & Hread & Hnew).
  unfold Store.bind at 1. unfold Store.readCompany. rewrite Hread.
  unfold Store.bind at 1.
  destruct (nth_error (Company.rounds modified) roundIndex) as [target|] eqn:Et;
    [|exists ext; reflexivity].
  assert (Htarget : (List.length h <= target)%nat).
  { apply nth_error_In in Et. revert Et. now apply Forall_forall. }
  unfold Store.ret at 1.
  unfold Store.bind at 1.
  pose proof (readonly_readRound baselineRound (h ++ ext)) as H2.
  destruct (Store.readRound baselineRound (h ++ ext)) as [h2 [baseline|e]];
    simpl in H2; subst h2; [|exists ext; reflexivity].
  unfold Store.bind at 1.
  pose proof (readonly_readRound target (h ++ ext)) as H3.
  destruct (Store.readRound target (h ++ ext)) as [h3 [r|e]];
    simpl in H3; subst h3; [|exists ext; reflexivity].
  unfold Store.bind at 1. unfold Store.writeRound.
  rewrite write_beyond by exact Htarget.
  set (ext' := Store.write ext _ _).
  unfold Store.bind at 1.
  pose proof (readonly_snapshot mc (h ++ ext')) as H4.
  destruct (CompanyObject.snapshot mc (h ++ ext')) as [h4 [c|e]];
    simpl in H4; subst h4; [|exists ext'; reflexivity].
  unfold Store.bind at 1, Store.lift at 1.
  destruct (CapTableCalculator.calculateEvolution currentYear c) as [capTable|e];
    [|exists ext'; reflexivity].
  unfold Store.bind at 1, Store.lift at 1.
  destruct (CapTableCalculator.calculateReturns currentYear Math_pow (Some capTable) c)
    as [returns|e]; [|exists ext'; reflexivity].
  unfold Store.bind at 1.
  pose proof (readonly_readRound target (h ++ ext')) as H5.
  destruct (Store.readRound target (h ++ ext')) as [h5 [r'|e]];
    simpl in H5; subst h5; exists ext'; reflexivity.
Qed.

Lemma scenarioLoop_grows (currentYear : float) (Math_pow : float -> float -> float)
    (company : Store.loc) (roundIndex : nat) (baselineRound : Store.loc)
    (scenarios : list CONFIG.SENSITIVITY.scenario) :
  forall scenarioResults h,
    Store.grows h (fst (CapTableCalculator.scenarioLoop currentYear Math_pow company roundIndex
                    baselineRound scenarios scenarioResults h)).
Proof.
  induction scenarios as [|scenario rest IH]; intros scenarioResults h; simpl.
  - apply grows_refl.
  - unfold Store.bind, Store.try_catch.
    pose proof (@runScenario_grows currentYear Math_pow company roundIndex baselineRound
                  scenario h) as H.
    destruct (CapTableCalculator.runScenario _ _ _ _ _ _ h) as [h1 [entry|e]]; simpl in H.
    + eapply grows_trans; [exact H|apply IH].
    + unfold Store.ret. eapply grows_trans; [exact H|apply IH].
Qed.

Lemma calculateSensitivityScenarios_grows (currentYear : float)
    (Math_pow : float -> float -> float) (company : Store.loc) (roundIndex : nat)
    (scenarios : list CONFIG.SENSITIVITY.scenario) (h : Store.t) :
  Store.grows h (fst (CapTableCalculator.calculateSensitivityScenarios currentYear Math_pow
                  company roundIndex scenarios h)).
Proof.
  unfold CapTableCalculator.calculateSensitivityScenarios, Store.try_catch.
  match goal with |- Store.grows h (fst (match ?m h with _ => _ end)) =>
    assert (Hbody : Store.grows h (fst (m h))); [|destruct (m h) as [h1 [results|e]]] end.
  - unfold Store.bind at 1.
    pose proof (readonly_readCompany company h) as H1.
    destruct (Store.readCompany company h) as [h1 [c|e]]; simpl in H1; subst h1;
      [|apply grows_refl].
    unfold Store.bind at 1.
    destruct (nth_error (Company.rounds c) roundIndex) as [baselineRound|];
      [|apply grows_refl].
    unfold Store.ret at 1. apply scenarioLoop_grows.
  - exact Hbody.
  - simpl in Hbody. unfold Store.bind.
    pose proof (readonly_toObject company h1) as H2.
    destruct (CompanyObject.toObject company h1) as [h2 [data|e']]; simpl in H2; subst h2;
      exact Hbody.
Qed.

Lemma mapM_readRound_grows (h h' : Store.t) (rounds : list Store.loc)
    (rs : list FundingRound.t) :
  Store.grows h h' ->
  Store.mapM Store.readRound rounds h = (h, Ok rs) ->
  Store.mapM Store.readRound rounds h' = (h', Ok rs).
Proof.
  intros Hg. revert rs. induction rounds as [|l rest IH]; intros rs; simpl.
  - unfold Store.ret. intros H. now injection H as <-.
  - unfold Store.bind at 1 3. unfold Store.readRound at 1 3.
    destruct (Store.read h l) as [[r|c]|] eqn:E; try discriminate.
    rewrite (@grows_read _ _ _ _ Hg E).
    unfold Store.bind.
    destruct (Store.mapM Store.readRound rest h) as [h1 [bs|e]] eqn:E1; try discriminate.
    pose proof (readonly_mapM Store.readRound rest readonly_readRound h) as Hro.
    rewrite E1 in Hro. simpl in Hro. subst h1.
    rewrite (IH bs eq_refl). unfold Store.ret. intros H. now injection H as <-.
Qed.

Lemma snapshot_grows (h h' : Store.t) (this : Store.loc) (c : company) :
  Store.grows h h' ->
  CompanyObject.snapshot this h = (h, Ok c) ->
  CompanyObject.snapshot this h' = (h', Ok c).
Proof.
  intros Hg. unfold CompanyObject.snapshot.
  unfold Store.bind at 1 3. unfold Store.readCompany.
  destruct (Store.read h this) as [[r|co]|] eqn:E; try discriminate.
  rewrite (@grows_read _ _ _ _ Hg E).
  unfold Store.bind.
  destruct (Store.mapM Store.readRound (Company.rounds co) h) as [h1 [rs|e]] eqn:E1;
    try discriminate.
  pose proof (readonly_mapM Store.readRound (Company.rounds co) readonly_readRound h) as Hro.
  rewrite E1 in Hro. simpl in Hro. subst h1.
  rewrite (@mapM_readRound_grows _ _ _ _ Hg E1). unfold Store.ret.
  intros H. now injection H as <-.
Qed.

(** C8. [calculateSensitivityScenarios] leaves every object that was in the
    store as it was: each scenario assigns only to a round of the company
    it has just built.  So the company passed in, read with its rounds
    after the call, has the values in every field, and in every field of
    every round, that it had before. *)
Theorem C8_sensitivity_leaves_the_company_unchanged (currentYear : float)
    (Math_pow : float -> float -> float) (h : Store.t) (company : Store.loc)
    (roundIndex : nat) (scenarios : list CONFIG.SENSITIVITY.scenario) :
  let h' := fst (CapTableCalculator.calculateSensitivityScenarios currentYear Math_pow
                   company roundIndex scenarios h) in
  (forall l o, Store.read h l = Some o -> Store.read h' l = Some o)
  /\ (forall c, CompanyObject.snapshot company h = (h, Ok c) ->
                CompanyObject.snapshot company h' = (h', Ok c)).
Proof.
  intros h'.
  assert (Hg : Store.grows h h') by apply calculateSensitivityScenarios_grows.
  split.
  - intros l o. now apply grows_read.
  - intros c. now apply snapshot_grows.
Qed.


(** The store of the scenario after the five default scenarios: the
    company at reference 1 reads as before and its round is as before,
    while the first clone's round, at reference 2, got the pre-money
    valuation of the -20% scenario. *)
Lemma C8_sensitivity_witness :
  let h' := fst (CapTableCalculator.calculateSensitivityScenarios 2026
                   (fun x _ => PrimFloat.sqrt x) 1%nat 0%nat CONFIG.SENSITIVITY.SCENARIOS
                   Examples.scenarioStore) in
  CompanyObject.snapshot 1%nat h' = (h', Ok Examples.scenario)
  /\ Store.read h' 0%nat = Some (Store.RoundObject Examples.seed)
  /\ option_map
       (fun o => match o with
                 | Store.RoundObject r => r.(FundingRound.preMoneyValuation)
                 | Store.CompanyObject _ => 0
                 end) (Store.read h' 2%nat) = Some 4000000.
Proof.
  intros h'.
  destruct (@C8_sensitivity_leaves_the_company_unchanged 2026
              (fun x _ => PrimFloat.sqrt x) Examples.scenarioStore 1%nat 0%nat
              CONFIG.SENSITIVITY.SCENARIOS) as [Hread Hsnapshot].
  split; [|split].
  - apply Hsnapshot. vm_compute. reflexivity.
  - apply Hread. reflexivity.
  - vm_compute. reflexivity.
Defined.


(** *** Share monotonicity

    The proof of C5 has three layers.  The first specifies the rounding of
    [SpecFloat] on real numbers ([Rounded]) and derives what a rounded
    result satisfies: it is not below a number of the format that the exact
    result is not below, its relative error is at most [2^-52], and a whole
    number is rounded to a whole number, exactly up to [2^53].  The second
    reads the operations of the engine on these terms.  The third follows
    one round: below [2^53] the sums are exact and a round only adds
    shares; above, the new investor shares, at least a [2^-42]th of the
    shares before the round, outweigh the roundings. *)

Section ShareMonotonicity.
Import Binary64 Shares.
Local Open Scope R_scope.

(** **** Powers of two and the shifts of [SpecFloat] *)

Lemma bpow_gt_0 (e : Z) : 0 < bpow e.
Proof. apply powerRZ_lt. lra. Qed.

Lemma bpow_add (a b : Z) : bpow (a + b) = bpow a * bpow b.
Proof. apply powerRZ_add. lra. Qed.

Lemma bpow_0 : bpow 0 = 1.
Proof. reflexivity. Qed.

Lemma bpow_1 : bpow 1 = 2.
Proof. unfold bpow. simpl. lra. Qed.

Lemma bpow_succ (e : Z) : bpow (e + 1) = 2 * bpow e.
Proof. rewrite bpow_add, bpow_1. lra. Qed.

Lemma bpow_IZR (e : Z) : (0 <= e)%Z -> bpow e = IZR (2 ^ e).
Proof.
  intros He. unfold bpow. destruct e as [|p|p]; [reflexivity| |lia].
  rewrite <- Zpower_pos_powerRZ. reflexivity.
Qed.

Lemma bpow_le (a b : Z) : (a <= b)%Z -> bpow a <= bpow b.
Proof.
  intros H. replace b with (a + (b - a))%Z by lia. rewrite bpow_add.
  assert (1 <= bpow (b - a)).
  { rewrite bpow_IZR by lia. apply IZR_le. 
    assert (0 < 2 ^ (b - a))%Z by (apply Z.pow_pos_nonneg; lia). lia. }
  pose proof (bpow_gt_0 a). nra.
Qed.

Lemma bpow_lt (a b : Z) : (a < b)%Z -> bpow a < bpow b.
Proof.
  intros H. apply Rlt_le_trans with (bpow (a + 1)).
  - rewrite bpow_succ. pose proof (bpow_gt_0 a). lra.
  - apply bpow_le. lia.
Qed.

Lemma bpow_lt_inv (a b : Z) : bpow a < bpow b -> (a < b)%Z.
Proof.
  intros H. destruct (Z_lt_le_dec a b) as [|Hle]; [assumption|].
  apply bpow_le in Hle. lra.
Qed.

(** The number of binary digits. *)
Lemma digits2_pos_bounds (p : positive) :
  (2 ^ (Z.pos (digits2_pos p) - 1) <= Z.pos p < 2 ^ Z.pos (digits2_pos p))%Z.
Proof.
  induction p as [p IH|p IH|]; simpl digits2_pos.
  - rewrite Pos2Z.inj_succ.
    replace (Z.succ (Z.pos (digits2_pos p)) - 1)%Z with (Z.pos (digits2_pos p) - 1 + 1)%Z by lia.
    rewrite Z.pow_succ_r by lia. rewrite Z.pow_add_r by lia.
    change (2 ^ 1)%Z with 2%Z. lia.
  - rewrite Pos2Z.inj_succ.
    replace (Z.succ (Z.pos (digits2_pos p)) - 1)%Z with (Z.pos (digits2_pos p) - 1 + 1)%Z by lia.
    rewrite Z.pow_succ_r by lia. rewrite Z.pow_add_r by lia.
    change (2 ^ 1)%Z with 2%Z. lia.
  - simpl. lia.
Qed.

(** [iter_pos] iterates. *)
Lemma iter_pos_nat {A : Type} (f : A -> A) (n : positive) (x : A) :
  iter_pos f n x = Nat.iter (Pos.to_nat n) f x.
Proof.
  revert x. induction n as [n IH|n IH|]; intros x; cbn [iter_pos].
  - rewrite !IH. rewrite Pos2Nat.inj_xI.
    rewrite Nat.iter_succ_r.
    replace (2 * Pos.to_nat n)%nat with (Pos.to_nat n + Pos.to_nat n)%nat by lia.
    now rewrite Nat.iter_add.
  - rewrite !IH. rewrite Pos2Nat.inj_xO.
    replace (2 * Pos.to_nat n)%nat with (Pos.to_nat n + Pos.to_nat n)%nat by lia.
    now rewrite Nat.iter_add.
  - reflexivity.
Qed.

Lemma div2_xI (p : positive) : (Z.pos p~1 / 2 = Z.pos p)%Z.
Proof. symmetry. apply Z.div_unique with 1%Z; lia. Qed.

Lemma div2_xO (p : positive) : (Z.pos p~0 / 2 = Z.pos p)%Z.
Proof. symmetry. apply Z.div_unique with 0%Z; lia. Qed.

Lemma mod2_xI (p : positive) : (Z.pos p~1 mod 2 = 1)%Z.
Proof. symmetry. apply Z.mod_unique with (Z.pos p); lia. Qed.

Lemma mod2_xO (p : positive) : (Z.pos p~0 mod 2 = 0)%Z.
Proof. symmetry. apply Z.mod_unique with (Z.pos p); lia. Qed.

Lemma shr_1_spec (mrs : shr_record) :
  (0 <= shr_m mrs)%Z ->
  shr_m (shr_1 mrs) = (shr_m mrs / 2)%Z
  /\ exact_record (shr_1 mrs) = exact_record mrs && (shr_m mrs mod 2 =? 0)%Z.
Proof.
  destruct mrs as [m r s]. unfold exact_record.
  cbn [shr_m shr_r shr_s]. intros Hm.
  destruct m as [|[p|p|]|p]; cbn [shr_1 shr_m shr_r shr_s]; try lia.
  - split; [reflexivity|]. destruct r, s; reflexivity.
  - rewrite div2_xI, mod2_xI. split; [reflexivity|].
    cbn. now rewrite andb_false_r.
  - rewrite div2_xO, mod2_xO. split; [reflexivity|].
    destruct r, s; reflexivity.
  - split; [reflexivity|]. cbn. now rewrite andb_false_r.
Qed.

Lemma iter_shr_1 (n : nat) (mrs : shr_record) :
  (0 <= shr_m mrs)%Z ->
  shr_m (Nat.iter n shr_1 mrs) = (shr_m mrs / 2 ^ Z.of_nat n)%Z
  /\ exact_record (Nat.iter n shr_1 mrs)
     = exact_record mrs && (shr_m mrs mod 2 ^ Z.of_nat n =? 0)%Z.
Proof.
  intros Hm. induction n as [|n [IHm IHe]].
  - simpl. rewrite Z.div_1_r, Z.mod_1_r. simpl. now rewrite andb_true_r.
  - rewrite Nat.iter_succ.
    assert (Hpos : (0 <= shr_m (Nat.iter n shr_1 mrs))%Z).
    { rewrite IHm. apply Z.div_pos; [assumption|]. apply Z.pow_pos_nonneg; lia. }
    destruct (shr_1_spec _ Hpos) as [H1 H2].
    rewrite H1, H2, IHm, IHe.
    rewrite Nat2Z.inj_succ, Z.pow_succ_r by lia.
    assert (Hp : (0 < 2 ^ Z.of_nat n)%Z) by (apply Z.pow_pos_nonneg; lia).
    split.
    + rewrite Z.div_div by lia. f_equal. lia.
    + rewrite <- andb_assoc. f_equal.
      set (m := shr_m mrs) in *. set (q := (2 ^ Z.of_nat n)%Z) in *.
      rewrite (Z.mul_comm 2 q).
      rewrite Z.rem_mul_r by lia.
      destruct (Z.eqb_spec (m mod q) 0) as [E|E].
      * rewrite E. simpl.
        destruct (Z.eqb_spec ((m / q) mod 2) 0) as [E2|E2].
        -- rewrite E2. now rewrite Z.mul_0_r.
        -- symmetry. apply Z.eqb_neq. 
           pose proof (Z.mod_pos_bound (m / q) 2 ltac:(lia)). nia.
      * simpl. symmetry. apply Z.eqb_neq.
        pose proof (Z.mod_pos_bound m q Hp).
        pose proof (Z.mod_pos_bound (m / q) 2 ltac:(lia)). nia.
Qed.

Lemma fexp64_eq (e : Z) : fexp64 e = Z.max (e - 53) (-1074).
Proof. reflexivity. Qed.

Lemma Zdigits2_bounds (m : Z) :
  (0 < m)%Z -> (2 ^ (Zdigits2 m - 1) <= m < 2 ^ Zdigits2 m)%Z /\ (0 < Zdigits2 m)%Z.
Proof.
  destruct m as [|p|p]; try lia. intros _. simpl Zdigits2.
  split; [apply digits2_pos_bounds|lia].
Qed.

Lemma Zdigits2_le (m : Z) (k : Z) :
  (0 < m)%Z -> (0 <= k)%Z -> (m < 2 ^ k)%Z -> (Zdigits2 m <= k)%Z.
Proof.
  intros Hm Hk H. destruct (Zdigits2_bounds Hm) as [[Hlo _] Hd].
  destruct (Z_le_gt_dec (Zdigits2 m) k) as [|Hgt]; [assumption|].
  assert (2 ^ k <= 2 ^ (Zdigits2 m - 1))%Z by (apply Z.pow_le_mono_r; lia). lia.
Qed.

Lemma Zdigits2_ge (m : Z) (k : Z) :
  (0 < m)%Z -> (2 ^ (k - 1) <= m)%Z -> (k <= Zdigits2 m)%Z.
Proof.
  intros Hm H. destruct (Zdigits2_bounds Hm) as [[_ Hhi] Hd].
  destruct (Z_le_gt_dec k (Zdigits2 m)) as [|Hgt]; [assumption|].
  assert (2 ^ Zdigits2 m <= 2 ^ (k - 1))%Z by (apply Z.pow_le_mono_r; lia). lia.
Qed.

Lemma round_nearest_even_cases (m : Z) (l : location) :
  round_nearest_even m l = m \/ (round_nearest_even m l = (m + 1)%Z /\ l <> loc_Exact).
Proof.
  destruct l as [|[| |]]; simpl; auto.
  - destruct (Z.even m); [left|right]; auto. split; [reflexivity|discriminate].
  - right. split; [reflexivity|discriminate].
Qed.

Lemma loc_of_shr_record_exact (mrs : shr_record) :
  loc_of_shr_record mrs = loc_Exact <-> exact_record mrs = true.
Proof.
  destruct mrs as [m [|] [|]]; unfold exact_record; simpl; split; congruence.
Qed.

Lemma shr_record_of_loc_exact (m : Z) (l : location) :
  exact_record (shr_record_of_loc m l) = true <-> l = loc_Exact.
Proof.
  destruct l as [|[| |]]; unfold exact_record; simpl; split; congruence.
Qed.

Lemma shr_record_of_loc_m (m : Z) (l : location) : shr_m (shr_record_of_loc m l) = m.
Proof. destruct l as [|[| |]]; reflexivity. Qed.

(** Shifting right by [n >= 0] places. *)
Lemma shr_spec (mrs : shr_record) (e n : Z) :
  (0 <= shr_m mrs)%Z -> (0 <= n)%Z ->
  snd (shr mrs e n) = (e + n)%Z
  /\ shr_m (fst (shr mrs e n)) = (shr_m mrs / 2 ^ n)%Z
  /\ exact_record (fst (shr mrs e n))
     = exact_record mrs && (shr_m mrs mod 2 ^ n =? 0)%Z.
Proof.
  intros Hm Hn. destruct n as [|p|p]; try lia.
  - cbn [shr fst snd]. rewrite Z.add_0_r, Z.pow_0_r, Z.div_1_r, Z.mod_1_r.
    cbn [Z.eqb]. rewrite andb_true_r. auto.
  - cbn [shr fst snd]. rewrite iter_pos_nat.
    destruct (iter_shr_1 (Pos.to_nat p) mrs Hm) as [H1 H2].
    rewrite positive_nat_Z in H1, H2. auto.
Qed.

Lemma finish_correct (sx : bool) (m1 E : Z) :
  (0 <= m1 <= 2 ^ 53)%Z -> (-1074 <= E)%Z ->
  (let '(mrs'', e'') := shr_fexp prec emax m1 E loc_Exact in
   match shr_m mrs'' with
   | Z0 => S754_zero sx
   | Zpos m => if (e'' <=? emax - prec)%Z then S754_finite sx m e'' else S754_infinity sx
   | _ => S754_nan
   end) = finish sx m1 E.
Proof.
  intros Hm HE. unfold finish, shr_fexp.
  destruct (Z.eqb_spec m1 0) as [->|Hnz].
  - cbn [Zdigits2]. rewrite Z.add_0_l.
    replace (fexp64 E - E)%Z with (Z.max (E - 53) (-1074) - E)%Z by reflexivity.
    destruct (Z.max (E - 53) (-1074) - E)%Z as [|p|p] eqn:En; try lia; reflexivity.
  - assert (Hpos : (0 < m1)%Z) by lia.
    destruct (Z.eqb_spec m1 (2 ^ 53)) as [->|Hne].
    + change (Zdigits2 (2 ^ 53)) with 54%Z.
      replace (fexp64 (54 + E) - E)%Z with 1%Z
        by (rewrite fexp64_eq; lia).
      cbn. replace (E + 1 <=? 971)%Z with (E + 1 <=? 1024 - 53)%Z by reflexivity.
      reflexivity.
    + assert (Hd : (Zdigits2 m1 <= 53)%Z) by (apply Zdigits2_le; lia).
      destruct (Zdigits2_bounds Hpos) as [_ Hd0].
      assert (Hn : (fexp64 (Zdigits2 m1 + E) - E <= 0)%Z) by (rewrite fexp64_eq; lia).
      destruct (fexp64 (Zdigits2 m1 + E) - E)%Z as [|p|p] eqn:En; try lia.
      * cbn [shr]. destruct m1; try lia. reflexivity.
      * cbn [shr]. destruct m1; try lia. reflexivity.
Qed.

Lemma bra_shape (sx : bool) (mx ex : Z) (lx : location) :
  (0 < mx)%Z -> (ex <= fexp64 (Zdigits2 mx + ex))%Z ->
  let E := fexp64 (Zdigits2 mx + ex) in
  let n := (E - ex)%Z in
  let m' := (mx / 2 ^ n)%Z in
  exists m1,
    (m1 = m' \/ (m1 = (m' + 1)%Z /\ ~ (lx = loc_Exact /\ (mx mod 2 ^ n = 0)%Z)))
    /\ (0 <= m' < 2 ^ 53)%Z
    /\ binary_round_aux prec emax sx mx ex lx = finish sx m1 E.
Proof.
  intros Hmx Hal E n m'.
  assert (Hn : (0 <= n)%Z) by (unfold n, E; lia).
  assert (HE : (-1074 <= E)%Z) by (unfold E; rewrite fexp64_eq; lia).
  assert (Hp : (0 < 2 ^ n)%Z) by (apply Z.pow_pos_nonneg; lia).
  assert (Hm' : (0 <= m' < 2 ^ 53)%Z).
  { unfold m'. split; [apply Z.div_pos; lia|].
    destruct (Zdigits2_bounds Hmx) as [[_ Hhi] Hd].
    apply Z.div_lt_upper_bound; [lia|].
    rewrite <- Z.pow_add_r by lia.
    apply Z.lt_le_trans with (1 := Hhi). apply Z.pow_le_mono_r; [lia|].
    unfold n, E. rewrite fexp64_eq. lia. }
  unfold binary_round_aux.
  unfold shr_fexp at 1. fold E. fold n.
  pose proof (@shr_spec (shr_record_of_loc mx lx) ex n) as Hs.
  rewrite shr_record_of_loc_m in Hs.
  destruct Hs as (Hs1 & Hs2 & Hs3); [lia|lia|].
  destruct (shr (shr_record_of_loc mx lx) ex n) as [mrs' e'].
  cbn [fst snd] in Hs1, Hs2, Hs3. subst e'.
  replace (ex + n)%Z with E by (unfold n; lia).
  fold m' in Hs2.
  set (m1 := round_nearest_even (shr_m mrs') (loc_of_shr_record mrs')).
  exists m1.
  assert (Hm1 : m1 = m' \/ (m1 = (m' + 1)%Z /\ ~ (lx = loc_Exact /\ (mx mod 2 ^ n = 0)%Z))).
  { unfold m1. rewrite Hs2.
    destruct (round_nearest_even_cases m' (loc_of_shr_record mrs')) as [H|[H Hne]];
      [left; exact H|right].
    split; [exact H|]. intros [Hl Hmod]. apply Hne.
    apply loc_of_shr_record_exact. rewrite Hs3.
    rewrite (proj2 (shr_record_of_loc_exact mx lx) Hl). rewrite Hmod. reflexivity. }
  split; [exact Hm1|]. split; [exact Hm'|].
  apply finish_correct; [|exact HE].
  destruct Hm1 as [->|[-> _]]; lia.
Qed.

Lemma Rmult_lt_reg_bpow (a b : R) (e : Z) : a * bpow e < b * bpow e -> a < b.
Proof. intros H. apply Rmult_lt_reg_r with (bpow e); [apply bpow_gt_0|exact H]. Qed.

Lemma Rmult_le_reg_bpow (a b : R) (e : Z) : a * bpow e <= b * bpow e -> a <= b.
Proof. intros H. apply Rmult_le_reg_r with (bpow e); [apply bpow_gt_0|exact H]. Qed.

Lemma finish_Rounded (m1 E : Z) (v : R) :
  (-1074 <= E)%Z -> (0 <= m1 <= 2 ^ 53)%Z ->
  (IZR m1 - 1) * bpow E < v < (IZR m1 + 1) * bpow E ->
  (E = (-1074)%Z \/ bpow (E + 52) <= v) ->
  v < bpow (E + 53) ->
  Rounded v (finish false m1 E).
Proof.
  intros HE Hm1 Hv Hlo Hhi. exists m1, E.
  repeat (split; [first [assumption|lia]|]).
  unfold finish.
  destruct (Z.eqb_spec m1 0) as [H0|H0]; [exact H0|].
  destruct (Z.eqb_spec m1 (2 ^ 53)) as [H53|H53].
  - destruct (Z.leb_spec (E + 1) 971) as [Hle|Hgt].
    + split; [reflexivity|]. rewrite H53.
      change (Z.pos (2 ^ 52)) with (2 ^ 52)%Z.
      rewrite <- !bpow_IZR by lia. rewrite <- !bpow_add. f_equal. lia.
    + split; [reflexivity|]. rewrite H53. rewrite <- bpow_IZR by lia.
      rewrite <- bpow_add. apply bpow_le. lia.
  - destruct (Z.leb_spec E 971) as [Hle|Hgt].
    + split; [reflexivity|]. rewrite Z2Pos.id by lia. reflexivity.
    + split; [reflexivity|].
      destruct Hlo as [->|Hlo]; [lia|].
      assert (H52 : (2 ^ 52 <= m1)%Z).
      { assert (Hlt : IZR (2 ^ 52) < IZR (m1 + 1)).
        { apply Rmult_lt_reg_bpow with E. rewrite <- bpow_IZR by lia.
          rewrite <- bpow_add. replace (52 + E)%Z with (E + 52)%Z by lia.
          rewrite plus_IZR. lra. }
        apply lt_IZR in Hlt. lia. }
      apply Rle_trans with (bpow (52 + E)); [apply bpow_le; lia|].
      rewrite bpow_add. rewrite bpow_IZR by lia.
      apply Rmult_le_compat_r; [pose proof (bpow_gt_0 E); lra|]. now apply IZR_le.
Qed.

Lemma Rounded_bra (mx ex : Z) (lx : location) (v : R) :
  (0 < mx)%Z -> (ex <= fexp64 (Zdigits2 mx + ex))%Z ->
  IZR mx * bpow ex <= v < IZR (mx + 1) * bpow ex ->
  (lx = loc_Exact <-> v = IZR mx * bpow ex) ->
  Rounded v (binary_round_aux prec emax false mx ex lx).
Proof.
  intros Hmx Hal Hv Hex.
  destruct (bra_shape false lx Hmx Hal) as (m1 & Hm1 & Hm' & ->).
  set (E := fexp64 (Zdigits2 mx + ex)) in *.
  set (n := (E - ex)%Z) in *.
  set (m' := (mx / 2 ^ n)%Z) in *.
  assert (Hn : (0 <= n)%Z) by (unfold n, E; lia).
  assert (HE : (-1074 <= E)%Z) by (unfold E; rewrite fexp64_eq; lia).
  assert (Hp : (0 < 2 ^ n)%Z) by (apply Z.pow_pos_nonneg; lia).
  assert (HbE : bpow E = IZR (2 ^ n) * bpow ex).
  { rewrite <- bpow_IZR by lia. rewrite <- bpow_add. f_equal. unfold n. lia. }
  pose proof (bpow_gt_0 ex) as Hbex. pose proof (bpow_gt_0 E) as HbEpos.
  pose proof (Z.div_mod mx (2 ^ n) ltac:(lia)) as Hdm. fold m' in Hdm.
  pose proof (Z.mod_pos_bound mx (2 ^ n) Hp) as Hrem.
  set (rem := (mx mod 2 ^ n)%Z) in *.
  assert (Hlow : IZR m' * bpow E <= IZR mx * bpow ex).
  { rewrite HbE, <- Rmult_assoc, <- mult_IZR.
    apply Rmult_le_compat_r; [lra|]. apply IZR_le. lia. }
  assert (Hupp : IZR (mx + 1) * bpow ex <= (IZR m' + 1) * bpow E).
  { rewrite HbE, <- Rmult_assoc, <- plus_IZR, <- mult_IZR.
    apply Rmult_le_compat_r; [lra|]. apply IZR_le. lia. }
  destruct (Zdigits2_bounds Hmx) as [[Hdlo Hdhi] Hd].
  apply finish_Rounded.
  - exact HE.
  - destruct Hm1 as [->|[-> _]]; lia.
  - destruct Hm1 as [->|[-> Hinex]].
    + lra.
    + rewrite plus_IZR. split; [|lra].
      replace (IZR m' + 1 - 1) with (IZR m') by lra.
      destruct (Rle_lt_or_eq_dec _ _ (Rle_trans _ _ _ Hlow (proj1 Hv))) as [Hlt|Heq];
        [exact Hlt|].
      exfalso. apply Hinex.
      assert (Hmx' : IZR mx * bpow ex = v) by lra.
      split; [now apply Hex|].
      assert (HI : IZR (m' * 2 ^ n) = IZR mx).
      { apply Rmult_eq_reg_r with (bpow ex); [|lra].
        rewrite mult_IZR, Rmult_assoc, <- HbE. lra. }
      apply eq_IZR in HI. lia.
  - unfold E. rewrite fexp64_eq.
    destruct (Z.max_spec (Zdigits2 mx + ex - 53) (-1074)) as [[_ Hmax]|[Hge Hmax]];
      [left; exact Hmax|right].
    rewrite Hmax.
    apply Rle_trans with (IZR mx * bpow ex); [|lra].
    replace (Zdigits2 mx + ex - 53 + 52)%Z with ((Zdigits2 mx - 1) + ex)%Z by lia.
    rewrite bpow_add. rewrite (@bpow_IZR (Zdigits2 mx - 1)) by lia.
    apply Rmult_le_compat_r; [lra|]. now apply IZR_le.
  - apply Rlt_le_trans with (IZR (mx + 1) * bpow ex); [lra|].
    apply Rle_trans with (bpow (Zdigits2 mx + ex)).
    + rewrite bpow_add. rewrite (@bpow_IZR (Zdigits2 mx)) by lia.
      apply Rmult_le_compat_r; [lra|]. apply IZR_le. lia.
    + apply bpow_le. unfold E. rewrite fexp64_eq. lia.
Qed.

Lemma valid_finite (s : bool) (m : positive) (e : Z) :
  valid_binary (S754_finite s m e) = true ->
  (-1074 <= e <= 971)%Z /\ (Z.pos (digits2_pos m) <= 53)%Z
  /\ (e = (-1074)%Z \/ Z.pos (digits2_pos m) = 53%Z).
Proof.
  unfold SpecFloat.valid_binary, bounded, canonical_mantissa. rewrite andb_true_iff.
  intros [Hc Hb]. apply Z.eqb_eq in Hc. apply Z.leb_le in Hb.
  rewrite fexp64_eq in Hc. change (emax - prec)%Z with 971%Z in Hb. lia.
Qed.

Lemma valid_mantissa_bounds (s : bool) (m : positive) (e : Z) :
  valid_binary (S754_finite s m e) = true ->
  (Z.pos m < 2 ^ 53)%Z /\ (e = (-1074)%Z \/ (2 ^ 52 <= Z.pos m)%Z).
Proof.
  intros H. destruct (valid_finite _ _ _ H) as (He & Hd & Hn).
  pose proof (digits2_pos_bounds m) as [Hlo Hhi]. split.
  - apply Z.lt_le_trans with (1 := Hhi). apply Z.pow_le_mono_r; lia.
  - destruct Hn as [Hn|Hn]; [left; exact Hn|right]. now rewrite Hn in Hlo.
Qed.

Lemma Rounded_zero (s : bool) : Rounded 0 (S754_zero s).
Proof.
  exists 0%Z, (-1074)%Z. pose proof (bpow_gt_0 (-1074)). pose proof (bpow_gt_0 (-1074 + 53)).
  repeat split; try lia; try lra.
Qed.

Lemma Rounded_self (m : positive) (e : Z) :
  valid_binary (S754_finite false m e) = true ->
  Rounded (SF2R (S754_finite false m e)) (S754_finite false m e).
Proof.
  intros H. destruct (valid_finite _ _ _ H) as (He & _ & _).
  destruct (valid_mantissa_bounds _ _ _ H) as (Hhi & Hlo).
  cbn [SF2R cond_Zopp]. pose proof (bpow_gt_0 e) as Hb.
  exists (Z.pos m), e. repeat split; try lia; try lra.
  - destruct Hlo as [Hlo|Hlo]; [left; exact Hlo|right].
    replace (e + 52)%Z with (52 + e)%Z by lia. rewrite bpow_add, (@bpow_IZR 52) by lia.
    apply Rmult_le_compat_r; [lra|]. now apply IZR_le.
  - replace (e + 53)%Z with (53 + e)%Z by lia. rewrite bpow_add, (@bpow_IZR 53) by lia.
    apply Rmult_lt_compat_r; [lra|]. now apply IZR_lt.
Qed.

(** Aligning a mantissa to a smaller exponent. *)
Lemma shift_pos_Z (d m : positive) : Z.pos (Pos.iter xO m d) = (Z.pos m * 2 ^ Z.pos d)%Z.
Proof.
  change (Pos.iter xO m d) with (shift_pos d m).
  rewrite shift_pos_correct. rewrite Z.pow_pos_fold. lia.
Qed.

Lemma Zdigits2_shift (m : positive) (k : Z) :
  (0 <= k)%Z -> Zdigits2 (Z.pos m * 2 ^ k) = (Zdigits2 (Z.pos m) + k)%Z.
Proof.
  intros Hk.
  assert (Hp : (0 < 2 ^ k)%Z) by (apply Z.pow_pos_nonneg; lia).
  assert (Hm : (0 < Z.pos m * 2 ^ k)%Z) by lia.
  destruct (@Zdigits2_bounds (Z.pos m) ltac:(lia)) as [[Hlo Hhi] Hd].
  apply Z.le_antisymm.
  - apply Zdigits2_le; [lia|lia|]. rewrite Z.pow_add_r by lia. nia.
  - apply Zdigits2_ge; [lia|].
    replace (Zdigits2 (Z.pos m) + k - 1)%Z with ((Zdigits2 (Z.pos m) - 1) + k)%Z by lia.
    rewrite Z.pow_add_r by lia. nia.
Qed.

Lemma Rounded_exact_input (mx ex : Z) :
  (0 < mx)%Z -> (ex <= fexp64 (Zdigits2 mx + ex))%Z ->
  Rounded (IZR mx * bpow ex) (binary_round_aux prec emax false mx ex loc_Exact).
Proof.
  intros Hm Ha. apply Rounded_bra; try assumption.
  - pose proof (bpow_gt_0 ex). rewrite plus_IZR. split; [lra|nra].
  - split; reflexivity.
Qed.

Lemma binary_round_Rounded (m : positive) (e : Z) :
  Rounded (IZR (Z.pos m) * bpow e) (binary_round prec emax false m e).
Proof.
  unfold binary_round, shl_align.
  destruct (fexp64 (Z.pos (digits2_pos m) + e) - e)%Z as [|d|d] eqn:Ed.
  - apply Rounded_exact_input; [lia|]. cbn [Zdigits2]. lia.
  - apply Rounded_exact_input; [lia|]. cbn [Zdigits2]. lia.
  - set (E := fexp64 (Z.pos (digits2_pos m) + e)) in *.
    assert (He : e = (E + Z.pos d)%Z) by lia.
    replace (IZR (Z.pos m) * bpow e) with (IZR (Z.pos (Pos.iter xO m d)) * bpow E).
    + apply Rounded_exact_input; [lia|].
      rewrite shift_pos_Z, Zdigits2_shift by lia. cbn [Zdigits2].
      replace (Z.pos (digits2_pos m) + Z.pos d + E)%Z
        with (Z.pos (digits2_pos m) + e)%Z by lia.
      fold E. lia.
    + rewrite shift_pos_Z, mult_IZR, He, (Z.add_comm E), bpow_add.
      rewrite (@bpow_IZR (Z.pos d)) by lia. ring.
Qed.

(** The sum of two positive finite numbers. *)
Lemma shl_align_fst (m : positive) (e e' : Z) :
  (e' <= e)%Z -> Z.pos (fst (shl_align m e e')) = (Z.pos m * 2 ^ (e - e'))%Z.
Proof.
  intros H. unfold shl_align.
  destruct (e' - e)%Z as [|d|d] eqn:Ed; cbn [fst].
  - replace (e - e')%Z with 0%Z by lia. lia.
  - lia.
  - rewrite shift_pos_Z. f_equal. f_equal. lia.
Qed.

Lemma SFadd_pos (mx my : positive) (ex ey : Z) :
  Rounded (SF2R (S754_finite false mx ex) + SF2R (S754_finite false my ey))
    (SFadd prec emax (S754_finite false mx ex) (S754_finite false my ey)).
Proof.
  cbn [SFadd SF2R cond_Zopp].
  set (ez := Z.min ex ey).
  rewrite !shl_align_fst by (unfold ez; lia).
  assert (Hx : (0 < 2 ^ (ex - ez))%Z) by (apply Z.pow_pos_nonneg; unfold ez; lia).
  assert (Hy : (0 < 2 ^ (ey - ez))%Z) by (apply Z.pow_pos_nonneg; unfold ez; lia).
  destruct (Z.pos mx * 2 ^ (ex - ez) + Z.pos my * 2 ^ (ey - ez))%Z as [|m|m] eqn:Em;
    try lia.
  cbn [binary_normalize].
  replace (IZR (Z.pos mx) * bpow ex + IZR (Z.pos my) * bpow ey)
    with (IZR (Z.pos m) * bpow ez); [apply binary_round_Rounded|].
  rewrite <- Em, plus_IZR, !mult_IZR.
  replace ex with ((ex - ez) + ez)%Z at 2 by lia.
  replace ey with ((ey - ez) + ez)%Z at 2 by lia.
  rewrite !bpow_add, (@bpow_IZR (ex - ez)), (@bpow_IZR (ey - ez)) by (unfold ez; lia).
  ring.
Qed.

(** The product of two positive finite numbers. *)
Lemma Zdigits2_mul_ge (mx my : positive) :
  (Zdigits2 (Z.pos mx) + Zdigits2 (Z.pos my) - 1 <= Zdigits2 (Z.pos (mx * my)))%Z.
Proof.
  destruct (@Zdigits2_bounds (Z.pos mx) ltac:(lia)) as [[Hx _] Hdx].
  destruct (@Zdigits2_bounds (Z.pos my) ltac:(lia)) as [[Hy _] Hdy].
  apply Zdigits2_ge; [lia|].
  replace (Zdigits2 (Z.pos mx) + Zdigits2 (Z.pos my) - 1 - 1)%Z
    with ((Zdigits2 (Z.pos mx) - 1) + (Zdigits2 (Z.pos my) - 1))%Z by lia.
  rewrite Z.pow_add_r by lia. rewrite Pos2Z.inj_mul.
  assert (0 < 2 ^ (Zdigits2 (Z.pos mx) - 1))%Z by (apply Z.pow_pos_nonneg; lia).
  assert (0 < 2 ^ (Zdigits2 (Z.pos my) - 1))%Z by (apply Z.pow_pos_nonneg; lia).
  nia.
Qed.

Lemma SFmul_pos (mx my : positive) (ex ey : Z) :
  valid_binary (S754_finite false mx ex) = true ->
  valid_binary (S754_finite false my ey) = true ->
  Rounded (SF2R (S754_finite false mx ex) * SF2R (S754_finite false my ey))
    (SFmul prec emax (S754_finite false mx ex) (S754_finite false my ey)).
Proof.
  intros Hvx Hvy. cbn [SFmul SF2R cond_Zopp xorb].
  destruct (valid_finite _ _ _ Hvx) as (Hex & Hdx & Hnx).
  destruct (valid_finite _ _ _ Hvy) as (Hey & Hdy & Hny).
  pose proof (Zdigits2_mul_ge mx my) as Hd. cbn [Zdigits2] in Hd.
  replace (IZR (Z.pos mx) * bpow ex * (IZR (Z.pos my) * bpow ey))
    with (IZR (Z.pos (mx * my)) * bpow (ex + ey))
    by (rewrite Pos2Z.inj_mul, mult_IZR, bpow_add; ring).
  apply Rounded_exact_input; [lia|].
  cbn [Zdigits2]. rewrite fexp64_eq. lia.
Qed.

Lemma shr_nonneg (mrs : shr_record) (e n : Z) :
  (0 <= shr_m mrs)%Z -> (0 <= shr_m (fst (shr mrs e n)))%Z.
Proof.
  intros Hm. destruct n as [|p|p]; cbn [shr fst]; try assumption.
  rewrite iter_pos_nat. destruct (iter_shr_1 (Pos.to_nat p) mrs Hm) as [-> _].
  apply Z.div_pos; [assumption|]. apply Z.pow_pos_nonneg; lia.
Qed.

Lemma bra_signed (sx : bool) (mx ex : Z) (lx : location) :
  (0 <= mx)%Z -> signed sx (binary_round_aux prec emax sx mx ex lx).
Proof.
  intros Hm. unfold binary_round_aux, shr_fexp.
  pose proof (@shr_nonneg (shr_record_of_loc mx lx) ex
                (fexp64 (Zdigits2 mx + ex) - ex)) as H1.
  rewrite shr_record_of_loc_m in H1. specialize (H1 Hm).
  destruct (shr (shr_record_of_loc mx lx) ex _) as [mrs' e'].
  cbn [fst] in H1.
  set (m1 := round_nearest_even (shr_m mrs') (loc_of_shr_record mrs')).
  assert (Hm1 : (0 <= m1)%Z).
  { unfold m1. destruct (round_nearest_even_cases (shr_m mrs') (loc_of_shr_record mrs'))
      as [->|[-> _]]; lia. }
  pose proof (@shr_nonneg (shr_record_of_loc m1 loc_Exact) e'
                (fexp64 (Zdigits2 m1 + e') - e')) as H2.
  cbn [shr_record_of_loc shr_m] in H2. specialize (H2 Hm1).
  cbn [shr_record_of_loc].
  destruct (shr {| shr_m := m1; shr_r := false; shr_s := false |} e' _) as [mrs'' e''].
  cbn [fst] in H2.
  destruct (shr_m mrs'') as [|p|p]; try lia.
  - reflexivity.
  - destruct (e'' <=? emax - prec)%Z; reflexivity.
Qed.

Lemma binary_round_signed (sx : bool) (m : positive) (e : Z) :
  signed sx (binary_round prec emax sx m e).
Proof.
  unfold binary_round. destruct (shl_align m e _) as [mz ez]. apply bra_signed. lia.
Qed.

(** The magnitude of a positive finite number. *)
Lemma SF2R_mag (m : positive) (e : Z) :
  bpow (Z.pos (digits2_pos m) - 1 + e) <= SF2R (S754_finite false m e)
  < bpow (Z.pos (digits2_pos m) + e).
Proof.
  cbn [SF2R cond_Zopp]. pose proof (digits2_pos_bounds m) as [Hlo Hhi].
  pose proof (bpow_gt_0 e). rewrite !bpow_add.
  rewrite (@bpow_IZR (Z.pos (digits2_pos m) - 1)), (@bpow_IZR (Z.pos (digits2_pos m))) by lia.
  split.
  - apply Rmult_le_compat_r; [lra|]. now apply IZR_le.
  - apply Rmult_lt_compat_r; [lra|]. now apply IZR_lt.
Qed.

Lemma new_location_exact (nb_steps k : Z) :
  new_location nb_steps k = loc_Exact <-> k = 0%Z.
Proof.
  unfold new_location, new_location_even, new_location_odd.
  destruct (Z.even nb_steps); destruct (Z.eqb_spec k 0); split; intros; try congruence;
    try reflexivity.
Qed.

Lemma SFdiv_pos (mx my : positive) (ex ey : Z) :
  valid_binary (S754_finite false mx ex) = true ->
  valid_binary (S754_finite false my ey) = true ->
  SF2R (S754_finite false my ey) * bpow (-1020) <= SF2R (S754_finite false mx ex) ->
  Rounded (SF2R (S754_finite false mx ex) / SF2R (S754_finite false my ey))
    (SFdiv prec emax (S754_finite false mx ex) (S754_finite false my ey)).
Proof.
  intros Hvx Hvy Hbig.
  destruct (valid_finite _ _ _ Hvx) as (Hex & Hdx & Hnx).
  destruct (valid_finite _ _ _ Hvy) as (Hey & Hdy & Hny).
  pose proof (SF2R_mag mx ex) as [Hxlo Hxhi].
  pose proof (SF2R_mag my ey) as [Hylo Hyhi].
  pose proof (digits2_pos_bounds mx) as [Hmxlo Hmxhi].
  pose proof (digits2_pos_bounds my) as [Hmylo Hmyhi].
  set (d1 := Z.pos (digits2_pos mx)) in *. set (d2 := Z.pos (digits2_pos my)) in *.
  assert (Hd1 : (0 < d1)%Z) by (unfold d1; lia).
  assert (Hd2 : (0 < d2)%Z) by (unfold d2; lia).
  assert (Hmag : (d2 + ey - 1021 < d1 + ex)%Z).
  { apply bpow_lt_inv.
    apply Rle_lt_trans with (SF2R (S754_finite false my ey) * bpow (-1020)); [|lra].
    replace (d2 + ey - 1021)%Z with ((d2 - 1 + ey) + -1020)%Z by lia.
    rewrite bpow_add. apply Rmult_le_compat_r; [pose proof (bpow_gt_0 (-1020)); lra|].
    exact Hylo. }
  cbn [SFdiv xorb]. unfold SFdiv_core_binary. cbn [Zdigits2]. fold d1 d2.
  assert (He' : Z.min (fexp64 (d1 + ex - (d2 + ey))) (ex - ey)
                = (d1 + ex - (d2 + ey) - 53)%Z) by (rewrite fexp64_eq; lia).
  rewrite He'.
  set (e' := (d1 + ex - (d2 + ey) - 53)%Z).
  set (s := (ex - ey - e')%Z).
  assert (Hs : (0 < s)%Z) by (unfold s, e'; lia).
  destruct s as [|ps|ps] eqn:Es; try lia. rewrite <- Es in *.
  rewrite Z.shiftl_mul_pow2 by lia.
  set (m' := (Z.pos mx * 2 ^ s)%Z).
  pose proof (Z_div_mod m' (Z.pos my) ltac:(lia)) as Hdm.
  destruct (Z.div_eucl m' (Z.pos my)) as [q r]. destruct Hdm as [Hdm Hr].
  assert (Hps : (0 < 2 ^ s)%Z) by (apply Z.pow_pos_nonneg; lia).
  assert (Hq : (2 ^ 52 <= q)%Z).
  { assert (H1 : (2 ^ (52 + d2) <= m')%Z).
    { unfold m'. replace (52 + d2)%Z with ((d1 - 1) + s)%Z by (unfold s, e'; lia).
      rewrite Z.pow_add_r by lia. nia. }
    rewrite Z.pow_add_r in H1 by lia.
    assert (H2 : (2 ^ 52 * Z.pos my < (q + 1) * Z.pos my)%Z) by nia.
    assert (0 < 2 ^ 52)%Z by lia. nia. }
  pose proof (bpow_gt_0 e') as Hbe'. pose proof (bpow_gt_0 ex) as Hbex.
  pose proof (bpow_gt_0 ey) as Hbey.
  assert (Hval : SF2R (S754_finite false mx ex) / SF2R (S754_finite false my ey)
                 = (IZR q + IZR r / IZR (Z.pos my)) * bpow e').
  { cbn [SF2R cond_Zopp].
    assert (Hmy : 0 < IZR (Z.pos my)) by (apply IZR_lt; lia).
    assert (Hex' : bpow ex = IZR (2 ^ s) * bpow e' * bpow ey).
    { rewrite <- bpow_IZR by lia. rewrite <- !bpow_add. f_equal. unfold s. lia. }
    rewrite Hex'.
    assert (Hm' : IZR (Z.pos mx) * IZR (2 ^ s) = IZR (Z.pos my) * IZR q + IZR r).
    { rewrite <- !mult_IZR, <- plus_IZR. f_equal. unfold m' in Hdm. lia. }
    field_simplify_eq; [|split; lra].
    replace (IZR (Z.pos mx) * IZR (2 ^ s) * bpow e' * bpow ey)
      with ((IZR (Z.pos mx) * IZR (2 ^ s)) * bpow e' * bpow ey) by ring.
    rewrite Hm'. ring. }
  rewrite Hval.
  assert (Hmy : 0 < IZR (Z.pos my)) by (apply IZR_lt; lia).
  assert (Hfrac : 0 <= IZR r / IZR (Z.pos my) < 1).
  { split.
    - apply Rmult_le_pos; [apply IZR_le; lia|]. apply Rlt_le, Rinv_0_lt_compat, Hmy.
    - apply Rmult_lt_reg_r with (IZR (Z.pos my)); [exact Hmy|].
      unfold Rdiv. rewrite Rmult_assoc, Rinv_l, Rmult_1_r, Rmult_1_l by lra.
      apply IZR_lt. lia. }
  apply Rounded_bra.
  - lia.
  - assert (53 <= Zdigits2 q)%Z by (apply Zdigits2_ge; lia).
    rewrite fexp64_eq. lia.
  - rewrite plus_IZR. split.
    + apply Rmult_le_compat_r; lra.
    + apply Rmult_lt_compat_r; lra.
  - rewrite new_location_exact. split.
    + intros ->. unfold Rdiv. rewrite Rmult_0_l, Rplus_0_r. reflexivity.
    + intros H. apply Rmult_eq_reg_r in H; [|lra].
      assert (Hz : IZR r / IZR (Z.pos my) = 0) by lra.
      unfold Rdiv in Hz. apply Rmult_integral in Hz. destruct Hz as [Hz|Hz].
      * now apply eq_IZR in Hz.
      * pose proof (Rinv_0_lt_compat _ Hmy). lra.
Qed.

(** What [Rounded] entails. *)

Lemma Rounded_cases (v : R) (r : spec_float) :
  Rounded v r -> is_inf r \/ (nnf r /\ 0 <= SF2R r).
Proof.
  intros (m1 & E & HE & Hm1 & Hv & Hlo & Hhi & Hr).
  destruct r as [s|s| |s m e]; try contradiction.
  - right. split; [exact I|]. simpl. lra.
  - left. destruct Hr as [-> _]. reflexivity.
  - right. destruct Hr as [-> Hr]. split; [exact I|].
    cbn [SF2R cond_Zopp]. rewrite Hr.
    apply Rmult_le_pos; [apply IZR_le; lia|]. pose proof (bpow_gt_0 E). lra.
Qed.

Lemma Rounded_upper_overflow (v : R) (r : spec_float) :
  Rounded v r -> is_inf r -> bpow 1024 - bpow 971 < v.
Proof.
  intros (m1 & E & HE & Hm1 & Hv & Hlo & Hhi & Hr) ->.
  destruct Hr as [_ Hr].
  pose proof (bpow_gt_0 E) as HbE. pose proof (bpow_gt_0 971) as Hb971.
  destruct (Z_le_gt_dec E 971) as [Hle|Hgt].
  - assert (Hm : (m1 <= 2 ^ 53)%Z).
    { assert (Hlt : IZR m1 < IZR (2 ^ 53 + 1)).
      { apply Rmult_lt_reg_bpow with E. rewrite plus_IZR, <- bpow_IZR by lia.
        rewrite Rmult_plus_distr_r, <- bpow_add.
        replace (53 + E)%Z with (E + 53)%Z by lia. lra. }
      apply lt_IZR in Hlt. lia. }
    assert (HE971 : E = 971%Z).
    { destruct (Z.eq_dec E 971) as [|Hne]; [assumption|]. exfalso.
      assert (IZR m1 * bpow E <= bpow (53 + E)).
      { rewrite bpow_add, (@bpow_IZR 53) by lia.
        apply Rmult_le_compat_r; [lra|]. now apply IZR_le. }
      assert (bpow (53 + E) < bpow 1024) by (apply bpow_lt; lia). lra. }
    subst E.
    assert (Hm53 : (2 ^ 53 <= m1)%Z).
    { assert (Hge : IZR (2 ^ 53) <= IZR m1).
      { apply Rmult_le_reg_bpow with 971%Z. rewrite <- bpow_IZR by lia.
        rewrite <- bpow_add. exact Hr. }
      now apply le_IZR in Hge. }
    assert (m1 = 2 ^ 53)%Z as -> by lia.
    replace (bpow 1024) with (IZR (2 ^ 53) * bpow 971)
      by (rewrite <- bpow_IZR by lia; rewrite <- bpow_add; reflexivity).
    lra.
  - destruct Hlo as [->|Hlo]; [lia|].
    assert (bpow 1024 <= bpow (E + 52)) by (apply bpow_le; lia). lra.
Qed.

Lemma valid_nnf_bounds (z : spec_float) :
  valid_binary z = true -> nnf z ->
  SF2R z = 0
  \/ exists mz ez, z = S754_finite false mz ez /\ SF2R z = IZR (Z.pos mz) * bpow ez
       /\ (-1074 <= ez <= 971)%Z /\ (Z.pos mz < 2 ^ 53)%Z
       /\ (ez = (-1074)%Z \/ (2 ^ 52 <= Z.pos mz)%Z).
Proof.
  intros Hv Hn. destruct z as [s|s| |[|] mz ez]; try contradiction.
  - left. reflexivity.
  - right. exists mz, ez. destruct (valid_finite _ _ _ Hv) as (He & _ & _).
    destruct (valid_mantissa_bounds _ _ _ Hv) as (Hhi & Hlo). auto.
Qed.

(** The value of a result that is not infinite. *)
Lemma Rounded_value (r : spec_float) (m1 E : Z) :
  match r with
  | S754_zero _ => m1 = 0%Z
  | S754_finite s m e => s = false /\ IZR (Z.pos m) * bpow e = IZR m1 * bpow E
  | S754_infinity s => s = false /\ bpow 1024 <= IZR m1 * bpow E
  | S754_nan => False
  end ->
  ~ is_inf r -> SF2R r = IZR m1 * bpow E.
Proof.
  destruct r as [s|s| |s m e]; try contradiction.
  - intros -> _. simpl. lra.
  - intros [-> _] H. exfalso. now apply H.
  - intros [-> H] _. exact H.
Qed.

(** Every number of the format that is not above [v] is not above the
    result. *)
Lemma Rounded_ge (v : R) (r z : spec_float) :
  Rounded v r -> valid_binary z = true -> nnf z -> SF2R z <= v ->
  is_inf r \/ SF2R z <= SF2R r.
Proof.
  intros HR Hvz Hnz Hz.
  destruct (@Rounded_cases _ _ HR) as [Hinf|[Hnr Hpos]]; [left; exact Hinf|right].
  destruct (@valid_nnf_bounds _ Hvz Hnz) as [H0|(mz & ez & -> & Hval & Hez & Hmz & Hnorm)];
    [lra|].
  destruct HR as (m1 & E & HE & Hm1 & Hv & Hlo & Hhi & Hr).
  assert (Hninf : ~ is_inf r) by (intros ->; exact Hnr).
  rewrite (@Rounded_value r m1 E Hr Hninf). rewrite Hval in *.
  pose proof (bpow_gt_0 E) as HbE. pose proof (bpow_gt_0 ez) as Hbez.
  destruct (Z_le_gt_dec E ez) as [Hle|Hgt].
  - assert (Hez' : bpow ez = IZR (2 ^ (ez - E)) * bpow E).
    { rewrite <- bpow_IZR by lia. rewrite <- bpow_add. f_equal. lia. }
    rewrite Hez', <- Rmult_assoc, <- mult_IZR in *.
    apply Rmult_le_compat_r; [lra|]. apply IZR_le.
    assert (Hlt : IZR (Z.pos mz * 2 ^ (ez - E)) < IZR (m1 + 1)).
    { apply Rmult_lt_reg_bpow with E. rewrite (plus_IZR m1). lra. }
    apply lt_IZR in Hlt. lia.
  - destruct Hlo as [->|Hlo]; [lia|].
    assert (H52 : (2 ^ 52 <= m1)%Z).
    { assert (Hlt : IZR (2 ^ 52) < IZR (m1 + 1)).
      { apply Rmult_lt_reg_bpow with E. rewrite <- bpow_IZR by lia.
        rewrite <- bpow_add. replace (52 + E)%Z with (E + 52)%Z by lia.
        rewrite plus_IZR. lra. }
      apply lt_IZR in Hlt. lia. }
    apply Rle_trans with (bpow (53 + ez)).
    + rewrite bpow_add, (@bpow_IZR 53) by lia.
      apply Rmult_le_compat_r; [lra|]. apply IZR_le. lia.
    + apply Rle_trans with (bpow (52 + E)); [apply bpow_le; lia|].
      rewrite bpow_add, (@bpow_IZR 52) by lia.
      apply Rmult_le_compat_r; [lra|]. now apply IZR_le.
Qed.

Lemma valid_le_max (z : spec_float) :
  valid_binary z = true -> nnf z -> SF2R z <= bpow 1024 - bpow 971.
Proof.
  intros Hvz Hnz. pose proof (bpow_gt_0 971) as H971.
  assert (Hmax : bpow 1024 - bpow 971 = IZR (2 ^ 53 - 1) * bpow 971).
  { rewrite minus_IZR, <- bpow_IZR by lia. rewrite Rmult_minus_distr_r, <- bpow_add.
    replace (53 + 971)%Z with 1024%Z by lia. lra. }
  destruct (@valid_nnf_bounds _ Hvz Hnz) as [H0|(mz & ez & -> & Hval & Hez & Hmz & Hnorm)].
  - rewrite H0, Hmax. apply Rmult_le_pos; [apply IZR_le; lia|lra].
  - rewrite Hval, Hmax.
    apply Rle_trans with (IZR (2 ^ 53 - 1) * bpow ez).
    + apply Rmult_le_compat_r; [pose proof (bpow_gt_0 ez); lra|]. apply IZR_le. lia.
    + apply Rmult_le_compat_l; [apply IZR_le; lia|]. apply bpow_le. lia.
Qed.

(** The result is not above any number of the format that is not below
    [v]; in particular it is finite when there is one. *)
Lemma Rounded_le (v : R) (r z : spec_float) :
  Rounded v r -> valid_binary z = true -> nnf z -> v <= SF2R z ->
  ~ is_inf r /\ SF2R r <= SF2R z.
Proof.
  intros HR Hvz Hnz Hz.
  assert (Hninf : ~ is_inf r).
  { intros Hinf. pose proof (@Rounded_upper_overflow _ _ HR Hinf).
    pose proof (@valid_le_max _ Hvz Hnz). lra. }
  split; [exact Hninf|].
  destruct HR as (m1 & E & HE & Hm1 & Hv & Hlo & Hhi & Hr).
  rewrite (@Rounded_value r m1 E Hr Hninf).
  pose proof (bpow_gt_0 E) as HbE.
  destruct (@valid_nnf_bounds _ Hvz Hnz) as [H0|(mz & ez & -> & Hval & Hez & Hmz & Hnorm)].
  - rewrite H0 in *.
    assert (Hlt : IZR m1 < IZR 1).
    { apply Rmult_lt_reg_bpow with E. lra. }
    apply lt_IZR in Hlt. assert (m1 = 0%Z) as -> by lia. lra.
  - rewrite Hval in *. pose proof (bpow_gt_0 ez) as Hbez.
    destruct (Z_le_gt_dec E ez) as [Hle|Hgt].
    + assert (Hez' : bpow ez = IZR (2 ^ (ez - E)) * bpow E).
      { rewrite <- bpow_IZR by lia. rewrite <- bpow_add. f_equal. lia. }
      rewrite Hez', <- Rmult_assoc, <- mult_IZR in *.
      apply Rmult_le_compat_r; [lra|]. apply IZR_le.
      assert (Hlt : IZR (m1 - 1) < IZR (Z.pos mz * 2 ^ (ez - E))).
      { apply Rmult_lt_reg_bpow with E. rewrite (minus_IZR m1). lra. }
      apply lt_IZR in Hlt. lia.
    + exfalso. destruct Hlo as [->|Hlo]; [lia|].
      assert (IZR (Z.pos mz) * bpow ez < bpow (53 + ez)).
      { rewrite bpow_add, (@bpow_IZR 53) by lia.
        apply Rmult_lt_compat_r; [lra|]. apply IZR_lt. lia. }
      assert (bpow (53 + ez) <= bpow (E + 52)) by (apply bpow_le; lia). lra.
Qed.

(** Relative error. *)
Lemma Rounded_error (v : R) (r : spec_float) :
  Rounded v r -> ~ is_inf r -> bpow (-1022) <= v ->
  v * (1 - bpow (-52)) <= SF2R r <= v * (1 + bpow (-52)).
Proof.
  intros (m1 & E & HE & Hm1 & Hv & Hlo & Hhi & Hr) Hninf Hbig.
  rewrite (@Rounded_value r m1 E Hr Hninf).
  assert (HbE : bpow E <= v * bpow (-52)).
  { destruct Hlo as [->|Hlo].
    - replace (-1074)%Z with (-1022 + -52)%Z by lia. rewrite bpow_add.
      apply Rmult_le_compat_r; [pose proof (bpow_gt_0 (-52)); lra|exact Hbig].
    - replace E with ((E + 52) + -52)%Z at 1 by lia. rewrite bpow_add.
      apply Rmult_le_compat_r; [pose proof (bpow_gt_0 (-52)); lra|exact Hlo]. }
  lra.
Qed.

(** Integers: an integer up to [2^53] is kept, and the result of
    rounding an integer is an integer. *)
Lemma Rounded_integer (k : Z) (r : spec_float) :
  (0 <= k)%Z -> Rounded (IZR k) r ->
  is_inf r \/ exists k', (0 <= k')%Z /\ SF2R r = IZR k' /\ ((k <= 2 ^ 53)%Z -> k' = k).
Proof.
  intros Hk HR.
  destruct (@Rounded_cases _ _ HR) as [Hinf|[Hnr Hpos]]; [left; exact Hinf|right].
  assert (Hninf : ~ is_inf r) by (intros ->; exact Hnr).
  destruct HR as (m1 & E & HE & Hm1 & Hv & Hlo & Hhi & Hr).
  rewrite (@Rounded_value r m1 E Hr Hninf).
  pose proof (bpow_gt_0 E) as HbE.
  destruct (Z_le_gt_dec E 0) as [Hle|Hgt].
  - (* every integer is a multiple of [2^E] *)
    assert (Hb : bpow E * IZR (2 ^ (- E)) = 1).
    { rewrite <- bpow_IZR by lia. rewrite <- bpow_add.
      replace (E + - E)%Z with 0%Z by lia. reflexivity. }
    assert (Hm : m1 = (k * 2 ^ (- E))%Z).
    { assert (Hk' : IZR k = IZR (k * 2 ^ (- E)) * bpow E)
        by (rewrite mult_IZR, Rmult_assoc, (Rmult_comm (IZR (2 ^ (- E)))), Hb; lra).
      rewrite Hk' in Hv.
      assert (H1 : IZR (m1 - 1) < IZR (k * 2 ^ (- E)))
        by (apply Rmult_lt_reg_bpow with E; rewrite minus_IZR; lra).
      assert (H2 : IZR (k * 2 ^ (- E)) < IZR (m1 + 1))
        by (apply Rmult_lt_reg_bpow with E; rewrite plus_IZR; lra).
      apply lt_IZR in H1, H2. lia. }
    exists k. split; [lia|]. split; [|reflexivity].
    rewrite Hm, mult_IZR, Rmult_assoc, (Rmult_comm (IZR (2 ^ (- E)))), Hb. lra.
  - exists (m1 * 2 ^ E)%Z.
    assert (Hp : (0 < 2 ^ E)%Z) by (apply Z.pow_pos_nonneg; lia).
    split; [nia|]. split.
    + rewrite mult_IZR, <- bpow_IZR by lia. reflexivity.
    + intros Hk53.
      destruct Hlo as [->|Hlo]; [lia|].
      assert (H53 : IZR k <= bpow 53)
        by (rewrite (@bpow_IZR 53) by lia; now apply IZR_le).
      assert (HE1 : E = 1%Z).
      { destruct (Z.eq_dec E 1) as [|Hne]; [assumption|]. exfalso.
        assert (bpow 53 < bpow (E + 52)) by (apply bpow_lt; lia). lra. }
      subst E. change (1 + 52)%Z with 53%Z in *.
      assert (Hk2 : IZR k = IZR (2 ^ 53)) by (rewrite <- bpow_IZR by lia; lra).
      apply eq_IZR in Hk2. subst k.
      rewrite bpow_1 in Hv.
      assert (H1 : IZR ((m1 - 1) * 2) < IZR (2 ^ 53))
        by (rewrite mult_IZR, minus_IZR; lra).
      assert (H2 : IZR (2 ^ 53) < IZR ((m1 + 1) * 2))
        by (rewrite mult_IZR, plus_IZR; lra).
      apply lt_IZR in H1, H2. lia.
Qed.

(** **** Numbers of the program: values and classes *)

Lemma fin_not_inf (x : float) : Fin x -> ~ Inf x.
Proof. unfold Fin, Inf. intros H E. rewrite E in H. exact H. Qed.

Lemma fin_not_nan (x : float) : Fin x -> ~ NaN x.
Proof. unfold Fin, NaN. intros H E. rewrite E in H. exact H. Qed.

Lemma inf_not_nan (x : float) : Inf x -> ~ NaN x.
Proof. unfold Inf, NaN. congruence. Qed.

Lemma val_nonneg (x : float) : Fin x -> 0 <= val x.
Proof.
  unfold Fin, val. destruct (Prim2SF x) as [s|s| |[|] m e]; try contradiction; intros _.
  - simpl. lra.
  - cbn [SF2R cond_Zopp]. apply Rmult_le_pos; [apply IZR_le; lia|].
    pose proof (bpow_gt_0 e). lra.
Qed.

Lemma Rounded_fin (v : R) (x : float) :
  Rounded v (Prim2SF x) -> Inf x \/ Fin x.
Proof.
  intros H. destruct (@Rounded_cases _ _ H) as [Hi|[Hn _]]; [left|right]; assumption.
Qed.

(** ***** Addition *)

Lemma add_fin (x y : float) :
  Fin x -> Fin y -> Rounded (val x + val y) (Prim2SF (x + y)).
Proof.
  unfold Fin, val. rewrite add_spec.
  pose proof (Prim2SF_valid x) as Hvx. pose proof (Prim2SF_valid y) as Hvy.
  destruct (Prim2SF x) as [sx|sx| |[|] mx ex]; try contradiction;
    destruct (Prim2SF y) as [sy|sy| |[|] my ey]; try contradiction; intros _ _.
  - replace (SF2R (S754_zero sx) + SF2R (S754_zero sy)) with 0 by (simpl; lra).
    unfold SF64add. simpl. destruct sx, sy; apply Rounded_zero.
  - replace (SF2R (S754_zero sx) + SF2R (S754_finite false my ey))
      with (SF2R (S754_finite false my ey)) by (simpl; lra).
    unfold SF64add. cbn [SFadd]. now apply Rounded_self.
  - replace (SF2R (S754_finite false mx ex) + SF2R (S754_zero sy))
      with (SF2R (S754_finite false mx ex)) by (simpl; lra).
    unfold SF64add. cbn [SFadd]. now apply Rounded_self.
  - apply SFadd_pos.
Qed.

Lemma add_inf_l (x y : float) : Inf x -> Fin y \/ Inf y -> Inf (x + y).
Proof.
  unfold Fin, Inf. rewrite add_spec. intros -> [H| ->]; [|reflexivity].
  destruct (Prim2SF y) as [sy|sy| |[|] my ey]; try contradiction; reflexivity.
Qed.

Lemma add_inf_r (x y : float) : Fin x \/ Inf x -> Inf y -> Inf (x + y).
Proof.
  unfold Fin, Inf. rewrite add_spec. intros [H| ->] ->; [|reflexivity].
  destruct (Prim2SF x) as [sx|sx| |[|] mx ex]; try contradiction; reflexivity.
Qed.

Lemma add_nan_l (x y : float) : NaN x -> NaN (x + y).
Proof. unfold NaN. rewrite add_spec. intros ->. reflexivity. Qed.

Lemma add_nan_r (x y : float) : NaN y -> NaN (x + y).
Proof.
  unfold NaN. rewrite add_spec. intros ->.
  destruct (Prim2SF x) as [sx|sx| |sx mx ex]; reflexivity.
Qed.

(** The class of a sum. *)
Lemma add_okv (x y : float) :
  Okv x -> Okv y ->
  (NaN (x + y) /\ (NaN x \/ NaN y))
  \/ (Inf (x + y) /\ ~ NaN x /\ ~ NaN y)
  \/ (Fin (x + y) /\ Fin x /\ Fin y).
Proof.
  intros [Hx|[Hx|Hx]] [Hy|[Hy|Hy]];
    try (left; split; [first [now apply add_nan_l | now apply add_nan_r]|tauto]).
  - destruct (@Rounded_fin _ _ (@add_fin _ _ Hx Hy)) as [H|H].
    + right; left. repeat split; auto using fin_not_nan.
    + right; right. auto.
  - right; left. repeat split; auto using fin_not_nan, inf_not_nan.
    apply add_inf_r; auto.
  - right; left. repeat split; auto using fin_not_nan, inf_not_nan.
    apply add_inf_l; auto.
  - right; left. repeat split; auto using fin_not_nan, inf_not_nan.
    apply add_inf_l; auto.
Qed.

(** **** Overflow, comparison, subtraction and the classes of results *)

Lemma Rounded_lt_overflow (v : R) (r : spec_float) :
  Rounded v r -> valid_binary r = true -> ~ is_inf r -> v < bpow 1024.
Proof.
  intros HR Hv Hni.
  destruct (@Rounded_cases _ _ HR) as [Hinf|[Hnr Hpos]]; [contradiction|].
  pose proof (@valid_le_max _ Hv Hnr) as Hmax.
  destruct HR as (m1 & E & HE & Hm1 & Hvb & Hlo & Hhi & Hr).
  rewrite (@Rounded_value r m1 E Hr Hni) in Hmax.
  destruct (Rlt_or_le v (bpow 1024)) as [H|H]; [exact H|exfalso].
  assert (HE2 : (1024 < E + 53)%Z) by (apply bpow_lt_inv; lra).
  destruct Hlo as [->|Hlo]; [lia|].
  pose proof (bpow_gt_0 E) as HbE. pose proof (bpow_gt_0 971) as Hb971.
  assert (H52 : (2 ^ 52 <= m1)%Z).
  { assert (Hlt : IZR (2 ^ 52) < IZR (m1 + 1)).
    { apply Rmult_lt_reg_bpow with E. rewrite <- bpow_IZR by lia.
      rewrite <- bpow_add. replace (52 + E)%Z with (E + 52)%Z by lia.
      rewrite plus_IZR. lra. }
    apply lt_IZR in Hlt. lia. }
  assert (bpow 1024 <= IZR m1 * bpow E).
  { apply Rle_trans with (bpow (52 + E)); [apply bpow_le; lia|].
    rewrite bpow_add, (@bpow_IZR 52) by lia.
    apply Rmult_le_compat_r; [lra|]. now apply IZR_le. }
  lra.
Qed.

Lemma pos_lt_by_exp (m1 m2 : positive) (e1 e2 : Z) :
  valid_binary (S754_finite false m1 e1) = true ->
  valid_binary (S754_finite false m2 e2) = true ->
  (e1 < e2)%Z -> IZR (Z.pos m1) * bpow e1 < IZR (Z.pos m2) * bpow e2.
Proof.
  intros H1 H2 He.
  destruct (valid_finite _ _ _ H1) as (He1 & _ & _).
  destruct (valid_mantissa_bounds _ _ _ H1) as (Hhi1 & _).
  destruct (valid_mantissa_bounds _ _ _ H2) as (_ & Hlo2).
  destruct Hlo2 as [->|Hlo2]; [lia|].
  pose proof (bpow_gt_0 e1). pose proof (bpow_gt_0 e2).
  apply Rlt_le_trans with (bpow (53 + e1)).
  - rewrite bpow_add, (@bpow_IZR 53) by lia.
    apply Rmult_lt_compat_r; [lra|]. now apply IZR_lt.
  - apply Rle_trans with (bpow (52 + e2)); [apply bpow_le; lia|].
    rewrite bpow_add, (@bpow_IZR 52) by lia.
    apply Rmult_le_compat_r; [lra|]. now apply IZR_le.
Qed.

Lemma SFcompare_pos (m1 m2 : positive) (e1 e2 : Z) :
  valid_binary (S754_finite false m1 e1) = true ->
  valid_binary (S754_finite false m2 e2) = true ->
  match SFcompare (S754_finite false m1 e1) (S754_finite false m2 e2) with
  | Some Lt => SF2R (S754_finite false m1 e1) < SF2R (S754_finite false m2 e2)
  | Some Eq => SF2R (S754_finite false m1 e1) = SF2R (S754_finite false m2 e2)
  | Some Gt => SF2R (S754_finite false m2 e2) < SF2R (S754_finite false m1 e1)
  | None => False
  end.
Proof.
  intros H1 H2. cbn [SFcompare SF2R cond_Zopp].
  destruct (Z.compare_spec e1 e2) as [He|He|He].
  - subst e2. pose proof (bpow_gt_0 e1).
    change (Pos.compare_cont Eq m1 m2) with (Pos.compare m1 m2).
    destruct (Pos.compare_spec m1 m2) as [Hm|Hm|Hm].
    + now subst.
    + apply Rmult_lt_compat_r; [lra|]. apply IZR_lt. lia.
    + apply Rmult_lt_compat_r; [lra|]. apply IZR_lt. lia.
  - now apply pos_lt_by_exp.
  - now apply pos_lt_by_exp.
Qed.

Lemma SF2R_pos (m : positive) (e : Z) : 0 < SF2R (S754_finite false m e).
Proof.
  cbn [SF2R cond_Zopp]. apply Rmult_lt_0_compat; [apply IZR_lt; lia|apply bpow_gt_0].
Qed.

Lemma SFleb_nnf (x y : spec_float) :
  valid_binary x = true -> valid_binary y = true -> nnf x -> nnf y ->
  SF2R x <= SF2R y -> SFleb x y = true.
Proof.
  intros Hx Hy Hnx Hny Hle.
  destruct x as [sx|sx| |[|] mx ex]; try contradiction;
    destruct y as [sy|sy| |[|] my ey]; try contradiction; try reflexivity.
  - pose proof (SF2R_pos mx ex). simpl in Hle. simpl in H. lra.
  - pose proof (@SFcompare_pos _ _ _ _ Hx Hy) as H. unfold SFleb.
    destruct (SFcompare _ _) as [[| |]|]; try reflexivity; try contradiction. lra.
Qed.

Lemma SFleb_inf (x : spec_float) :
  x <> S754_nan -> SFleb x (S754_infinity false) = true.
Proof. destruct x as [s|[|]| |[|] m e]; intros H; try reflexivity. now elim H. Qed.

(** [x < c] is false for a positive [c]: [x] is [+inf] or positive and at
    least [c]. *)
Lemma SFltb_false_ge (x : spec_float) (mc : positive) (ec : Z) :
  valid_binary x = true -> valid_binary (S754_finite false mc ec) = true ->
  SFltb x (S754_finite false mc ec) = false -> x <> S754_nan ->
  x = S754_infinity false
  \/ exists m e, x = S754_finite false m e
       /\ SF2R (S754_finite false mc ec) <= SF2R x.
Proof.
  intros Hx Hc Hlt Hn.
  destruct x as [s|[|]| |[|] m e]; try discriminate; try (now elim Hn).
  - now left.
  - right. exists m, e. split; [reflexivity|].
    pose proof (@SFcompare_pos _ _ _ _ Hx Hc) as H. unfold SFltb in Hlt.
    destruct (SFcompare _ _) as [[| |]|]; try discriminate; try contradiction; lra.
Qed.

Lemma SFltb_false_zero (x : spec_float) (s : bool) :
  SFltb x (S754_zero s) = false -> x <> S754_nan ->
  x = S754_infinity false \/ nnf x.
Proof.
  intros Hlt Hn.
  destruct x as [sx|[|]| |[|] m e]; try discriminate; try (now elim Hn);
    try (now left); right; exact I.
Qed.

(** [c < x] is false for a number [c]: [x] is not above [c]. *)
Lemma SFltb_false_le (x c : spec_float) :
  valid_binary x = true -> valid_binary c = true -> nnf c ->
  SFltb c x = false -> x = S754_infinity false \/ nnf x ->
  nnf x /\ SF2R x <= SF2R c.
Proof.
  intros Hx Hc Hnc Hlt [->|Hnx].
  - destruct c as [s|s| |[|] m e]; try contradiction; discriminate.
  - split; [exact Hnx|].
    destruct x as [sx|sx| |[|] mx ex]; try contradiction;
      destruct c as [sc|sc| |[|] mc ec]; try contradiction; try discriminate.
    + simpl. lra.
    + pose proof (SF2R_pos mc ec). simpl. simpl in H. lra.
    + pose proof (@SFcompare_pos _ _ _ _ Hc Hx) as H. unfold SFltb in Hlt.
      destruct (SFcompare _ _) as [[| |]|]; try discriminate; try contradiction; lra.
Qed.

(** Equal numbers of the format have equal values. *)
Lemma SFeqb_nnf (x y : spec_float) :
  valid_binary x = true -> valid_binary y = true -> nnf x -> nnf y ->
  SFeqb x y = true -> SF2R x = SF2R y.
Proof.
  intros Hx Hy Hnx Hny He.
  destruct x as [sx|sx| |[|] mx ex]; try contradiction;
    destruct y as [sy|sy| |[|] my ey]; try contradiction; try discriminate.
  - reflexivity.
  - pose proof (@SFcompare_pos _ _ _ _ Hx Hy) as H. unfold SFeqb in He.
    destruct (SFcompare _ _) as [[| |]|]; try discriminate; try contradiction. exact H.
Qed.

(** ***** Subtraction *)

Lemma align_value (m : positive) (e ez : Z) :
  (ez <= e)%Z ->
  IZR (Z.pos (fst (shl_align m e ez))) * bpow ez = IZR (Z.pos m) * bpow e.
Proof.
  intros H. rewrite shl_align_fst by exact H.
  rewrite mult_IZR, <- bpow_IZR by lia. rewrite Rmult_assoc, <- bpow_add.
  do 2 f_equal. lia.
Qed.

Lemma SFsub_nnf (x y : spec_float) :
  valid_binary x = true -> valid_binary y = true -> nnf x -> nnf y ->
  (SF2R y < SF2R x /\ Rounded (SF2R x - SF2R y) (SFsub prec emax x y)
   /\ signed false (SFsub prec emax x y))
  \/ (SF2R x = SF2R y
      /\ exists s, SFsub prec emax x y = S754_zero s
                   /\ forall m e, x = S754_finite false m e -> s = false)
  \/ (SF2R x < SF2R y /\ signed true (SFsub prec emax x y)).
Proof.
  intros Hx Hy Hnx Hny.
  destruct x as [sx|sx| |[|] mx ex]; try contradiction;
    destruct y as [sy|sy| |[|] my ey]; try contradiction.
  - right; left. split; [reflexivity|].
    destruct sx, sy; cbn [SFsub]; eexists; (split; [reflexivity|discriminate]).
  - right; right. split; [pose proof (SF2R_pos my ey) as H; simpl in *; lra|reflexivity].
  - left. split; [pose proof (SF2R_pos mx ex) as H; simpl in *; lra|].
    cbn [SFsub]. replace (SF2R (S754_zero sy)) with 0 by reflexivity.
    rewrite Rminus_0_r. split; [now apply Rounded_self|reflexivity].
  - cbn [SFsub cond_Zopp]. set (ez := Z.min ex ey).
    pose proof (@align_value mx ex ez ltac:(unfold ez; lia)) as Hax.
    pose proof (@align_value my ey ez ltac:(unfold ez; lia)) as Hay.
    set (ax := Z.pos (fst (shl_align mx ex ez))) in *.
    set (ay := Z.pos (fst (shl_align my ey ez))) in *.
    cbn [SF2R cond_Zopp]. rewrite <- Hax, <- Hay.
    pose proof (bpow_gt_0 ez) as Hb.
    destruct (ax - ay)%Z as [|d|d] eqn:Ed; cbn [binary_normalize].
    + right; left. split; [|exists false; split; [reflexivity|reflexivity]].
      f_equal. f_equal. lia.
    + left. split.
      * apply Rmult_lt_compat_r; [lra|]. apply IZR_lt. lia.
      * rewrite <- Rmult_minus_distr_r, <- minus_IZR, Ed.
        split; [apply binary_round_Rounded|apply binary_round_signed].
    + right; right. split.
      * apply Rmult_lt_compat_r; [lra|]. apply IZR_lt. lia.
      * apply binary_round_signed.
Qed.

(** ***** Products and quotients *)

Lemma SFmul_nnf (x y : spec_float) :
  valid_binary x = true -> valid_binary y = true -> nnf x -> nnf y ->
  Rounded (SF2R x * SF2R y) (SFmul prec emax x y).
Proof.
  intros Hx Hy Hnx Hny.
  destruct x as [sx|sx| |[|] mx ex]; try contradiction;
    destruct y as [sy|sy| |[|] my ey]; try contradiction.
  - replace (SF2R (S754_zero sx) * _) with 0 by (simpl; ring). apply Rounded_zero.
  - replace (SF2R (S754_zero sx) * _) with 0 by (simpl; ring). apply Rounded_zero.
  - replace (_ * SF2R (S754_zero sy)) with 0 by (simpl; ring). apply Rounded_zero.
  - now apply SFmul_pos.
Qed.

Lemma SFdiv_class (x y : spec_float) :
  nnf x -> pz y ->
  (SF2R y = 0 /\ (SFdiv prec emax x y = S754_nan \/ is_inf (SFdiv prec emax x y)))
  \/ (0 < SF2R y /\ (nnf (SFdiv prec emax x y) \/ is_inf (SFdiv prec emax x y))).
Proof.
  intros Hnx Hpy.
  destruct x as [sx|sx| |[|] mx ex]; try contradiction;
    destruct y as [[|]|sy| |[|] my ey]; try contradiction.
  - left. split; [|left]; reflexivity.
  - right. split; [apply SF2R_pos|left; exact I].
  - left. split; [|right]; reflexivity.
  - right. split; [apply SF2R_pos|].
    cbn [SFdiv xorb]. unfold SFdiv_core_binary.
    set (m' := match _ with Z0 => Z.pos mx | Z.pos _ => _ | Z.neg _ => 0%Z end).
    assert (Hm' : (0 <= m')%Z).
    { unfold m'. destruct (_ - _ - _)%Z; try lia. apply Z.shiftl_nonneg. lia. }
    pose proof (Z_div_mod m' (Z.pos my) ltac:(lia)) as Hdm.
    destruct (Z.div_eucl m' (Z.pos my)) as [q r]. destruct Hdm as [Hdm Hr].
    assert (Hq : (0 <= q)%Z) by nia.
    pose proof (@bra_signed false q
                  (Z.min (fexp64 (Zdigits2 (Z.pos mx) + ex - (Zdigits2 (Z.pos my) + ey)))
                     (ex - ey)) (new_location (Z.pos my) r) Hq) as Hs.
    destruct (binary_round_aux _ _ _ _ _ _) as [s|s| |s m e]; try contradiction;
      simpl in Hs; subst s.
    + left; exact I.
    + right; reflexivity.
    + left; exact I.
Qed.

(** **** The operations on the numbers of the program *)

Lemma Posf_Fin (x : float) : Posf x -> Fin x.
Proof. unfold Posf, Fin. intros (m & e & ->). exact I. Qed.

Lemma Posf_val (x : float) : Posf x -> 0 < val x.
Proof. unfold Posf, val. intros (m & e & ->). apply SF2R_pos. Qed.

Lemma Posf_Pzf (x : float) : Posf x -> Pzf x.
Proof. unfold Posf, Pzf. intros (m & e & ->). exact I. Qed.

Lemma Pzf_Fin (x : float) : Pzf x -> Fin x.
Proof. unfold Pzf, Fin. destruct (Prim2SF x) as [[|]|s| |[|] m e]; simpl; tauto. Qed.

Lemma Fin_Posf (x : float) : Fin x -> 0 < val x -> Posf x.
Proof.
  unfold Posf, Fin, val. destruct (Prim2SF x) as [s|s| |[|] m e]; try contradiction.
  - simpl. lra.
  - intros _ _. now exists m, e.
Qed.

Lemma Fin_Okv (x : float) : Fin x -> Okv x.
Proof. unfold Okv. tauto. Qed.

Lemma Okv_not_nan (x : float) : Okv x -> ~ NaN x -> Fin x \/ Inf x.
Proof. unfold Okv. tauto. Qed.

Lemma natural_Fin (x : float) : natural x -> Fin x.
Proof. now intros [H _]. Qed.

(** ***** What a correctly rounded result satisfies *)

Lemma R_ge (v : R) (x z : float) :
  Rounded v (Prim2SF x) -> Fin z -> val z <= v -> Inf x \/ (Fin x /\ val z <= val x).
Proof.
  intros HR Hz Hle.
  destruct (@Rounded_fin _ _ HR) as [Hi|Hf]; [now left|right]. split; [exact Hf|].
  destruct (@Rounded_ge v (Prim2SF x) (Prim2SF z) HR (Prim2SF_valid z) Hz Hle) as [Hi|H];
    [|exact H].
  exfalso. exact (@fin_not_inf _ Hf Hi).
Qed.

Lemma R_le (v : R) (x z : float) :
  Rounded v (Prim2SF x) -> Fin z -> v <= val z -> Fin x /\ val x <= val z.
Proof.
  intros HR Hz Hle.
  destruct (@Rounded_le v (Prim2SF x) (Prim2SF z) HR (Prim2SF_valid z) Hz Hle) as [Hni H].
  split; [|exact H]. destruct (@Rounded_fin _ _ HR) as [Hi|Hf]; [contradiction|exact Hf].
Qed.

Lemma R_err (v : R) (x : float) :
  Rounded v (Prim2SF x) -> Fin x -> bpow (-1022) <= v ->
  v * (1 - bpow (-52)) <= val x <= v * (1 + bpow (-52)).
Proof.
  intros HR Hf Hv. apply Rounded_error; [exact HR| |exact Hv].
  intros Hi. exact (@fin_not_inf _ Hf Hi).
Qed.

Lemma R_int (k : Z) (x : float) :
  (0 <= k)%Z -> Rounded (IZR k) (Prim2SF x) ->
  Inf x \/ (natural x /\ ((k <= 2 ^ 53)%Z -> val x = IZR k)).
Proof.
  intros Hk HR.
  destruct (@Rounded_fin _ _ HR) as [Hi|Hf]; [now left|right].
  destruct (@Rounded_integer k (Prim2SF x) Hk HR) as [Hi|(k' & Hk' & Hv & He)].
  - exfalso. exact (@fin_not_inf _ Hf Hi).
  - split.
    + split; [exact Hf|]. now exists k'.
    + intros H. unfold val. rewrite Hv. now rewrite (He H).
Qed.

Lemma R_ovf (v : R) (x : float) :
  Rounded v (Prim2SF x) -> Inf x -> bpow 1024 - bpow 971 < v.
Proof. intros HR Hi. exact (@Rounded_upper_overflow _ _ HR Hi). Qed.

Lemma R_lt (v : R) (x : float) :
  Rounded v (Prim2SF x) -> Fin x -> v < bpow 1024.
Proof.
  intros HR Hf. apply (@Rounded_lt_overflow v (Prim2SF x) HR (Prim2SF_valid x)).
  intros Hi. exact (@fin_not_inf _ Hf Hi).
Qed.

(** ***** Products *)

Lemma mul_fin (x y : float) :
  Fin x -> Fin y -> Rounded (val x * val y) (Prim2SF (x * y)).
Proof.
  unfold Fin, val. rewrite mul_spec. intros Hx Hy.
  apply SFmul_nnf; auto using Prim2SF_valid.
Qed.

Lemma mul_nan_l (x y : float) : NaN x -> NaN (x * y).
Proof. unfold NaN. rewrite mul_spec. intros ->. reflexivity. Qed.

Lemma mul_nan_r (x y : float) : NaN y -> NaN (x * y).
Proof.
  unfold NaN. rewrite mul_spec. intros ->.
  destruct (Prim2SF x) as [sx|sx| |sx mx ex]; reflexivity.
Qed.

Lemma mul_inf_l (x y : float) : Inf x -> Posf y -> Inf (x * y).
Proof.
  unfold Inf, Posf. rewrite mul_spec. intros -> (m & e & ->). reflexivity.
Qed.

Lemma mul_class (x y : float) :
  Okv x -> Okv y -> Okv (x * y) /\ (Fin (x * y) -> Fin x /\ Fin y).
Proof.
  intros Hx Hy.
  destruct Hx as [Hx|[Hx|Hx]].
  3: { split; [right; right; now apply mul_nan_l|].
       intros H; exfalso; exact (@fin_not_nan _ H (@mul_nan_l x y Hx)). }
  all: destruct Hy as [Hy|[Hy|Hy]].
  all: try (split; [right; right; now apply mul_nan_r|];
            intros H; exfalso; exact (@fin_not_nan _ H (@mul_nan_r x y Hy))).
  - split; [|tauto]. destruct (@Rounded_fin _ _ (@mul_fin x y Hx Hy)); unfold Okv; tauto.
  - unfold Okv, Fin, Inf, NaN in *. rewrite mul_spec. rewrite Hy.
    destruct (Prim2SF x) as [sx|sx| |[|] mx ex]; try contradiction; simpl;
      intuition (auto; try discriminate).
  - unfold Okv, Fin, Inf, NaN in *. rewrite mul_spec. rewrite Hx.
    destruct (Prim2SF y) as [sy|sy| |[|] my ey]; try contradiction; simpl;
      intuition (auto; try discriminate).
  - unfold Okv, Fin, Inf, NaN in *. rewrite mul_spec. rewrite Hx, Hy. simpl.
    intuition (auto; try discriminate).
Qed.

(** ***** Quotients by a number that is [+0] or positive *)

Lemma div_nan_l (x y : float) : NaN x -> NaN (x / y).
Proof. unfold NaN. rewrite div_spec. intros ->. reflexivity. Qed.

Lemma div_inf_l (x y : float) : Inf x -> Pzf y -> Inf (x / y).
Proof.
  unfold Inf, Pzf. rewrite div_spec. intros ->.
  destruct (Prim2SF y) as [[|]|s| |[|] m e]; try contradiction; reflexivity.
Qed.

Lemma div_fin_class (x y : float) :
  Fin x -> Pzf y ->
  (val y = 0 /\ (NaN (x / y) \/ Inf (x / y)))
  \/ (0 < val y /\ (Fin (x / y) \/ Inf (x / y))).
Proof.
  unfold Fin, Pzf, NaN, Inf, val. rewrite div_spec. apply SFdiv_class.
Qed.

Lemma div_class (x y : float) :
  Okv x -> Pzf y -> Okv (x / y) /\ (Fin (x / y) -> Fin x /\ Posf y).
Proof.
  intros [Hx|[Hx|Hx]] Hy.
  - destruct (@div_fin_class x y Hx Hy) as [[H0 [H|H]]|[H0 [H|H]]]; unfold Okv;
      (split; [tauto|]); intros Hf.
    + exfalso. exact (@fin_not_nan _ Hf H).
    + exfalso. exact (@fin_not_inf _ Hf H).
    + split; [exact Hx|]. apply Fin_Posf; [now apply Pzf_Fin|exact H0].
    + exfalso. exact (@fin_not_inf _ Hf H).
  - pose proof (@div_inf_l x y Hx Hy) as H. unfold Okv. split; [tauto|].
    intros Hf. exfalso. exact (@fin_not_inf _ Hf H).
  - pose proof (@div_nan_l x y Hx) as H. unfold Okv. split; [tauto|].
    intros Hf. exfalso. exact (@fin_not_nan _ Hf H).
Qed.

Lemma div_fin (x y : float) :
  Posf x -> Posf y -> val y * bpow (-1020) <= val x ->
  Rounded (val x / val y) (Prim2SF (x / y)).
Proof.
  unfold Posf, val. rewrite div_spec.
  pose proof (Prim2SF_valid x) as Hvx. pose proof (Prim2SF_valid y) as Hvy.
  intros (mx & ex & Hx) (my & ey & Hy). rewrite Hx, Hy in *.
  now apply SFdiv_pos.
Qed.

(** ***** Differences *)

Lemma sub_nan_l (x y : float) : NaN x -> NaN (x - y).
Proof. unfold NaN. rewrite sub_spec. intros ->. reflexivity. Qed.

Lemma sub_nan_r (x y : float) : NaN y -> NaN (x - y).
Proof.
  unfold NaN. rewrite sub_spec. intros ->.
  destruct (Prim2SF x) as [sx|sx| |sx mx ex]; reflexivity.
Qed.

Lemma sub_fin (x y : float) :
  Fin x -> Fin y ->
  (val y < val x /\ Rounded (val x - val y) (Prim2SF (x - y))
   /\ signed false (Prim2SF (x - y)))
  \/ (val x = val y /\ Fin (x - y) /\ val (x - y) = 0 /\ (Posf x -> Pzf (x - y)))
  \/ (val x < val y /\ signed true (Prim2SF (x - y))).
Proof.
  unfold Fin, val, Posf, Pzf. rewrite sub_spec. intros Hx Hy.
  destruct (@SFsub_nnf (Prim2SF x) (Prim2SF y) (Prim2SF_valid x) (Prim2SF_valid y) Hx Hy)
    as [H|[(He & s & Hs & Hp)|H]]; [now left| |now right; right].
  right; left. unfold SF64sub. rewrite Hs. repeat split; try assumption.
  intros (m & e & Hxe). specialize (Hp _ _ Hxe). subst s. exact I.
Qed.

(** ***** Comparisons *)

Lemma is_nan_spec (x : float) : is_nan x = true <-> NaN x.
Proof.
  unfold is_nan, NaN. rewrite FloatAxioms.eqb_spec. unfold SFeqb.
  destruct (Prim2SF x) as [s|[|]| |[|] m e]; cbn [SFcompare negb];
    try (split; [discriminate|discriminate]); try (split; reflexivity);
    rewrite Z.compare_refl;
    change (Pos.compare_cont Eq m m) with (Pos.compare m m); rewrite Pos.compare_refl;
    split; discriminate.
Qed.

Lemma is_nan_false (x : float) : is_nan x = false <-> ~ NaN x.
Proof.
  rewrite <- is_nan_spec. destruct (is_nan x); split; congruence.
Qed.

Lemma leb_fin (x y : float) :
  Fin x -> Fin y -> val x <= val y -> (x <=? y)%float = true.
Proof.
  unfold Fin, val. rewrite FloatAxioms.leb_spec. intros Hx Hy.
  apply SFleb_nnf; auto using Prim2SF_valid.
Qed.

Lemma leb_inf (x y : float) : ~ NaN x -> Inf y -> (x <=? y)%float = true.
Proof.
  unfold NaN, Inf. rewrite FloatAxioms.leb_spec. intros Hx ->. now apply SFleb_inf.
Qed.

Lemma ltb_false_pos (x c : float) :
  ~ NaN x -> (x <? c)%float = false -> Posf c ->
  Inf x \/ (Posf x /\ val c <= val x).
Proof.
  unfold NaN, Inf, Posf, val. rewrite FloatAxioms.ltb_spec.
  pose proof (Prim2SF_valid x) as Hvx. pose proof (Prim2SF_valid c) as Hvc.
  intros Hn Hlt (mc & ec & Hc). rewrite Hc in *.
  destruct (@SFltb_false_ge (Prim2SF x) mc ec Hvx Hvc Hlt Hn) as [H|(m & e & H & Hle)].
  - now left.
  - right. split; [now exists m, e|exact Hle].
Qed.

Lemma ltb_false_zero (x c : float) :
  ~ NaN x -> (x <? c)%float = false -> Fin c -> val c = 0 -> Inf x \/ Fin x.
Proof.
  unfold NaN, Inf, Fin, val. rewrite FloatAxioms.ltb_spec. intros Hn Hlt Hc H0.
  destruct (Prim2SF c) as [s|s| |[|] m e]; try contradiction.
  - exact (@SFltb_false_zero _ _ Hlt Hn).
  - pose proof (SF2R_pos m e). lra.
Qed.

Lemma ltb_false_le (x c : float) :
  (c <? x)%float = false -> Fin c -> Inf x \/ Fin x -> Fin x /\ val x <= val c.
Proof.
  unfold Inf, Fin, val. rewrite FloatAxioms.ltb_spec. intros Hlt Hc Hx.
  apply SFltb_false_le; auto using Prim2SF_valid.
Qed.

Lemma eqb_fin (x y : float) :
  Fin x -> Fin y -> (x =? y)%float = true -> val x = val y.
Proof.
  unfold Fin, val. rewrite FloatAxioms.eqb_spec. intros Hx Hy.
  apply SFeqb_nnf; auto using Prim2SF_valid.
Qed.

(** **** [Math.floor], [Math.max(0, x)] and [x || 0] *)

Lemma Fin_zero : Fin 0%float.
Proof. unfold Fin. vm_compute. exact I. Qed.

Lemma val_zero : val 0%float = 0.
Proof. unfold val. replace (Prim2SF 0%float) with (S754_zero false) by reflexivity. reflexivity. Qed.

Lemma natural_zero : natural 0%float.
Proof. split; [exact Fin_zero|]. exists 0%Z. split; [lia|exact val_zero]. Qed.

Lemma float_of_Z_small (q : Z) :
  (0 <= q < 2 ^ 53)%Z ->
  Fin (JS.float_of_Z q) /\ val (JS.float_of_Z q) = IZR q.
Proof.
  intros Hq. unfold JS.float_of_Z, Fin, val. rewrite of_uint63_spec, Uint63.of_Z_spec.
  rewrite Z.mod_small.
  2: { split; [lia|]. apply Z.lt_trans with (2 ^ 53)%Z; [lia|]. reflexivity. }
  destruct q as [|p|p]; try lia; cbn [binary_normalize].
  - split; [exact I|reflexivity].
  - pose proof (binary_round_Rounded p 0) as HR.
    replace (IZR (Z.pos p) * bpow 0) with (IZR (Z.pos p)) in HR by (rewrite bpow_0; ring).
    destruct (@Rounded_cases _ _ HR) as [Hi|[Hn _]].
    + exfalso.
      pose proof (@Rounded_upper_overflow _ _ HR Hi) as Hbig.
      assert (IZR (Z.pos p) < bpow 53)
        by (rewrite (@bpow_IZR 53) by lia; apply IZR_lt; lia).
      assert (bpow 54 <= bpow 1024 - bpow 971).
      { pose proof (@bpow_le 54 971 ltac:(lia)).
        pose proof (@bpow_le 972 1024 ltac:(lia)).
        replace 972%Z with (971 + 1)%Z in H1 by lia. rewrite bpow_add, bpow_1 in H1.
        pose proof (bpow_gt_0 971). lra. }
      pose proof (@bpow_le 53 54 ltac:(lia)). lra.
    + split; [exact Hn|].
      destruct (@Rounded_integer (Z.pos p) _ ltac:(lia) HR) as [Hi|(k' & Hk' & Hv & He)].
      * exfalso. unfold is_inf in Hi. rewrite Hi in Hn. exact Hn.
      * rewrite Hv, He by lia. reflexivity.
Qed.

Lemma Math_floor_fin (x : float) :
  Fin x -> natural (JS.Math_floor x) /\ val x - 1 < val (JS.Math_floor x) <= val x.
Proof.
  intros Hf. unfold JS.Math_floor.
  pose proof (Prim2SF_valid x) as Hv. pose proof Hf as Hf'.
  unfold Fin in Hf. unfold natural, Fin, val at 1 3.
  destruct (Prim2SF x) as [s|s| |[|] m e] eqn:E; try contradiction.
  - unfold val. rewrite E. split; [split; [exact I|exists 0%Z; split; [lia|reflexivity]]|].
    simpl. lra.
  - destruct (Z.leb_spec 0 e) as [He|He].
    + unfold val. rewrite E. split; [|lra]. split; [exact I|].
      exists (Z.pos m * 2 ^ e)%Z. split; [lia|].
      cbn [SF2R cond_Zopp]. rewrite mult_IZR, <- bpow_IZR by lia. reflexivity.
    + destruct (valid_mantissa_bounds _ _ _ Hv) as (Hhi & _).
      set (d := (2 ^ (- e))%Z). assert (Hd : (0 < d)%Z) by (apply Z.pow_pos_nonneg; lia).
      set (q := (Z.pos m / d)%Z).
      assert (Hq : (0 <= q)%Z) by (apply Z.div_pos; lia).
      pose proof (Z.mul_div_le (Z.pos m) d Hd) as Hlo. fold q in Hlo.
      pose proof (Z.mul_succ_div_gt (Z.pos m) d Hd) as Hup. fold q in Hup.
      assert (Hq53 : (q < 2 ^ 53)%Z) by nia.
      destruct (@float_of_Z_small q ltac:(lia)) as [Hfq Hvq].
      assert (Hx : SF2R (S754_finite false m e) * IZR d = IZR (Z.pos m)).
      { cbn [SF2R cond_Zopp]. unfold d. rewrite <- bpow_IZR by lia.
        rewrite Rmult_assoc, <- bpow_add. replace (e + - e)%Z with 0%Z by lia.
        rewrite bpow_0. ring. }
      assert (HdR : 0 < IZR d) by (apply IZR_lt; lia).
      assert (H1 : IZR q * IZR d <= IZR (Z.pos m))
        by (rewrite <- mult_IZR; apply IZR_le; lia).
      assert (H2 : IZR (Z.pos m) < (IZR q + 1) * IZR d).
      { replace (IZR q + 1) with (IZR (Z.succ q)) by (rewrite succ_IZR; reflexivity).
        rewrite <- mult_IZR. apply IZR_lt. lia. }
      split; [split; [exact Hfq|exists q; split; [lia|exact Hvq]]|].
      fold (val (JS.float_of_Z q)). rewrite Hvq.
      unfold val. rewrite E. set (vx := SF2R (S754_finite false m e)) in *. split.
      * apply Rmult_lt_reg_r with (IZR d); [exact HdR|].
        rewrite Rmult_minus_distr_r, Hx. lra.
      * apply Rmult_le_reg_r with (IZR d); [exact HdR|]. rewrite Hx. exact H1.
Qed.

Lemma Math_floor_inf (x : float) : Inf x -> JS.Math_floor x = x.
Proof. unfold Inf, JS.Math_floor. now intros ->. Qed.

Lemma Math_floor_nan (x : float) : NaN x -> JS.Math_floor x = x.
Proof. unfold NaN, JS.Math_floor. now intros ->. Qed.

(** The class of [Math.floor(x)] is the class of [x]. *)
Lemma Math_floor_class (x : float) :
  Okv x ->
  (NaN x /\ NaN (JS.Math_floor x))
  \/ (Inf x /\ Inf (JS.Math_floor x))
  \/ (Fin x /\ natural (JS.Math_floor x)
      /\ val x - 1 < val (JS.Math_floor x) <= val x).
Proof.
  intros [H|[H|H]].
  - right; right. split; [exact H|]. now apply Math_floor_fin.
  - right; left. rewrite (Math_floor_inf H). tauto.
  - left. rewrite (Math_floor_nan H). tauto.
Qed.

Lemma NaN_nan : NaN PrimFloat.nan.
Proof. reflexivity. Qed.

(** [Math.max(0, x)]: [NaN] for [NaN], [x] when [x] is positive or
    [Infinity], and [0] otherwise. *)
Lemma Math_max_0 (x : float) :
  (NaN x /\ NaN (JS.Math_max 0 x))
  \/ ((Inf x \/ Posf x) /\ JS.Math_max 0 x = x)
  \/ (~ NaN x /\ ~ Inf x /\ ~ Posf x /\ JS.Math_max 0 x = 0%float).
Proof.
  unfold JS.Math_max.
  replace (is_nan 0) with false by reflexivity. cbn [orb].
  replace (get_sign 0) with false by reflexivity.
  destruct (is_nan x) eqn:En.
  - left. split; [now apply is_nan_spec|exact NaN_nan].
  - right. apply is_nan_false in En.
    rewrite !FloatAxioms.ltb_spec.
    replace (Prim2SF 0%float) with (S754_zero false) by reflexivity.
    unfold NaN, Inf, Posf in *.
    destruct (Prim2SF x) as [s|[|]| |[|] m e] eqn:E; cbn.
    + right. repeat split; try discriminate. now intros (m & e & H).
    + right. repeat split; try discriminate. now intros (m & e & H).
    + left. split; [now left|reflexivity].
    + now elim En.
    + right. repeat split; try discriminate. intros (m' & e' & H); discriminate.
    + left. split; [right; now exists m, e|reflexivity].
Qed.

(** [x || 0]. *)
Lemma or_default_0 (x : float) :
  (NaN x /\ JS.or_default x 0 = 0%float)
  \/ (Inf x /\ JS.or_default x 0 = x)
  \/ (Fin x /\ Fin (JS.or_default x 0) /\ val (JS.or_default x 0) = val x)
  \/ (~ Okv x /\ JS.or_default x 0 = x).
Proof.
  unfold JS.or_default, JS.truthy.
  destruct (is_nan x) eqn:En.
  - left. rewrite orb_true_r. split; [now apply is_nan_spec|reflexivity].
  - right. apply is_nan_false in En. rewrite orb_false_r.
    rewrite FloatAxioms.eqb_spec.
    replace (Prim2SF 0%float) with (S754_zero false) by reflexivity.
    unfold Okv, NaN, Inf, Fin, val in *.
    destruct (Prim2SF x) as [s|[|]| |[|] m e] eqn:E; cbn.
    + right; left. replace (Prim2SF 0%float) with (S754_zero false) by reflexivity.
      repeat split.
    + right; right. split; [|reflexivity]. intros [H|[H|H]]; [exact H|discriminate..].
    + left. split; reflexivity.
    + now elim En.
    + right; right. split; [|reflexivity]. intros [H|[H|H]]; [exact H|discriminate..].
    + right; left. rewrite E. repeat split.
Qed.

(** **** Whole numbers and their sums *)

Lemma Good_Gn (x : float) : Good x -> Gn x.
Proof. unfold Good, Gn. tauto. Qed.

Lemma Gn_Okv (x : float) : Gn x -> Okv x.
Proof. unfold Gn, Okv. intros [[H _]|[H|H]]; tauto. Qed.

Lemma Good_Okv (x : float) : Good x -> Okv x.
Proof. intros H. now apply Gn_Okv, Good_Gn. Qed.

Lemma Gn_Fin (x : float) : Gn x -> Fin x -> natural x.
Proof.
  intros [H|[H|H]] Hf; [exact H| |].
  - exfalso. exact (@fin_not_inf _ Hf H).
  - exfalso. exact (@fin_not_nan _ Hf H).
Qed.

Lemma Gn_Good (x : float) : Gn x -> ~ NaN x -> Good x.
Proof. unfold Gn, Good. tauto. Qed.

Lemma Good_not_nan (x : float) : Good x -> ~ NaN x.
Proof.
  intros [[H _]|H]; [now apply fin_not_nan|now apply inf_not_nan].
Qed.

Lemma bpow_neg (e : Z) : bpow (- e) = / bpow e.
Proof.
  pose proof (bpow_gt_0 e) as H.
  apply Rmult_eq_reg_r with (bpow e); [|lra].
  rewrite <- bpow_add, Rinv_l by lra. replace (- e + e)%Z with 0%Z by lia. apply bpow_0.
Qed.

Lemma delta_eq : bpow (-52) = / 4503599627370496.
Proof. change (bpow (-52)) with (bpow (- (52))). rewrite (bpow_neg 52), (@bpow_IZR 52) by lia. reflexivity. Qed.

Lemma bpow_m35 : bpow (-35) = / 34359738368.
Proof. change (bpow (-35)) with (bpow (- (35))). rewrite (bpow_neg 35), (@bpow_IZR 35) by lia. reflexivity. Qed.

Lemma bpow_small (e : Z) : (e <= -52)%Z -> bpow e <= / 4503599627370496.
Proof. intros H. rewrite <- delta_eq. now apply bpow_le. Qed.

Lemma Fin_c53 : Fin c53.
Proof. unfold Fin. vm_compute. exact I. Qed.

Lemma val_c53 : val c53 = 9007199254740992.
Proof.
  unfold val. replace (Prim2SF c53) with (S754_finite false 4503599627370496 1)
    by reflexivity.
  cbn [SF2R cond_Zopp]. rewrite bpow_1, <- mult_IZR. reflexivity.
Qed.

(** The top of the format. *)
Lemma top_eq : bpow 971 = bpow 1024 * / 9007199254740992.
Proof.
  replace 971%Z with (1024 + - (53))%Z by lia. rewrite bpow_add, (bpow_neg 53).
  rewrite (@bpow_IZR 53) by lia. reflexivity.
Qed.

Lemma bpow_1024_large : 1152921504606846976 <= bpow 1024.
Proof.
  apply Rle_trans with (bpow 60); [|apply bpow_le; lia].
  rewrite (@bpow_IZR 60) by lia. apply IZR_le. reflexivity.
Qed.

(** The sum of two whole numbers. *)
Lemma add_natural (x y : float) :
  natural x -> natural y ->
  (Inf (x + y) /\ bpow 1024 - bpow 971 < val x + val y)
  \/ (natural (x + y)
      /\ val x <= val (x + y) /\ val y <= val (x + y)
      /\ (val x + val y) * (1 - bpow (-52)) <= val (x + y)
         <= (val x + val y) * (1 + bpow (-52))
      /\ (val x + val y <= 9007199254740992 -> val (x + y) = val x + val y)
      /\ (val (x + y) < 9007199254740992 -> val (x + y) = val x + val y)).
Proof.
  intros [Hfx (kx & Hkx & Hvx)] [Hfy (ky & Hky & Hvy)].
  pose proof (@add_fin x y Hfx Hfy) as HR.
  assert (Hsum : val x + val y = IZR (kx + ky)) by (rewrite plus_IZR; congruence).
  rewrite Hsum in HR |- *.
  destruct (@R_int (kx + ky) (x + y)%float ltac:(lia) HR) as [Hi|[Hn Hex]].
  - left. split; [exact Hi|]. exact (@R_ovf _ _ HR Hi).
  - right. pose proof (@natural_Fin _ Hn) as Hf. split; [exact Hn|].
    assert (Hx : val x <= val (x + y)).
    { destruct (@R_ge _ _ x HR Hfx) as [Hi|[_ H]]; [|exfalso; exact (@fin_not_inf _ Hf Hi)|exact H].
      rewrite Hvx. apply IZR_le. lia. }
    assert (Hy : val y <= val (x + y)).
    { destruct (@R_ge _ _ y HR Hfy) as [Hi|[_ H]]; [|exfalso; exact (@fin_not_inf _ Hf Hi)|exact H].
      rewrite Hvy. apply IZR_le. lia. }
    split; [exact Hx|]. split; [exact Hy|].
    assert (Hsmall : IZR (kx + ky) <= 9007199254740992 -> val (x + y) = IZR (kx + ky)).
    { intros H. apply Hex. apply le_IZR in H. exact H. }
    split; [|split; [exact Hsmall|]].
    + destruct (Z.eq_dec (kx + ky) 0) as [E0|E0].
      * rewrite Hsmall by (rewrite E0; lra). rewrite E0. lra.
      * apply (@R_err _ _ HR Hf).
        apply Rle_trans with 1; [|apply IZR_le; lia].
        rewrite <- bpow_0. apply bpow_le. lia.
    + intros Hlt. destruct (Rle_or_lt (IZR (kx + ky)) 9007199254740992) as [H|H];
        [now apply Hsmall|exfalso].
      destruct (@R_ge _ _ c53 HR Fin_c53) as [Hi|[_ H']].
      * rewrite val_c53. lra.
      * exact (@fin_not_inf _ Hf Hi).
      * rewrite val_c53 in H'. lra.
Qed.

Lemma add_natural_small (x y : float) :
  natural x -> natural y -> val x + val y <= 9007199254740992 ->
  natural (x + y) /\ val (x + y) = val x + val y.
Proof.
  intros Hx Hy Hs. destruct (@add_natural _ _ Hx Hy) as [[Hi Hbig]|(Hn & _ & _ & _ & He & _)].
  - exfalso. pose proof bpow_1024_large. rewrite top_eq in Hbig. lra.
  - split; [exact Hn|now apply He].
Qed.

Lemma add_Good (x y : float) : Good x -> Good y -> Good (x + y).
Proof.
  intros [Hx|Hx] [Hy|Hy].
  - destruct (@add_natural _ _ Hx Hy) as [[Hi _]|[Hn _]]; [now right|now left].
  - right. apply add_inf_r; [left; now apply natural_Fin|exact Hy].
  - right. apply add_inf_l; [exact Hx|left; now apply natural_Fin].
  - right. apply add_inf_l; [exact Hx|now right].
Qed.

Lemma add_Gn (x y : float) : Gn x -> Gn y -> Gn (x + y).
Proof.
  intros [Hx|[Hx|Hx]] [Hy|[Hy|Hy]];
    try (right; right; first [now apply add_nan_l|now apply add_nan_r]);
    apply Good_Gn, add_Good; unfold Good; tauto.
Qed.

Lemma add_not_nan (x y : float) : ~ NaN (x + y) -> ~ NaN x /\ ~ NaN y.
Proof.
  intros H. split; intros Hn; apply H; [now apply add_nan_l|now apply add_nan_r].
Qed.

(** A finite sum has finite terms. *)
Lemma add_Fin_inv (x y : float) :
  Gn x -> Gn y -> Fin (x + y) -> natural x /\ natural y.
Proof.
  intros Hx Hy Hf.
  destruct (@add_okv _ _ (@Gn_Okv _ Hx) (@Gn_Okv _ Hy)) as [[H _]|[[H _]|(_ & H1 & H2)]].
  - exfalso. exact (@fin_not_nan _ Hf H).
  - exfalso. exact (@fin_not_inf _ Hf H).
  - split; now apply Gn_Fin.
Qed.

(** ***** Differences and [Math.max(0, _)] *)

Lemma sub_inf_l (x y : float) : Inf x -> Fin y -> Inf (x - y).
Proof.
  unfold Inf, Fin. rewrite sub_spec. intros ->.
  destruct (Prim2SF y) as [s|s| |[|] m e]; try contradiction; reflexivity.
Qed.

Lemma sub_inf_inf (x y : float) : Inf x -> Inf y -> NaN (x - y).
Proof. unfold Inf, NaN. rewrite sub_spec. intros -> ->. reflexivity. Qed.

Lemma sub_inf_r (x y : float) : Fin x -> Inf y -> signed true (Prim2SF (x - y)).
Proof.
  unfold Inf, Fin. rewrite sub_spec. intros Hx ->.
  destruct (Prim2SF x) as [s|s| |[|] m e]; try contradiction; reflexivity.
Qed.

Lemma Math_max_0_Gn (r : float) :
  NaN r \/ Good r \/ signed true (Prim2SF r) -> Gn (JS.Math_max 0 r).
Proof.
  intros H.
  destruct (Math_max_0 r) as [[_ Hn]|[[Hc ->]|(_ & _ & _ & ->)]].
  - right; right; exact Hn.
  - destruct H as [H|[H|H]].
    + right; right; exact H.
    + now apply Good_Gn.
    + exfalso. unfold Inf, Posf in Hc.
      destruct Hc as [Hc|(m & e & Hc)]; rewrite Hc in H; discriminate H.
  - left. exact natural_zero.
Qed.

Lemma topUp_Gn (target pool : float) :
  Gn target -> Good pool -> Gn (JS.Math_max 0 (target - pool)).
Proof.
  intros Ht Hp. apply Math_max_0_Gn.
  destruct Ht as [Ht|[Ht|Ht]].
  - destruct Hp as [Hp|Hp].
    + destruct Ht as [Hft (kt & Hkt & Hvt)]. destruct Hp as [Hfp (kp & Hkp & Hvp)].
      destruct (@sub_fin _ _ Hft Hfp) as [(Hlt & HR & _)|[(He & Hf & Hv & _)|[_ Hs]]].
      * right; left. rewrite Hvt, Hvp, <- minus_IZR in HR.
        rewrite Hvt, Hvp in Hlt. apply lt_IZR in Hlt.
        destruct (@R_int (kt - kp) _ ltac:(lia) HR) as [Hi|[Hn _]];
          [now right|now left].
      * right; left. left. split; [exact Hf|]. exists 0%Z. split; [lia|exact Hv].
      * right; right; exact Hs.
    + right; right. apply sub_inf_r; [now apply natural_Fin|exact Hp].
  - destruct Hp as [Hp|Hp].
    + right; left. right. apply sub_inf_l; [exact Ht|now apply natural_Fin].
    + left. now apply sub_inf_inf.
  - left. now apply sub_nan_l.
Qed.

(** ***** The shares of a round *)

Lemma Posf_100 : Posf 100%float.
Proof. unfold Posf. now exists 7036874417766400%positive, (-46)%Z. Qed.

Lemma val_100 : val 100%float = 100.
Proof.
  unfold val. replace (Prim2SF 100%float) with (S754_finite false 7036874417766400 (-46))
    by reflexivity.
  cbn [SF2R cond_Zopp]. change (bpow (-46)) with (bpow (- (46))). rewrite (bpow_neg 46), (@bpow_IZR 46) by lia.
  change (IZR (2 ^ 46)) with 70368744177664. lra.
Qed.

(** [100 - x] for [0 <= x <= 100]. *)
Lemma complement_class (x : float) :
  Fin x -> val x <= 100 -> Pzf (100 - x) /\ val (100 - x) <= 100.
Proof.
  intros Hx Hle.
  pose proof (@val_nonneg _ Hx) as H0.
  destruct (@sub_fin _ _ (@Posf_Fin _ Posf_100) Hx) as [(Hlt & HR & Hs)|[(He & Hf & Hv & Hp)|[Hgt _]]].
  - rewrite val_100 in HR.
    destruct (@R_le _ _ 100%float HR (@Posf_Fin _ Posf_100)) as [Hf Hv];
      [rewrite val_100; lra|].
    rewrite val_100 in Hv. split; [|exact Hv].
    unfold Pzf. unfold Fin in Hf.
    destruct (Prim2SF (100 - x)) as [s|s| |s m e]; try contradiction;
      simpl in Hs; subst s; exact I.
  - split; [apply Hp, Posf_100|lra].
  - rewrite val_100 in Hgt. lra.
Qed.

(** [Math.floor(a * b / d)]. *)
Lemma floor_quotient_Gn (a b d : float) :
  Okv a -> Okv b -> Pzf d -> Gn (JS.Math_floor (a * b / d)).
Proof.
  intros Ha Hb Hd.
  destruct (@mul_class _ _ Ha Hb) as [Hy _]. destruct (@div_class _ d Hy Hd) as [Hx _].
  destruct (@Math_floor_class _ Hx) as [[_ H]|[[_ H]|(_ & H & _)]]; unfold Gn; tauto.
Qed.

(** **** One round of the evolution *)

Lemma same_Good (x y : float) : same x y -> Good x -> Good y.
Proof.
  intros [[_ H]|(Hx & Hy & He)] HG; [now right|].
  destruct HG as [[_ (k & Hk & Hv)]|Hi].
  - left. split; [exact Hy|]. exists k. split; [exact Hk|congruence].
  - exfalso. exact (@fin_not_inf _ Hx Hi).
Qed.

Lemma same_Fin (x y : float) : same x y -> Fin y -> Fin x /\ val x = val y.
Proof.
  intros [[_ H]|(Hx & Hy & He)] Hf; [|tauto].
  exfalso. exact (@fin_not_inf _ Hf H).
Qed.

Lemma same_Inf (x y : float) : same x y -> Inf y -> Inf x.
Proof.
  intros [[H _]|(Hx & Hy & He)] Hi; [exact H|].
  exfalso. exact (@fin_not_inf _ Hy Hi).
Qed.

Lemma or_default_same (x : float) : Good x -> same x (JS.or_default x 0).
Proof.
  intros HG. destruct (or_default_0 x) as [[Hn _]|[[Hi E]|[(Hf & Hf' & E)|[Hno _]]]].
  - exfalso. exact (@Good_not_nan _ HG Hn).
  - left. rewrite E. tauto.
  - right. repeat split; [exact Hf|exact Hf'|now symmetry].
  - exfalso. apply Hno. now apply Good_Okv.
Qed.

Lemma or_default_Posf (x : float) : Posf x -> JS.or_default x 0 = x.
Proof.
  intros (m & e & E). unfold JS.or_default, JS.truthy, is_nan.
  rewrite !FloatAxioms.eqb_spec, E.
  replace (Prim2SF 0%float) with (S754_zero false) by reflexivity.
  unfold SFeqb. cbn [SFcompare]. rewrite Z.compare_refl.
  change (Pos.compare_cont Eq m m) with (Pos.compare m m). rewrite Pos.compare_refl.
  reflexivity.
Qed.

Lemma Link_same (F T P I T' P' I' : float) :
  same T T' -> same P P' -> same I I' -> Link F T P I -> Link F T' P' I'.
Proof.
  intros HT HP HI HL HfP HfI.
  destruct (@same_Fin _ _ HP HfP) as [HfP0 EP]. destruct (@same_Fin _ _ HI HfI) as [HfI0 EI].
  specialize (HL HfP0 HfI0). rewrite EP, EI in HL. destruct HL as (L1 & L2 & L3).
  split; [|split].
  - intros H. destruct (L1 H) as [Hf Hle].
    destruct HT as [[Hi _]|(_ & Hf' & E)].
    + exfalso. exact (@fin_not_inf _ Hf Hi).
    + split; [exact Hf'|now rewrite <- E].
  - intros Hf. destruct (@same_Fin _ _ HT Hf) as [Hf0 E]. rewrite <- E. now apply L2.
  - intros Hi. apply L3. exact (@same_Inf _ _ HT Hi).
Qed.

(** The first stage: founders and the initial pool. *)
Lemma incorporation_Link (F P : float) :
  natural F -> 1 <= val F -> Good P -> Link F (F + P) P 0.
Proof.
  intros HF HF1 HG HfP _. rewrite val_zero.
  assert (HnP : natural P) by (apply Gn_Fin; [now apply Good_Gn|exact HfP]).
  pose proof bpow_1024_large as Hbig. pose proof top_eq as Htop.
  pose proof (@val_nonneg _ HfP) as HP0.
  destruct (@add_natural F P HF HnP) as [[Hi Ho]|(Hn & _ & _ & He & Hx & _)].
  - rewrite Htop in Ho. set (W := bpow 1024) in *. split; [|split].
    + intros H. exfalso. lra.
    + intros Hf. exfalso. exact (@fin_not_inf _ Hf Hi).
    + intros _. rewrite Htop. lra.
  - rewrite delta_eq in He. split; [|split].
    + intros H. split; [now apply natural_Fin|]. rewrite Hx by lra. lra.
    + intros _. lra.
    + intros Hi. exfalso. exact (@fin_not_inf _ (@natural_Fin _ Hn) Hi).
Qed.

Section Step.

Variables (round : FundingRound.t) (c : company) (F P I : float).

Let pct := Trace.investorOwnershipPercent round.
Let p := c.(Company.optionPoolPercent).
Let B := Trace.totalSharesBefore F P I.
Let N := Trace.newInvestorShares round F P I.
Let U := Trace.optionPoolTopUpShares round c F P I.
Let T := Trace.totalSharesAfter round c F P I.
Let P1 := if c.(Company.optionPoolTopUp) then (P + U)%float else P.
Let I1 := (I + N)%float.

Hypothesis HF : natural F.
Hypothesis HF1 : 1 <= val F.
Hypothesis Hp : Fin p.
Hypothesis Hpct : Posf pct.
Hypothesis Hpct_lo : bpow (-35) <= val pct.
Hypothesis Hpct_hi : val pct <= 100.
Hypothesis HP : Good P.
Hypothesis HI : Good I.

Lemma step_B_eq : B = (F + P + I)%float.
Proof. reflexivity. Qed.

Lemma step_N_eq : N = JS.Math_floor (B * pct / (100 - pct))%float.
Proof. reflexivity. Qed.

Lemma step_U_eq :
  U = if c.(Company.optionPoolTopUp)
      then JS.Math_max 0 (JS.Math_floor ((B + N) * p / 100) - P)%float
      else 0%float.
Proof. reflexivity. Qed.

Lemma step_T_eq : T = (B + N + U)%float.
Proof. reflexivity. Qed.

Lemma step_D : Pzf (100 - pct) /\ val (100 - pct) <= 100.
Proof. apply complement_class; [now apply Posf_Fin|exact Hpct_hi]. Qed.

Lemma step_FP : Good (F + P).
Proof. apply add_Good; [now left|exact HP]. Qed.

Lemma step_B : Good B.
Proof. rewrite step_B_eq. apply add_Good; [exact step_FP|exact HI]. Qed.

Lemma step_N : Gn N.
Proof.
  rewrite step_N_eq. apply floor_quotient_Gn.
  - apply Good_Okv, step_B.
  - apply Fin_Okv. now apply Posf_Fin.
  - apply step_D.
Qed.

Lemma step_BN : Gn (B + N).
Proof. apply add_Gn; [apply Good_Gn, step_B|exact step_N]. Qed.

Lemma step_U : Gn U.
Proof.
  rewrite step_U_eq. destruct (Company.optionPoolTopUp c).
  - apply topUp_Gn; [|exact HP].
    apply floor_quotient_Gn.
    + apply Gn_Okv, step_BN.
    + now apply Fin_Okv.
    + apply Posf_Pzf, Posf_100.
  - left. exact natural_zero.
Qed.

Lemma step_T : Gn T.
Proof. rewrite step_T_eq. apply add_Gn; [exact step_BN|exact step_U]. Qed.

Lemma step_P1 : Gn P1.
Proof.
  unfold P1. destruct (Company.optionPoolTopUp c).
  - apply add_Gn; [now apply Good_Gn|exact step_U].
  - now apply Good_Gn.
Qed.

Lemma step_I1 : Gn I1.
Proof. apply add_Gn; [now apply Good_Gn|exact step_N]. Qed.

(** An infinite total before the round gives infinitely many new shares. *)
Lemma step_N_inf : Inf B -> Inf N.
Proof.
  intros HB. rewrite step_N_eq.
  assert (HX : Inf (B * pct / (100 - pct))).
  { apply div_inf_l; [|apply step_D]. now apply mul_inf_l. }
  now rewrite (@Math_floor_inf _ HX).
Qed.

(** The new shares are at least a [2^-42]th of the shares before. *)
Lemma step_N_lower :
  natural B -> 1 <= val B -> Fin N ->
  val B * (/ 34359738368 * (1 - / 4503599627370496) * (1 - / 4503599627370496) / 100) - 1
  <= val N.
Proof.
  intros HB HB1 HN. destruct step_D as [HD HD100].
  pose proof (@natural_Fin _ HB) as HfB. pose proof (@Posf_Fin _ Hpct) as Hfpct.
  assert (HY : Okv (B * pct)).
  { apply (@mul_class B pct); [now apply Fin_Okv|now apply Fin_Okv]. }
  destruct (@div_class (B * pct) (100 - pct) HY HD) as [HX HXinv].
  rewrite step_N_eq in HN |- *.
  destruct (@Math_floor_class _ HX) as [[_ H]|[[_ H]|(HfX & _ & Hfl)]].
  - exfalso. exact (@fin_not_nan _ HN H).
  - exfalso. exact (@fin_not_inf _ HN H).
  - destruct (HXinv HfX) as [HfY HpD].
    pose proof (@mul_fin B pct HfB Hfpct) as HRY.
    rewrite bpow_m35 in Hpct_lo.
    set (b := val B) in *. set (pc := val pct) in *.
    assert (Hv : b * / 34359738368 <= b * pc)
      by (apply Rmult_le_compat_l; lra).
    set (v := b * pc) in *.
    assert (Htiny : bpow (-1022) <= / 4503599627370496 / 4503599627370496).
    { replace (-1022)%Z with (-52 + -970)%Z by lia. rewrite bpow_add, delta_eq.
      pose proof (@bpow_small (-970) ltac:(lia)). pose proof (bpow_gt_0 (-970)).
      unfold Rdiv. apply Rmult_le_compat_l; lra. }
    assert (Htiny' : bpow (-1020) <= / 4503599627370496 / 4503599627370496).
    { replace (-1020)%Z with (-52 + -968)%Z by lia. rewrite bpow_add, delta_eq.
      pose proof (@bpow_small (-968) ltac:(lia)). pose proof (bpow_gt_0 (-968)).
      unfold Rdiv. apply Rmult_le_compat_l; lra. }
    assert (HeY := @R_err _ _ HRY HfY ltac:(lra)). rewrite delta_eq in HeY.
    set (y := val (B * pct)) in *.
    assert (Hy0 : 0 < y) by lra.
    pose proof (@Posf_val _ HpD) as Hd0.
    set (d := val (100 - pct)) in *.
    assert (HpY : Posf (B * pct)) by (apply Fin_Posf; [exact HfY|exact Hy0]).
    assert (HRX : Rounded (y / d) (Prim2SF (B * pct / (100 - pct)))).
    { apply (@div_fin _ _ HpY HpD). fold y d.
      apply Rle_trans with (100 * (/ 4503599627370496 / 4503599627370496)); [|lra].
      pose proof (bpow_gt_0 (-1020)). apply Rmult_le_compat; lra. }
    assert (Hq : y / 100 <= y / d).
    { unfold Rdiv. apply Rmult_le_compat_l; [lra|].
      apply Rinv_le_contravar; lra. }
    set (w := y / d) in *.
    assert (HeX := @R_err _ _ HRX HfX ltac:(lra)). rewrite delta_eq in HeX.
    set (x := val (B * pct / (100 - pct))) in *.
    lra.
Qed.

(** When the total after the round is finite, everything that went into
    it is a whole number. *)
Lemma step_core_T :
  Fin T ->
  natural P /\ natural I /\ natural (F + P) /\ natural B /\ natural N /\ natural U
  /\ natural (B + N).
Proof.
  intros HT. rewrite step_T_eq in HT.
  destruct (@add_Fin_inv _ _ step_BN step_U HT) as [HBN HU].
  destruct (@add_Fin_inv _ _ (@Good_Gn _ step_B) step_N (@natural_Fin _ HBN)) as [HB HN].
  pose proof HB as HB'. rewrite step_B_eq in HB'.
  destruct (@add_Fin_inv _ _ (@Good_Gn _ step_FP) (@Good_Gn _ HI) (@natural_Fin _ HB'))
    as [HFP HI'].
  destruct (@add_Fin_inv _ _ (@Good_Gn _ (or_introl HF)) (@Good_Gn _ HP)
              (@natural_Fin _ HFP)) as [_ HP'].
  tauto.
Qed.

(** The same when the pool and the investors' shares after it are. *)
Lemma step_core_next :
  ~ NaN T -> Fin P1 -> Fin I1 ->
  natural P /\ natural I /\ natural (F + P) /\ natural B /\ natural N /\ natural U.
Proof.
  intros HT HP1 HI1.
  destruct (@add_Fin_inv _ _ (@Good_Gn _ HI) step_N HI1) as [HI' HN].
  assert (HPU : natural P /\ natural U).
  { pose proof step_U as HU. revert HU HP1.
    unfold P1, U, Trace.optionPoolTopUpShares.
    destruct (Company.optionPoolTopUp c); intros HU HP1.
    - exact (@add_Fin_inv _ _ (@Good_Gn _ HP) HU HP1).
    - split; [apply Gn_Fin; [now apply Good_Gn|exact HP1]|exact natural_zero]. }
  destruct HPU as [HP' HU].
  assert (HB : natural B).
  { destruct step_B as [H|H]; [exact H|exfalso].
    exact (@fin_not_inf _ (@natural_Fin _ HN) (step_N_inf H)). }
  pose proof HB as HB'. rewrite step_B_eq in HB'.
  destruct (@add_Fin_inv _ _ (@Good_Gn _ step_FP) (@Good_Gn _ HI) (@natural_Fin _ HB'))
    as [HFP _].
  tauto.
Qed.

Lemma step_next_Good : ~ NaN T -> Good P1 /\ Good I1 /\ Good T.
Proof.
  intros HT. pose proof HT as HT'. rewrite step_T_eq in HT'.
  destruct (add_not_nan HT') as [HBN HU]. destruct (add_not_nan HBN) as [_ HN].
  repeat split.
  - apply Gn_Good; [exact step_P1|].
    pose proof (@add_Good P U HP (@Gn_Good _ step_U HU)) as H.
    unfold P1. destruct (Company.optionPoolTopUp c); now apply Good_not_nan.
  - apply Gn_Good; [exact step_I1|].
    pose proof (@add_Good I N HI (@Gn_Good _ step_N HN)) as H. now apply Good_not_nan.
  - apply Gn_Good; [exact step_T|exact HT].
Qed.

(** The total does not go down. *)
Lemma step_mono (Tp T' : float) :
  Fin Tp \/ Inf Tp -> Link F Tp P I -> ~ NaN T -> same T T' ->
  (Tp <=? T')%float = true.
Proof.
  intros HTp HL HnT Hsame.
  destruct (step_next_Good HnT) as (_ & _ & [HT|HT]).
  2: { apply leb_inf.
       - destruct HTp as [H|H]; [now apply fin_not_nan|now apply inf_not_nan].
       - destruct Hsame as [[_ H]|(H & _)]; [exact H|].
         exfalso. exact (@fin_not_inf _ H HT). }
  pose proof (@natural_Fin _ HT) as HfT.
  assert (HT' : Fin T' /\ val T' = val T).
  { destruct Hsame as [[H _]|(_ & H1 & H2)]; [|now split].
    exfalso. exact (@fin_not_inf _ HfT H). }
  destruct HT' as [HfT' ET'].
  destruct (step_core_T HfT) as (HnP & HnI & HnFP & HnB & HnN & HnU & HnBN).
  specialize (HL (@natural_Fin _ HnP) (@natural_Fin _ HnI)). destruct HL as (L1 & L2 & L3).
  destruct (@add_natural F P HF HnP) as [[Hi _]|(_ & Hs1a & Hs1b & Hs1e & Hs1x & _)];
    [exfalso; exact (@fin_not_inf _ (@natural_Fin _ HnFP) Hi)|].
  destruct (@add_natural (F + P) I HnFP HnI) as [[Hi _]|(_ & Hba & Hbb & Hbe & Hbx & _)];
    [exfalso; exact (@fin_not_inf _ (@natural_Fin _ HnB) Hi)|].
  change (F + P + I)%float with B in *.
  destruct (@add_natural B N HnB HnN) as [[Hi _]|(_ & Haa & Hab & _)];
    [exfalso; exact (@fin_not_inf _ (@natural_Fin _ HnBN) Hi)|].
  destruct (@add_natural (B + N) U HnBN HnU) as [[Hi _]|(_ & Hta & _)];
    [exfalso; exact (@fin_not_inf _ HfT Hi)|].
  change (B + N + U)%float with T in *.
  assert (HB1 : 1 <= val B) by lra.
  pose proof (step_N_lower HnB HB1 (@natural_Fin _ HnN)) as HNl.
  pose proof (@val_nonneg _ (@natural_Fin _ HnP)) as HP0.
  pose proof (@val_nonneg _ (@natural_Fin _ HnI)) as HI0.
  pose proof (@add_fin B N (@natural_Fin _ HnB) (@natural_Fin _ HnN)) as HRBN.
  rewrite delta_eq in *.
  set (f := val F) in *. set (pv := val P) in *. set (iv := val I) in *.
  set (s1 := val (F + P)) in *. set (b := val B) in *. set (n := val N) in *.
  set (a := val (B + N)) in *. set (t := val T) in *.
  destruct (Rle_or_lt (f + pv + iv) 9007199254740992) as [Hs|Hs].
  - destruct (L1 Hs) as [HfTp Hle]. apply leb_fin; [exact HfTp|exact HfT'|].
    assert (E1 := Hs1x ltac:(lra)). assert (E2 := Hbx ltac:(lra)). rewrite ET'. fold t. lra.
  - destruct HTp as [HfTp|HiTp].
    + specialize (L2 HfTp).
      assert (Hle : val Tp <= b + n) by lra.
      destruct (@R_ge _ _ Tp HRBN HfTp Hle) as [Hi|[_ H]];
        [exfalso; exact (@fin_not_inf _ (@natural_Fin _ HnBN) Hi)|].
      apply leb_fin; [exact HfTp|exact HfT'|]. fold a in H. rewrite ET'. fold t. lra.
    + specialize (L3 HiTp). exfalso.
      pose proof (@R_lt _ _ HRBN (@natural_Fin _ HnBN)) as Hlt.
      pose proof bpow_1024_large as Hbig. rewrite top_eq in L3.
      set (W := bpow 1024) in *. lra.
Qed.

(** The link holds again after the round. *)
Lemma step_link : ~ NaN T -> Link F T P1 I1.
Proof.
  intros HnT HfP1 HfI1.
  destruct (step_core_next HnT HfP1 HfI1) as (HnP & HnI & HnFP & HnB & HnN & HnU).
  destruct (@add_natural F P HF HnP) as [[Hi _]|(_ & Hs1a & Hs1b & Hs1e & Hs1x & _)];
    [exfalso; exact (@fin_not_inf _ (@natural_Fin _ HnFP) Hi)|].
  destruct (@add_natural (F + P) I HnFP HnI) as [[Hi _]|(_ & Hba & Hbb & Hbe & Hbx & _)];
    [exfalso; exact (@fin_not_inf _ (@natural_Fin _ HnB) Hi)|].
  change (F + P + I)%float with B in *.
  destruct (@add_natural I N HnI HnN) as [[Hi _]|(_ & _ & _ & Hie & _ & Hix)];
    [exfalso; exact (@fin_not_inf _ HfI1 Hi)|].
  change (I + N)%float with I1 in Hie, Hix.
  assert (HP1rel : (val P + val U) * (1 - bpow (-52)) <= val P1
                   /\ (val P1 < 9007199254740992 -> val P1 = val P + val U)).
  { revert HfP1 HnU. unfold P1, U, Trace.optionPoolTopUpShares.
    destruct (Company.optionPoolTopUp c); intros HfP1 HnU.
    - destruct (@add_natural P _ HnP HnU) as [[Hi _]|(_ & _ & _ & He & _ & Hx)];
        [exfalso; exact (@fin_not_inf _ HfP1 Hi)|].
      split; [apply He|exact Hx].
    - rewrite val_zero. pose proof (@val_nonneg _ HfP1). rewrite delta_eq.
      split; [lra|intros _; lra]. }
  destruct HP1rel as [HP1e HP1x].
  pose proof (@val_nonneg _ (@natural_Fin _ HnP)) as HP0.
  pose proof (@val_nonneg _ (@natural_Fin _ HnI)) as HI0.
  pose proof (@val_nonneg _ (@natural_Fin _ HnN)) as HN0.
  pose proof (@val_nonneg _ (@natural_Fin _ HnU)) as HU0.
  pose proof (@val_nonneg _ HfP1) as HP10.
  pose proof (@val_nonneg _ HfI1) as HI10.
  pose proof bpow_1024_large as Hbig. pose proof top_eq as Htop.
  rewrite delta_eq in *.
  set (f := val F) in *. set (pv := val P) in *. set (iv := val I) in *.
  set (s1 := val (F + P)) in *. set (b := val B) in *. set (n := val N) in *.
  set (u := val U) in *. set (p1 := val P1) in *. set (i1 := val I1) in *.
  set (W := bpow 1024) in *.
  destruct (@add_natural B N HnB HnN) as [[HiBN HoBN]|(HnBN & _ & _ & Hae & Hax & _)].
  - assert (HiT : Inf T).
    { change T with (B + N + U)%float. apply add_inf_l; [exact HiBN|].
      left. now apply natural_Fin. }
    fold b n W in HoBN. rewrite Htop in HoBN. repeat split.
    + exfalso. assert (E1 := HP1x ltac:(lra)). assert (E2 := Hix ltac:(lra)).
      assert (E3 := Hs1x ltac:(lra)). assert (E4 := Hbx ltac:(lra)). lra.
    + exfalso. assert (E1 := HP1x ltac:(lra)). assert (E2 := Hix ltac:(lra)).
      assert (E3 := Hs1x ltac:(lra)). assert (E4 := Hbx ltac:(lra)). lra.
    + intros HfT. exfalso. exact (@fin_not_inf _ HfT HiT).
    + intros _. rewrite Htop. lra.
  - rewrite delta_eq in Hae. fold b n in Hae, Hax. set (a := val (B + N)) in *.
    destruct (@add_natural (B + N) U HnBN HnU) as [[HiT HoT]|(HnT' & _ & _ & Hte & Htx & _)].
    + change (B + N + U)%float with T in *. fold a u W in HoT. rewrite Htop in HoT.
      repeat split.
      * exfalso. assert (E1 := HP1x ltac:(lra)). assert (E2 := Hix ltac:(lra)).
        assert (E3 := Hs1x ltac:(lra)). assert (E4 := Hbx ltac:(lra)).
        assert (E5 := Hax ltac:(lra)). lra.
      * exfalso. assert (E1 := HP1x ltac:(lra)). assert (E2 := Hix ltac:(lra)).
        assert (E3 := Hs1x ltac:(lra)). assert (E4 := Hbx ltac:(lra)).
        assert (E5 := Hax ltac:(lra)). lra.
      * intros HfT. exfalso. exact (@fin_not_inf _ HfT HiT).
      * intros _. rewrite Htop. lra.
    + change (B + N + U)%float with T in *. rewrite delta_eq in Hte.
      fold a u in Hte, Htx. set (t := val T) in *.
      assert (Hsmall : f + p1 + i1 <= 9007199254740992 -> t = f + p1 + i1).
      { intros Hs. assert (E1 := HP1x ltac:(lra)). assert (E2 := Hix ltac:(lra)).
        assert (E3 := Hs1x ltac:(lra)). assert (E4 := Hbx ltac:(lra)).
        assert (E5 := Hax ltac:(lra)). assert (E6 := Htx ltac:(lra)). lra. }
      repeat split.
      * now apply natural_Fin.
      * rewrite (Hsmall H). lra.
      * intros _. lra.
      * intros HiT. exfalso. exact (@fin_not_inf _ (@natural_Fin _ HnT') HiT).
Qed.

End Step.

(** **** What validation ensures *)

Lemma collect_nil {A : Type} (errors : list error) (check : result A) :
  Validator.collect errors check = nil -> errors = nil /\ exists a, check = Ok a.
Proof.
  destruct check as [a|e]; simpl; intros H.
  - split; [exact H|now exists a].
  - destruct errors; discriminate.
Qed.

Lemma validateNumber_Ok (v : float) (fieldName : String.string) (lo hi n : float) :
  Validator.validateNumber v fieldName (Some lo) (Some hi) = Ok n ->
  is_nan v = false /\ (v <? lo)%float = false /\ (hi <? v)%float = false.
Proof.
  unfold Validator.validateNumber, JS.isNaN.
  destruct (is_nan v); [discriminate|]. destruct (v <? lo)%float; [discriminate|].
  destruct (hi <? v)%float; [discriminate|]. auto.
Qed.

Lemma validateInteger_Ok (v : float) (fieldName : String.string) (lo hi n : float) :
  Validator.validateInteger v fieldName (Some lo) (Some hi) = Ok n ->
  is_nan v = false /\ (v <? lo)%float = false /\ (hi <? v)%float = false
  /\ JS.Number_isInteger v = true.
Proof.
  unfold Validator.validateInteger.
  destruct (Validator.validateNumber v fieldName (Some lo) (Some hi)) as [num|e] eqn:E;
    simpl; [|discriminate].
  assert (num = v) as ->.
  { revert E. unfold Validator.validateNumber. destruct (JS.isNaN v); [discriminate|].
    destruct (v <? lo)%float; [discriminate|]. destruct (hi <? v)%float; [discriminate|].
    intros H. now injection H. }
  destruct (validateNumber_Ok _ _ _ _ E) as (H1 & H2 & H3).
  destruct (JS.Number_isInteger v); [auto|discriminate].
Qed.

Lemma between_pos (x lo hi : float) :
  is_nan x = false -> (x <? lo)%float = false -> (hi <? x)%float = false ->
  Posf lo -> Fin hi -> Posf x /\ val lo <= val x <= val hi.
Proof.
  intros Hn Hlo Hhi Hplo Hfhi. apply is_nan_false in Hn.
  destruct (@ltb_false_pos x lo Hn Hlo Hplo) as [Hi|[Hp Hle]].
  - destruct (@ltb_false_le x hi Hhi Hfhi (or_introl Hi)) as [Hf _].
    exfalso. exact (@fin_not_inf _ Hf Hi).
  - destruct (@ltb_false_le x hi Hhi Hfhi (or_intror (@Posf_Fin _ Hp))) as [_ Hle'].
    repeat split; assumption.
Qed.

Lemma between_zero (x lo hi : float) :
  is_nan x = false -> (x <? lo)%float = false -> (hi <? x)%float = false ->
  Fin lo -> val lo = 0 -> Fin hi -> Fin x /\ val x <= val hi.
Proof.
  intros Hn Hlo Hhi Hflo Hvlo Hfhi. apply is_nan_false in Hn.
  apply (@ltb_false_le x hi Hhi Hfhi).
  exact (@ltb_false_zero x lo Hn Hlo Hflo Hvlo).
Qed.

Lemma Posf_1 : Posf 1%float.
Proof. unfold Posf. now exists 4503599627370496%positive, (-52)%Z. Qed.

Lemma val_1 : val 1%float = 1.
Proof.
  unfold val. replace (Prim2SF 1%float) with (S754_finite false 4503599627370496 (-52))
    by reflexivity.
  cbn [SF2R cond_Zopp]. rewrite delta_eq. lra.
Qed.

Lemma Fin_1e12 : Fin 1000000000000%float.
Proof. unfold Fin. vm_compute. exact I. Qed.

Lemma val_1e12 : val 1000000000000%float = 1000000000000.
Proof.
  unfold val.
  replace (Prim2SF 1000000000000%float)
    with (S754_finite false 8192000000000000 (-13)) by reflexivity.
  cbn [SF2R cond_Zopp]. change (bpow (-13)) with (bpow (- (13))).
  rewrite (bpow_neg 13), (@bpow_IZR 13) by lia.
  change (IZR (2 ^ 13)) with 8192. lra.
Qed.

Lemma Fin_1e9 : Fin 1000000000%float.
Proof. unfold Fin. vm_compute. exact I. Qed.

(** A whole number, as [Number.isInteger] tests it. *)
Lemma Number_isInteger_natural (x : float) :
  Fin x -> JS.Number_isInteger x = true -> natural x.
Proof.
  intros Hf H. unfold JS.Number_isInteger in H. apply andb_true_iff in H.
  destruct H as [_ He].
  destruct (@Math_floor_fin x Hf) as [[Hff (k & Hk & Hv)] _].
  split; [exact Hf|]. exists k. split; [exact Hk|].
  rewrite <- (@eqb_fin _ _ Hff Hf He). exact Hv.
Qed.

Lemma validateRounds_Ok (rounds : list FundingRound.t) (index : nat) (u : unit) :
  CompanyM.validateRounds rounds index = Ok u ->
  Forall (fun r => Validator.roundErrors r = nil) rounds.
Proof.
  revert index. induction rounds as [|r rest IH]; intros index H; [constructor|].
  simpl in H. unfold FundingRoundM.validate, Validator.validateFundingRound in H.
  destruct (Validator.roundErrors r) as [|e errors] eqn:E; simpl in H; [|discriminate].
  constructor; [exact E|]. now apply IH with (index + 1)%nat.
Qed.

(** The numbers of a company that passes [validate]. *)
Lemma validate_company (c : company) (b : bool) :
  CompanyM.validate c = Ok b ->
  natural c.(Company.founderShares) /\ 1 <= val c.(Company.founderShares)
  /\ Fin c.(Company.optionPoolPercent) /\ val c.(Company.optionPoolPercent) <= 100
  /\ Forall (fun r => Validator.roundErrors r = nil) c.(Company.rounds).
Proof.
  unfold CompanyM.validate, Validator.validateCompanyData.
  destruct (Validator.companyErrors c) as [|e errors] eqn:E; simpl; [|discriminate].
  destruct (CompanyM.validateRounds (Company.rounds c) 0) as [u|e] eqn:Er; simpl;
    [|discriminate].
  intros _. unfold Validator.companyErrors in E.
  apply collect_nil in E. destruct E as [E _].
  apply collect_nil in E. destruct E as [E _].
  apply collect_nil in E. destruct E as [E _].
  apply collect_nil in E. destruct E as [E (pv & Hp)].
  apply collect_nil in E. destruct E as [_ (fv & HF)].
  apply validateInteger_Ok in HF. destruct HF as (F1 & F2 & F3 & F4).
  destruct (@between_pos _ _ _ F1 F2 F3 Posf_1 Fin_1e9) as (HpF & HloF & _).
  change (val CONFIG.VALIDATION.MIN_FOUNDER_SHARES) with (val 1%float) in HloF.
  rewrite val_1 in HloF.
  unfold Validator.validatePercentage in Hp. apply validateNumber_Ok in Hp.
  destruct Hp as (P1 & P2 & P3).
  destruct (@between_zero _ _ _ P1 P2 P3 Fin_zero val_zero (@Posf_Fin _ Posf_100))
    as (HfP & HhiP).
  rewrite val_100 in HhiP.
  split; [apply Number_isInteger_natural; [now apply Posf_Fin|exact F4]|].
  split; [exact HloF|]. split; [exact HfP|]. split; [exact HhiP|].
  exact (@validateRounds_Ok _ _ _ Er).
Qed.

(** The numbers of a round that passes [validate]. *)
Lemma validate_round (r : FundingRound.t) :
  Validator.roundErrors r = nil ->
  Posf r.(FundingRound.preMoneyValuation)
  /\ 1 <= val r.(FundingRound.preMoneyValuation) <= 1000000000000
  /\ Posf r.(FundingRound.investment)
  /\ 1 <= val r.(FundingRound.investment) <= 1000000000000.
Proof.
  unfold Validator.roundErrors. intros E.
  apply collect_nil in E. destruct E as [E _].
  apply collect_nil in E. destruct E as [E (iv & Hi)].
  apply collect_nil in E. destruct E as [_ (pv & Hp)].
  apply validateNumber_Ok in Hi. destruct Hi as (I1 & I2 & I3).
  apply validateNumber_Ok in Hp. destruct Hp as (P1 & P2 & P3).
  destruct (@between_pos _ _ _ I1 I2 I3 Posf_1 Fin_1e12) as (HpI & HI).
  destruct (@between_pos _ _ _ P1 P2 P3 Posf_1 Fin_1e12) as (HpP & HP).
  change (val CONFIG.VALIDATION.MIN_INVESTMENT) with (val 1%float) in HI.
  change (val CONFIG.VALIDATION.MAX_INVESTMENT) with (val 1000000000000%float) in HI.
  change (val CONFIG.VALIDATION.MIN_VALUATION) with (val 1%float) in HP.
  change (val CONFIG.VALIDATION.MAX_VALUATION) with (val 1000000000000%float) in HP.
  rewrite val_1, val_1e12 in HI, HP. tauto.
Qed.

(** Sorting keeps the rounds. *)
Lemma Forall_insert (Q : FundingRound.t -> Prop) (ascending : bool) (x : FundingRound.t)
    (l : list FundingRound.t) :
  Q x -> Forall Q l -> Forall Q (DataUtils.insert ascending x l).
Proof.
  intros Hx Hl. induction Hl as [|y rest Hy Hrest IH]; simpl.
  - now repeat constructor.
  - destruct (DataUtils.compareFn ascending x y <=? 0)%Z.
    + now repeat constructor.
    + now constructor.
Qed.

Lemma Forall_sortBy (Q : FundingRound.t -> Prop) (ascending : bool)
    (l : list FundingRound.t) :
  Forall Q l -> Forall Q (DataUtils.sortBy l ascending).
Proof.
  intros H. unfold DataUtils.sortBy. induction H as [|x rest Hx _ IH]; simpl.
  - constructor.
  - now apply Forall_insert.
Qed.

(** ***** The percentage an investment buys *)

Lemma pow2_spec (e : Z) :
  (-1022 <= e <= 1023)%Z -> Fin (pow2 e) /\ val (pow2 e) = bpow e.
Proof.
  intros He. unfold Fin, val, pow2.
  assert (Hv : valid_binary (S754_finite false 4503599627370496 (e - 52)) = true).
  { unfold SpecFloat.valid_binary, bounded, canonical_mantissa. apply andb_true_iff. split.
    - apply Z.eqb_eq. rewrite fexp64_eq. change (Z.pos (digits2_pos 4503599627370496)) with 53%Z.
      lia.
    - apply Z.leb_le. change (emax - prec)%Z with 971%Z. lia. }
  rewrite (Prim2SF_SF2Prim _ Hv). split; [exact I|].
  cbn [SF2R cond_Zopp]. change 4503599627370496%Z with (2 ^ 52)%Z.
  rewrite <- (@bpow_IZR 52) by lia. rewrite <- bpow_add. f_equal. lia.
Qed.

Lemma percent_bounds (pre inv : float) :
  Posf pre -> 1 <= val pre <= 1000000000000 ->
  Posf inv -> 1 <= val inv <= 1000000000000 ->
  Posf (inv / (pre + inv) * 100)
  /\ bpow (-35) <= val (inv / (pre + inv) * 100) <= 100.
Proof.
  intros Hpp Hvp Hpi Hvi.
  pose proof (@Posf_Fin _ Hpp) as Hfp. pose proof (@Posf_Fin _ Hpi) as Hfi.
  (* the post-money valuation *)
  pose proof (@add_fin pre inv Hfp Hfi) as HRpost.
  destruct (@pow2_spec 41 ltac:(lia)) as [Hf41 Hv41].
  rewrite (@bpow_IZR 41) in Hv41 by lia. change (IZR (2 ^ 41)) with 2199023255552 in Hv41.
  destruct (@R_le _ _ (pow2 41) HRpost Hf41 ltac:(rewrite Hv41; lra)) as [Hfpost Hpost_hi].
  rewrite Hv41 in Hpost_hi.
  destruct (@R_ge _ _ inv HRpost Hfi ltac:(lra)) as [Hi|[_ Hpost_lo]];
    [exfalso; exact (@fin_not_inf _ Hfpost Hi)|].
  set (post := (pre + inv)%float) in *.
  assert (Hppost : Posf post) by (apply Fin_Posf; [exact Hfpost|lra]).
  (* the quotient *)
  assert (Htiny : bpow (-1020) <= / 4503599627370496 / 4503599627370496).
  { replace (-1020)%Z with (-52 + -968)%Z by lia. rewrite bpow_add, delta_eq.
    pose proof (@bpow_small (-968) ltac:(lia)). pose proof (bpow_gt_0 (-968)).
    unfold Rdiv. apply Rmult_le_compat_l; lra. }
  assert (HRq : Rounded (val inv / val post) (Prim2SF (inv / post))).
  { apply (@div_fin _ _ Hpi Hppost).
    apply Rle_trans with (2199023255552 * (/ 4503599627370496 / 4503599627370496));
      [|lra].
    pose proof (bpow_gt_0 (-1020)). apply Rmult_le_compat; lra. }
  assert (Hq_hi : val inv / val post <= 1).
  { apply Rmult_le_reg_r with (val post); [lra|].
    unfold Rdiv. rewrite Rmult_assoc, Rinv_l by lra. lra. }
  assert (Hq_lo : / 2199023255552 <= val inv / val post).
  { apply Rmult_le_reg_r with (val post); [lra|].
    unfold Rdiv at 1. unfold Rdiv. rewrite Rmult_assoc, Rinv_l by lra.
    apply Rle_trans with (/ 2199023255552 * 2199023255552); [|lra].
    apply Rmult_le_compat_l; lra. }
  set (qv := val inv / val post) in *.
  destruct (@R_le _ _ 1%float HRq (@Posf_Fin _ Posf_1) ltac:(rewrite val_1; lra))
    as [Hfq Hq1].
  rewrite val_1 in Hq1.
  destruct (@pow2_spec (-41) ltac:(lia)) as [Hfm41 Hvm41].
  change (bpow (-41)) with (bpow (- (41))) in Hvm41.
  rewrite (bpow_neg 41), (@bpow_IZR 41) in Hvm41 by lia.
  change (IZR (2 ^ 41)) with 2199023255552 in Hvm41.
  destruct (@R_ge _ _ (pow2 (-41)) HRq Hfm41 ltac:(rewrite Hvm41; lra)) as [Hi|[_ Hq0]];
    [exfalso; exact (@fin_not_inf _ Hfq Hi)|].
  rewrite Hvm41 in Hq0.
  set (q := (inv / post)%float) in *.
  (* the percentage *)
  pose proof (@mul_fin q 100%float Hfq (@Posf_Fin _ Posf_100)) as HRpct.
  rewrite val_100 in HRpct.
  destruct (@R_le _ _ 100%float HRpct (@Posf_Fin _ Posf_100) ltac:(rewrite val_100; lra))
    as [Hfpct Hpct_hi].
  rewrite val_100 in Hpct_hi.
  destruct (@pow2_spec (-35) ltac:(lia)) as [Hfm35 Hvm35].
  rewrite bpow_m35 in Hvm35 |- *.
  destruct (@R_ge _ _ (pow2 (-35)) HRpct Hfm35 ltac:(rewrite Hvm35; lra)) as [Hi|[_ Hpct_lo]];
    [exfalso; exact (@fin_not_inf _ Hfpct Hi)|].
  rewrite Hvm35 in Hpct_lo.
  split; [|lra]. apply Fin_Posf; [exact Hfpct|]. lra.
Qed.

(** **** Share monotonicity *)

Lemma stageOfRound_totalShares (currentYear : float) (round : FundingRound.t) (c : company)
    (F P I : float) (previous : CapTableStage.t) :
  (Trace.stageOfRound currentYear round c F P I previous).(CapTableStage.totalShares)
  = JS.or_default (Trace.totalSharesAfter round c F P I) 0.
Proof.
  unfold Trace.stageOfRound, CapTableStageM.calculateOwnership.
  destruct (_ =? _)%float; reflexivity.
Qed.

Lemma stageOfRound_optionPoolShares (currentYear : float) (round : FundingRound.t)
    (c : company) (F P I : float) (previous : CapTableStage.t) :
  (Trace.stageOfRound currentYear round c F P I previous).(CapTableStage.optionPoolShares)
  = JS.or_default
      (if c.(Company.optionPoolTopUp)
       then (P + Trace.optionPoolTopUpShares round c F P I)%float else P) 0.
Proof.
  unfold Trace.stageOfRound, CapTableStageM.calculateOwnership.
  destruct (_ =? _)%float; reflexivity.
Qed.

Lemma stageOfRound_investorShares (currentYear : float) (round : FundingRound.t)
    (c : company) (F P I : float) (previous : CapTableStage.t) :
  (Trace.stageOfRound currentYear round c F P I previous).(CapTableStage.investorShares)
  = JS.or_default (I + Trace.newInvestorShares round F P I)%float 0.
Proof.
  unfold Trace.stageOfRound, CapTableStageM.calculateOwnership.
  destruct (_ =? _)%float; reflexivity.
Qed.

Lemma stageOfRound_founderShares (currentYear : float) (round : FundingRound.t)
    (c : company) (F P I : float) (previous : CapTableStage.t) :
  (Trace.stageOfRound currentYear round c F P I previous).(CapTableStage.founderShares)
  = JS.or_default F 0.
Proof.
  unfold Trace.stageOfRound, CapTableStageM.calculateOwnership.
  destruct (_ =? _)%float; reflexivity.
Qed.

Lemma incorporationStage_totalShares (currentYear F P : float) (y : option float) :
  (Trace.incorporationStage currentYear F P y).(CapTableStage.totalShares)
  = JS.or_default (F + P)%float 0.
Proof.
  unfold Trace.incorporationStage, CapTableStageM.calculateOwnership.
  destruct (_ =? _)%float; reflexivity.
Qed.

Lemma incorporationStage_founderShares (currentYear F P : float) (y : option float) :
  (Trace.incorporationStage currentYear F P y).(CapTableStage.founderShares)
  = JS.or_default F 0.
Proof.
  unfold Trace.incorporationStage, CapTableStageM.calculateOwnership.
  destruct (_ =? _)%float; reflexivity.
Qed.

Lemma or_default_NaN (x : float) : NaN x -> JS.or_default x 0 = 0%float.
Proof.
  intros Hn. destruct (or_default_0 x) as [[_ E]|[[Hi _]|[(Hf & _)|[Hno _]]]].
  - exact E.
  - exfalso. exact (@inf_not_nan _ Hi Hn).
  - exfalso. exact (@fin_not_nan _ Hf Hn).
  - exfalso. apply Hno. right; right; exact Hn.
Qed.

(** A stage whose total is [NaN] shows a total of [0] and percentages
    of [0], and does not pass [validateOwnership]. *)
Lemma stageOfRound_checked (currentYear : float) (round : FundingRound.t) (c : company)
    (F P I : float) (previous : CapTableStage.t) :
  CapTableStageM.validateOwnership
    (Trace.stageOfRound currentYear round c F P I previous) = Ok true ->
  ~ NaN (Trace.totalSharesAfter round c F P I).
Proof.
  intros Hv Hn. apply validateOwnership_Ok in Hv. destruct Hv as [_ Hv].
  unfold Trace.stageOfRound, CapTableStageM.calculateOwnership in Hv.
  cbn [CapTableStage.totalShares Trace.rawStageOfRound] in Hv.
  rewrite (@or_default_NaN _ Hn) in Hv.
  change (0 =? 0)%float with true in Hv. cbv iota in Hv.
  unfold CapTableStageM.ownershipTotal in Hv.
  cbn [CapTableStage.founderOwnership CapTableStage.optionPoolOwnership
       CapTableStage.investorOwnership] in Hv.
  vm_compute in Hv. discriminate Hv.
Qed.

Lemma incorporationStage_checked (currentYear F P : float) (y : option float) :
  CapTableStageM.validateOwnership (Trace.incorporationStage currentYear F P y) = Ok true ->
  ~ NaN (F + P).
Proof.
  intros Hv Hn. apply validateOwnership_Ok in Hv. destruct Hv as [_ Hv].
  unfold Trace.incorporationStage, CapTableStageM.calculateOwnership in Hv.
  cbn [CapTableStage.totalShares Trace.rawIncorporationStage] in Hv.
  rewrite (@or_default_NaN _ Hn) in Hv.
  change (0 =? 0)%float with true in Hv. cbv iota in Hv.
  unfold CapTableStageM.ownershipTotal in Hv.
  cbn [CapTableStage.founderOwnership CapTableStage.optionPoolOwnership
       CapTableStage.investorOwnership] in Hv.
  vm_compute in Hv. discriminate Hv.
Qed.

(** The invariant lemma of the loop, for rounds that satisfy [Q]. *)
Lemma processRounds_invariant_on (currentYear : float) (c : company) (founderShares : float)
    (Q : FundingRound.t -> Prop)
    (Inv : list CapTableStage.t -> float -> float -> Prop) :
  (forall evolution previous round pool investors,
      Q round ->
      Inv (evolution ++ previous :: nil) pool investors ->
      CapTableStageM.validateOwnership
        (Trace.stageOfRound currentYear round c founderShares pool investors previous)
      = Ok true ->
      Inv ((evolution ++ previous :: nil)
           ++ Trace.stageOfRound currentYear round c founderShares pool investors previous
              :: nil)
        (Trace.stageOfRound currentYear round c founderShares pool investors previous)
          .(CapTableStage.optionPoolShares)
        (Trace.stageOfRound currentYear round c founderShares pool investors previous)
          .(CapTableStage.investorShares)) ->
  forall rounds evolution previous pool investors stages,
    Forall Q rounds ->
    Inv (evolution ++ previous :: nil) pool investors ->
    CapTableCalculator.processRounds currentYear rounds c founderShares pool investors
      (evolution ++ previous :: nil) = Ok stages ->
    exists pool' investors', Inv stages pool' investors'.
Proof.
  intros Hstep rounds.
  induction rounds as [|round rest IH];
    intros evolution previous pool investors stages HQ HI H.
  - simpl in H. injection H as <-. eauto.
  - simpl in H. inversion HQ as [|? ? Hq Hrest]; subst.
    destruct (CapTableCalculator._processRound currentYear round founderShares pool
                investors c (CapTableCalculator.lastStage (evolution ++ previous :: nil)))
      as [stage|e] eqn:E; simpl in H; [|discriminate].
    rewrite lastStage_snoc in E.
    destruct (_processRound_Ok _ _ _ _ _ _ _ E) as (p & Hp & Hs & Hv).
    injection Hp as <-. subst stage.
    eapply IH; [exact Hrest| |exact H].
    now apply Hstep.
Qed.

Lemma same_refl (x : float) : Good x -> same x x.
Proof.
  intros [[H _]|H]; [right|left]; tauto.
Qed.

Lemma Good_class (x : float) : Good x -> Fin x \/ Inf x.
Proof. intros [[H _]|H]; tauto. Qed.

Lemma validate_RoundOk (round : FundingRound.t) :
  Validator.roundErrors round = nil -> RoundOk round.
Proof.
  intros H. destruct (@validate_round _ H) as (H1 & H2 & H3 & H4).
  exact (@percent_bounds _ _ H1 H2 H3 H4).
Qed.

Lemma Monotone_step (currentYear : float) (c : company)
    (evolution : list CapTableStage.t) (previous : CapTableStage.t)
    (round : FundingRound.t) (P I : float) :
  natural c.(Company.founderShares) -> 1 <= val c.(Company.founderShares) ->
  Fin c.(Company.optionPoolPercent) ->
  RoundOk round ->
  Monotone c.(Company.founderShares) (evolution ++ previous :: nil) P I ->
  CapTableStageM.validateOwnership
    (Trace.stageOfRound currentYear round c c.(Company.founderShares) P I previous)
  = Ok true ->
  Monotone c.(Company.founderShares)
    ((evolution ++ previous :: nil)
     ++ Trace.stageOfRound currentYear round c c.(Company.founderShares) P I previous :: nil)
    (Trace.stageOfRound currentYear round c c.(Company.founderShares) P I previous)
      .(CapTableStage.optionPoolShares)
    (Trace.stageOfRound currentYear round c c.(Company.founderShares) P I previous)
      .(CapTableStage.investorShares).
Proof.
  intros HF HF1 Hp (Hpct & Hlo & Hhi) (HP & HI & Hmono & last & Hlast & HGl & HL) Hv.
  rewrite lastStage_snoc in Hlast. injection Hlast as <-.
  pose proof (@stageOfRound_checked _ _ _ _ _ _ _ Hv) as HnT.
  destruct (@step_next_Good round c _ P I HF Hp Hpct Hhi HP HI HnT) as (HGP & HGI & HGT).
  rewrite stageOfRound_optionPoolShares, stageOfRound_investorShares.
  pose proof (@or_default_same _ HGP) as HsP. pose proof (@or_default_same _ HGI) as HsI.
  pose proof (@or_default_same _ HGT) as HsT.
  split; [exact (@same_Good _ _ HsP HGP)|]. split; [exact (@same_Good _ _ HsI HGI)|].
  split.
  - intros a b Hab. apply consecutive_snoc in Hab.
    destruct Hab as [Hab|[-> ->]]; [now apply Hmono|].
    rewrite stageOfRound_totalShares.
    exact (@step_mono round c _ P I HF HF1 Hp Hpct Hlo Hhi HP HI _ _
             (@Good_class _ HGl) HL HnT HsT).
  - eexists. split; [apply lastStage_snoc|].
    rewrite stageOfRound_totalShares. split; [exact (@same_Good _ _ HsT HGT)|].
    exact (@Link_same _ _ _ _ _ _ _ HsT HsP HsI
             (@step_link round c _ P I HF HF1 Hp Hpct Hhi HP HI HnT)).
Qed.

Lemma initial_pool_Gn (c : company) :
  natural c.(Company.founderShares) ->
  Fin c.(Company.optionPoolPercent) -> val c.(Company.optionPoolPercent) <= 100 ->
  Gn (CompanyM.getInitialOptionPoolShares c).
Proof.
  intros HF Hp Hp100. unfold CompanyM.getInitialOptionPoolShares.
  apply floor_quotient_Gn.
  - apply Fin_Okv. now apply natural_Fin.
  - now apply Fin_Okv.
  - now apply complement_class.
Qed.

Lemma Monotone_incorporation (currentYear : float) (c : company) (y : option float) :
  natural c.(Company.founderShares) -> 1 <= val c.(Company.founderShares) ->
  Fin c.(Company.optionPoolPercent) -> val c.(Company.optionPoolPercent) <= 100 ->
  CapTableStageM.validateOwnership
    (Trace.incorporationStage currentYear c.(Company.founderShares)
       (CompanyM.getInitialOptionPoolShares c) y) = Ok true ->
  Monotone c.(Company.founderShares)
    (nil ++ Trace.incorporationStage currentYear c.(Company.founderShares)
              (CompanyM.getInitialOptionPoolShares c) y :: nil)
    (CompanyM.getInitialOptionPoolShares c) 0.
Proof.
  intros HF HF1 Hp Hp100 Hv.
  pose proof (@incorporationStage_checked _ _ _ _ Hv) as HnT.
  destruct (@add_not_nan _ _ HnT) as [_ HnP].
  pose proof (@Gn_Good _ (@initial_pool_Gn c HF Hp Hp100) HnP) as HGP.
  assert (HGT : Good (c.(Company.founderShares) + CompanyM.getInitialOptionPoolShares c))
    by (apply add_Good; [now left|exact HGP]).
  pose proof (@or_default_same _ HGT) as HsT.
  split; [exact HGP|]. split; [left; exact natural_zero|]. split.
  - intros a b (i & Ha & Hb). simpl in Hb. destruct i; discriminate.
  - eexists. split; [apply lastStage_snoc|].
    rewrite incorporationStage_totalShares. split; [exact (@same_Good _ _ HsT HGT)|].
    apply (@Link_same _ _ _ _ _ _ _ HsT (@same_refl _ HGP)
             (@same_refl _ (or_introl natural_zero))).
    now apply incorporation_Link.
Qed.

(** C5. In the stages [calculateEvolution] returns, the total number of
    shares of a stage is at most that of the stage after it ([<=] on
    binary64 numbers, as the engine computes them), and every stage shows
    the founder shares of the company. *)
Theorem C5_total_shares_never_decrease (currentYear : float) (c : company)
    (stages : list CapTableStage.t) :
  CapTableCalculator.calculateEvolution currentYear c = Ok stages ->
  (forall earlier later, consecutive stages earlier later ->
     (earlier.(CapTableStage.totalShares) <=? later.(CapTableStage.totalShares))%float
     = true)
  /\ (forall s, In s stages ->
        s.(CapTableStage.founderShares) = c.(Company.founderShares)).
Proof.
  intros H. destruct (calculateEvolution_Ok _ _ H) as (Hval & Hinc & Hloop).
  destruct (@validate_company c true Hval) as (HF & HF1 & Hp & Hp100 & Hrounds).
  assert (HQ : Forall RoundOk (CompanyM.getRoundsByYear c)).
  { unfold CompanyM.getRoundsByYear. apply Forall_sortBy.
    eapply Forall_impl; [|exact Hrounds]. intros r. apply validate_RoundOk. }
  assert (HpF : Posf c.(Company.founderShares))
    by (apply Fin_Posf; [now apply natural_Fin|lra]).
  split.
  - assert (HM : exists P I, Monotone c.(Company.founderShares) stages P I).
    { eapply (@processRounds_invariant_on currentYear c c.(Company.founderShares)
                RoundOk (Monotone c.(Company.founderShares)));
        [|exact HQ| |exact Hloop].
      - intros evolution previous round P I Hq HI Hv.
        now apply Monotone_step.
      - now apply Monotone_incorporation. }
    destruct HM as (P & I & _ & _ & HM & _). exact HM.
  - assert (HI : exists P I : float,
               Forall (fun s => s.(CapTableStage.founderShares) = c.(Company.founderShares))
                 stages).
    { eapply (@processRounds_invariant currentYear c c.(Company.founderShares)
                (fun evolution _ _ =>
                   Forall (fun s => s.(CapTableStage.founderShares)
                                    = c.(Company.founderShares)) evolution));
        [| |exact Hloop].
      - intros evolution previous round P I HI Hv stage.
        apply Forall_app. split; [exact HI|]. constructor; [|constructor].
        unfold stage. rewrite stageOfRound_founderShares. now apply or_default_Posf.
      - constructor; [|constructor].
        rewrite incorporationStage_founderShares. now apply or_default_Posf. }
    destruct HI as (_ & _ & HI). intros s Hs.
    rewrite Forall_forall in HI. now apply HI.
Qed.

Lemma C5_total_shares_witness :
  (Cases.twoSeedsFirst.(CapTableStage.totalShares)
   <=? Cases.twoSeedsSecond.(CapTableStage.totalShares))%float = true
  /\ Cases.twoSeedsSecond.(CapTableStage.founderShares) = 10000000%float
  /\ map CapTableStage.totalShares Cases.twoSeedsStages
     = [12500000; 15499998; 20249997]%float.
Proof.
  destruct (@C5_total_shares_never_decrease 2026 Cases.twoSeeds Cases.twoSeedsStages)
    as [Hm Hf]; [vm_compute; reflexivity|].
  split; [|split].
  - apply Hm. exists 1%nat. split; reflexivity.
  - apply (Hf Cases.twoSeedsSecond). right; right; left; reflexivity.
  - reflexivity.
Defined.

End ShareMonotonicity.


(** ** Further properties of the code

    *** The stages of a run, the sensitivity analysis and the rounds of a
    company *)

Section Structure.
Import Cases.

(** *** The rounds in order of year *)

Lemma insert_Permutation (ascending : bool) (x : FundingRound.t) (l : list FundingRound.t) :
  Permutation (DataUtils.insert ascending x l) (x :: l).
Proof.
  induction l as [|y rest IH]; simpl.
  - apply Permutation_refl.
  - destruct (DataUtils.compareFn ascending x y <=? 0)%Z.
    + apply Permutation_refl.
    + apply Permutation_trans with (y :: x :: rest).
      * now apply perm_skip.
      * apply perm_swap.
Qed.

Lemma sortBy_Permutation (l : list FundingRound.t) (ascending : bool) :
  Permutation (DataUtils.sortBy l ascending) l.
Proof.
  unfold DataUtils.sortBy. induction l as [|x rest IH]; simpl.
  - apply Permutation_refl.
  - apply Permutation_trans with (x :: fold_right (DataUtils.insert ascending) [] rest).
    + apply insert_Permutation.
    + now apply perm_skip.
Qed.

Lemma sortBy_length (l : list FundingRound.t) (ascending : bool) :
  List.length (DataUtils.sortBy l ascending) = List.length l.
Proof. apply Permutation_length, sortBy_Permutation. Qed.

(** *** The stages of a run and the rounds they come from *)

Lemma stageOfRound_round (currentYear : float) (round : FundingRound.t) (c : company)
    (F P I : float) (previous : CapTableStage.t) :
  (Trace.stageOfRound currentYear round c F P I previous).(CapTableStage.round)
  = Some round.
Proof.
  unfold Trace.stageOfRound, CapTableStageM.calculateOwnership.
  destruct (_ =? _); reflexivity.
Qed.

Lemma stageOfRound_liquidationStack (currentYear : float) (round : FundingRound.t)
    (c : company) (F P I : float) (previous : CapTableStage.t) :
  (Trace.stageOfRound currentYear round c F P I previous).(CapTableStage.liquidationStack)
  = previous.(CapTableStage.liquidationStack) ++ [Trace.entryOfRound round c F P I].
Proof.
  unfold Trace.stageOfRound. rewrite calculateOwnership_liquidationStack. reflexivity.
Qed.

Lemma incorporationStage_shape (currentYear F P : float) (y : option float) :
  (Trace.incorporationStage currentYear F P y).(CapTableStage.stage) = "Incorporation"
  /\ (Trace.incorporationStage currentYear F P y).(CapTableStage.round) = None
  /\ (Trace.incorporationStage currentYear F P y).(CapTableStage.liquidationStack) = [].
Proof.
  unfold Trace.incorporationStage, CapTableStageM.calculateOwnership.
  destruct (_ =? _); repeat split.
Qed.

(** What the loop of [calculateEvolution] adds to the stages it starts
    from: one stage per round, in the order of the rounds, each with the
    stack of the stage before it and one more entry. *)
Lemma processRounds_stages (currentYear : float) (c : company) (F : float)
    (rounds : list FundingRound.t) :
  forall (evolution : list CapTableStage.t) (previous : CapTableStage.t) (P I : float)
         (stages : list CapTableStage.t),
    CapTableCalculator.processRounds currentYear rounds c F P I (evolution ++ [previous])
    = Ok stages ->
    exists rest,
      stages = (evolution ++ [previous]) ++ rest
      /\ map CapTableStage.round rest = map Some rounds
      /\ forall i s,
           nth_error rest i = Some s ->
           map (fun e => (e.(StackEntry.round), e.(StackEntry.year),
                          e.(StackEntry.investment), e.(StackEntry.preference)))
               s.(CapTableStage.liquidationStack)
           = map (fun e => (e.(StackEntry.round), e.(StackEntry.year),
                            e.(StackEntry.investment), e.(StackEntry.preference)))
                 previous.(CapTableStage.liquidationStack)
             ++ map (fun r => (r.(FundingRound.type), r.(FundingRound.year),
                               r.(FundingRound.investment), r.(FundingRound.liquidationPref)))
                    (firstn (S i) rounds).
Proof.
  induction rounds as [|round rounds' IH]; intros evolution previous P I stages H.
  - simpl in H. injection H as <-. exists []. rewrite app_nil_r.
    split; [reflexivity|]. split; [reflexivity|]. intros i s Hi. now destruct i.
  - simpl in H.
    destruct (CapTableCalculator._processRound currentYear round F P I c
                (CapTableCalculator.lastStage (evolution ++ [previous])))
      as [stage|e] eqn:E; simpl in H; [|discriminate].
    rewrite lastStage_snoc in E.
    destruct (_processRound_Ok _ _ _ _ _ _ _ E) as (p & Hp & Hs & Hv).
    injection Hp as <-.
    destruct (IH (evolution ++ [previous]) stage _ _ _ H) as (rest & Hst & Hr & Hk).
    exists (stage :: rest). split; [|split].
    + rewrite Hst. now rewrite <- app_assoc.
    + simpl. rewrite Hr. f_equal. rewrite Hs. apply stageOfRound_round.
    + assert (Hstack : stage.(CapTableStage.liquidationStack)
                       = previous.(CapTableStage.liquidationStack)
                         ++ [Trace.entryOfRound round c F P I])
        by (rewrite Hs; apply stageOfRound_liquidationStack).
      intros [|i] s Hi.
      * simpl in Hi. injection Hi as <-. rewrite Hstack, map_app. reflexivity.
      * simpl in Hi. rewrite (Hk i s Hi). rewrite Hstack, map_app, <- app_assoc.
        reflexivity.
Qed.

(** X1. [calculateEvolution] returns the incorporation stage, which has no
    round, followed by exactly one stage per round of the company, in the
    order of [getRoundsByYear]. *)
Theorem evolution_has_one_stage_per_round (currentYear : float) (c : company)
    (stages : list CapTableStage.t) :
  CapTableCalculator.calculateEvolution currentYear c = Ok stages ->
  exists incorporation rest,
    stages = incorporation :: rest
    /\ incorporation.(CapTableStage.stage) = "Incorporation"
    /\ incorporation.(CapTableStage.round) = None
    /\ map CapTableStage.round rest = map Some (CompanyM.getRoundsByYear c)
    /\ List.length stages = S (List.length c.(Company.rounds)).
Proof.
  intros H. destruct (calculateEvolution_Ok _ _ H) as (_ & _ & Hloop).
  destruct (@processRounds_stages _ _ _ _ [] _ _ _ _ Hloop) as (rest & Hst & Hr & _).
  destruct (incorporationStage_shape currentYear c.(Company.founderShares)
              (CompanyM.getInitialOptionPoolShares c)
              match CompanyM.getRoundsByYear c with
              | [] => None
              | first :: _ => Some first.(FundingRound.year)
              end) as (Hn & Hro & _).
  do 2 eexists. split; [exact Hst|]. split; [exact Hn|]. split; [exact Hro|].
  split; [exact Hr|].
  rewrite Hst. simpl. f_equal.
  rewrite <- (length_map CapTableStage.round), Hr, length_map.
  apply sortBy_length.
Qed.

Lemma evolution_has_one_stage_per_round_witness :
  exists incorporation rest,
    threeRoundsStages = incorporation :: rest
    /\ incorporation.(CapTableStage.stage) = "Incorporation"
    /\ incorporation.(CapTableStage.round) = None
    /\ map CapTableStage.round rest = map Some (CompanyM.getRoundsByYear threeRounds)
    /\ List.length threeRoundsStages = 4%nat.
Proof.
  apply (@evolution_has_one_stage_per_round 2026 threeRounds threeRoundsStages).
  vm_compute. reflexivity.
Defined.

(** X2. In the stages [calculateEvolution] returns, the liquidation stack
    of the stage at position [i] has one entry for each of the first [i]
    rounds of [getRoundsByYear], in that order, with the type, the year,
    the investment and the liquidation preference of the round. *)
Theorem liquidation_stack_lists_the_rounds (currentYear : float) (c : company)
    (stages : list CapTableStage.t) (i : nat) (s : CapTableStage.t) :
  CapTableCalculator.calculateEvolution currentYear c = Ok stages ->
  nth_error stages i = Some s ->
  map (fun e => (e.(StackEntry.round), e.(StackEntry.year),
                 e.(StackEntry.investment), e.(StackEntry.preference)))
      s.(CapTableStage.liquidationStack)
  = map (fun r => (r.(FundingRound.type), r.(FundingRound.year),
                   r.(FundingRound.investment), r.(FundingRound.liquidationPref)))
        (firstn i (CompanyM.getRoundsByYear c)).
Proof.
  intros H Hi. destruct (calculateEvolution_Ok _ _ H) as (_ & _ & Hloop).
  destruct (@processRounds_stages _ _ _ _ [] _ _ _ _ Hloop) as (rest & Hst & _ & Hk).
  destruct (incorporationStage_shape currentYear c.(Company.founderShares)
              (CompanyM.getInitialOptionPoolShares c)
              match CompanyM.getRoundsByYear c with
              | [] => None
              | first :: _ => Some first.(FundingRound.year)
              end) as (_ & _ & Hstack).
  rewrite Hst in Hi. destruct i as [|i]; simpl in Hi.
  - injection Hi as <-. rewrite Hstack. reflexivity.
  - rewrite (Hk i s Hi), Hstack. reflexivity.
Qed.

Lemma liquidation_stack_lists_the_rounds_witness :
  map (fun e => (e.(StackEntry.round), e.(StackEntry.year),
                 e.(StackEntry.investment), e.(StackEntry.preference)))
      twoSeedsSecond.(CapTableStage.liquidationStack)
  = [(Some "Seed", 2025, 1000000, "1x"); (Some "Seed", 2025, 2000000, "1x")].
Proof.
  apply (@liquidation_stack_lists_the_rounds 2026 twoSeeds twoSeedsStages
           2%nat twoSeedsSecond).
  - vm_compute. reflexivity.
  - reflexivity.
Defined.

(** *** A company that fails validation *)

(** X3. A company that [validate] rejects is not processed:
    [calculateEvolution] fails with a [CalculationError] of operation
    ['cap_table_evolution'] whose message is ['Failed to calculate cap
    table evolution: '] followed by the message of the validation error,
    and which carries the company's data. *)
Theorem invalid_company_is_not_processed (currentYear : float) (c : company)
    (e : error) :
  CompanyM.validate c = Throw e ->
  CapTableCalculator.calculateEvolution currentYear c
  = Throw (CalculationError "cap_table_evolution"
             (Text "Failed to calculate cap table evolution: " :: error_message e)
             (CompanyContext (CompanyM.toObject c))).
Proof.
  intros H. unfold CapTableCalculator.calculateEvolution. rewrite H. reflexivity.
Qed.

Lemma invalid_company_is_not_processed_witness :
  exists e,
    CompanyM.validate Examples.nameless = Throw e
    /\ CapTableCalculator.calculateEvolution 2026 Examples.nameless
       = Throw (CalculationError "cap_table_evolution"
                  (Text "Failed to calculate cap table evolution: " :: error_message e)
                  (CompanyContext (CompanyM.toObject Examples.nameless))).
Proof.
  eexists. split; [vm_compute; reflexivity|].
  apply (@invalid_company_is_not_processed 2026 Examples.nameless).
  vm_compute. reflexivity.
Defined.

(** *** The entries of the sensitivity analysis *)

Lemma read_write (h : Store.t) (l : Store.loc) (o o' : Store.object) :
  Store.read h l = Some o -> Store.read (Store.write h l o') l = Some o'.
Proof.
  unfold Store.read. revert l. induction h as [|x h IH]; intros l H.
  - now destruct l.
  - destruct l as [|l]; simpl; [reflexivity|]. simpl in H. now apply IH.
Qed.

(** A scenario that gives a result has revalued its round at the
    pre-money valuation of the baseline round times its multiplier. *)
Lemma runScenario_result (currentYear : float) (Math_pow : float -> float -> float)
    (company : Store.loc) (roundIndex : nat) (baselineRound : Store.loc)
    (scenario : CONFIG.SENSITIVITY.scenario) (h h' : Store.t) (entry : scenarioResult)
    (baseline : FundingRound.t) :
  Store.read h baselineRound = Some (Store.RoundObject baseline) ->
  CapTableCalculator.runScenario currentYear Math_pow company roundIndex baselineRound
    scenario h = (h', Ok entry) ->
  exists founderReturn esopReturn totalInvestorReturn roundMultiple roundIRR,
    entry = ScenarioResult scenario.(CONFIG.SENSITIVITY.label)
              scenario.(CONFIG.SENSITIVITY.class)
              scenario.(CONFIG.SENSITIVITY.multiplier)
              (baseline.(FundingRound.preMoneyValuation)
               * scenario.(CONFIG.SENSITIVITY.multiplier))
              founderReturn esopReturn totalInvestorReturn roundMultiple roundIRR.
Proof.
  intros Hbase. unfold CapTableCalculator.runScenario.
  unfold Store.bind at 1.
  pose proof (readonly_toObject company h) as H1.
  destruct (CompanyObject.toObject company h) as [h1 [data|e]]; simpl in H1; subst h1;
    [|discriminate].
  unfold Store.bind at 1.
  destruct (new_company currentYear data h) as (ext & mc & modified & -> & Hread & Hnew).
  unfold Store.bind at 1. unfold Store.readCompany. rewrite Hread.
  unfold Store.bind at 1.
  destruct (nth_error (Company.rounds modified) roundIndex) as [target|] eqn:Et;
    [|discriminate].
  assert (Htarget : (List.length h <= target)%nat).
  { apply nth_error_In in Et. revert Et. now apply Forall_forall. }
  unfold Store.ret at 1.
  unfold Store.bind at 1. unfold Store.readRound at 1.
  rewrite (@grows_read h (h ++ ext) _ _ (ex_intro _ ext eq_refl) Hbase).
  unfold Store.bind at 1. unfold Store.readRound at 1.
  destruct (Store.read (h ++ ext) target) as [[r|co]|] eqn:Er; try discriminate.
  unfold Store.bind at 1. unfold Store.writeRound.
  assert (Hwritten : forall o, Store.read (Store.write (h ++ ext) target o) target = Some o).
  { intros o. exact (@read_write _ _ _ o Er). }
  match goal with |- context [Store.write (h ++ ext) target ?o] =>
    specialize (Hwritten o); set (h2 := Store.write (h ++ ext) target o) in * end.
  unfold Store.bind at 1.
  pose proof (readonly_snapshot mc h2) as H4.
  destruct (CompanyObject.snapshot mc h2) as [h4 [c|e]]; simpl in H4; subst h4;
    [|discriminate].
  unfold Store.bind at 1, Store.lift at 1.
  destruct (CapTableCalculator.calculateEvolution currentYear c) as [capTable|e];
    [|discriminate].
  unfold Store.bind at 1, Store.lift at 1.
  destruct (CapTableCalculator.calculateReturns currentYear Math_pow (Some capTable) c)
    as [returns|e]; [|discriminate].
  unfold Store.bind at 1. unfold Store.readRound. rewrite Hwritten.
  unfold Store.ret. intros H. injection H as _ <-. cbn [FundingRound.preMoneyValuation].
  do 5 eexists. reflexivity.
Qed.

Lemma scenarioLoop_entries (currentYear : float) (Math_pow : float -> float -> float)
    (company : Store.loc) (roundIndex : nat) (baselineRound : Store.loc)
    (baseline : FundingRound.t) (scenarios : list CONFIG.SENSITIVITY.scenario) :
  forall scenarioResults h,
    Store.read h baselineRound = Some (Store.RoundObject baseline) ->
    exists h' entries,
      CapTableCalculator.scenarioLoop currentYear Math_pow company roundIndex baselineRound
        scenarios scenarioResults h = (h', Ok (scenarioResults ++ entries))
      /\ Forall2
           (fun entry scenario =>
              (exists message,
                 entry = ScenarioError scenario.(CONFIG.SENSITIVITY.label)
                           scenario.(CONFIG.SENSITIVITY.class) message)
              \/ (exists founderReturn esopReturn totalInvestorReturn roundMultiple roundIRR,
                    entry = ScenarioResult scenario.(CONFIG.SENSITIVITY.label)
                              scenario.(CONFIG.SENSITIVITY.class)
                              scenario.(CONFIG.SENSITIVITY.multiplier)
                              (baseline.(FundingRound.preMoneyValuation)
                               * scenario.(CONFIG.SENSITIVITY.multiplier))
                              founderReturn esopReturn totalInvestorReturn roundMultiple
                              roundIRR))
           entries scenarios.
Proof.
  induction scenarios as [|scenario rest IH]; intros scenarioResults h Hbase; simpl.
  - exists h, []. rewrite app_nil_r. split; [reflexivity|constructor].
  - unfold Store.bind, Store.try_catch.
    pose proof (@runScenario_grows currentYear Math_pow company roundIndex baselineRound
                  scenario h) as Hg.
    destruct (CapTableCalculator.runScenario currentYear Math_pow company roundIndex
                baselineRound scenario h) as [h1 [entry|e]] eqn:E; simpl in Hg.
    + destruct (IH (scenarioResults ++ [entry]) h1 (@grows_read _ _ _ _ Hg Hbase))
        as (h' & entries & Hloop & Hall).
      exists h', (entry :: entries). split.
      * rewrite Hloop, <- app_assoc. reflexivity.
      * constructor; [|exact Hall]. right.
        exact (@runScenario_result _ _ _ _ _ _ _ _ _ _ Hbase E).
    + unfold Store.ret.
      destruct (IH (scenarioResults
                    ++ [ScenarioError scenario.(CONFIG.SENSITIVITY.label)
                          scenario.(CONFIG.SENSITIVITY.class) (error_message e)])
                  h1 (@grows_read _ _ _ _ Hg Hbase))
        as (h' & entries & Hloop & Hall).
      eexists h', (_ :: entries). split.
      * rewrite Hloop, <- app_assoc. reflexivity.
      * constructor; [|exact Hall]. left. now eexists.
Qed.



(** X5. Every entry of [calculateSensitivityScenarios] that is a result,
    not an error, shows the multiplier of its scenario and, as
    [preMoneyValuation], the pre-money valuation of the company's round at
    [roundIndex] times that multiplier. *)
Theorem sensitivity_revalues_the_round (currentYear : float)
    (Math_pow : float -> float -> float) (h h' : Store.t) (company : Store.loc)
    (c : Company.t Store.loc) (roundIndex : nat) (baselineRound : Store.loc)
    (baseline : FundingRound.t) (scenarios : list CONFIG.SENSITIVITY.scenario)
    (entries : list scenarioResult) (i : nat) (label class : String.string)
    (multiplier preMoneyValuation founderReturn esopReturn totalInvestorReturn
     roundMultiple roundIRR : float) :
  Store.read h company = Some (Store.CompanyObject c) ->
  nth_error c.(Company.rounds) roundIndex = Some baselineRound ->
  Store.read h baselineRound = Some (Store.RoundObject baseline) ->
  CapTableCalculator.calculateSensitivityScenarios currentYear Math_pow company
    roundIndex scenarios h = (h', Ok entries) ->
  nth_error entries i
  = Some (ScenarioResult label class multiplier preMoneyValuation founderReturn
            esopReturn totalInvestorReturn roundMultiple roundIRR) ->
  exists scenario,
    nth_error scenarios i = Some scenario
    /\ multiplier = scenario.(CONFIG.SENSITIVITY.multiplier)
    /\ preMoneyValuation = baseline.(FundingRound.preMoneyValuation) * multiplier.
Proof.
  intros Hc Hi Hb Hrun Hentry.
  destruct (@scenarioLoop_entries currentYear Math_pow company roundIndex baselineRound
              baseline scenarios [] h Hb) as (h1 & entries1 & Hloop & Hall).
  unfold CapTableCalculator.calculateSensitivityScenarios, Store.try_catch in Hrun.
  unfold Store.bind at 1 in Hrun. unfold Store.readCompany in Hrun. rewrite Hc in Hrun.
  unfold Store.bind at 1 in Hrun. rewrite Hi in Hrun. unfold Store.ret at 1 in Hrun.
  rewrite Hloop in Hrun. injection Hrun as _ <-. simpl in Hentry.
  clear Hloop. revert i Hentry.
  induction Hall as [|entry scenario entries' scenarios' Hone _ IH]; intros i Hentry.
  - now destruct i.
  - destruct i as [|i]; [|exact (IH i Hentry)].
    simpl in Hentry. injection Hentry as ->. exists scenario. split; [reflexivity|].
    destruct Hone as [(m & Hm)|(a1 & a2 & a3 & a4 & a5 & Hr)]; [discriminate|].
    injection Hr as _ _ -> -> _ _ _ _ _. split; reflexivity.
Qed.

Lemma sensitivity_revalues_the_round_witness :
  exists scenario,
    nth_error CONFIG.SENSITIVITY.SCENARIOS 0 = Some scenario
    /\ 0.8%float = scenario.(CONFIG.SENSITIVITY.multiplier)
    /\ 4000000%float = (Examples.seed.(FundingRound.preMoneyValuation) * 0.8)%float.
Proof.
  eapply (@sensitivity_revalues_the_round 2026 (fun x _ => PrimFloat.sqrt x)
            Examples.scenarioStore _ 1%nat _ 0%nat 0%nat Examples.seed
            CONFIG.SENSITIVITY.SCENARIOS _ 0%nat _ _ 0.8%float 4000000%float _ _ _ _ _).
  - reflexivity.
  - reflexivity.
  - reflexivity.
  - vm_compute. reflexivity.
  - reflexivity.
Defined.

(** X6. Without a round at [roundIndex], [calculateSensitivityScenarios]
    fails with a [CalculationError] of operation ['sensitivity_analysis']
    whose message is ['Failed to calculate sensitivity scenarios: Round
    index i not found'], and creates no object. *)
Theorem sensitivity_without_the_round_fails (currentYear : float)
    (Math_pow : float -> float -> float) (h : Store.t) (company : Store.loc)
    (c : Company.t Store.loc) (data : Company.t FundingRound.t) (roundIndex : nat)
    (scenarios : list CONFIG.SENSITIVITY.scenario) :
  Store.read h company = Some (Store.CompanyObject c) ->
  nth_error c.(Company.rounds) roundIndex = None ->
  CompanyObject.toObject company h = (h, Ok data) ->
  CapTableCalculator.calculateSensitivityScenarios currentYear Math_pow company
    roundIndex scenarios h
  = (h, Throw (CalculationError "sensitivity_analysis"
                 [Text "Failed to calculate sensitivity scenarios: ";
                  Text "Round index "; Count roundIndex; Text " not found"]
                 (SensitivityContext roundIndex data))).
Proof.
  intros Hc Hi Hdata.
  unfold CapTableCalculator.calculateSensitivityScenarios, Store.try_catch.
  unfold Store.bind at 1. unfold Store.readCompany. rewrite Hc.
  unfold Store.bind at 1. rewrite Hi. unfold Store.throw at 1.
  unfold Store.bind. rewrite Hdata. reflexivity.
Qed.

Lemma sensitivity_without_the_round_fails_witness :
  CapTableCalculator.calculateSensitivityScenarios 2026 (fun x _ => PrimFloat.sqrt x)
    1%nat 5%nat CONFIG.SENSITIVITY.SCENARIOS Examples.scenarioStore
  = (Examples.scenarioStore,
     Throw (CalculationError "sensitivity_analysis"
              [Text "Failed to calculate sensitivity scenarios: ";
               Text "Round index "; Count 5; Text " not found"]
              (SensitivityContext 5 (CompanyM.toObject Examples.scenario)))).
Proof.
  eapply (@sensitivity_without_the_round_fails 2026 (fun x _ => PrimFloat.sqrt x)
            Examples.scenarioStore 1%nat _ (CompanyM.toObject Examples.scenario) 5%nat
            CONFIG.SENSITIVITY.SCENARIOS); reflexivity.
Defined.

(** *** Adding and removing rounds *)

Lemma read_write_other (h : Store.t) (l l' : Store.loc) (o : Store.object) :
  l <> l' -> Store.read (Store.write h l o) l' = Store.read h l'.
Proof.
  unfold Store.read. revert l l'. induction h as [|x h IH]; intros l l' H.
  - reflexivity.
  - destruct l as [|l], l' as [|l']; simpl; try reflexivity; [contradiction|].
    apply IH. congruence.
Qed.








(** X7. [addRound] makes a new round object from the data, gives it as
    [id] the number of rounds the company had, puts it last in the
    company's rounds and returns it; every other object stays as it was. *)
Theorem addRound_appends_a_numbered_round (currentYear : float) (h : Store.t)
    (this : Store.loc) (c : Company.t Store.loc) (roundData : FundingRound.t) :
  Store.read h this = Some (Store.CompanyObject c) ->
  exists h',
    CompanyRounds.addRound currentYear this roundData h = (h', Ok (List.length h))
    /\ Store.read h' (List.length h)
       = Some (Store.RoundObject
                 (CompanyRounds.setId (FundingRoundM.new currentYear roundData)
                    (List.length c.(Company.rounds))))
    /\ Store.read h' this
       = Some (Store.CompanyObject
                 (CompanyRounds.setRounds c (c.(Company.rounds) ++ [List.length h])))
    /\ forall l o, l <> this -> Store.read h l = Some o -> Store.read h' l = Some o.
Proof.
  intros Hc.
  assert (Hlt : (this < List.length h)%nat).
  { apply nth_error_Some. unfold Store.read in Hc. congruence. }
  set (r0 := FundingRoundM.new currentYear roundData).
  set (h1 := h ++ [Store.RoundObject r0]).
  assert (Hg : Store.grows h h1) by (now exists [Store.RoundObject r0]).
  assert (Hr0 : Store.read h1 (List.length h) = Some (Store.RoundObject r0)).
  { unfold h1, Store.read. rewrite nth_error_app2 by lia. now rewrite Nat.sub_diag. }
  set (h2 := Store.write h1 (List.length h)
               (Store.RoundObject (CompanyRounds.setId r0 (List.length c.(Company.rounds))))).
  set (h3 := Store.write h2 this
               (Store.CompanyObject
                  (CompanyRounds.setRounds c (c.(Company.rounds) ++ [List.length h])))).
  assert (Hc2 : Store.read h2 this = Some (Store.CompanyObject c)).
  { unfold h2. rewrite read_write_other by lia. exact (@grows_read _ _ _ _ Hg Hc). }
  exists h3. split; [|split; [|split]].
  - unfold CompanyRounds.addRound. unfold Store.bind at 1. unfold Store.new, Store.alloc.
    fold r0. fold h1. unfold Store.bind at 1. unfold Store.readCompany.
    rewrite (@grows_read _ _ _ _ Hg Hc).
    unfold Store.bind at 1. unfold Store.readRound. rewrite Hr0.
    unfold Store.bind at 1. unfold Store.writeRound. fold h2.
    unfold Store.bind at 1. unfold CompanyRounds.writeCompany. fold h3. reflexivity.
  - unfold h3. rewrite read_write_other by lia. unfold h2.
    exact (@read_write _ _ _ _ Hr0).
  - unfold h3. exact (@read_write _ _ _ _ Hc2).
  - intros l o Hne Hl.
    assert (Hl' : (l < List.length h)%nat).
    { apply nth_error_Some. unfold Store.read in Hl. congruence. }
    unfold h3. rewrite read_write_other by congruence.
    unfold h2. rewrite read_write_other by lia. exact (@grows_read _ _ _ _ Hg Hl).
Qed.

Lemma addRound_appends_a_numbered_round_witness :
  exists h',
    CompanyRounds.addRound 2026 1%nat Examples.seedRatchet Examples.scenarioStore
    = (h', Ok (List.length Examples.scenarioStore))
    /\ Store.read h' (List.length Examples.scenarioStore)
       = Some (Store.RoundObject
                 (CompanyRounds.setId (FundingRoundM.new 2026 Examples.seedRatchet)
                    (List.length scenarioObject.(Company.rounds))))
    /\ Store.read h' 1%nat
       = Some (Store.CompanyObject
                 (CompanyRounds.setRounds scenarioObject
                    (scenarioObject.(Company.rounds)
                     ++ [List.length Examples.scenarioStore])))
    /\ forall l o, l <> 1%nat -> Store.read Examples.scenarioStore l = Some o ->
                   Store.read h' l = Some o.
Proof.
  apply (@addRound_appends_a_numbered_round 2026 Examples.scenarioStore 1%nat
           scenarioObject Examples.seedRatchet).
  reflexivity.
Defined.



(** X9. [removeRound] with an index that is negative, or not below the
    number of rounds, changes nothing. *)
Theorem removeRound_out_of_range_changes_nothing (h : Store.t) (this : Store.loc)
    (c : Company.t Store.loc) (index : Z) :
  Store.read h this = Some (Store.CompanyObject c) ->
  (index < 0 \/ Z.of_nat (List.length c.(Company.rounds)) <= index)%Z ->
  CompanyRounds.removeRound this index h = (h, Ok tt).
Proof.
  intros Hc Hi. unfold CompanyRounds.removeRound. unfold Store.bind.
  unfold Store.readCompany. rewrite Hc.
  replace ((0 <=? index)%Z && (index <? Z.of_nat (List.length c.(Company.rounds)))%Z)%bool
    with false; [reflexivity|].
  symmetry. apply andb_false_iff.
  destruct Hi as [Hi|Hi]; [left; apply Z.leb_gt|right; apply Z.ltb_ge]; lia.
Qed.

Lemma removeRound_out_of_range_changes_nothing_witness :
  CompanyRounds.removeRound 1%nat 1%Z Examples.scenarioStore
  = (Examples.scenarioStore, Ok tt).
Proof.
  apply (@removeRound_out_of_range_changes_nothing Examples.scenarioStore 1%nat
           scenarioObject 1%Z).
  - reflexivity.
  - right. simpl. lia.
Defined.

(** *** Cloning a round *)

Lemma or_default_idem (x d : float) : JS.or_default (JS.or_default x d) d = JS.or_default x d.
Proof.
  unfold JS.or_default. destruct (JS.truthy x) eqn:E; [now rewrite E|].
  now destruct (JS.truthy d).
Qed.

Lemma or_string_idem (s d : String.string) :
  JS.or_string (JS.or_string s d) d = JS.or_string s d.
Proof. destruct s; simpl; [now destruct d|reflexivity]. Qed.

(** X10. A round made by the constructor survives the copy the engine
    makes of it: [new FundingRound(round.toObject())] is the round again. *)
Theorem cloning_a_new_round_gives_the_round (currentYear : float) (data : FundingRound.t) :
  FundingRoundM.new currentYear
    (FundingRoundM.toObject (FundingRoundM.new currentYear data))
  = FundingRoundM.new currentYear data.
Proof.
  unfold FundingRoundM.toObject, FundingRoundM.new. cbn [FundingRound.id FundingRound.type
    FundingRound.year FundingRound.preMoneyValuation FundingRound.investment
    FundingRound.revenue FundingRound.liquidationPref FundingRound.antiDilution
    FundingRound.discountRate].
  rewrite !or_default_idem, !or_string_idem. f_equal.
  - destruct (FundingRound.id data) as [n|]; [|reflexivity].
    destruct (JS.truthy n) eqn:E; [now rewrite E|reflexivity].
  - destruct (FundingRound.type data) as [[|a s]|]; reflexivity.
Qed.

(** *** The stored post-money valuation *)

(** X11. [calculateEquityPercentage] calculates the post-money valuation
    only when the field is [null].  Once a call has set it, a round with
    that stored valuation and the same investment gets the same
    percentage, whatever its pre-money valuation has become: calling
    again changes nothing, and a change of the pre-money valuation does
    not reach the percentage. *)
Theorem equity_percentage_uses_the_stored_post_money (round later : FundingRound.t) :
  later.(FundingRound.postMoneyValuation)
  = (fst (FundingRoundFields.calculateEquityPercentage round)).(FundingRound.postMoneyValuation) ->
  later.(FundingRound.investment) = round.(FundingRound.investment) ->
  snd (FundingRoundFields.calculateEquityPercentage later)
  = snd (FundingRoundFields.calculateEquityPercentage round).
Proof.
  unfold FundingRoundFields.calculateEquityPercentage.
  destruct (FundingRound.postMoneyValuation round) as [v|] eqn:E; simpl;
    intros Hpost Hinv; rewrite Hpost, ?E; simpl; rewrite ?Hinv; reflexivity.
Qed.

Lemma equity_percentage_uses_the_stored_post_money_witness :
  snd (FundingRoundFields.calculateEquityPercentage staleSeed)
  = snd (FundingRoundFields.calculateEquityPercentage Examples.seed).
Proof.
  apply (@equity_percentage_uses_the_stored_post_money Examples.seed staleSeed);
    reflexivity.
Defined.

End Structure.

(** *** The numbers of a run *)

Section Numbers.
Import Binary64 Shares Ranges Cases.

Local Open Scope R_scope.

(** *** Percentages *)

Lemma tenths_ok : forallb tenth_ok (map Pos.of_nat (seq 1 1000)) = true.
Proof. vm_compute. reflexivity. Qed.

Lemma Percent_zero : Percent 0%float.
Proof.
  unfold Percent. rewrite val_zero. split; [exact Fin_zero|]. split; [lra|now left].
Qed.

Lemma val_sixteenth : val 0.0625%float = / 16.
Proof.
  unfold val.
  replace (Prim2SF 0.0625%float) with (S754_finite false 4503599627370496 (-56))
    by reflexivity.
  cbn [SF2R cond_Zopp]. change (bpow (-56)) with (bpow (- (56))).
  rewrite (bpow_neg 56), (@bpow_IZR 56) by lia.
  change (IZR (2 ^ 56)) with 72057594037927936. lra.
Qed.

Lemma bpow_m60_small : bpow (-60) <= / 16.
Proof.
  replace (/ 16) with (bpow (-4)); [apply bpow_le; lia|].
  change (bpow (-4)) with (bpow (- (4))). rewrite (bpow_neg 4), (@bpow_IZR 4) by lia.
  reflexivity.
Qed.

Lemma tenth_range (k : positive) : (Z.pos k <= 1000)%Z -> Percent (tenth k).
Proof.
  intros Hk.
  assert (Hin : In k (map Pos.of_nat (seq 1 1000))).
  { apply in_map_iff. exists (Pos.to_nat k). split; [apply Pos2Nat.id|].
    apply in_seq. pose proof (Pos2Nat.is_pos k). lia. }
  pose proof (proj1 (forallb_forall _ _) tenths_ok k Hin) as Hok.
  unfold tenth_ok in Hok.
  apply andb_true_iff in Hok. destruct Hok as [Hok H100].
  apply andb_true_iff in Hok. destruct Hok as [Hnan H0].
  apply negb_true_iff in Hnan, H0, H100.
  apply is_nan_false in Hnan.
  assert (Hp16 : Posf 0.0625%float)
    by (now exists 4503599627370496%positive, (-56)%Z).
  assert (Hc : Inf (tenth k) \/ Fin (tenth k) /\ / 16 <= val (tenth k)).
  { destruct (@ltb_false_pos _ _ Hnan H0 Hp16) as [Hi|[Hp Hle]]; [now left|right].
    rewrite val_sixteenth in Hle. split; [now apply Posf_Fin|exact Hle]. }
  destruct (@ltb_false_le _ _ H100 (@Posf_Fin _ Posf_100)
              (match Hc with or_introl a => or_introl a | or_intror b => or_intror (proj1 b) end))
    as [Hf Hle].
  rewrite val_100 in Hle. split; [exact Hf|]. split; [exact Hle|]. right.
  destruct Hc as [Hi|[_ H16]]; [exfalso; exact (@fin_not_inf _ Hf Hi)|].
  pose proof bpow_m60_small. lra.
Qed.

Lemma Fin_zero_or_pos (x : float) :
  Fin x -> (exists s, Prim2SF x = S754_zero s) \/ Posf x.
Proof.
  unfold Fin, Posf. destruct (Prim2SF x) as [s|s| |[|] m e]; try contradiction; intros _.
  - left. now exists s.
  - right. now exists m, e.
Qed.

(** [parseFloat(x.toFixed(1))] of a number from 0 to 100 is one. *)
Lemma parseFloat_toFixed_range (x : float) :
  Fin x -> val x <= 100 -> Percent (JS.parseFloat_toFixed 1 x).
Proof.
  intros Hf Hle. unfold JS.parseFloat_toFixed.
  assert (Hz : Percent zero) by exact Percent_zero.
  pose proof (Prim2SF_valid x) as Hv. unfold Fin, val in Hf, Hle.
  destruct (Prim2SF x) as [s|s| |[|] m e] eqn:E; try contradiction; [exact Hz|].
  cbn [SF2R cond_Zopp] in Hle.
  destruct (valid_mantissa_bounds _ _ _ Hv) as [_ Hnorm].
  destruct (valid_finite _ _ _ Hv) as ([Hemin _] & _).
  destruct (0 <=? e)%Z eqn:Ee.
  - exfalso. apply Z.leb_le in Ee. destruct Hnorm as [->|Hm]; [lia|].
    assert (1 <= bpow e) by (rewrite <- bpow_0; apply bpow_le; lia).
    assert (IZR (2 ^ 52) <= IZR (Z.pos m)) by (apply IZR_le; exact Hm).
    change (IZR (2 ^ 52)) with 4503599627370496 in *.
    assert (IZR (Z.pos m) * 1 <= IZR (Z.pos m) * bpow e)
      by (apply Rmult_le_compat_l; lra).
    lra.
  - apply Z.leb_gt in Ee.
    change (10 ^ Z.of_nat 1)%Z with 10%Z.
    change (Z.to_pos 10) with 10%positive.
    set (d := (2 ^ (- e))%Z).
    assert (Hd : (0 < d)%Z) by (apply Z.pow_pos_nonneg; lia).
    assert (Hbd : bpow e = / IZR d).
    { replace e with (- (- e))%Z at 1 by lia. rewrite bpow_neg, bpow_IZR by lia.
      reflexivity. }
    assert (Hmd : (Z.pos m <= 100 * d)%Z).
    { apply le_IZR. rewrite mult_IZR. rewrite Hbd in Hle.
      assert (0 < IZR d) by (apply IZR_lt; exact Hd).
      apply Rmult_le_reg_r with (/ IZR d); [now apply Rinv_0_lt_compat|].
      rewrite Rmult_assoc, Rinv_r by lra. lra. }
    assert (Hn : ((2 * 10 * Z.pos m + d) / (2 * d) < 1001)%Z)
      by (apply Z.div_lt_upper_bound; lia).
    destruct ((2 * 10 * Z.pos m + d) / (2 * d))%Z as [|n|n]; [exact Hz| |exact Hz].
    apply tenth_range. lia.
Qed.

Lemma div_zero_l (x y : float) (s : bool) :
  Prim2SF x = S754_zero s -> Posf y -> exists s', Prim2SF (x / y) = S754_zero s'.
Proof.
  intros Hx (m & e & Hy). rewrite div_spec, Hx, Hy. eexists. reflexivity.
Qed.

Lemma mul_zero_l (x y : float) (s : bool) :
  Prim2SF x = S754_zero s -> Posf y -> exists s', Prim2SF (x * y) = S754_zero s'.
Proof.
  intros Hx (m & e & Hy). rewrite mul_spec, Hx, Hy. eexists. reflexivity.
Qed.

(** The percentage a part is of a whole, both whole numbers below
    [2^53], before it is rounded to one decimal. *)
Lemma ratio_range (part whole : float) :
  natural part -> Fin whole -> 1 <= val whole -> val whole < 9007199254740992 ->
  val part <= val whole ->
  Percent (part / whole * 100).
Proof.
  intros Hp Hw Hw1 Hw53 Hle.
  assert (Hpw : Posf whole) by (apply Fin_Posf; [exact Hw|lra]).
  destruct (@Fin_zero_or_pos _ (@natural_Fin _ Hp)) as [(s & Hz)|Hpp].
  - destruct (@div_zero_l _ _ _ Hz Hpw) as (s1 & Hq).
    destruct (@mul_zero_l _ _ _ Hq Posf_100) as (s2 & Hm).
    unfold Percent, Fin, val. rewrite Hm. simpl. split; [exact I|]. split; [lra|now left].
  - assert (Hp1 : 1 <= val part).
    { destruct Hp as (_ & k & Hk & Ek). pose proof (@Posf_val _ Hpp) as H0.
      rewrite Ek in H0 |- *. apply lt_IZR in H0. apply IZR_le. lia. }
    assert (Hb : bpow (-53) = / 9007199254740992).
    { change (-53)%Z with (- (53))%Z. rewrite bpow_neg, bpow_IZR by lia. reflexivity. }
    assert (Hbig : val whole * bpow (-1020) <= val part).
    { assert (bpow (-1020) <= bpow (-53)) by (apply bpow_le; lia).
      pose proof (bpow_gt_0 (-1020)).
      apply Rle_trans with (val whole * bpow (-53));
        [apply Rmult_le_compat_l; lra|].
      rewrite Hb. apply Rle_trans with 1; [|exact Hp1].
      apply Rmult_le_reg_r with 9007199254740992; [lra|].
      rewrite Rmult_assoc, Rinv_l by lra. lra. }
    pose proof (@div_fin _ _ Hpp Hpw Hbig) as HRq.
    assert (Hq1 : val part / val whole <= val 1%float).
    { rewrite val_1. apply Rmult_le_reg_r with (val whole); [lra|].
      unfold Rdiv. rewrite Rmult_assoc, Rinv_l by lra. lra. }
    destruct (@R_le _ _ _ HRq (@Posf_Fin _ Posf_1) Hq1) as [Hfq Hq].
    rewrite val_1 in Hq.
    destruct (@pow2_spec (-53) ltac:(lia)) as [Hf53 Hv53].
    assert (Hq0 : bpow (-53) <= val (part / whole)).
    { destruct (@R_ge _ _ (pow2 (-53)) HRq Hf53) as [Hi|[_ H]];
        [|exfalso; exact (@fin_not_inf _ Hfq Hi)|now rewrite Hv53 in H].
      rewrite Hv53, Hb. apply Rmult_le_reg_r with (val whole); [lra|].
      unfold Rdiv. rewrite (Rmult_assoc (val part)), Rinv_l by lra.
      apply Rle_trans with (/ 9007199254740992 * 9007199254740992); [|rewrite Rinv_l; lra].
      apply Rmult_le_compat_l; [|lra].
      apply Rlt_le, Rinv_0_lt_compat. lra. }
    pose proof (@mul_fin _ _ Hfq (@Posf_Fin _ Posf_100)) as HRm.
    rewrite val_100 in HRm.
    pose proof (bpow_gt_0 (-53)) as Hb0.
    destruct (@R_le _ _ 100%float HRm (@Posf_Fin _ Posf_100)
                ltac:(rewrite val_100; lra)) as [Hfm Hm].
    rewrite val_100 in Hm.
    split; [exact Hfm|]. split; [exact Hm|]. right.
    destruct (@R_ge _ _ (pow2 (-53)) HRm Hf53 ltac:(rewrite Hv53; lra)) as [Hi|[_ H]];
      [exfalso; exact (@fin_not_inf _ Hfm Hi)|].
    rewrite Hv53 in H.
    assert (bpow (-60) <= bpow (-53)) by (apply bpow_le; lia). lra.
Qed.

(** The percentage of a part of a whole, both whole numbers below
    [2^53]. *)
Lemma calculatePercentage_range (part whole : float) :
  natural part -> Fin whole -> 1 <= val whole -> val whole < 9007199254740992 ->
  val part <= val whole ->
  Percent (NumberUtils.calculatePercentage part whole 1).
Proof.
  intros Hp Hw Hw1 Hw53 Hle. unfold NumberUtils.calculatePercentage.
  destruct (whole =? 0)%float; [exact Percent_zero|].
  destruct (@ratio_range part whole Hp Hw Hw1 Hw53 Hle) as (Hf & H100 & _).
  now apply parseFloat_toFixed_range.
Qed.

(** The shares [calculateOwnership] keeps. *)
Lemma calculateOwnership_shares (this : CapTableStage.t) :
  (CapTableStageM.calculateOwnership this).(CapTableStage.totalShares)
  = this.(CapTableStage.totalShares)
  /\ (CapTableStageM.calculateOwnership this).(CapTableStage.founderShares)
     = this.(CapTableStage.founderShares)
  /\ (CapTableStageM.calculateOwnership this).(CapTableStage.optionPoolShares)
     = this.(CapTableStage.optionPoolShares)
  /\ (CapTableStageM.calculateOwnership this).(CapTableStage.investorShares)
     = this.(CapTableStage.investorShares)
  /\ (CapTableStageM.calculateOwnership this).(CapTableStage.newInvestorShares)
     = this.(CapTableStage.newInvestorShares).
Proof.
  unfold CapTableStageM.calculateOwnership.
  destruct (_ =? _)%float; repeat split.
Qed.

(** The percentages [calculateOwnership] gives a stage whose shares are
    whole numbers that add up to less than [2^53]. *)
Lemma calculateOwnership_percents (this : CapTableStage.t) :
  SmallStage this -> val this.(CapTableStage.totalShares) < 9007199254740992 ->
  Percents this -> Percents (CapTableStageM.calculateOwnership this).
Proof.
  intros (HF & HP & HI & HN & HT & HF1 & Esum & HNI) H53 Hold.
  pose proof (@val_nonneg _ (@natural_Fin _ HP)) as HP0.
  pose proof (@val_nonneg _ (@natural_Fin _ HI)) as HI0.
  unfold CapTableStageM.calculateOwnership.
  destruct (_ =? _)%float; [exact Hold|].
  unfold Percents. cbn [CapTableStage.founderOwnership CapTableStage.optionPoolOwnership
    CapTableStage.investorOwnership CapTableStage.newInvestorOwnership].
  repeat split; apply calculatePercentage_range; try assumption; lra.
Qed.

(** *** Share counts *)

Lemma SFeqb_nnf_true (x y : spec_float) :
  valid_binary x = true -> valid_binary y = true -> nnf x -> nnf y ->
  SF2R x = SF2R y -> SFeqb x y = true.
Proof.
  intros Hx Hy Hnx Hny He.
  destruct x as [sx|sx| |[|] mx ex]; try contradiction;
    destruct y as [sy|sy| |[|] my ey]; try contradiction; try reflexivity.
  - pose proof (SF2R_pos my ey) as H. simpl in He, H. lra.
  - pose proof (SF2R_pos mx ex) as H. simpl in He, H. lra.
  - pose proof (@SFcompare_pos _ _ _ _ Hx Hy) as H. unfold SFeqb.
    destruct (SFcompare _ _) as [[| |]|]; try reflexivity; try contradiction; lra.
Qed.

Lemma eqb_fin_true (x y : float) :
  Fin x -> Fin y -> val x = val y -> (x =? y)%float = true.
Proof.
  unfold Fin, val. rewrite FloatAxioms.eqb_spec. intros Hx Hy.
  apply SFeqb_nnf_true; auto using Prim2SF_valid.
Qed.

Lemma ltb_true_fin (x c : float) :
  Fin x \/ Inf x -> Fin c -> (x <? c)%float = true -> Fin x /\ val x < val c.
Proof.
  unfold Fin, Inf, val. rewrite FloatAxioms.ltb_spec.
  pose proof (Prim2SF_valid x) as Hvx. pose proof (Prim2SF_valid c) as Hvc.
  intros [Hx|Hx] Hc Hlt.
  - destruct (Prim2SF x) as [sx|sx| |[|] mx ex]; try contradiction;
      destruct (Prim2SF c) as [sc|sc| |[|] mc ec]; try contradiction; try discriminate.
    + split; [exact I|]. apply SF2R_pos.
    + split; [exact I|].
      pose proof (@SFcompare_pos _ _ _ _ Hvx Hvc) as H. unfold SFltb in Hlt.
      destruct (SFcompare _ _) as [[| |]|]; try discriminate; try contradiction. exact H.
  - rewrite Hx in Hlt.
    destruct (Prim2SF c) as [sc|sc| |[|] mc ec]; try contradiction; discriminate.
Qed.

Lemma same_Fin_l (x y : float) : same x y -> Fin x -> Fin y /\ val y = val x.
Proof.
  intros [[H _]|(Hx & Hy & He)] Hf; [|now split].
  exfalso. exact (@fin_not_inf _ Hf H).
Qed.

(** A sum of share counts is not below its first term. *)
Lemma add_leb (x y x' z' : float) :
  Good x -> Gn y -> ~ NaN (x + y) -> same x x' -> same (x + y) z' ->
  (x' <=? z')%float = true.
Proof.
  intros Hx Hy Hn Hsx Hsz.
  assert (Hx' : Good x') by exact (@same_Good _ _ Hsx Hx).
  destruct (@Gn_Good _ (@add_Gn _ _ (@Good_Gn _ Hx) Hy) Hn) as [Hz|Hz].
  - destruct (@add_Fin_inv _ _ (@Good_Gn _ Hx) Hy (@natural_Fin _ Hz)) as [Hnx Hny].
    destruct (@add_natural _ _ Hnx Hny) as [[Hi _]|(_ & Hle & _)];
      [exfalso; exact (@fin_not_inf _ (@natural_Fin _ Hz) Hi)|].
    destruct Hsx as [[Hi _]|(_ & Hfx' & Ex)];
      [exfalso; exact (@fin_not_inf _ (@natural_Fin _ Hnx) Hi)|].
    destruct Hsz as [[Hi _]|(_ & Hfz' & Ez)];
      [exfalso; exact (@fin_not_inf _ (@natural_Fin _ Hz) Hi)|].
    apply leb_fin; [exact Hfx'|exact Hfz'|]. rewrite <- Ex, <- Ez. exact Hle.
  - apply leb_inf; [now apply Good_not_nan|].
    destruct Hsz as [[_ H]|(H & _)]; [exact H|].
    exfalso. exact (@fin_not_inf _ H Hz).
Qed.

Lemma same_leb (x x' y' : float) :
  Good x -> same x x' -> same x y' -> (x' <=? y')%float = true.
Proof.
  intros Hx Hsx Hsy.
  destruct Hsy as [[Hi Hy]|(Hf & Hfy & Ey)].
  - apply leb_inf; [|exact Hy]. apply Good_not_nan. exact (@same_Good _ _ Hsx Hx).
  - destruct Hsx as [[Hi _]|(_ & Hfx & Ex)]; [exfalso; exact (@fin_not_inf _ Hf Hi)|].
    apply leb_fin; [exact Hfx|exact Hfy|]. rewrite <- Ex, <- Ey. lra.
Qed.

Lemma stageOfRound_newInvestorShares (currentYear : float) (round : FundingRound.t)
    (c : company) (F P I : float) (previous : CapTableStage.t) :
  (Trace.stageOfRound currentYear round c F P I previous).(CapTableStage.newInvestorShares)
  = JS.or_default (Trace.newInvestorShares round F P I) 0.
Proof.
  unfold Trace.stageOfRound, CapTableStageM.calculateOwnership.
  destruct (_ =? _)%float; reflexivity.
Qed.

Lemma incorporationStage_counts (currentYear F P : float) (y : option float) :
  (Trace.incorporationStage currentYear F P y).(CapTableStage.optionPoolShares)
  = JS.or_default P 0
  /\ (Trace.incorporationStage currentYear F P y).(CapTableStage.investorShares) = 0%float
  /\ (Trace.incorporationStage currentYear F P y).(CapTableStage.newInvestorShares)
     = 0%float.
Proof.
  unfold Trace.incorporationStage, CapTableStageM.calculateOwnership.
  destruct (_ =? _)%float; repeat split.
Qed.

Lemma c53_literal : c53 = 9007199254740992%float.
Proof. reflexivity. Qed.

(** The sum of three share counts whose exact sum is below [2^53]. *)
Lemma sum3_exact (F P I T : float) :
  natural F -> natural P -> natural I -> Fin T ->
  val T = val F + val P + val I -> val T < 9007199254740992 ->
  (F + P + I =? T)%float = true.
Proof.
  intros HF HP HI HT E Hlt.
  pose proof (@val_nonneg _ (@natural_Fin _ HI)) as HI0.
  pose proof (@val_nonneg _ (@natural_Fin _ HP)) as HP0.
  destruct (@add_natural_small F P HF HP ltac:(lra)) as [HnFP EFP].
  destruct (@add_natural_small (F + P) I HnFP HI ltac:(lra)) as [HnS ES].
  apply eqb_fin_true; [now apply natural_Fin|exact HT|]. lra.
Qed.

(** The percentages of a stage that [calculateOwnership] has gone
    through. *)
Lemma stage_percents (raw : CapTableStage.t) :
  raw.(CapTableStage.founderOwnership) = 0%float ->
  raw.(CapTableStage.optionPoolOwnership) = 0%float ->
  raw.(CapTableStage.investorOwnership) = 0%float ->
  raw.(CapTableStage.newInvestorOwnership) = 0%float ->
  SmallStage (CapTableStageM.calculateOwnership raw) ->
  val (CapTableStageM.calculateOwnership raw).(CapTableStage.totalShares)
  < 9007199254740992 ->
  Percents (CapTableStageM.calculateOwnership raw).
Proof.
  intros E1 E2 E3 E4 Hsmall H53.
  destruct (calculateOwnership_shares raw) as (ET & EF & EP & EI & EN).
  unfold SmallStage in Hsmall. rewrite ET, EF, EP, EI, EN in Hsmall. rewrite ET in H53.
  apply calculateOwnership_percents; [exact Hsmall|exact H53|].
  unfold Percents. rewrite E1, E2, E3, E4.
  split; [|split; [|split]]; exact Percent_zero.
Qed.

Lemma roundStage_counts (currentYear : float) (c : company) (round : FundingRound.t)
    (P I : float) (previous : CapTableStage.t) :
  natural c.(Company.founderShares) -> 1 <= val c.(Company.founderShares) ->
  Fin c.(Company.optionPoolPercent) ->
  RoundOk round -> Good P -> Good I ->
  CapTableStageM.validateOwnership
    (Trace.stageOfRound currentYear round c c.(Company.founderShares) P I previous)
  = Ok true ->
  StageCounts
    (Trace.stageOfRound currentYear round c c.(Company.founderShares) P I previous)
  /\ (forall P', same P P' ->
        (P' <=? (Trace.stageOfRound currentYear round c c.(Company.founderShares) P I
                   previous).(CapTableStage.optionPoolShares))%float = true)
  /\ (forall I', same I I' ->
        (I' <=? (Trace.stageOfRound currentYear round c c.(Company.founderShares) P I
                   previous).(CapTableStage.investorShares))%float = true).
Proof.
  intros HF HF1 Hp (Hpct & Hlo & Hhi) HP HI Hv.
  pose proof (@stageOfRound_checked _ _ _ _ _ _ _ Hv) as HnT.
  destruct (@step_next_Good round c _ P I HF Hp Hpct Hhi HP HI HnT) as (HGP & HGI & HGT).
  pose proof (@step_N round _ P I HF Hpct Hhi HP HI) as HGnN.
  pose proof (@step_U round c _ P I HF Hp Hpct Hhi HP HI) as HGnU.
  assert (HnN : ~ NaN (Trace.newInvestorShares round (Company.founderShares c) P I)).
  { intros Hn. apply HnT. unfold Trace.totalSharesAfter.
    apply add_nan_l. now apply add_nan_r. }
  assert (HnU : ~ NaN (Trace.optionPoolTopUpShares round c (Company.founderShares c) P I)).
  { intros Hn. apply HnT. unfold Trace.totalSharesAfter. now apply add_nan_r. }
  pose proof (@Gn_Good _ HGnN HnN) as HGN.
  assert (HpF : Posf c.(Company.founderShares))
    by (apply Fin_Posf; [now apply natural_Fin|lra]).
  rewrite stageOfRound_optionPoolShares, stageOfRound_investorShares.
  pose proof (@or_default_same _ HGP) as HsP. pose proof (@or_default_same _ HGI) as HsI.
  pose proof (@or_default_same _ HGT) as HsT. pose proof (@or_default_same _ HGN) as HsN.
  split; [|split].
  - unfold StageCounts.
    rewrite stageOfRound_totalShares, stageOfRound_founderShares,
      stageOfRound_optionPoolShares, stageOfRound_investorShares,
      stageOfRound_newInvestorShares, (@or_default_Posf _ HpF).
    split; [exact (@same_Good _ _ HsT HGT)|]. split; [now left|].
    split; [exact (@same_Good _ _ HsP HGP)|]. split; [exact (@same_Good _ _ HsI HGI)|].
    split; [exact (@same_Good _ _ HsN HGN)|].
    intros Hlt.
    destruct (@ltb_true_fin _ c53 (@Good_class _ (@same_Good _ _ HsT HGT)) Fin_c53 Hlt)
      as [HfT' HltT].
    rewrite val_c53 in HltT.
    destruct (@same_Fin _ _ HsT HfT') as [HfT ET].
    destruct (@step_core_T round c _ P I HF Hp Hpct Hhi HP HI HfT)
      as (HnP & HnI & HnFP & HnB & HnN' & HnU' & HnBN).
    destruct (@add_natural _ _ HF HnP) as [[Hi _]|(_ & _ & _ & _ & _ & Hx1)];
      [exfalso; exact (@fin_not_inf _ (@natural_Fin _ HnFP) Hi)|].
    destruct (@add_natural _ _ HnFP HnI) as [[Hi _]|(_ & Hb1 & _ & _ & _ & Hx2)];
      [exfalso; exact (@fin_not_inf _ (@natural_Fin _ HnB) Hi)|].
    destruct (@add_natural _ _ HnB HnN') as [[Hi _]|(_ & Ha1 & _ & _ & _ & Hx3)];
      [exfalso; exact (@fin_not_inf _ (@natural_Fin _ HnBN) Hi)|].
    destruct (@add_natural _ _ HnBN HnU') as [[Hi _]|(_ & Ht1 & _ & _ & _ & Hx4)];
      [exfalso; exact (@fin_not_inf _ HfT Hi)|].
    change (Trace.totalSharesBefore (Company.founderShares c) P I)
      with (Company.founderShares c + P + I)%float in *.
    change (Trace.totalSharesAfter round c (Company.founderShares c) P I)
      with (Company.founderShares c + P + I
            + Trace.newInvestorShares round (Company.founderShares c) P I
            + Trace.optionPoolTopUpShares round c (Company.founderShares c) P I)%float in *.
    set (F := Company.founderShares c) in *.
    set (N := Trace.newInvestorShares round F P I) in *.
    set (U := Trace.optionPoolTopUpShares round c F P I) in *.
    pose proof (@val_nonneg _ (@natural_Fin _ HnP)) as HP0.
    pose proof (@val_nonneg _ (@natural_Fin _ HnI)) as HI0.
    pose proof (@val_nonneg _ (@natural_Fin _ HnN')) as HN0.
    pose proof (@val_nonneg _ (@natural_Fin _ HnU')) as HU0.
    assert (E4 := Hx4 ltac:(lra)). assert (E3 := Hx3 ltac:(lra)).
    assert (E2 := Hx2 ltac:(lra)). assert (E1 := Hx1 ltac:(lra)).
    assert (HP1 : natural (if Company.optionPoolTopUp c then (P + U)%float else P)
                  /\ val (if Company.optionPoolTopUp c then (P + U)%float else P)
                     = val P + val U).
    { destruct (Company.optionPoolTopUp c) eqn:Etop.
      - apply add_natural_small; [exact HnP|exact HnU'|]. lra.
      - assert (EU : val U = 0)
          by (unfold U, Trace.optionPoolTopUpShares; rewrite Etop; exact val_zero).
        split; [exact HnP|lra]. }
    destruct HP1 as [HnP1 EP1].
    destruct (@add_natural_small I N HnI HnN' ltac:(lra)) as [HnI1 EI1].
    destruct (@same_Fin_l _ _ HsP (@natural_Fin _ HnP1)) as [HfP1' EP1'].
    destruct (@same_Fin_l _ _ HsI (@natural_Fin _ HnI1)) as [HfI1' EI1'].
    destruct (@same_Fin_l _ _ HsN (@natural_Fin _ HnN')) as [HfN' EN'].
    assert (Hsmall : SmallStage (Trace.stageOfRound currentYear round c F P I previous)).
    { unfold SmallStage.
      rewrite stageOfRound_totalShares, stageOfRound_founderShares,
        stageOfRound_optionPoolShares, stageOfRound_investorShares,
        stageOfRound_newInvestorShares, (@or_default_Posf _ HpF).
      fold N U.
      change (Trace.totalSharesAfter round c F P I) with (F + P + I + N + U)%float.
      split; [exact HF|].
      split; [apply Gn_Fin; [apply Good_Gn; exact (@same_Good _ _ HsP HGP)|exact HfP1']|].
      split; [apply Gn_Fin; [apply Good_Gn; exact (@same_Good _ _ HsI HGI)|exact HfI1']|].
      split; [apply Gn_Fin; [apply Good_Gn; exact (@same_Good _ _ HsN HGN)|exact HfN']|].
      split; [exact HfT'|]. split; [exact HF1|].
      split; [rewrite EP1', EI1', EP1, EI1, <- ET; lra|].
      rewrite EN', EI1', EI1. lra. }
    split; [exact Hsmall|]. split.
    { apply stage_percents; try reflexivity; [exact Hsmall|].
      change (val (Trace.stageOfRound currentYear round c F P I previous).(CapTableStage.totalShares)
              < 9007199254740992).
      rewrite stageOfRound_totalShares.
      change (Trace.totalSharesAfter round c F P I) with (F + P + I + N + U)%float.
      exact HltT. }
    intros earlier entry Hstack.
    rewrite stageOfRound_liquidationStack in Hstack.
    apply app_inj_tail in Hstack. destruct Hstack as [_ <-].
    unfold Trace.entryOfRound. cbn [StackEntry.ownershipPercent]. fold N.
    change (Trace.totalSharesAfter round c F P I) with (F + P + I + N + U)%float.
    apply ratio_range; [exact HnN'|exact HfT|lra|lra|lra].
  - intros P' HsP'. revert HGP HsP.
    destruct (Company.optionPoolTopUp c); intros HGP HsP.
    + exact (@add_leb _ _ _ _ HP HGnU (@Good_not_nan _ HGP) HsP' HsP).
    + exact (@same_leb _ _ _ HP HsP' HsP).
  - intros I' HsI'.
    exact (@add_leb _ _ _ _ HI HGnN (@Good_not_nan _ HGI) HsI' HsI).
Qed.

Lemma incorporation_counts (currentYear : float) (c : company) (y : option float) :
  natural c.(Company.founderShares) -> 1 <= val c.(Company.founderShares) ->
  Fin c.(Company.optionPoolPercent) -> val c.(Company.optionPoolPercent) <= 100 ->
  CapTableStageM.validateOwnership
    (Trace.incorporationStage currentYear c.(Company.founderShares)
       (CompanyM.getInitialOptionPoolShares c) y) = Ok true ->
  Good (CompanyM.getInitialOptionPoolShares c)
  /\ StageCounts
       (Trace.incorporationStage currentYear c.(Company.founderShares)
          (CompanyM.getInitialOptionPoolShares c) y)
  /\ same (CompanyM.getInitialOptionPoolShares c)
       (Trace.incorporationStage currentYear c.(Company.founderShares)
          (CompanyM.getInitialOptionPoolShares c) y).(CapTableStage.optionPoolShares)
  /\ same 0%float
       (Trace.incorporationStage currentYear c.(Company.founderShares)
          (CompanyM.getInitialOptionPoolShares c) y).(CapTableStage.investorShares).
Proof.
  intros HF HF1 Hp Hp100 Hv.
  pose proof (@incorporationStage_checked _ _ _ _ Hv) as HnT.
  destruct (@add_not_nan _ _ HnT) as [_ HnP].
  pose proof (@Gn_Good _ (@initial_pool_Gn c HF Hp Hp100) HnP) as HGP.
  assert (HGT : Good (c.(Company.founderShares) + CompanyM.getInitialOptionPoolShares c))
    by (apply add_Good; [now left|exact HGP]).
  pose proof (@or_default_same _ HGT) as HsT. pose proof (@or_default_same _ HGP) as HsP.
  assert (HpF : Posf c.(Company.founderShares))
    by (apply Fin_Posf; [now apply natural_Fin|lra]).
  destruct (incorporationStage_counts currentYear c.(Company.founderShares)
              (CompanyM.getInitialOptionPoolShares c) y) as (Epool & Einv & Enew).
  split; [exact HGP|]. split; [|split].
  - unfold StageCounts.
    rewrite incorporationStage_totalShares, incorporationStage_founderShares,
      Epool, Einv, Enew, (@or_default_Posf _ HpF).
    split; [exact (@same_Good _ _ HsT HGT)|]. split; [now left|].
    split; [exact (@same_Good _ _ HsP HGP)|].
    split; [left; exact natural_zero|]. split; [left; exact natural_zero|].
    intros Hlt.
    destruct (@ltb_true_fin _ c53 (@Good_class _ (@same_Good _ _ HsT HGT)) Fin_c53 Hlt)
      as [HfT' HltT].
    rewrite val_c53 in HltT.
    destruct (@same_Fin _ _ HsT HfT') as [HfT ET].
    destruct (@add_Fin_inv _ _ (@Good_Gn _ (or_introl HF)) (@Good_Gn _ HGP) HfT)
      as [_ HnP0].
    destruct (@add_natural _ _ HF HnP0) as [[Hi _]|(_ & _ & _ & _ & _ & Hx)];
      [exfalso; exact (@fin_not_inf _ HfT Hi)|].
    assert (E := Hx ltac:(lra)).
    destruct (@same_Fin_l _ _ HsP (@natural_Fin _ HnP0)) as [HfP' EP'].
    assert (Hsmall : SmallStage
                       (Trace.incorporationStage currentYear c.(Company.founderShares)
                          (CompanyM.getInitialOptionPoolShares c) y)).
    { unfold SmallStage.
      rewrite incorporationStage_totalShares, incorporationStage_founderShares,
        Epool, Einv, Enew, (@or_default_Posf _ HpF).
      split; [exact HF|].
      split; [apply Gn_Fin; [apply Good_Gn; exact (@same_Good _ _ HsP HGP)|exact HfP']|].
      split; [exact natural_zero|]. split; [exact natural_zero|].
      split; [exact HfT'|]. split; [exact HF1|].
      split; [rewrite val_zero, EP', <- ET; lra|].
      rewrite val_zero. lra. }
    split; [exact Hsmall|]. split.
    { apply stage_percents; try reflexivity; [exact Hsmall|].
      change (val (Trace.incorporationStage currentYear c.(Company.founderShares)
                     (CompanyM.getInitialOptionPoolShares c) y).(CapTableStage.totalShares)
              < 9007199254740992).
      rewrite incorporationStage_totalShares. exact HltT. }
    intros earlier entry Hstack.
    destruct (incorporationStage_shape currentYear c.(Company.founderShares)
                (CompanyM.getInitialOptionPoolShares c) y) as (_ & _ & Hempty).
    rewrite Hempty in Hstack. now destruct earlier.
  - rewrite Epool. exact HsP.
  - rewrite Einv. apply same_refl. left. exact natural_zero.
Qed.

Lemma evolution_counts (currentYear : float) (c : company)
    (stages : list CapTableStage.t) :
  CapTableCalculator.calculateEvolution currentYear c = Ok stages ->
  exists P I, Counted stages P I.
Proof.
  intros H. destruct (calculateEvolution_Ok _ _ H) as (Hval & Hinc & Hloop).
  destruct (@validate_company c true Hval) as (HF & HF1 & Hp & Hp100 & Hrounds).
  assert (HQ : Forall RoundOk (CompanyM.getRoundsByYear c)).
  { unfold CompanyM.getRoundsByYear. apply Forall_sortBy.
    eapply Forall_impl; [|exact Hrounds]. intros r. apply validate_RoundOk. }
  eapply (@processRounds_invariant_on currentYear c c.(Company.founderShares)
            RoundOk Counted); [|exact HQ| |exact Hloop].
  - intros evolution previous round P I Hq
           (HP & HI & Hall & Hpairs & Hstacks & last & Hlast & HsP & HsI) Hv.
    rewrite lastStage_snoc in Hlast. injection Hlast as <-.
    destruct (@roundStage_counts currentYear c round P I previous HF HF1 Hp Hq HP HI Hv)
      as (Hc & HPle & HIle).
    pose proof Hc as (_ & _ & HGP & HGI & _ & Hsmall).
    split; [exact HGP|]. split; [exact HGI|]. split; [|split; [|split]].
    + apply Forall_app. split; [exact Hall|]. now constructor.
    + intros a b Hab. apply consecutive_snoc in Hab.
      destruct Hab as [Hab|[-> ->]]; [now apply Hpairs|].
      split; [now apply HPle|now apply HIle].
    + intros Hallsmall s Hs.
      assert (Hbefore : forall s', In s' (evolution ++ [previous]) ->
                (s'.(CapTableStage.totalShares) <? 9007199254740992)%float = true).
      { intros s' Hs'. apply Hallsmall. apply in_or_app. now left. }
      apply in_app_or in Hs. destruct Hs as [Hs|[<-|[]]]; [now apply Hstacks|].
      rewrite stageOfRound_liquidationStack. apply Forall_app. split.
      * apply (Hstacks Hbefore). apply in_or_app. right. now left.
      * constructor; [|constructor].
        assert (Hlt : ((Trace.stageOfRound currentYear round c c.(Company.founderShares)
                          P I previous).(CapTableStage.totalShares)
                       <? 9007199254740992)%float = true)
          by (apply Hallsmall; apply in_or_app; right; now left).
        destruct (Hsmall Hlt) as (_ & _ & Hlast).
        apply (Hlast previous.(CapTableStage.liquidationStack)).
        apply stageOfRound_liquidationStack.
    + eexists. split; [apply lastStage_snoc|]. split; now apply same_refl.
  - destruct (@incorporation_counts currentYear c
                match CompanyM.getRoundsByYear c with
                | [] => None
                | first :: _ => Some first.(FundingRound.year)
                end HF HF1 Hp Hp100 Hinc) as (HGP & Hc & HsP & HsI).
    split; [exact HGP|]. split; [left; exact natural_zero|]. split; [|split; [|split]].
    + simpl. constructor; [exact Hc|constructor].
    + intros a b (i & Ha & Hb). simpl in Hb. destruct i; discriminate.
    + intros _ s [<-|[]].
      destruct (incorporationStage_shape currentYear c.(Company.founderShares)
                  (CompanyM.getInitialOptionPoolShares c)
                  match CompanyM.getRoundsByYear c with
                  | [] => None
                  | first :: _ => Some first.(FundingRound.year)
                  end) as (_ & _ & ->).
      constructor.
    + eexists. split; [apply lastStage_snoc|]. now split.
Qed.

(** X12. Every share count of every stage [calculateEvolution] returns (the
    total, the founders', the pool's, the investors' and the new
    investors' shares) is a whole number that is not negative, or
    [Infinity]: never a fraction, a negative number or [NaN]. *)
Theorem share_counts_are_whole (currentYear : float) (c : company)
    (stages : list CapTableStage.t) (s : CapTableStage.t) :
  CapTableCalculator.calculateEvolution currentYear c = Ok stages ->
  In s stages ->
  Good s.(CapTableStage.totalShares) /\ Good s.(CapTableStage.founderShares)
  /\ Good s.(CapTableStage.optionPoolShares) /\ Good s.(CapTableStage.investorShares)
  /\ Good s.(CapTableStage.newInvestorShares).
Proof.
  intros H Hs. destruct (evolution_counts _ _ H) as (P & I & _ & _ & Hall & _).
  rewrite Forall_forall in Hall. destruct (Hall s Hs) as (H1 & H2 & H3 & H4 & H5 & _).
  tauto.
Qed.

Lemma share_counts_are_whole_witness :
  Good twoSeedsSecond.(CapTableStage.totalShares)
  /\ Good twoSeedsSecond.(CapTableStage.founderShares)
  /\ Good twoSeedsSecond.(CapTableStage.optionPoolShares)
  /\ Good twoSeedsSecond.(CapTableStage.investorShares)
  /\ Good twoSeedsSecond.(CapTableStage.newInvestorShares).
Proof.
  apply (@share_counts_are_whole 2026 twoSeeds twoSeedsStages).
  - vm_compute. reflexivity.
  - right; right; left; reflexivity.
Defined.

(** X13. In every stage [calculateEvolution] returns whose total is below
    [2^53], the founders', the pool's and the investors' shares add up to
    the total exactly. *)
Theorem stage_shares_add_up (currentYear : float) (c : company)
    (stages : list CapTableStage.t) (s : CapTableStage.t) :
  CapTableCalculator.calculateEvolution currentYear c = Ok stages ->
  In s stages ->
  (s.(CapTableStage.totalShares) <? 9007199254740992)%float = true ->
  (s.(CapTableStage.founderShares) + s.(CapTableStage.optionPoolShares)
   + s.(CapTableStage.investorShares) =? s.(CapTableStage.totalShares))%float = true.
Proof.
  intros H Hs Hlt. destruct (evolution_counts _ _ H) as (P & I & _ & _ & Hall & _).
  rewrite Forall_forall in Hall. destruct (Hall s Hs) as (HGT & _ & _ & _ & _ & H6).
  destruct (H6 Hlt) as [(HF & HP & HI & _ & HT & _ & E & _) _].
  destruct (@ltb_true_fin _ c53 (@Good_class _ HGT) Fin_c53 Hlt) as [_ H53].
  rewrite val_c53 in H53.
  now apply sum3_exact.
Qed.

Lemma stage_shares_add_up_witness :
  (twoSeedsSecond.(CapTableStage.founderShares)
   + twoSeedsSecond.(CapTableStage.optionPoolShares)
   + twoSeedsSecond.(CapTableStage.investorShares)
   =? twoSeedsSecond.(CapTableStage.totalShares))%float = true.
Proof.
  apply (@stage_shares_add_up 2026 twoSeeds twoSeedsStages).
  - vm_compute. reflexivity.
  - right; right; left; reflexivity.
  - vm_compute. reflexivity.
Defined.

(** X14. From a stage [calculateEvolution] returns to the next one, neither
    the option pool's shares nor the investors' shares go down. *)
Theorem pool_and_investor_shares_never_decrease (currentYear : float) (c : company)
    (stages : list CapTableStage.t) (earlier later : CapTableStage.t) :
  CapTableCalculator.calculateEvolution currentYear c = Ok stages ->
  consecutive stages earlier later ->
  (earlier.(CapTableStage.optionPoolShares) <=? later.(CapTableStage.optionPoolShares))%float
  = true
  /\ (earlier.(CapTableStage.investorShares) <=? later.(CapTableStage.investorShares))%float
     = true.
Proof.
  intros H Hc. destruct (evolution_counts _ _ H) as (P & I & _ & _ & _ & Hpairs & _).
  now apply Hpairs.
Qed.

Lemma pool_and_investor_shares_never_decrease_witness :
  (twoSeedsFirst.(CapTableStage.optionPoolShares)
   <=? twoSeedsSecond.(CapTableStage.optionPoolShares))%float = true
  /\ (twoSeedsFirst.(CapTableStage.investorShares)
      <=? twoSeedsSecond.(CapTableStage.investorShares))%float = true.
Proof.
  apply (@pool_and_investor_shares_never_decrease 2026 twoSeeds
           twoSeedsStages).
  - vm_compute. reflexivity.
  - exists 1%nat. split; reflexivity.
Defined.

(** X15. In every stage [calculateEvolution] returns whose total is below
    [2^53], each of the four ownership percentages (the founders', the
    option pool's, the investors' and the new investors') is a number
    from 0 to 100: none is [NaN], negative or above 100. *)
Theorem ownership_percentages_are_from_0_to_100 (currentYear : float) (c : company)
    (stages : list CapTableStage.t) (s : CapTableStage.t) (percentage : float) :
  CapTableCalculator.calculateEvolution currentYear c = Ok stages ->
  In s stages ->
  (s.(CapTableStage.totalShares) <? 9007199254740992)%float = true ->
  In percentage [s.(CapTableStage.founderOwnership); s.(CapTableStage.optionPoolOwnership);
                 s.(CapTableStage.investorOwnership);
                 s.(CapTableStage.newInvestorOwnership)] ->
  (0 <=? percentage)%float = true /\ (percentage <=? 100)%float = true.
Proof.
  intros H Hs Hlt Hin. destruct (evolution_counts _ _ H) as (P & I & _ & _ & Hall & _).
  rewrite Forall_forall in Hall. destruct (Hall s Hs) as (_ & _ & _ & _ & _ & H6).
  destruct (H6 Hlt) as (_ & (H1 & H2 & H3 & H4) & _).
  assert (Hp : Percent percentage).
  { destruct Hin as [<-|[<-|[<-|[<-|[]]]]]; assumption. }
  destruct Hp as (Hf & Hle & _). split.
  - apply leb_fin; [exact Fin_zero|exact Hf|]. rewrite val_zero. now apply val_nonneg.
  - apply leb_fin; [exact Hf|exact (@Posf_Fin _ Posf_100)|]. now rewrite val_100.
Qed.

Lemma ownership_percentages_are_from_0_to_100_witness :
  (0 <=? twoSeedsSecond.(CapTableStage.founderOwnership))%float = true
  /\ (twoSeedsSecond.(CapTableStage.founderOwnership) <=? 100)%float = true.
Proof.
  apply (@ownership_percentages_are_from_0_to_100 2026 twoSeeds
           twoSeedsStages twoSeedsSecond).
  - vm_compute. reflexivity.
  - right; right; left; reflexivity.
  - vm_compute. reflexivity.
  - left. reflexivity.
Defined.

(** *** Years *)

Lemma truthy_Posf (x : float) : Posf x -> JS.truthy x = true.
Proof.
  intros (m & e & E). unfold JS.truthy, is_nan.
  rewrite !FloatAxioms.eqb_spec, E.
  replace (Prim2SF 0%float) with (S754_zero false) by reflexivity.
  unfold SFeqb. cbn [SFcompare]. rewrite Z.compare_refl.
  change (Pos.compare_cont Eq m m) with (Pos.compare m m). rewrite Pos.compare_refl.
  reflexivity.
Qed.

Lemma or_default_truthy (x d : float) : Posf x -> JS.or_default x d = x.
Proof. intros H. unfold JS.or_default. now rewrite (@truthy_Posf _ H). Qed.

Lemma Posf_MIN_YEAR : Posf CONFIG.VALIDATION.MIN_YEAR.
Proof. unfold Posf. now exists 8884053952430080%positive, (-42)%Z. Qed.

Lemma val_MIN_YEAR : val CONFIG.VALIDATION.MIN_YEAR = 2020.
Proof.
  unfold val.
  replace (Prim2SF CONFIG.VALIDATION.MIN_YEAR)
    with (S754_finite false 8884053952430080 (-42)) by reflexivity.
  cbn [SF2R cond_Zopp]. change (bpow (-42)) with (bpow (- (42))).
  rewrite (bpow_neg 42), (@bpow_IZR 42) by lia.
  change (IZR (2 ^ 42)) with 4398046511104. lra.
Qed.

Lemma Fin_MAX_YEAR : Fin CONFIG.VALIDATION.MAX_YEAR.
Proof. unfold Fin. vm_compute. exact I. Qed.

Lemma val_MAX_YEAR : val CONFIG.VALIDATION.MAX_YEAR = 2050.
Proof.
  unfold val.
  replace (Prim2SF CONFIG.VALIDATION.MAX_YEAR)
    with (S754_finite false 4507997673881600 (-41)) by reflexivity.
  cbn [SF2R cond_Zopp]. change (bpow (-41)) with (bpow (- (41))).
  rewrite (bpow_neg 41), (@bpow_IZR 41) by lia.
  change (IZR (2 ^ 41)) with 2199023255552. lra.
Qed.

(** A year [validateYear] accepts. *)
Lemma validateYear_Ok (v : float) (fieldName : String.string) (n : float) :
  Validator.validateYear v fieldName = Ok n ->
  natural v /\ Posf v /\ 2020 <= val v <= 2050.
Proof.
  unfold Validator.validateYear. intros H. apply validateInteger_Ok in H.
  destruct H as (H1 & H2 & H3 & H4).
  destruct (@between_pos _ _ _ H1 H2 H3 Posf_MIN_YEAR Fin_MAX_YEAR) as (Hp & Hb).
  rewrite val_MIN_YEAR, val_MAX_YEAR in Hb.
  split; [apply Number_isInteger_natural; [now apply Posf_Fin|exact H4]|].
  split; assumption.
Qed.

Lemma validate_round_year (r : FundingRound.t) :
  Validator.roundErrors r = nil -> YearOk r.(FundingRound.year).
Proof.
  unfold Validator.roundErrors. intros E.
  apply collect_nil in E. destruct E as [E _].
  apply collect_nil in E. destruct E as [E _].
  apply collect_nil in E. destruct E as [E _].
  apply collect_nil in E. destruct E as [_ (y & Hy)].
  exact (@validateYear_Ok _ _ _ Hy).
Qed.

(** The year before a valid year. *)
Lemma year_before (y : float) :
  YearOk y -> Posf (y - 1) /\ val (y - 1) = val y - 1.
Proof.
  intros (Hn & Hp & Hlo & Hhi). pose proof (@Posf_Fin _ Hp) as Hf.
  destruct (@sub_fin y 1 Hf (@Posf_Fin _ Posf_1)) as [(_ & HR & _)|[(He & _)|(Hlt & _)]];
    rewrite val_1 in *; [|lra|lra].
  destruct Hn as (_ & k & Hk & Ek). rewrite Ek in HR, Hlo, Hhi |- *.
  apply le_IZR in Hlo. apply le_IZR in Hhi.
  replace (IZR k - 1) with (IZR (k - 1)) in HR |- * by (rewrite minus_IZR; reflexivity).
  destruct (@Rounded_integer (k - 1) _ ltac:(lia) HR) as [Hi|(k' & Hk' & Ev & Hex)].
  - exfalso. pose proof (@Rounded_le _ _ (Prim2SF y) HR (Prim2SF_valid y) Hf) as H.
    fold (val y) in H. rewrite Ek in H. destruct H as [H _]; [|exact (H Hi)].
    apply IZR_le. lia.
  - assert (k' = (k - 1)%Z) as -> by (apply Hex; lia).
    assert (Hfin : Fin (y - 1)).
    { destruct (@Rounded_fin _ _ HR) as [Hi|H]; [|exact H]. exfalso.
      pose proof (@Rounded_le _ _ (Prim2SF y) HR (Prim2SF_valid y) Hf) as H.
      fold (val y) in H. rewrite Ek in H. destruct H as [H _]; [|exact (H Hi)].
      apply IZR_le. lia. }
    fold (val (y - 1)) in Ev. split; [|exact Ev].
    apply Fin_Posf; [exact Hfin|]. rewrite Ev. apply IZR_lt. lia.
Qed.

(** *** The order [sortBy] leaves the rounds in *)

Lemma compareFn_years (x y : FundingRound.t) :
  Posf x.(FundingRound.year) -> Posf y.(FundingRound.year) ->
  if (DataUtils.compareFn true x y <=? 0)%Z then yearLe x y else yearLe y x.
Proof.
  intros Hx Hy. unfold DataUtils.compareFn, DataUtils.getNestedProperty_year, DataUtils.less.
  rewrite (@truthy_Posf _ Hx), (@truthy_Posf _ Hy). unfold yearLe.
  destruct (x.(FundingRound.year) <? y.(FundingRound.year))%float eqn:E1.
  - simpl. destruct (@ltb_true_fin _ _ (or_introl (@Posf_Fin _ Hx)) (@Posf_Fin _ Hy) E1).
    lra.
  - destruct (@ltb_false_le _ _ E1 (@Posf_Fin _ Hx) (or_intror (@Posf_Fin _ Hy)))
      as [_ Hle].
    destruct (y.(FundingRound.year) <? x.(FundingRound.year))%float eqn:E2; simpl;
      [exact Hle|].
    exact (proj2 (@ltb_false_le _ _ E2 (@Posf_Fin _ Hy) (or_intror (@Posf_Fin _ Hx)))).
Qed.

Lemma insert_Sorted (x : FundingRound.t) (l : list FundingRound.t) :
  Posf x.(FundingRound.year) -> Forall (fun r => Posf r.(FundingRound.year)) l ->
  Sorted yearLe l -> Sorted yearLe (DataUtils.insert true x l).
Proof.
  intros Hx Hl Hs. induction l as [|y rest IH]; simpl.
  - repeat constructor.
  - inversion Hl as [|? ? Hy Hrest]; subst. inversion Hs as [|? ? Hsr Hhd]; subst.
    pose proof (@compareFn_years x y Hx Hy) as Hc.
    destruct (DataUtils.compareFn true x y <=? 0)%Z.
    + constructor; [exact Hs|]. now constructor.
    + constructor; [now apply IH|].
      destruct rest as [|z rest']; simpl.
      * now constructor.
      * inversion Hrest as [|? ? Hz _]; subst.
        pose proof (@compareFn_years x z Hx Hz) as Hc'.
        destruct (DataUtils.compareFn true x z <=? 0)%Z.
        -- now constructor.
        -- inversion Hhd; subst. now constructor.
Qed.

Lemma sortBy_Sorted (l : list FundingRound.t) :
  Forall (fun r => Posf r.(FundingRound.year)) l ->
  Sorted yearLe (DataUtils.sortBy l true).
Proof.
  unfold DataUtils.sortBy. induction 1 as [|x rest Hx Hrest IH]; simpl.
  - constructor.
  - apply insert_Sorted; [exact Hx| |exact IH].
    apply (@Forall_sortBy (fun r => Posf r.(FundingRound.year)) true rest Hrest).
Qed.

Lemma Sorted_consecutive (l : list FundingRound.t) (a b : FundingRound.t) :
  Sorted yearLe l -> consecutive l a b -> yearLe a b.
Proof.
  intros Hs (i & Ha & Hb). revert i Ha Hb.
  induction Hs as [|x rest Hs IH Hhd]; intros i Ha Hb; [now destruct i|].
  destruct i as [|i].
  - simpl in Ha, Hb. injection Ha as <-. destruct rest as [|y rest']; [discriminate|].
    simpl in Hb. injection Hb as <-. now inversion Hhd.
  - simpl in Ha. change (nth_error (x :: rest) (S (S i))) with (nth_error rest (S i)) in Hb.
    exact (IH i Ha Hb).
Qed.

(** *** The years of the stages *)

Lemma stageOfRound_year (currentYear : float) (round : FundingRound.t) (c : company)
    (F P I : float) (previous : CapTableStage.t) :
  Posf round.(FundingRound.year) ->
  (Trace.stageOfRound currentYear round c F P I previous).(CapTableStage.year)
  = round.(FundingRound.year).
Proof.
  intros H. unfold Trace.stageOfRound, CapTableStageM.calculateOwnership.
  destruct (_ =? _)%float; simpl; now apply or_default_truthy.
Qed.

Lemma incorporationStage_year (currentYear F P y : float) :
  YearOk y ->
  (Trace.incorporationStage currentYear F P (Some y)).(CapTableStage.year) = (y - 1)%float.
Proof.
  intros H. destruct (@year_before y H) as [Hp _]. destruct H as (_ & Hy & _).
  unfold Trace.incorporationStage, CapTableStageM.calculateOwnership.
  destruct (_ =? _)%float; simpl; rewrite (@truthy_Posf _ Hy); now apply or_default_truthy.
Qed.

Lemma processRounds_years (currentYear : float) (c : company) (F : float)
    (rounds : list FundingRound.t) :
  Forall (fun r => Posf r.(FundingRound.year)) rounds ->
  forall (evolution : list CapTableStage.t) (previous : CapTableStage.t) (P I : float)
         (stages : list CapTableStage.t),
    CapTableCalculator.processRounds currentYear rounds c F P I (evolution ++ [previous])
    = Ok stages ->
    exists rest,
      stages = (evolution ++ [previous]) ++ rest
      /\ map CapTableStage.year rest = map FundingRound.year rounds.
Proof.
  induction 1 as [|round rounds' Hr Hrs IH]; intros evolution previous P I stages H.
  - simpl in H. injection H as <-. exists []. now rewrite app_nil_r.
  - simpl in H.
    destruct (CapTableCalculator._processRound currentYear round F P I c
                (CapTableCalculator.lastStage (evolution ++ [previous])))
      as [stage|e] eqn:E; simpl in H; [|discriminate].
    rewrite lastStage_snoc in E.
    destruct (_processRound_Ok _ _ _ _ _ _ _ E) as (p & Hp & Hs & Hv).
    injection Hp as <-.
    destruct (IH (evolution ++ [previous]) stage _ _ _ H) as (rest & Hst & Hy).
    exists (stage :: rest). split.
    + rewrite Hst. now rewrite <- app_assoc.
    + simpl. rewrite Hy. f_equal. rewrite Hs. now apply stageOfRound_year.
Qed.

(** X16. The stages [calculateEvolution] returns are in order of time: from
    a stage to the next one the year does not go down. *)
Theorem stages_are_in_order_of_year (currentYear : float) (c : company)
    (stages : list CapTableStage.t) (earlier later : CapTableStage.t) :
  CapTableCalculator.calculateEvolution currentYear c = Ok stages ->
  consecutive stages earlier later ->
  (earlier.(CapTableStage.year) <=? later.(CapTableStage.year))%float = true.
Proof.
  intros H (i & Ha & Hb). destruct (calculateEvolution_Ok _ _ H) as (Hval & _ & Hloop).
  destruct (@validate_company c true Hval) as (_ & _ & _ & _ & Hrounds).
  assert (HY : Forall (fun r => YearOk r.(FundingRound.year)) (CompanyM.getRoundsByYear c)).
  { unfold CompanyM.getRoundsByYear. apply Forall_sortBy.
    eapply Forall_impl; [|exact Hrounds]. intros r. apply validate_round_year. }
  assert (HP : Forall (fun r => Posf r.(FundingRound.year)) (CompanyM.getRoundsByYear c)).
  { eapply Forall_impl; [|exact HY]. intros r Hr. apply Hr. }
  assert (HS : Sorted yearLe (CompanyM.getRoundsByYear c)).
  { unfold CompanyM.getRoundsByYear. apply sortBy_Sorted.
    eapply Forall_impl; [|exact Hrounds]. intros r Hr. apply (@validate_round_year r Hr). }
  destruct (@processRounds_years _ _ _ _ HP [] _ _ _ _ Hloop) as (rest & Hst & Hy).
  subst stages. simpl in Ha, Hb.
  assert (Hnth : forall j s, nth_error rest j = Some s ->
            exists r, nth_error (CompanyM.getRoundsByYear c) j = Some r
                      /\ s.(CapTableStage.year) = r.(FundingRound.year)).
  { intros j s Hj. apply (map_nth_error CapTableStage.year) in Hj. rewrite Hy in Hj.
    rewrite nth_error_map in Hj.
    destruct (nth_error (CompanyM.getRoundsByYear c) j) as [r|]; [|discriminate].
    simpl in Hj. injection Hj as E. now exists r. }
  destruct (Hnth _ _ Hb) as (rb & Hrb & Eb). rewrite Eb.
  pose proof (proj1 (Forall_forall _ _) HY rb (nth_error_In _ _ Hrb)) as Hyb.
  destruct i as [|j].
  - simpl in Ha. injection Ha as <-.
    destruct (CompanyM.getRoundsByYear c) as [|first others]; [discriminate|].
    simpl in Hrb. injection Hrb as <-.
    rewrite (@incorporationStage_year _ _ _ _ Hyb).
    destruct (@year_before _ Hyb) as [Hp Ev]. destruct Hyb as (_ & Hpy & _).
    apply leb_fin; [now apply Posf_Fin|now apply Posf_Fin|lra].
  - simpl in Ha. destruct (Hnth _ _ Ha) as (ra & Hra & Ea). rewrite Ea.
    pose proof (proj1 (Forall_forall _ _) HP ra (nth_error_In _ _ Hra)) as Hpa.
    destruct Hyb as (_ & Hpb & _).
    apply leb_fin; [now apply Posf_Fin|now apply Posf_Fin|].
    apply (@Sorted_consecutive _ ra rb HS). now exists j.
Qed.

Lemma stages_are_in_order_of_year_witness :
  (twoSeedsFirst.(CapTableStage.year)
   <=? twoSeedsSecond.(CapTableStage.year))%float = true.
Proof.
  apply (@stages_are_in_order_of_year 2026 twoSeeds twoSeedsStages).
  - vm_compute. reflexivity.
  - exists 1%nat. split; reflexivity.
Defined.

(** *** What validation ensures *)

Lemma val_1e9 : val 1000000000%float = 1000000000.
Proof.
  unfold val.
  replace (Prim2SF 1000000000%float)
    with (S754_finite false 8388608000000000 (-23)) by reflexivity.
  cbn [SF2R cond_Zopp]. change (bpow (-23)) with (bpow (- (23))).
  rewrite (bpow_neg 23), (@bpow_IZR 23) by lia.
  change (IZR (2 ^ 23)) with 8388608. lra.
Qed.

Lemma validateNumber_min_Ok (v : float) (fieldName : String.string) (lo n : float) :
  Validator.validateNumber v fieldName (Some lo) None = Ok n ->
  is_nan v = false /\ (v <? lo)%float = false.
Proof.
  unfold Validator.validateNumber, JS.isNaN.
  destruct (is_nan v); [discriminate|]. destruct (v <? lo)%float; [discriminate|]. auto.
Qed.

Lemma validateRoundType_Ok (v w : option String.string) (fieldName : String.string) :
  Validator.validateRoundType v fieldName = Ok w ->
  exists s, v = Some s /\ In s CONFIG.ROUND_TYPES.
Proof.
  unfold Validator.validateRoundType, Validator.validateRequired_opt.
  destruct v as [s|]; [|discriminate].
  destruct (Validator.validateRequired s fieldName); [|discriminate]. cbn [bind].
  destruct (existsb (String.eqb s) CONFIG.ROUND_TYPES) eqn:E; [|discriminate].
  intros _. exists s. split; [reflexivity|].
  apply existsb_exists in E. destruct E as (x & Hx & Ex).
  apply String.eqb_eq in Ex. now subst x.
Qed.

Lemma roundErrors_InRange (r : FundingRound.t) :
  Validator.roundErrors r = nil -> RoundInRange r.
Proof.
  intros E. destruct (@validate_round r E) as (Hpp & Hp & Hpi & Hi).
  destruct (@validate_round_year r E) as (Hny & _ & Hy).
  unfold Validator.roundErrors in E.
  apply collect_nil in E. destruct E as [E (rv & Hrev)].
  apply collect_nil in E. destruct E as [E _].
  apply collect_nil in E. destruct E as [E _].
  apply collect_nil in E. destruct E as [E _].
  apply collect_nil in E. destruct E as [_ (tv & Ht)].
  apply validateNumber_min_Ok in Hrev. destruct Hrev as (R1 & R2).
  apply is_nan_false in R1.
  pose proof (@ltb_false_zero _ _ R1 R2 Fin_zero val_zero) as Hrev.
  unfold RoundInRange.
  split; [exact (@validateRoundType_Ok _ _ _ Ht)|].
  split; [exact Hny|]. split; [exact Hy|].
  split; [now apply Posf_Fin|]. split; [exact Hp|].
  split; [now apply Posf_Fin|]. split; [exact Hi|]. tauto.
Qed.

(** X17. What [Company.validate] ensures: in a company it accepts the name
    is not empty, the founder shares are a whole number from 1 to
    1,000,000,000, the option pool percentage is from 0 to 100, the exit
    year is a whole number from 2020 to 2050, the exit valuation is from
    1 to 1,000,000,000,000, and every round has a type of
    [CONFIG.ROUND_TYPES], a whole year from 2020 to 2050, a pre-money
    valuation and an investment from 1 to 1,000,000,000,000 and a revenue
    that is not negative (it may be [Infinity]). *)
Theorem validate_ensures_the_ranges (c : company) (b : bool) :
  CompanyM.validate c = Ok b ->
  c.(Company.companyName) <> EmptyString
  /\ natural c.(Company.founderShares)
  /\ 1 <= val c.(Company.founderShares) <= 1000000000
  /\ Fin c.(Company.optionPoolPercent) /\ val c.(Company.optionPoolPercent) <= 100
  /\ natural c.(Company.exitYear) /\ 2020 <= val c.(Company.exitYear) <= 2050
  /\ Fin c.(Company.exitValuation)
  /\ 1 <= val c.(Company.exitValuation) <= 1000000000000
  /\ Forall RoundInRange c.(Company.rounds).
Proof.
  intros H.
  destruct (@validate_company c b H) as (HnF & _ & Hfp & Hp & Hrounds).
  unfold CompanyM.validate, Validator.validateCompanyData in H.
  destruct (Validator.companyErrors c) as [|e errors] eqn:E; [|discriminate].
  clear H. unfold Validator.companyErrors in E.
  apply collect_nil in E. destruct E as [E (xv & Hx)].
  apply collect_nil in E. destruct E as [E (yv & Hy)].
  apply collect_nil in E. destruct E as [E _].
  apply collect_nil in E. destruct E as [E _].
  apply collect_nil in E. destruct E as [E (fv & HF)].
  apply collect_nil in E. destruct E as [_ (nv & Hn)].
  apply validateInteger_Ok in HF. destruct HF as (F1 & F2 & F3 & _).
  destruct (@between_pos _ _ _ F1 F2 F3 Posf_1 Fin_1e9) as (_ & HbF).
  change (val CONFIG.VALIDATION.MIN_FOUNDER_SHARES) with (val 1%float) in HbF.
  change (val CONFIG.VALIDATION.MAX_FOUNDER_SHARES) with (val 1000000000%float) in HbF.
  rewrite val_1, val_1e9 in HbF.
  apply validateNumber_Ok in Hx. destruct Hx as (X1 & X2 & X3).
  destruct (@between_pos _ _ _ X1 X2 X3 Posf_1 Fin_1e12) as (Hpx & Hbx).
  change (val CONFIG.VALIDATION.MIN_VALUATION) with (val 1%float) in Hbx.
  change (val CONFIG.VALIDATION.MAX_VALUATION) with (val 1000000000000%float) in Hbx.
  rewrite val_1, val_1e12 in Hbx.
  destruct (@validateYear_Ok _ _ _ Hy) as (Hny & _ & Hby).
  split.
  { intros Hname. rewrite Hname in Hn. discriminate Hn. }
  split; [exact HnF|]. split; [exact HbF|]. split; [exact Hfp|]. split; [exact Hp|].
  split; [exact Hny|]. split; [exact Hby|]. split; [now apply Posf_Fin|].
  split; [exact Hbx|].
  eapply Forall_impl; [|exact Hrounds]. intros r. apply roundErrors_InRange.
Qed.

Lemma validate_ensures_the_ranges_witness :
  Examples.scenario.(Company.companyName) <> EmptyString
  /\ natural Examples.scenario.(Company.founderShares)
  /\ 1 <= val Examples.scenario.(Company.founderShares) <= 1000000000
  /\ Fin Examples.scenario.(Company.optionPoolPercent)
  /\ val Examples.scenario.(Company.optionPoolPercent) <= 100
  /\ natural Examples.scenario.(Company.exitYear)
  /\ 2020 <= val Examples.scenario.(Company.exitYear) <= 2050
  /\ Fin Examples.scenario.(Company.exitValuation)
  /\ 1 <= val Examples.scenario.(Company.exitValuation) <= 1000000000000
  /\ Forall RoundInRange Examples.scenario.(Company.rounds).
Proof.
  apply (@validate_ensures_the_ranges Examples.scenario true).
  vm_compute. reflexivity.
Defined.

(** *** The equity percentage of a round *)

(** X18. For a round as the constructor leaves it (no post-money valuation
    yet) that passes validation, [calculateEquityPercentage] returns the
    percentage the engine gives the round's investors in
    [_processRound], and it is above 0 and at most 100. *)
Theorem equity_percentage_of_a_valid_round (round : FundingRound.t) :
  Validator.roundErrors round = nil ->
  round.(FundingRound.postMoneyValuation) = None ->
  snd (FundingRoundFields.calculateEquityPercentage round)
  = Trace.investorOwnershipPercent round
  /\ 0 < val (snd (FundingRoundFields.calculateEquityPercentage round)) <= 100.
Proof.
  intros Hv Hnull.
  assert (E : snd (FundingRoundFields.calculateEquityPercentage round)
              = Trace.investorOwnershipPercent round).
  { unfold FundingRoundFields.calculateEquityPercentage. rewrite Hnull. reflexivity. }
  split; [exact E|]. rewrite E.
  destruct (@validate_RoundOk round Hv) as (Hp & Hlo & Hhi).
  split; [exact (@Posf_val _ Hp)|exact Hhi].
Qed.

Lemma equity_percentage_of_a_valid_round_witness :
  snd (FundingRoundFields.calculateEquityPercentage Examples.seed)
  = Trace.investorOwnershipPercent Examples.seed
  /\ 0 < val (snd (FundingRoundFields.calculateEquityPercentage Examples.seed)) <= 100.
Proof.
  apply (@equity_percentage_of_a_valid_round Examples.seed); reflexivity.
Defined.

(** *** Valid years *)

Lemma SFcompare_Some (x y : spec_float) :
  x <> S754_nan -> y <> S754_nan -> SFcompare x y <> None.
Proof.
  destruct x as [sx|sx| |sx mx ex], y as [sy|sy| |sy my ey]; simpl; try congruence;
    intros _ _; try (destruct sx; discriminate); try (destruct sy; discriminate);
    try (destruct sx, sy; discriminate).
Qed.

Lemma ltb_negb_leb (x y : float) :
  is_nan x = false -> is_nan y = false -> (x <? y)%float = negb (y <=? x)%float.
Proof.
  intros Hx Hy. apply is_nan_false in Hx. apply is_nan_false in Hy.
  rewrite FloatAxioms.ltb_spec, FloatAxioms.leb_spec. unfold SFltb, SFleb.
  rewrite (SFcompare_swap (Prim2SF x) (Prim2SF y)).
  pose proof (@SFcompare_Some _ _ Hx Hy) as H.
  destruct (SFcompare (Prim2SF x) (Prim2SF y)) as [[ | | ]|]; simpl; congruence.
Qed.

Lemma leb_nan_l (x y : float) : is_nan x = true -> (x <=? y)%float = false.
Proof.
  intros H. apply is_nan_spec in H. unfold NaN in H.
  rewrite FloatAxioms.leb_spec, H. reflexivity.
Qed.

(** X19. [validateYear] and [DateUtils.isValidYear] agree: [validateYear]
    accepts exactly the whole numbers that [isValidYear] accepts. *)
Theorem validateYear_accepts_the_valid_whole_years (year : float)
    (fieldName : String.string) :
  Validator.validateYear year fieldName = Ok year
  <-> DateUtilsYear.isValidYear year = true /\ JS.Number_isInteger year = true.
Proof.
  unfold Validator.validateYear, Validator.validateInteger, Validator.validateNumber,
    DateUtilsYear.isValidYear, JS.isNaN.
  destruct (is_nan year) eqn:En.
  - cbn [bind]. rewrite (@leb_nan_l year _ En), andb_false_r.
    split; [discriminate|intros [H _]; discriminate].
  - assert (Hmin : is_nan CONFIG.VALIDATION.MIN_YEAR = false) by reflexivity.
    assert (Hmax : is_nan CONFIG.VALIDATION.MAX_YEAR = false) by reflexivity.
    rewrite (@ltb_negb_leb year _ En Hmin), (@ltb_negb_leb _ year Hmax En).
    destruct (CONFIG.VALIDATION.MIN_YEAR <=? year)%float; cbn [negb andb bind];
      [|split; [discriminate|intros [H _]; discriminate]].
    destruct (year <=? CONFIG.VALIDATION.MAX_YEAR)%float; cbn [negb andb bind];
      [|split; [discriminate|intros [H _]; discriminate]].
    destruct (JS.Number_isInteger year); cbn [negb];
      [split; [auto|reflexivity]|split; [discriminate|intros [_ H]; discriminate]].
Qed.

(** *** The returns of the rounds *)

Lemma same_type_refl (a : option String.string) : CapTableCalculator.same_type a a = true.
Proof. destruct a as [s|]; simpl; [apply String.eqb_refl|reflexivity]. Qed.

Lemma eqb_refl_Posf (x : float) : Posf x -> (x =? x)%float = true.
Proof.
  intros (m & e & E). rewrite FloatAxioms.eqb_spec, E. unfold SFeqb. cbn [SFcompare].
  rewrite Z.compare_refl.
  change (Pos.compare_cont Eq m m) with (Pos.compare m m). rewrite Pos.compare_refl.
  reflexivity.
Qed.

(** A round whose year is valid finds an entry in a stack that has one
    for its type and year. *)
Lemma findEntry_found (stack : list StackEntry.t) (round : FundingRound.t)
    (entry : StackEntry.t) :
  Posf round.(FundingRound.year) -> In entry stack ->
  entry.(StackEntry.round) = round.(FundingRound.type) ->
  entry.(StackEntry.year) = round.(FundingRound.year) ->
  exists found, CapTableCalculator.findEntry stack round = Some found.
Proof.
  intros Hy Hin Et Ey. unfold CapTableCalculator.findEntry.
  destruct (find _ stack) as [found|] eqn:E; [now exists found|exfalso].
  pose proof (find_none _ _ E entry Hin) as Hn. cbv beta in Hn.
  rewrite Et, Ey, same_type_refl, (@eqb_refl_Posf _ Hy) in Hn. discriminate Hn.
Qed.

Lemma _calculateRoundReturns_all (Math_pow : float -> float -> float)
    (rounds : list FundingRound.t) (stack : list StackEntry.t)
    (exitValuation exitYear : float) :
  (forall r, In r rounds -> exists found, CapTableCalculator.findEntry stack r = Some found) ->
  map (fun rr => (rr.(RoundReturn.round), rr.(RoundReturn.year),
                  rr.(RoundReturn.investment)))
      (CapTableCalculator._calculateRoundReturns Math_pow rounds stack exitValuation
         exitYear)
  = map (fun r => (r.(FundingRound.type), r.(FundingRound.year),
                   r.(FundingRound.investment))) rounds.
Proof.
  induction rounds as [|r rest IH]; intros H; [reflexivity|].
  simpl. destruct (H r (or_introl eq_refl)) as (found & ->). simpl. f_equal.
  apply IH. intros r' Hr'. apply H. now right.
Qed.

(** What a return of [_calculateRoundReturns] comes from. *)
Lemma _calculateRoundReturns_In (Math_pow : float -> float -> float)
    (rounds : list FundingRound.t) (stack : list StackEntry.t)
    (exitValuation exitYear : float) (rr : RoundReturn.t) :
  In rr (CapTableCalculator._calculateRoundReturns Math_pow rounds stack exitValuation
           exitYear) ->
  exists r entry,
    In r rounds /\ CapTableCalculator.findEntry stack r = Some entry
    /\ rr.(RoundReturn.round) = r.(FundingRound.type)
    /\ rr.(RoundReturn.year) = r.(FundingRound.year)
    /\ rr.(RoundReturn.investment) = r.(FundingRound.investment)
    /\ rr.(RoundReturn.ownershipPercent) = entry.(StackEntry.ownershipPercent)
    /\ rr.(RoundReturn.exitValue)
       = (entry.(StackEntry.ownershipPercent) / 100 * exitValuation)%float
    /\ rr.(RoundReturn.yearsHeld) = DateUtils.yearsBetween r.(FundingRound.year) exitYear
    /\ rr.(RoundReturn.irr)
       = NumberUtils.calculateIRR Math_pow r.(FundingRound.investment)
           rr.(RoundReturn.exitValue) rr.(RoundReturn.yearsHeld).
Proof.
  induction rounds as [|r rest IH]; simpl; [contradiction|].
  destruct (CapTableCalculator.findEntry stack r) as [entry|] eqn:E.
  - intros [<-|Hin].
    + exists r, entry. simpl. repeat split; auto.
    + destruct (IH Hin) as (r' & entry' & Hr' & H). exists r', entry'. split; [now right|exact H].
  - intros Hin. destruct (IH Hin) as (r' & entry' & Hr' & H).
    exists r', entry'. split; [now right|exact H].
Qed.

Lemma lastStage_cons (s : CapTableStage.t) (l : list CapTableStage.t) :
  exists last i, CapTableCalculator.lastStage (s :: l) = Some last
                 /\ nth_error (s :: l) i = Some last /\ i = List.length l.
Proof.
  unfold CapTableCalculator.lastStage.
  replace (List.length (s :: l) - 1)%nat with (List.length l) by (simpl; lia).
  destruct (nth_error (s :: l) (List.length l)) as [last|] eqn:E.
  - now exists last, (List.length l).
  - apply nth_error_None in E. simpl in E. lia.
Qed.

(** X20. For the stages [calculateEvolution] returns, [calculateReturns]
    succeeds and its [roundReturns] has exactly one entry per round of the
    company, in the order of [company.rounds], with the type, the year
    and the investment of the round: no round is skipped. *)
Theorem returns_cover_every_round (currentYear : float)
    (Math_pow : float -> float -> float) (c : company) (stages : list CapTableStage.t) :
  CapTableCalculator.calculateEvolution currentYear c = Ok stages ->
  exists returns,
    CapTableCalculator.calculateReturns currentYear Math_pow (Some stages) c = Ok returns
    /\ map (fun rr => (rr.(RoundReturn.round), rr.(RoundReturn.year),
                       rr.(RoundReturn.investment)))
           returns.(ReturnsAnalysis.roundReturns)
       = map (fun r => (r.(FundingRound.type), r.(FundingRound.year),
                        r.(FundingRound.investment))) c.(Company.rounds).
Proof.
  intros H. destruct (calculateEvolution_Ok _ _ H) as (Hval & _ & Hloop).
  destruct (@validate_company c true Hval) as (_ & _ & _ & _ & Hrounds).
  destruct (@processRounds_stages _ _ _ _ [] _ _ _ _ Hloop) as (rest & Hst & Hr & Hk).
  destruct (incorporationStage_shape currentYear c.(Company.founderShares)
              (CompanyM.getInitialOptionPoolShares c)
              match CompanyM.getRoundsByYear c with
              | [] => None
              | first :: _ => Some first.(FundingRound.year)
              end) as (_ & _ & Hstack0).
  simpl in Hst. subst stages.
  unfold CapTableCalculator.calculateReturns. cbn [bind].
  match goal with |- context [CapTableCalculator.lastStage (?s :: rest)] =>
    destruct (lastStage_cons s rest) as (last & i & -> & Hi & ->) end.
  cbn [bind try_catch]. eexists. split; [reflexivity|]. cbn [ReturnsAnalysis.new ReturnsAnalysis.roundReturns].
  apply _calculateRoundReturns_all. intros r Hin.
  assert (Hlen : List.length rest = List.length (CompanyM.getRoundsByYear c)).
  { rewrite <- (length_map CapTableStage.round), Hr. apply length_map. }
  assert (Hsorted : In r (CompanyM.getRoundsByYear c)).
  { unfold CompanyM.getRoundsByYear.
    apply (Permutation_in r (Permutation_sym (sortBy_Permutation c.(Company.rounds) true))).
    exact Hin. }
  destruct rest as [|s1 rest'].
  { simpl in Hlen. destruct (CompanyM.getRoundsByYear c); [contradiction|discriminate]. }
  change (nth_error (_ :: s1 :: rest') (List.length (s1 :: rest')))
    with (nth_error (s1 :: rest') (List.length rest')) in Hi.
  pose proof (Hk _ _ Hi) as Hkeys. rewrite Hstack0 in Hkeys. cbn [map app] in Hkeys.
  rewrite firstn_all2 in Hkeys by (simpl in Hlen; lia).
  assert (Hkey : In (r.(FundingRound.type), r.(FundingRound.year),
                     r.(FundingRound.investment), r.(FundingRound.liquidationPref))
                    (map (fun e => (e.(StackEntry.round), e.(StackEntry.year),
                                    e.(StackEntry.investment), e.(StackEntry.preference)))
                         last.(CapTableStage.liquidationStack))).
  { rewrite Hkeys. apply (in_map (fun r => (r.(FundingRound.type), r.(FundingRound.year),
                   r.(FundingRound.investment), r.(FundingRound.liquidationPref)))).
    exact Hsorted. }
  apply in_map_iff in Hkey. destruct Hkey as (entry & Ee & Hentry).
  injection Ee as E1 E2 _ _.
  pose proof (proj1 (Forall_forall _ _) Hrounds r Hin) as Hok.
  destruct (@validate_round_year r Hok) as (_ & Hp & _).
  exact (@findEntry_found _ _ entry Hp Hentry E1 E2).
Qed.

Lemma returns_cover_every_round_witness :
  exists returns,
    CapTableCalculator.calculateReturns 2026 (fun _ _ => 0%float)
      (Some twoSeedsStages) twoSeeds = Ok returns
    /\ map (fun rr => (rr.(RoundReturn.round), rr.(RoundReturn.year),
                       rr.(RoundReturn.investment)))
           returns.(ReturnsAnalysis.roundReturns)
       = map (fun r => (r.(FundingRound.type), r.(FundingRound.year),
                        r.(FundingRound.investment))) twoSeeds.(Company.rounds).
Proof.
  apply (@returns_cover_every_round 2026 (fun _ _ => 0%float) twoSeeds
           twoSeedsStages).
  vm_compute. reflexivity.
Defined.



(** *** Years held *)

Lemma yearsBetween_late (startYear endYear : float) :
  Fin startYear -> Fin endYear -> val endYear <= val startYear ->
  DateUtils.yearsBetween startYear endYear = 0%float.
Proof.
  intros Hs He Hle. unfold DateUtils.yearsBetween.
  destruct (Math_max_0 (endYear - startYear)) as [[Hn _]|[[Hc _]|(_ & _ & _ & E)]];
    [exfalso|exfalso|exact E].
  - destruct (@sub_fin endYear startYear He Hs) as [(Hlt & _)|[(_ & Hf & _)|(_ & Hsg)]];
      [lra| |].
    + exact (@fin_not_nan _ Hf Hn).
    + unfold NaN in Hn. rewrite Hn in Hsg. exact Hsg.
  - destruct (@sub_fin endYear startYear He Hs) as [(Hlt & _)|[(_ & Hf & Hv & _)|(_ & Hsg)]];
      [lra| |].
    + destruct Hc as [Hc|Hc]; [exact (@fin_not_inf _ Hf Hc)|].
      pose proof (@Posf_val _ Hc). lra.
    + unfold Inf, Posf in Hc. destruct Hc as [Hc|(m & e & Hc)]; rewrite Hc in Hsg;
        discriminate Hsg.
Qed.

(** X22. A round dated in the exit year or after it is held for no time:
    its return has [yearsHeld] 0 and, whatever it paid and returns, an
    IRR of 0. *)
Theorem rounds_not_before_the_exit_have_no_irr (Math_pow : float -> float -> float)
    (rounds : list FundingRound.t) (stack : list StackEntry.t)
    (exitValuation exitYear : float) (roundReturn : RoundReturn.t) :
  In roundReturn
     (CapTableCalculator._calculateRoundReturns Math_pow rounds stack exitValuation
        exitYear) ->
  Fin roundReturn.(RoundReturn.year) -> Fin exitYear ->
  val exitYear <= val roundReturn.(RoundReturn.year) ->
  roundReturn.(RoundReturn.yearsHeld) = 0%float
  /\ roundReturn.(RoundReturn.irr) = 0%float.
Proof.
  intros Hin Hy He Hle.
  destruct (_calculateRoundReturns_In _ _ _ _ _ _ Hin)
    as (r & entry & _ & _ & _ & Y & _ & _ & _ & Hheld & Hirr).
  rewrite Y in Hy, Hle.
  assert (E : roundReturn.(RoundReturn.yearsHeld) = 0%float)
    by (rewrite Hheld; now apply yearsBetween_late).
  split; [exact E|]. rewrite Hirr, E. reflexivity.
Qed.

Lemma rounds_not_before_the_exit_have_no_irr_witness :
  (nth 0 (CapTableCalculator._calculateRoundReturns (fun x _ => PrimFloat.sqrt x)
            [Examples.seed] Examples.scenarioSeed.(CapTableStage.liquidationStack)
            50000000 2025)
       twinFirst).(RoundReturn.yearsHeld) = 0%float
  /\ (nth 0 (CapTableCalculator._calculateRoundReturns (fun x _ => PrimFloat.sqrt x)
               [Examples.seed] Examples.scenarioSeed.(CapTableStage.liquidationStack)
               50000000 2025)
          twinFirst).(RoundReturn.irr) = 0%float.
Proof.
  apply (@rounds_not_before_the_exit_have_no_irr (fun x _ => PrimFloat.sqrt x)
           [Examples.seed] Examples.scenarioSeed.(CapTableStage.liquidationStack)
           50000000 2025).
  - left. reflexivity.
  - unfold Fin. vm_compute. exact I.
  - unfold Fin. vm_compute. exact I.
  - apply Rle_refl.
Defined.

(** X23. [DateUtils.yearsBetween] never gives a negative number, whatever
    the two years are: the result is zero, positive or [NaN]. *)
Theorem yearsBetween_is_never_negative (startYear endYear : float) :
  (DateUtils.yearsBetween startYear endYear <? 0)%float = false.
Proof.
  unfold DateUtils.yearsBetween.
  destruct (Math_max_0 (endYear - startYear)) as [[_ Hn]|[[Hc ->]|(_ & _ & _ & ->)]].
  - unfold NaN in Hn. rewrite FloatAxioms.ltb_spec, Hn. reflexivity.
  - rewrite FloatAxioms.ltb_spec. unfold Inf, Posf in Hc.
    destruct Hc as [->|(m & e & ->)]; reflexivity.
  - reflexivity.
Qed.

(** *** The caps of the tax reliefs *)

Lemma Math_min_cap (x c : float) :
  Fin x \/ Inf x -> Posf c ->
  Fin (TaxBenefits.Math_min x c) /\ val (TaxBenefits.Math_min x c) <= val c.
Proof.
  intros Hx Hc. pose proof (@Posf_Fin _ Hc) as Hfc.
  unfold TaxBenefits.Math_min.
  assert (Hnx : is_nan x = false).
  { apply is_nan_false. destruct Hx as [Hx|Hx];
      [exact (@fin_not_nan _ Hx)|exact (@inf_not_nan _ Hx)]. }
  assert (Hnc : is_nan c = false) by (apply is_nan_false; exact (@fin_not_nan _ Hfc)).
  rewrite Hnx, Hnc. cbn [orb].
  destruct (x <? c)%float eqn:E1.
  - destruct (@ltb_true_fin _ _ Hx Hfc E1) as [Hf Hlt]. split; [exact Hf|lra].
  - destruct (c <? x)%float eqn:E2; [split; [exact Hfc|lra]|].
    destruct (get_sign x); [|split; [exact Hfc|lra]].
    destruct (@ltb_false_le _ _ E2 Hfc (match Hx with or_introl a => or_intror a | or_intror b => or_introl b end)) as [Hf Hle].
    split; assumption.
Qed.

Lemma val_literal (x : float) (m : positive) (e : Z) (q : R) :
  Prim2SF x = S754_finite false m e -> IZR (Z.pos m) * bpow e = q -> val x = q.
Proof. intros E H. unfold val. rewrite E. exact H. Qed.

Lemma Posf_literal (x : float) (m : positive) (e : Z) :
  Prim2SF x = S754_finite false m e -> Posf x.
Proof. intros E. now exists m, e. Qed.

Lemma bpow_neg_IZR (e : Z) : (0 <= e)%Z -> bpow (- e) = / IZR (2 ^ e).
Proof. intros H. now rewrite bpow_neg, bpow_IZR. Qed.

Lemma val_SEIS_max : val TAX_SCHEMES.SEIS.maxInvestment = 200000.
Proof.
  apply (@val_literal (TAX_SCHEMES.SEIS.maxInvestment) 6871947673600000 (-35) _ eq_refl).
  change (-35)%Z with (- (35))%Z. rewrite bpow_neg_IZR by lia.
  change (IZR (2 ^ 35)) with 34359738368. lra.
Qed.

Lemma val_SEIS_rate : val TAX_SCHEMES.SEIS.reliefRate = / 2.
Proof.
  apply (@val_literal (TAX_SCHEMES.SEIS.reliefRate) 4503599627370496 (-53) _ eq_refl).
  change (-53)%Z with (- (53))%Z. rewrite bpow_neg_IZR by lia.
  change (IZR (2 ^ 53)) with 9007199254740992. lra.
Qed.

Lemma val_EIS_max : val TAX_SCHEMES.EIS.maxInvestment = 1000000.
Proof.
  apply (@val_literal (TAX_SCHEMES.EIS.maxInvestment) 8589934592000000 (-33) _ eq_refl).
  change (-33)%Z with (- (33))%Z. rewrite bpow_neg_IZR by lia.
  change (IZR (2 ^ 33)) with 8589934592. lra.
Qed.

Lemma val_EIS_rate : val TAX_SCHEMES.EIS.reliefRate = 5404319552844595 / 18014398509481984.
Proof.
  apply (@val_literal (TAX_SCHEMES.EIS.reliefRate) 5404319552844595 (-54) _ eq_refl).
  change (-54)%Z with (- (54))%Z. rewrite bpow_neg_IZR by lia.
  change (IZR (2 ^ 54)) with 18014398509481984. lra.
Qed.

Lemma val_100000 : val 100000%float = 100000.
Proof.
  apply (@val_literal (100000%float) 6871947673600000 (-36) _ eq_refl).
  change (-36)%Z with (- (36))%Z. rewrite bpow_neg_IZR by lia.
  change (IZR (2 ^ 36)) with 68719476736. lra.
Qed.

Lemma val_300000 : val 300000%float = 300000.
Proof.
  apply (@val_literal (300000%float) 5153960755200000 (-34) _ eq_refl).
  change (-34)%Z with (- (34))%Z. rewrite bpow_neg_IZR by lia.
  change (IZR (2 ^ 34)) with 17179869184. lra.
Qed.

(** A capped amount times a rate is at most the cap times the rate. *)
Lemma capped_relief (x c r cap : float) :
  Fin x \/ Inf x -> Posf c -> Posf r -> Fin cap -> val c * val r <= val cap ->
  Fin (TaxBenefits.Math_min x c * r) /\ val (TaxBenefits.Math_min x c * r) <= val cap.
Proof.
  intros Hx Hc Hr Hcap Hle.
  destruct (@Math_min_cap x c Hx Hc) as [Hf Hm].
  pose proof (@mul_fin _ _ Hf (@Posf_Fin _ Hr)) as HR.
  apply (@R_le _ _ cap HR Hcap).
  pose proof (@val_nonneg _ Hf). pose proof (@Posf_val _ Hr).
  apply Rle_trans with (val c * val r); [|exact Hle].
  apply Rmult_le_compat_r; lra.
Qed.

(** X24. The reliefs [calculateUKTaxBenefits] gives are capped: when the
    first round's investment and the total investor return are numbers
    that are not negative, the SEIS relief is at most 100,000 (half of
    the 200,000 the scheme allows) and the EIS relief at most 300,000
    (30% of 1,000,000), whatever the options are. *)
Theorem tax_reliefs_are_capped (returns : ReturnsAnalysis.t)
    (options : TaxBenefits.taxOptions) :
  Forall (fun first => Fin first.(RoundReturn.investment)
                       \/ Inf first.(RoundReturn.investment))
         (firstn 1 returns.(ReturnsAnalysis.roundReturns)) ->
  Fin returns.(ReturnsAnalysis.totalInvestorReturn)
  \/ Inf returns.(ReturnsAnalysis.totalInvestorReturn) ->
  (Fin (TaxBenefits.calculateUKTaxBenefits returns options).(TaxBenefits.seisRelief)
   /\ val (TaxBenefits.calculateUKTaxBenefits returns options).(TaxBenefits.seisRelief)
      <= 100000)
  /\ (Fin (TaxBenefits.calculateUKTaxBenefits returns options).(TaxBenefits.eisRelief)
      /\ val (TaxBenefits.calculateUKTaxBenefits returns options).(TaxBenefits.eisRelief)
         <= 300000).
Proof.
  intros Hfirst Hreturn. unfold TaxBenefits.calculateUKTaxBenefits.
  cbn [TaxBenefits.seisRelief TaxBenefits.eisRelief].
  assert (Hzero : Fin 0%float /\ val 0%float <= 100000 /\ val 0%float <= 300000)
    by (rewrite val_zero; split; [exact Fin_zero|lra]).
  split.
  - destruct (TaxBenefits.seisEligible options); [|tauto].
    destruct (ReturnsAnalysis.roundReturns returns) as [|first rest]; [tauto|].
    simpl in Hfirst. inversion Hfirst as [|? ? Hinv _]; subst.
    rewrite <- val_100000.
    apply capped_relief;
      [exact Hinv
      |exact (@Posf_literal TAX_SCHEMES.SEIS.maxInvestment 6871947673600000 (-35) eq_refl)
      |exact (@Posf_literal TAX_SCHEMES.SEIS.reliefRate 4503599627370496 (-53) eq_refl)
      |unfold Fin; vm_compute; exact I
      |rewrite val_SEIS_max, val_SEIS_rate, val_100000; lra].
  - destruct (TaxBenefits.eisEligible options); [|tauto].
    rewrite <- val_300000.
    apply capped_relief;
      [exact Hreturn
      |exact (@Posf_literal TAX_SCHEMES.EIS.maxInvestment 8589934592000000 (-33) eq_refl)
      |exact (@Posf_literal TAX_SCHEMES.EIS.reliefRate 5404319552844595 (-54) eq_refl)
      |unfold Fin; vm_compute; exact I
      |rewrite val_EIS_max, val_EIS_rate, val_300000; lra].
Qed.

Lemma tax_reliefs_are_capped_witness :
  (Fin (TaxBenefits.calculateUKTaxBenefits scenarioReturns
          {| TaxBenefits.seisEligible := true;
             TaxBenefits.eisEligible := true;
             TaxBenefits.emiScheme := true |}).(TaxBenefits.seisRelief)
   /\ val (TaxBenefits.calculateUKTaxBenefits scenarioReturns
             {| TaxBenefits.seisEligible := true;
                TaxBenefits.eisEligible := true;
                TaxBenefits.emiScheme := true |}).(TaxBenefits.seisRelief)
      <= 100000)
  /\ (Fin (TaxBenefits.calculateUKTaxBenefits scenarioReturns
             {| TaxBenefits.seisEligible := true;
                TaxBenefits.eisEligible := true;
                TaxBenefits.emiScheme := true |}).(TaxBenefits.eisRelief)
      /\ val (TaxBenefits.calculateUKTaxBenefits scenarioReturns
                {| TaxBenefits.seisEligible := true;
                   TaxBenefits.eisEligible := true;
                   TaxBenefits.emiScheme := true |}).(TaxBenefits.eisRelief)
         <= 300000).
Proof.
  apply (@tax_reliefs_are_capped scenarioReturns).
  - simpl. constructor; [|constructor]. left. unfold Fin. vm_compute. exact I.
  - left. unfold Fin. vm_compute. exact I.
Defined.

(** *** The ownership total and the returns of small stages *)

Lemma abs_not_nan (x : float) : ~ NaN x -> is_nan (JS.Math_abs x) = false.
Proof.
  intros H. apply is_nan_false. intros Hn. apply H. revert Hn.
  unfold NaN, JS.Math_abs. rewrite abs_spec.
  destruct (Prim2SF x); simpl; congruence.
Qed.

Lemma add_Fin_bounded (x y z : float) :
  Fin x -> Fin y -> Fin z -> val x + val y <= val z ->
  Fin (x + y) /\ val (x + y) <= val z.
Proof.
  intros Hx Hy Hz Hle. exact (@R_le _ _ z (@add_fin x y Hx Hy) Hz Hle).
Qed.

Lemma sub_Fin_not_nan (x y : float) : Fin x -> Fin y -> ~ NaN (x - y).
Proof.
  intros Hx Hy Hn.
  destruct (@sub_fin x y Hx Hy) as [(_ & HR & _)|[(_ & Hf & _)|(_ & Hs)]].
  - destruct (@Rounded_fin _ _ HR) as [Hi|Hf];
      [exact (@inf_not_nan _ Hi Hn)|exact (@fin_not_nan _ Hf Hn)].
  - exact (@fin_not_nan _ Hf Hn).
  - unfold NaN in Hn. rewrite Hn in Hs. exact Hs.
Qed.

(** X25. In every stage [calculateEvolution] returns whose total is below
    [2^53], the founders', the option pool's and the investors'
    percentages add up to 100 within 0.1: there the check of
    [validateOwnership] cannot be passed by a total that is [NaN]. *)
Theorem small_stages_add_up_to_100 (currentYear : float) (c : company)
    (stages : list CapTableStage.t) (s : CapTableStage.t) :
  CapTableCalculator.calculateEvolution currentYear c = Ok stages ->
  In s stages ->
  (s.(CapTableStage.totalShares) <? 9007199254740992)%float = true ->
  (JS.Math_abs (CapTableStageM.ownershipTotal s - 100) <=? 0.1)%float = true.
Proof.
  intros H Hs Hlt.
  pose proof (proj1 (Forall_forall _ _) (stages_total_checked _ _ H) s Hs) as Hchecked.
  cbv beta in Hchecked.
  destruct (evolution_counts _ _ H) as (P & I & _ & _ & Hall & _).
  rewrite Forall_forall in Hall. destruct (Hall s Hs) as (_ & _ & _ & _ & _ & H6).
  destruct (H6 Hlt) as (_ & ((Hf1 & Hle1 & _) & (Hf2 & Hle2 & _) & (Hf3 & Hle3 & _) & _) & _).
  assert (Hft : Fin (CapTableStageM.ownershipTotal s)).
  { unfold CapTableStageM.ownershipTotal.
    destruct (@add_Fin_bounded _ _ _ Hf1 Hf2 Fin_1e9 ltac:(rewrite val_1e9; lra))
      as [Hf12 Hle12].
    rewrite val_1e9 in Hle12.
    apply (@add_Fin_bounded _ _ _ Hf12 Hf3 Fin_1e12). rewrite val_1e12. lra. }
  pose proof (@abs_not_nan _ (@sub_Fin_not_nan _ 100 Hft (@Posf_Fin _ Posf_100))) as Hnn.
  rewrite (@ltb_negb_leb 0.1 _ eq_refl Hnn) in Hchecked.
  now apply negb_false_iff in Hchecked.
Qed.

Lemma small_stages_add_up_to_100_witness :
  (JS.Math_abs (CapTableStageM.ownershipTotal twoSeedsSecond - 100) <=? 0.1)%float
  = true.
Proof.
  apply (@small_stages_add_up_to_100 2026 twoSeeds twoSeedsStages).
  - vm_compute. reflexivity.
  - right; right; left; reflexivity.
  - vm_compute. reflexivity.
Defined.

(** The exit valuation of a company that passes [validate]. *)
Lemma validate_exitValuation (c : company) (b : bool) :
  CompanyM.validate c = Ok b -> Posf c.(Company.exitValuation).
Proof.
  unfold CompanyM.validate, Validator.validateCompanyData.
  destruct (Validator.companyErrors c) as [|e errors] eqn:E; [|discriminate].
  intros _. unfold Validator.companyErrors in E.
  apply collect_nil in E. destruct E as [_ (xv & Hx)].
  apply validateNumber_Ok in Hx. destruct Hx as (X1 & X2 & X3).
  exact (proj1 (@between_pos _ _ _ X1 X2 X3 Posf_1 Fin_1e12)).
Qed.

(** The share of the exit valuation a percentage stands for. *)
Lemma share_of_exit (p exitValuation : float) :
  Percent p -> Posf exitValuation ->
  Fin (p / 100 * exitValuation) /\ val (p / 100 * exitValuation) <= val exitValuation.
Proof.
  intros (Hf & H100 & Hlow) Hev. pose proof (@Posf_val _ Hev) as Hev0.
  destruct (@Fin_zero_or_pos _ Hf) as [(s & Hz)|Hpp].
  - destruct (@div_zero_l _ _ _ Hz Posf_100) as (s1 & Hq).
    destruct (@mul_zero_l _ _ _ Hq Hev) as (s2 & Hm).
    unfold Fin, val at 1. rewrite Hm. simpl. split; [exact I|lra].
  - pose proof (@Posf_val _ Hpp) as Hp0.
    destruct Hlow as [E0|Hlow]; [lra|].
    assert (Hbig : val 100%float * bpow (-1020) <= val p).
    { rewrite val_100.
      assert (bpow (-1020) <= bpow (-67)) by (apply bpow_le; lia).
      assert (bpow (-60) = bpow 7 * bpow (-67))
        by (rewrite <- bpow_add; reflexivity).
      assert (bpow 7 = 128) by (rewrite (@bpow_IZR 7) by lia; reflexivity).
      pose proof (bpow_gt_0 (-67)). pose proof (bpow_gt_0 (-1020)). nra. }
    pose proof (@div_fin _ _ Hpp Posf_100 Hbig) as HRq. rewrite val_100 in HRq.
    destruct (@R_le _ _ 1%float HRq (@Posf_Fin _ Posf_1) ltac:(rewrite val_1; lra))
      as [Hfq Hq].
    rewrite val_1 in Hq.
    pose proof (@mul_fin _ _ Hfq (@Posf_Fin _ Hev)) as HRm.
    apply (@R_le _ _ exitValuation HRm (@Posf_Fin _ Hev)).
    pose proof (@val_nonneg _ Hfq). nra.
Qed.

Lemma or_default_Fin (x : float) :
  Fin x -> Fin (JS.or_default x 0) /\ val (JS.or_default x 0) = val x.
Proof.
  intros Hf. destruct (or_default_0 x) as [[Hn _]|[[Hi _]|[(_ & Hf' & E)|[Hno _]]]].
  - exfalso. exact (@fin_not_nan _ Hf Hn).
  - exfalso. exact (@fin_not_inf _ Hf Hi).
  - now split.
  - exfalso. apply Hno. now apply Fin_Okv.
Qed.

Lemma between_leb (x hi : float) :
  Fin x -> Fin hi -> val x <= val hi ->
  (0 <=? x)%float = true /\ (x <=? hi)%float = true.
Proof.
  intros Hx Hhi Hle. split.
  - apply leb_fin; [exact Fin_zero|exact Hx|]. rewrite val_zero. now apply val_nonneg.
  - now apply leb_fin.
Qed.

(** X26. When every stage of the evolution has a total below [2^53], no
    return [calculateReturns] reports exceeds the exit valuation: the
    founders', the option pool's and the investors' return and the exit
    value of every round are numbers from 0 to the company's exit
    valuation. *)
Theorem returns_do_not_exceed_the_exit_valuation (currentYear : float)
    (Math_pow : float -> float -> float) (c : company) (stages : list CapTableStage.t)
    (returns : ReturnsAnalysis.t) (amount : float) :
  CapTableCalculator.calculateEvolution currentYear c = Ok stages ->
  (forall s, In s stages ->
     (s.(CapTableStage.totalShares) <? 9007199254740992)%float = true) ->
  CapTableCalculator.calculateReturns currentYear Math_pow (Some stages) c = Ok returns ->
  In amount ([returns.(ReturnsAnalysis.founderReturn);
              returns.(ReturnsAnalysis.esopReturn);
              returns.(ReturnsAnalysis.totalInvestorReturn)]
             ++ map RoundReturn.exitValue returns.(ReturnsAnalysis.roundReturns)) ->
  (0 <=? amount)%float = true /\ (amount <=? c.(Company.exitValuation))%float = true.
Proof.
  intros H Hsmall Hret Hin.
  destruct (calculateEvolution_Ok _ _ H) as (Hval & _ & _).
  pose proof (@validate_exitValuation c true Hval) as Hev.
  destruct (evolution_counts _ _ H) as (P & I & _ & _ & Hall & _ & Hstacks & _).
  rewrite Forall_forall in Hall. specialize (Hstacks Hsmall).
  unfold CapTableCalculator.calculateReturns in Hret.
  destruct stages as [|first rest].
  { apply calculateEvolution_Ok in H. destruct H as (_ & _ & H).
    exfalso. revert H. generalize (CompanyM.getRoundsByYear c).
    intros rounds H.
    destruct (@processRounds_stages _ _ _ _ [] _ _ _ _ H) as (r & Hr & _). discriminate. }
  cbn [bind] in Hret.
  destruct (lastStage_cons first rest) as (last & i & Hlast & Hi & _).
  rewrite Hlast in Hret. cbn [bind try_catch] in Hret. injection Hret as <-.
  assert (Hlastin : In last (first :: rest)) by exact (nth_error_In _ _ Hi).
  destruct (Hall last Hlastin) as (_ & _ & _ & _ & _ & H6).
  destruct (H6 (Hsmall last Hlastin)) as (_ & (Hpf & Hpp & Hpi & _) & _).
  cbn [ReturnsAnalysis.new ReturnsAnalysis.founderReturn ReturnsAnalysis.esopReturn
       ReturnsAnalysis.totalInvestorReturn ReturnsAnalysis.roundReturns] in Hin.
  assert (Hshare : forall p, Percent p ->
            (0 <=? JS.or_default (p / 100 * c.(Company.exitValuation)) 0)%float = true
            /\ (JS.or_default (p / 100 * c.(Company.exitValuation)) 0
                <=? c.(Company.exitValuation))%float = true).
  { intros p Hp. destruct (@share_of_exit p _ Hp Hev) as [Hf Hle].
    destruct (@or_default_Fin _ Hf) as [Hf' E].
    apply between_leb; [exact Hf'|now apply Posf_Fin|now rewrite E]. }
  apply in_app_or in Hin. destruct Hin as [[<-|[<-|[<-|[]]]]|Hin]; try now apply Hshare.
  apply in_map_iff in Hin. destruct Hin as (rr & <- & Hrr).
  destruct (_calculateRoundReturns_In _ _ _ _ _ _ Hrr)
    as (r & entry & _ & Hfind & _ & _ & _ & _ & -> & _).
  unfold CapTableCalculator.findEntry in Hfind. apply find_some in Hfind.
  destruct Hfind as [Hentry _].
  pose proof (proj1 (Forall_forall _ _) (Hstacks last Hlastin) entry Hentry) as Hp.
  destruct (@share_of_exit _ _ Hp Hev) as [Hf Hle].
  apply between_leb; [exact Hf|now apply Posf_Fin|exact Hle].
Qed.

Lemma returns_do_not_exceed_the_exit_valuation_witness :
  (0 <=? twoSeedsReturns.(ReturnsAnalysis.founderReturn))%float = true
  /\ (twoSeedsReturns.(ReturnsAnalysis.founderReturn)
      <=? twoSeeds.(Company.exitValuation))%float = true.
Proof.
  apply (@returns_do_not_exceed_the_exit_valuation 2026 (fun x _ => PrimFloat.sqrt x)
           twoSeeds twoSeedsStages twoSeedsReturns).
  - vm_compute. reflexivity.
  - intros s [<-|[<-|[<-|[]]]]; vm_compute; reflexivity.
  - vm_compute. reflexivity.
  - left. reflexivity.
Defined.

(** *** Rounds of the same year *)

Lemma sortKey_not_nan (a : FundingRound.t) : Prim2SF (sortKey a) <> S754_nan.
Proof.
  unfold sortKey, DataUtils.getNestedProperty_year, JS.truthy.
  destruct (a.(FundingRound.year) =? 0)%float; simpl; [discriminate|].
  destruct (is_nan a.(FundingRound.year)) eqn:E; simpl; [discriminate|].
  now apply is_nan_false in E.
Qed.

(** What compares equal to [x] compares to a third number as [x] does. *)
Lemma SFcompare_Eq (x y z : spec_float) :
  SFcompare x y = Some Eq -> SFcompare x z = SFcompare y z.
Proof.
  destruct x as [sx|sx| |sx mx ex], y as [sy|sy| |sy my ey]; simpl;
    try discriminate; try (destruct sx; discriminate); try (destruct sy; discriminate);
    try (destruct sx, sy; discriminate).
  - reflexivity.
  - destruct sx, sy; try discriminate; reflexivity.
  - assert (Hm : Pos.compare_cont Eq mx my = Eq -> mx = my) by apply Pos.compare_eq.
    destruct sx, sy; try discriminate; destruct (Z.compare ex ey) eqn:E; try discriminate;
      apply Z.compare_eq in E; subst ey;
      destruct (Pos.compare_cont Eq mx my); try discriminate;
      rewrite (Hm eq_refl); reflexivity.
Qed.

(** The comparator returns 0 exactly when the keys are equal numbers. *)
Lemma tied_keys (ascending : bool) (a b : FundingRound.t) :
  tied ascending a b = true
  <-> SFcompare (Prim2SF (sortKey a)) (Prim2SF (sortKey b)) = Some Eq.
Proof.
  unfold tied, DataUtils.compareFn, DataUtils.less. fold (sortKey a) (sortKey b).
  rewrite !FloatAxioms.ltb_spec. unfold SFltb.
  rewrite (SFcompare_swap (Prim2SF (sortKey a)) (Prim2SF (sortKey b))).
  pose proof (@SFcompare_Some _ _ (sortKey_not_nan a) (sortKey_not_nan b)) as H.
  destruct (SFcompare (Prim2SF (sortKey a)) (Prim2SF (sortKey b))) as [[| |]|];
    simpl; destruct ascending; simpl; split; congruence.
Qed.

Lemma tied_trans (ascending : bool) (r x y : FundingRound.t) :
  tied ascending r x = true -> tied ascending r y = true -> tied ascending x y = true.
Proof.
  rewrite !tied_keys. intros Hx Hy.
  rewrite <- (@SFcompare_Eq _ _ (Prim2SF (sortKey y)) Hx). exact Hy.
Qed.

Lemma insert_tied (ascending : bool) (r x : FundingRound.t) (l : list FundingRound.t) :
  filter (tied ascending r) (DataUtils.insert ascending x l)
  = filter (tied ascending r) (x :: l).
Proof.
  induction l as [|y rest IH]; [reflexivity|].
  cbn [DataUtils.insert].
  destruct (DataUtils.compareFn ascending x y <=? 0)%Z eqn:E; [reflexivity|].
  cbn [filter] in *. rewrite IH.
  destruct (tied ascending r x) eqn:Ex; [|reflexivity].
  destruct (tied ascending r y) eqn:Ey; [|reflexivity].
  pose proof (@tied_trans _ _ _ _ Ex Ey) as H. unfold tied in H.
  apply Z.eqb_eq in H. rewrite H in E. discriminate.
Qed.

(** X27. [sortBy] is stable: the rounds the comparator puts on a par with a
    round [r] (those of the same year as [r]) come out in the order they
    had in the array.  So [getRoundsByYear] returns the rounds of one year
    in the order they were added to the company. *)
Theorem sortBy_keeps_equal_years_in_order (array : list FundingRound.t) (ascending : bool)
    (r : FundingRound.t) :
  filter (tied ascending r) (DataUtils.sortBy array ascending)
  = filter (tied ascending r) array.
Proof.
  unfold DataUtils.sortBy. induction array as [|x rest IH]; [reflexivity|].
  cbn [fold_right]. rewrite insert_tied. cbn [filter]. now rewrite IH.
Qed.

(** The company to which the Series A round of 2027 was added before the
    two Seed rounds of 2025 has the Seed rounds first, in the order they
    were added; the stages of the two Seed rounds have 15,499,998 and
    20,249,997 shares. *)
Example same_year_rounds_keep_their_order :
  CompanyM.getRoundsByYear threeRounds = [Examples.seed; laterSeed; seriesA]
  /\ CompanyM.getRoundsByYear twoSeeds = [Examples.seed; laterSeed]
  /\ map CapTableStage.totalShares twoSeedsStages
     = [12500000; 15499998; 20249997]%float.
Proof. repeat split. Qed.

End Numbers.
